(* ===== verification/_CoqProject ===== *)
-Q . S2P
Prelude.v
Effects.v
Interleave.v
Platform.v
Nvs.v
Fs.v
Config.v
C6Packet.v
RingBuffer.v
DcBlocker.v
Gain.v
Vad.v
Hpf.v
Button.v
CJson.v
Doubles.v
Freertos.v
ExecutorCore.v
Executor.v
ButtonTask.v
Commands.v
CommandPath.v
Validator.v
BleDrain.v
DrainSpec.v
DrainLive.v
DrainReplay.v
AudioTask.v
AudioPath.v
ReplayPath.v
GatePath.v
MediaIndex.v
SdStore.v
Camera.v
Snapshot.v
Video.v
Transfer.v
MediaPath.v
Battery.v
BleLink.v
LinkWindow.v
Provisioning.v
MicDsp.v
Boot.v
SelfTest.v
