(* ===== verification/Prelude.v ===== *)
(** * OpenRecall wearable firmware: verification development

    OpenRecall is a wearable memory recorder in three tiers: the device
    firmware (C, src/firmware/openrecall_sensor/main), an Android relay and a
    Python server.  This library models the firmware, every .c file of that
    directory, and the two places where the server states the contract the
    device implements: the C.6 packet parser (audio_packet.py) and the
    command validator (agent/validator_command.py).

    ** The program

    Names are files under src/firmware/openrecall_sensor/main.

    - Audio.  [audio_task] (openrecall_sensor.c, audio_capture.c,
      opus_stream.c) reads stereo frames of 20 ms from I2S, runs
      dc_blocker.c, gain.c, hpf.c and the gate of vad.c, encodes voiced
      frames and pushes them, or a gap marker, into the 60 s ring of
      ring_buffer.c.  The drain task (ble_drain.c) reads the ring, packs
      frames into C.6 packets (c6_packet.c) and notifies them through
      ble_link.c; a replay queue lets the server ask for a past window again.
    - Commands.  A signed command arrives over GATT (commands.c), is verified,
      deduplicated, validated (executor_core.c) and queued (executor.c); the
      executor task dispatches it to the other modules.  The button
      (button.c, button_task.c) queues through the same door.
    - Media.  camera.c, snapshot.c and video_capture.c write JPEGs and clips
      to the card (sd_store.c, media_index.c); transfer.c serves them over a
      SoftAP for a bounded window during which BLE is suspended.
    - Identity.  provisioning_core.c over provisioning.c keeps the server key
      in NVS; boot_id.c counts boots; battery.c reports the divider and the
      wake reason; [app_main] starts everything.

    ** The files

    Groundwork.
    - Prelude: machine integers as Z with their wrap-around, bytes, lists,
      the [clia] tactic and hint databases.
    - Effects: [prog E A], a C function as a program over the external calls
      of signature [E]; [exec p t a] says that [p] can make the calls of the
      trace [t] (each with its answer) and return [a].  A statement about
      [exec] holds for every answer of the platform.  [run] computes one
      trace from given answers and is how witnesses evaluate.
      [translate] calls a component's program from another component's.
    - Interleave: pools of such programs over a shared memory, one call per
      step, in any order.
    - Platform, Nvs, Fs, CJson, Freertos: the external interfaces.  The NVS
      store and the file system are relations on an abstract flash and card
      that say what each call's answer means; cJSON and the FreeRTOS queue
      are classes with laws and a concrete instance each.
    - Doubles: integers below 2^53 as IEEE doubles, how they compare and
      truncate.
    - Config: config.h.

    Components (file: source; state; properties).
    - C6Packet: c6_packet.c, audio_packet.py.  Writer against parser.
    - RingBuffer: ring_buffer.c.  The slots and counter refine the list of
      all frames pushed ([ring_ok]).
    - DcBlocker, Gain, Vad, Hpf, MicDsp: the per-sample arithmetic of
      dc_blocker.c, gain.c, vad.c, hpf.c and mic_dsp.c, at its width.
    - Button, ButtonTask: button.c against a grammar of gestures, and
      button_task.c.
    - ExecutorCore, Executor: executor_core.c against the server's table;
      executor.c and audio_gate.c with the queue as a step relation.
    - Commands: commands.c.  CommandPath: commands.c and executor.c together
      against one specification machine.
    - Validator: validator_command.py, the whole of [validate], against
      executor_core.c; the JSON between them is the class [Wire].
    - BleDrain, DrainSpec, DrainLive, DrainReplay: ble_drain.c, what it
      promises, and the proofs for its live and its replay path.
    - AudioTask: the loop of openrecall_sensor.c with audio_capture.c and
      opus_stream.c.
    - MediaIndex, SdStore, Camera, Snapshot, Video, Transfer: media_index.c,
      sd_store.c, camera.c, snapshot.c, video_capture.c, transfer.c.
    - AudioPath: the audio task and the drain task over one ring, in every
      interleaving.  ReplayPath: the five tasks between the command
      characteristic and the packets that answer a request_buffer, with both
      FreeRTOS queues.  GatePath: the four tasks around the pause flag of
      audio_gate.c.  MediaPath: captures, clips and HTTP requests over one
      card.
    - Battery, BleLink, Provisioning: battery.c, ble_link.c, and
      provisioning.c with provisioning_core.c and boot_id.c.
    - LinkWindow: the transfer task and the BLE host task, in every
      interleaving of their accesses to the statics of ble_link.c.
    - Boot: [app_main].
    - SelfTest: openrecall_selftest, the bench image over the same drivers.

    ** What the theorems show

    - From microphone to server.  [AudioPath.microphone_to_server] composes
      the rest: in every interleaving of the two tasks the server reads the
      encoder's output.  [AudioTask.audio_history]: what the ring presents
      after boot.  [RingBuffer.push_refines_append]: the ring is a window on
      that list.  [DrainLive.live_chunk_delivers],
      [DrainReplay.replay_delivers]: which frames reach the radio, once and in
      order; the C6Packet theorems: the server reads back what was written.
      [DrainLive.live_progress] and [DrainLive.preroll_livelock]: when the
      live cursor advances, and the one start-up pattern in which it does not.
    - Commands.  [CommandPath.command_path_refines_spec] follows a command
      from the write to its execution, across the three tasks involved;
      [ReplayPath.requests_are_replayed] follows a request_buffer on to the
      packets that answer it.  [Validator.validator_and_device_agree]: what
      the device makes, and queues, of a payload the server has validated or
      rejected.
      [Commands.command_contract] is the first part of the path;
      [Commands.refused_command_is_lost] is the gap between the parts.
      [GatePath.stopped_audio_stays_off]: stop_audio silences the microphone,
      and who can open it again.
    - Input devices.  [Button.classifier_reads_scripts] and
      [ButtonTask.polls_act_on_gestures].
    - Persistent state.  The Provisioning properties and
      [Boot.boot_installs_the_key], over every write and reboot.
    - Media.  [MediaPath.media_ledger] composes the rest: captures, clips,
      downloads and acknowledgements keep a ledger of what the server has not
      consumed.  [Snapshot.manifest_lists_only_stored] is about a card that
      fails; the Video properties range over every interleaving of the
      recording tasks; the Transfer properties are the confinement and the
      completeness of downloads, and that a window always closes.
    - Link.  The BleLink property, over any sequence of GAP events and calls;
      [LinkWindow.window_is_quiet], over every interleaving with a transfer
      window, with the race it leaves ([LinkWindow.window_race]).
    - Arithmetic.  [Hpf.hpf_no_overflow], [Vad.adaptive_gate_correct],
      [MicDsp.mic_dsp_refines_nlms], [DrainReplay.replay_array_bounds], and
      [SelfTest.audio_test_overflow], a sum that does not fit.

    ** Bounds and fuel

    A C loop is structural recursion where it walks an array.  The others:
    - the packing loops of ble_drain.c and [consumed_loop] consume at least
      one element a round and are given the length as fuel;
    - [dec] prints at most ten digits, enough for a uint32;
    - [recv_body] stores at least one byte a round and is given the capacity
      of its buffer;
    - [item_stream] reads until end of file: the property shows any fuel
      above the file's length reaches the end;
    - the task loops ([executor_task], [button_task], [drain_task],
      [audio_task], [battery_monitor_task], the record loop of the video
      task, the live meter and the button waits of the bench) never end in C,
      or end on a flag of another task: one round is a definition, and the properties range over any number of rounds.

    ** Assumptions

    FreeRTOS, NimBLE, the ESP-IDF drivers, libopus, libsodium and cJSON are
    not in the directory (or vendored) and have no definition here.  Their
    answers are unconstrained, except where a theorem names: [nvs_inv] and
    [fs_inv] (an answer of success means what the manual says), [consistent]
    (reads of the ring are reads of the history, written concurrently; proved
    of the ring and the audio task in AudioPath), a replay request of 1 to 60
    seconds (proved of the command path in ReplayPath), [CJsonLaws],
    [WireLaws] (Python's json prints and cJSON reads back an integer below
    2^53, a finite float and a key without NUL), [FQueueLaws], and parameters
    for signature verification and parsing.  Accesses to one aligned word are atomic, and tasks interleave
    at calls; the files whose functions run to completion before the next
    starts (ble_link.c on the host task, for one) say so in their header.

    ** Not modelled

    - components/opus: vendored libopus, reached only through
      [opus_encoder_create], [opus_encoder_ctl] and [opus_encode].
    - The characters openrecall_selftest prints (a result is its status, the
      message chosen and the values in it), and the two Arduino spikes.
    - The Android relay and the rest of the server, other languages, which
      the device meets only in the packets and commands above.
    - Log lines, GPIO and UUID numbers, the layout of driver configuration
      records, stack sizes and priorities: nothing computes with them.
    - Timing: delays and timeouts are calls; the theorems count waits and do
      not measure them. *)

From Stdlib Require Export ZArith Lia.
From stdpp Require Export base numbers option list.

Create HintDb cint.
Create HintDb ring.
Create HintDb drain.
Create Rewrite HintDb cint.

Declare Scope cint_scope.
Delimit Scope cint_scope with cint.
Open Scope Z_scope.

(** ** Machine integers

    A C integer of width w is a [Z]; the conversions below are the C
    conversions to the exact-width types. *)

Definition u8 (z : Z) : Z := z mod 256.
Definition u16 (z : Z) : Z := z mod 65536.
Definition u32 (z : Z) : Z := z mod 4294967296.
Definition u64 (z : Z) : Z := z mod 18446744073709551616.
Definition s16 (z : Z) : Z := (z + 32768) mod 65536 - 32768.
Definition s32 (z : Z) : Z := (z + 2147483648) mod 4294967296 - 2147483648.

Notation "x ⊕32 y" := (u32 (x + y)) (at level 50, left associativity) : cint_scope.
Notation "x ⊖32 y" := (u32 (x - y)) (at level 50, left associativity) : cint_scope.

Definition is_u8 (z : Z) : Prop := 0 <= z < 256.
Definition is_u16 (z : Z) : Prop := 0 <= z < 65536.
Definition is_u32 (z : Z) : Prop := 0 <= z < 4294967296.
Definition is_s16 (z : Z) : Prop := -32768 <= z <= 32767.
Definition is_s32 (z : Z) : Prop := -2147483648 <= z <= 2147483647.
Definition is_s64 (z : Z) : Prop :=
  -9223372036854775808 <= z <= 9223372036854775807.

#[export] Hint Unfold u8 u16 u32 u64 s16 s32 is_u8 is_u16 is_u32 is_s16 is_s32 is_s64 : cint.

(** [clia]: linear arithmetic after unfolding the machine-integer
    conversions and replacing divisions by their equations. *)
Ltac clia :=
  autounfold with cint in *; Z.div_mod_to_equations; lia.

Lemma u32_small (z : Z) : is_u32 z -> u32 z = z.
Proof. intros. clia. Qed.
Lemma u8_small (z : Z) : is_u8 z -> u8 z = z.
Proof. intros. clia. Qed.
Lemma u16_small (z : Z) : is_u16 z -> u16 z = z.
Proof. intros. clia. Qed.
Lemma s16_small (z : Z) : is_s16 z -> s16 z = z.
Proof. intros. clia. Qed.
Lemma s32_small (z : Z) : is_s32 z -> s32 z = z.
Proof. intros. clia. Qed.
Lemma u32_range (z : Z) : is_u32 (u32 z).
Proof. clia. Qed.
Lemma u8_range (z : Z) : is_u8 (u8 z).
Proof. clia. Qed.
Lemma u32_idemp (z : Z) : u32 (u32 z) = u32 z.
Proof. apply u32_small, u32_range. Qed.
Lemma u32_add_l (a b : Z) : u32 (u32 a + b) = u32 (a + b).
Proof. unfold u32. apply Zplus_mod_idemp_l. Qed.
Lemma u32_add_r (a b : Z) : u32 (a + u32 b) = u32 (a + b).
Proof. unfold u32. apply Zplus_mod_idemp_r. Qed.
Lemma u32_sub_l (a b : Z) : u32 (u32 a - b) = u32 (a - b).
Proof. unfold u32. apply Zminus_mod_idemp_l. Qed.
Lemma u32_sub_r (a b : Z) : u32 (a - u32 b) = u32 (a - b).
Proof. unfold u32. apply Zminus_mod_idemp_r. Qed.

#[export] Hint Resolve u32_range u8_range : cint.
#[export] Hint Rewrite u32_idemp u32_add_l u32_add_r u32_sub_l u32_sub_r : cint.

(** The saturation helper repeated at the head of dc_blocker.c, hpf.c,
    gain.c and mic_dsp.c. *)
Definition sat_int16 (v : Z) : Z :=
  if 32767 <? v then 32767 else if v <? -32768 then -32768 else v.

Lemma sat_int16_range (v : Z) : is_s16 (sat_int16 v).
Proof.
  unfold sat_int16, is_s16.
  destruct (Z.ltb_spec 32767 v); [lia|].
  destruct (Z.ltb_spec v (-32768)); lia.
Qed.

Lemma sat_int16_id (v : Z) : is_s16 v -> sat_int16 v = v.
Proof.
  unfold sat_int16, is_s16. intros.
  destruct (Z.ltb_spec 32767 v); [lia|].
  destruct (Z.ltb_spec v (-32768)); lia.
Qed.

Lemma sat_int16_mono (v w : Z) : v <= w -> sat_int16 v <= sat_int16 w.
Proof.
  unfold sat_int16. intros.
  repeat match goal with |- context [?a <? ?b] => destruct (Z.ltb_spec a b) end; lia.
Qed.

#[export] Hint Resolve sat_int16_range : cint.

Lemma shiftr_div (z k : Z) : 0 <= k -> Z.shiftr z k = z / 2 ^ k.
Proof. intros. by apply Z.shiftr_div_pow2. Qed.

(** ** Bytes, and the little-endian image of a uint32_t *)

Definition bytes_ok (bs : list Z) : Prop := Forall is_u8 bs.

(** [memcpy(out, &v, 4)] on a little-endian machine. *)
Definition le32 (v : Z) : list Z :=
  [v mod 256; (v / 256) mod 256; (v / 65536) mod 256; (v / 16777216) mod 256].

Definition un_le32 (b0 b1 b2 b3 : Z) : Z :=
  b0 + 256 * b1 + 65536 * b2 + 16777216 * b3.

Lemma length_le32 (v : Z) : length (le32 v) = 4%nat.
Proof. done. Qed.

Lemma le32_bytes (v : Z) : bytes_ok (le32 v).
Proof. repeat constructor; clia. Qed.

Lemma un_le32_le32 (v : Z) :
  un_le32 (v mod 256) ((v / 256) mod 256) ((v / 65536) mod 256)
    ((v / 16777216) mod 256) = u32 v.
Proof. unfold un_le32. clia. Qed.

Lemma le32_un_le32 (b0 b1 b2 b3 : Z) :
  is_u8 b0 -> is_u8 b1 -> is_u8 b2 -> is_u8 b3 ->
  le32 (un_le32 b0 b1 b2 b3) = [b0; b1; b2; b3].
Proof.
  intros. unfold le32, un_le32. repeat (f_equal; try clia).
Qed.

#[export] Hint Resolve le32_bytes : cint.

Lemma bytes_ok_app (xs ys : list Z) :
  bytes_ok (xs ++ ys) <-> bytes_ok xs /\ bytes_ok ys.
Proof. apply Forall_app. Qed.

(** ** Generic list facts *)

Lemma Zlength_to_nat {A} (l : list A) : Z.to_nat (Z.of_nat (length l)) = length l.
Proof. lia. Qed.

Lemma take_length_app {A} (l k : list A) : take (length l) (l ++ k) = l.
Proof. by rewrite take_app_length. Qed.

Lemma drop_length_app {A} (l k : list A) : drop (length l) (l ++ k) = k.
Proof. by rewrite drop_app_length. Qed.
