(* ===== verification/Effects.v ===== *)
(** * Programs that call the platform

    A function of the firmware that calls code outside the repository
    (FreeRTOS, NimBLE, FatFS, NVS, the ADC driver ...) is a value of
    [prog E A]: [E X] is the signature of the external calls, one
    constructor per call with [X] the type of what the call returns, and
    [A] what the function returns.  The calls have no definition here: a
    property either holds for whatever they return ([exec] below ranges
    over every response), or names the documented behaviour it needs as a
    predicate on the trace. *)

From S2P Require Import Prelude.

Inductive prog (E : Type -> Type) (A : Type) : Type :=
| Ret (a : A)
| Call {X : Type} (e : E X) (k : X -> prog E A).
Arguments Ret {E A} a.
Arguments Call {E A X} e k.

(** One external call and what it returned. *)
Inductive ev (E : Type -> Type) : Type :=
| Ev {X : Type} (e : E X) (x : X).
Arguments Ev {E X} e x.

Section Prog.
Context {E : Type -> Type}.

Fixpoint bind {A B} (p : prog E A) (f : A -> prog E B) : prog E B :=
    match p with
    | Ret a => f a
    | Call e k => Call e (fun x => bind (k x) f)
    end.

Definition call {X} (e : E X) : prog E X := Call e Ret.

  (** [exec p t a]: [p] can perform the calls of [t], receiving the
      responses recorded there, and return [a]. *)
Fixpoint exec {A} (p : prog E A) (t : list (ev E)) (a : A) : Prop :=
    match p with
    | Ret b => t = [] /\ a = b
    | Call e k => exists x t', t = Ev e x :: t' /\ exec (k x) t' a
    end.

  (** Running against a concrete platform with state [S]. *)
Fixpoint run {S A} (h : forall X, E X -> S -> X * S) (p : prog E A) (s : S)
    : list (ev E) * A * S :=
    match p with
    | Ret a => ([], a, s)
    | Call e k =>
        let '(x, s1) := h _ e s in
        let '(t, a, s2) := run h (k x) s1 in
        (Ev e x :: t, a, s2)
    end.

Lemma exec_ret {A} (a b : A) (t : list (ev E)) :
    exec (Ret a) t b <-> t = [] /\ b = a.
Proof. done. Qed.

Lemma exec_call {X A} (e : E X) (k : X -> prog E A) t a :
    exec (Call e k) t a <-> exists x t', t = Ev e x :: t' /\ exec (k x) t' a.
Proof. done. Qed.

Lemma exec_bind {A B} (p : prog E A) (f : A -> prog E B) t b :
    exec (bind p f) t b <->
    exists t1 t2 a, t = t1 ++ t2 /\ exec p t1 a /\ exec (f a) t2 b.
Proof.
    revert t. induction p as [a|X e k IH]; intros t; simpl.
    - split.
      + intros H. by exists [], t, a.
      + by intros (? & ? & ? & -> & [-> ->] & H).
    - split.
      + intros (x & t' & -> & H). apply IH in H as (t1 & t2 & a & -> & H1 & H2).
        exists (Ev e x :: t1), t2, a. naive_solver.
      + intros (? & t2 & a & -> & (x & t1 & -> & H1) & H2).
        exists x, (t1 ++ t2). split; [done|]. apply IH. naive_solver.
  Qed.

Lemma exec_one {X} (e : E X) t x :
    exec (call e) t x <-> t = [Ev e x].
Proof. simpl. naive_solver. Qed.

Lemma bind_assoc {A B C} (p : prog E A) (f : A -> prog E B) (g : B -> prog E C) t c :
    exec (bind (bind p f) g) t c <-> exec (bind p (fun a => bind (f a) g)) t c.
Proof.
    revert t. induction p as [a|X e k IH]; intros t; simpl; [done|].
    split; intros (x & t' & -> & H); exists x, t'; (split; [done|]); by apply IH.
  Qed.

  (** Every run is an execution: [exec] covers each platform. *)
Lemma run_exec {S A} (h : forall X, E X -> S -> X * S) (p : prog E A) s t a s' :
    run h p s = (t, a, s') -> exec p t a.
Proof.
    revert s t s'. induction p as [b|X e k IH]; intros s t s' H; simpl in *.
    - by simplify_eq.
    - destruct (h X e s) as [x s1] eqn:?.
      destruct (run h (k x) s1) as [[t1 a1] s2] eqn:Hr. simplify_eq.
      exists x, t1. eauto.
  Qed.

  (** What holds of each answer of a platform holds of its traces. *)
Lemma run_Forall {S A} (h : forall X, E X -> S -> X * S) (P : ev E -> Prop) (p : prog E A) s :
  (forall X (e : E X) s, P (Ev e (fst (h X e s)))) -> Forall P (fst (fst (run h p s))).
Proof.
  intros HP. revert s. induction p as [b|X e k IH]; intros s; simpl; [constructor|].
  pose proof (HP X e s) as He. destruct (h X e s) as [x s1].
  specialize (IH x s1). destruct (run h (k x) s1) as [[t1 a1] s2]. by constructor.
Qed.

Lemma run_exec_fst {S A} (h : forall X, E X -> S -> X * S) (p : prog E A) s :
  exec p (fst (fst (run h p s))) (snd (fst (run h p s))).
Proof.
  destruct (run h p s) as [[t a] s'] eqn:Hr. by eapply run_exec.
Qed.

(** Running against a platform that may leave a call unanswered. *)
Fixpoint run_opt {A} (h : forall X, E X -> option X) (p : prog E A) : option (list (ev E) * A) :=
  match p with
  | Ret a => Some ([], a)
  | Call e k =>
      match h _ e with
      | Some x =>
          match run_opt h (k x) with
          | Some (t, a) => Some (Ev e x :: t, a)
          | None => None
          end
      | None => None
      end
  end.

Lemma run_opt_exec {A} (h : forall X, E X -> option X) (p : prog E A) t a :
  run_opt h p = Some (t, a) -> exec p t a.
Proof.
  revert t. induction p as [b|X e k IH]; intros t H; simpl in *; [by simplify_eq|].
  destruct (h X e) as [x|]; [|done]. destruct (run_opt h (k x)) as [[t1 a1]|] eqn:Hr; [|done].
  simplify_eq. exists x, t1. eauto.
Qed.

(** Programs always return: whatever the responses, some trace ends. *)
Lemma exec_total {A} (p : prog E A) (resp : forall X, E X -> X) :
    exists t a, exec p t a.
Proof.
    induction p as [a|X e k IH]; simpl.
    - by exists [], a.
    - destruct (IH (resp X e)) as (t & a & H). eauto 6.
  Qed.
End Prog.

Declare Scope prog_scope.
Delimit Scope prog_scope with prog.
Bind Scope prog_scope with prog.

Notation "'let*' p := m 'in' k" := (bind m (fun p => k))
  (at level 10, p pattern, m at level 100, k at level 200,
   format "'[v' 'let*'  p  :=  m  'in' '/' k ']'") : prog_scope.
Notation "m ;;; k" := (bind m (fun _ => k))
  (at level 100, right associativity) : prog_scope.

(** [exec_inv]: take an execution of a known program apart. *)
Ltac exec_step :=
  match goal with
  | H : exec (Ret _) _ _ |- _ => destruct H as [? ?]; simplify_eq
  | H : exec (call _) _ _ |- _ => apply exec_one in H; simplify_eq
  | H : exec (Call _ _) _ _ |- _ =>
      let x := fresh "x" in let t := fresh "t" in
      destruct H as (x & t & ? & H); simplify_eq
  | H : exec (bind _ _) _ _ |- _ =>
      let t1 := fresh "t" in let t2 := fresh "t" in let a := fresh "a" in
      apply exec_bind in H as (t1 & t2 & a & ? & ? & H); simplify_eq
  end.
Ltac exec_inv := repeat exec_step.

(** [exec_all H]: take the execution [H] of a program without calls to other
    programs apart completely, one goal per path. *)
Ltac exec_all H :=
  simpl in H;
  lazymatch type of H with
  | exists _ _, _ = _ :: _ /\ _ =>
      let x := fresh "x" in let t := fresh "t" in
      destruct H as (x & t & -> & H); exec_all H
  | _ = [] /\ _ => let E := fresh "E" in destruct H as [-> E]; try subst
  | context [match ?b with _ => _ end] => destruct b eqn:?; exec_all H
  | _ => idtac
  end.

(** ** Composition of signatures: a program over [E] as one over [F] *)

Section Translate.
Context {E F : Type -> Type} (f : forall X, E X -> F X).

Fixpoint translate {A} (p : prog E A) : prog F A :=
  match p with
  | Ret a => Ret a
  | Call e k => Call (f _ e) (fun x => translate (k x))
  end.

Definition lift_ev (e : ev E) : ev F := match e with Ev e x => Ev (f _ e) x end.

Lemma exec_translate {A} (p : prog E A) t (a : A) :
  exec (translate p) t a <-> exists u, t = map lift_ev u /\ exec p u a.
Proof.
  revert t. induction p as [b|X e k IH]; intros t; simpl.
  - split; [intros [-> ->]; by exists []|]. by intros (u & -> & -> & ->).
  - split.
    + intros (x & t' & -> & H). apply IH in H as (u & -> & H).
      exists (Ev e x :: u). simpl. eauto.
    + intros (u & -> & x & u' & -> & H). exists x, (map lift_ev u'). split; [done|].
      apply IH. eauto.
Qed.
End Translate.

(** Replacing each call by a program: the calls of a client, answered by the
    functions it calls. *)
Fixpoint interp {E F : Type -> Type} (h : forall X, E X -> prog F X) {A} (p : prog E A) : prog F A :=
  match p with
  | Ret a => Ret a
  | Call e k => bind (h _ e) (fun x => interp h (k x))
  end.

(** What the client did, and what a measure of the trace says of it. *)
Lemma exec_interp {E F} (h : forall X, E X -> prog F X) (m : list (ev F) -> nat) (g : ev E -> nat) :
  m [] = 0%nat -> (forall t1 t2, m (t1 ++ t2) = (m t1 + m t2)%nat) ->
  (forall X (c : E X) t x, exec (h X c) t x -> m t = g (Ev c x)) ->
  forall A (p : prog E A) t a, exec (interp h p) t a ->
  exists u, exec p u a /\ m t = sum_list_with g u.
Proof.
  intros H0 Happ Hg A p. induction p as [b|X c k IH]; intros t a H.
  - destruct H as [-> ->]. by exists [].
  - apply exec_bind in H as (t1 & t2 & x & -> & H1 & H). apply IH in H as (u & Hu & Hm).
    exists (Ev c x :: u). split; [by exists x, u|]. by rewrite Happ, Hm, (Hg _ _ _ _ H1).
Qed.

(** The calls of one component in a trace of a larger signature: [g] picks
    the events [f] injects. *)
Section Project.
Context {E F : Type -> Type} (f : forall X, E X -> F X) (g : ev F -> option (ev E)).

Definition project (t : list (ev F)) : list (ev E) := omap g t.

Lemma project_app t1 t2 : project (t1 ++ t2) = project t1 ++ project t2.
Proof. apply omap_app. Qed.

Lemma project_lift u : (forall e, g (lift_ev f e) = Some e) -> project (map (lift_ev f) u) = u.
Proof. intros Hg. induction u as [|e u IH]; [done|]. unfold project in *. cbn. rewrite Hg. cbn. by f_equal. Qed.

Lemma project_other {E'} (f' : forall X, E' X -> F X) u :
  (forall e, g (lift_ev f' e) = None) -> project (map (lift_ev f') u) = [].
Proof. intros Hg. induction u as [|e u IH]; [done|]. unfold project in *. cbn. by rewrite Hg. Qed.
End Project.
