(* ===== verification/Interleave.v ===== *)
(** * Interleavings of tasks over shared variables

    A task is a program whose calls include the accesses to shared variables.
    A system is a shared memory and a pool of tasks; a step runs one call of
    one task, atomically, and may create tasks.  What is proved of a system
    holds for every schedule: the steps of different tasks are in any order.

    Facts about one task are proved on its program alone ([always]: every
    call it can make satisfies a condition on the calls it made before) and
    carried over to the system by [steps_proj]. *)

From S2P Require Import Prelude Effects.

(** ** Partial executions of one program *)

Section Partial.
Context {E : Type -> Type}.

(** [p] can perform [t] and is then [q]. *)
Fixpoint pexec {A} (p : prog E A) (t : list (ev E)) (q : prog E A) {struct t} : Prop :=
  match t with
  | [] => q = p
  | e :: t =>
      match p with
      | Ret _ => False
      | Call c k => exists x, e = Ev c x /\ pexec (k x) t q
      end
  end.

Lemma pexec_app {A} (p q : prog E A) t1 t2 :
  pexec p (t1 ++ t2) q <-> exists p', pexec p t1 p' /\ pexec p' t2 q.
Proof.
  revert p. induction t1 as [|e t1 IH]; intros p.
  { split; [intros H; exists p; exact (conj eq_refl H)|]. by intros (p' & -> & H). }
  destruct p as [a|X c k]; simpl; [split; [done|by intros (? & [] & _)]|]. split.
  - intros (x & -> & H). apply IH in H as (p' & ? & ?). eauto.
  - intros (p' & (x & -> & H1) & H2). exists x. split; [done|]. apply IH. eauto.
Qed.

Lemma pexec_exec {A} (p : prog E A) t a : pexec p t (Ret a) -> exec p t a.
Proof.
  revert p. induction t as [|e t IH]; intros p H; [by simpl in H; subst p|].
  destruct p as [b|X c k]; [by destruct H|]. destruct H as (x & -> & H). exists x, t. auto.
Qed.

(** Every call [p] can make, after [past], satisfies [P]. *)
Fixpoint always {A} (P : list (ev E) -> ev E -> Prop) (past : list (ev E)) (p : prog E A) : Prop :=
  match p with
  | Ret _ => True
  | Call c k => forall x, P past (Ev c x) /\ always P (past ++ [Ev c x]) (k x)
  end.

Lemma always_pexec {A} P past (p q : prog E A) t :
  always P past p -> pexec p t q -> always P (past ++ t) q.
Proof.
  revert past p. induction t as [|e t IH]; intros past p Ha H.
  - rewrite app_nil_r. cbn in H. by subst q.
  - destruct p as [a|X c k]; [by destruct H|]. destruct H as (x & -> & H). destruct (Ha x) as [_ Hk].
    apply (IH _ _ Hk) in H. by rewrite <-app_assoc in H.
Qed.

Lemma always_event {A} P past (p q : prog E A) t1 e t2 :
  always P past p -> pexec p (t1 ++ e :: t2) q -> P (past ++ t1) e.
Proof.
  intros Ha H. apply pexec_app in H as (p' & H1 & H2). apply (always_pexec _ _ _ _ _ Ha) in H1.
  destruct p' as [a|X c k]; [by destruct H2|]. destruct H2 as (x & -> & _). by destruct (H1 x).
Qed.

Lemma always_bind {A B} P past (p : prog E A) (f : A -> prog E B) :
  always P past p -> (forall t a, exec p t a -> always P (past ++ t) (f a)) ->
  always P past (bind p f).
Proof.
  revert past. induction p as [a|X c k IH]; intros past Ha Hf; simpl.
  - specialize (Hf [] a). rewrite app_nil_r in Hf. by apply Hf.
  - intros x. destruct (Ha x) as [Hx Hk]. split; [done|]. apply IH; [done|].
    intros t a H. specialize (Hf (Ev c x :: t) a). rewrite <-app_assoc. apply Hf. by exists x, t.
Qed.

Lemma always_call {X} P past (c : E X) : (forall x, P past (Ev c x)) -> always P past (call c).
Proof. simpl. intros H x. by split. Qed.

(** A condition on the events alone. *)
Lemma always_const {A} (P : ev E -> Prop) past past' (p : prog E A) :
  always (fun _ => P) past p -> always (fun _ => P) past' p.
Proof.
  revert past past'. induction p as [a|X c k IH]; intros past past' H; [done|].
  intros x. destruct (H x) as [? Hk]. split; [done|]. by eapply IH.
Qed.

Lemma always_weaken {A} (P Q : list (ev E) -> ev E -> Prop) past (p : prog E A) :
  (forall past e, P past e -> Q past e) -> always P past p -> always Q past p.
Proof.
  intros HPQ. revert past. induction p as [a|X c k IH]; intros past H; [done|].
  intros x. destruct (H x) as [? Hk]. split; [by apply HPQ|by apply IH].
Qed.

Lemma always_exec {A} (P : ev E -> Prop) past (p : prog E A) t a :
  always (fun _ => P) past p -> exec p t a -> Forall P t.
Proof.
  revert past t. induction p as [b|X c k IH]; intros past t Ha H; simpl in H.
  - destruct H as [-> _]. constructor.
  - destruct H as (x & t' & -> & H). destruct (Ha x) as [Hx Hk]. constructor; [done|]. by eapply IH.
Qed.
End Partial.

Lemma always_translate {E F : Type -> Type} (f : forall X, E X -> F X) {A} P past (p : prog E A) :
  (forall X (c : E X) x, P (Ev (f X c) x)) -> always (fun _ => P) past (translate f p).
Proof.
  intros HP. revert past. induction p as [a|X c k IH]; intros past; [done|].
  intros x. split; [apply HP|apply IH].
Qed.

(** A condition on the past, carried into the larger signature. *)
Lemma always_lift {E F : Type -> Type} (f : forall X, E X -> F X) {A}
    (P : list (ev F) -> ev F -> Prop) (Q : list (ev E) -> ev E -> Prop) past (p : prog E A) :
  (forall h e, Q h e -> P (map (lift_ev f) h) (lift_ev f e)) ->
  always Q past p -> always P (map (lift_ev f) past) (translate f p).
Proof.
  intros HPQ. revert past. induction p as [a|X c k IH]; intros past H; [done|].
  intros x. destruct (H x) as [Hx Hk]. split; [exact (HPQ _ _ Hx)|].
  specialize (IH x _ Hk). by rewrite map_app in IH.
Qed.

(** As [always_translate], for a condition that does not mention the past. *)
Lemma translate_never {E F : Type -> Type} (f : forall X, E X -> F X) {A} (b : ev F -> bool) past
    (p : prog E A) :
  (forall X (c : E X) x, b (Ev (f X c) x) = false) ->
  always (fun _ e => b e = false) past (translate f p).
Proof. apply (always_translate f (fun e => b e = false)). Qed.

(** A condition that each function answering a call keeps. *)
Lemma always_interp {E F : Type -> Type} (h : forall X, E X -> prog F X) {A} P past (p : prog E A) :
  (forall X (c : E X) past, always P past (h X c)) -> always P past (interp h p).
Proof.
  intros HP. revert past. induction p as [a|X c k IH]; intros past; [done|].
  apply always_bind; [apply HP|]. intros t x _. apply IH.
Qed.

(** A condition on what a part of a task has done itself. *)
Lemma always_shift {E : Type -> Type} {A} (P Q : list (ev E) -> ev E -> Prop) base past (p : prog E A) :
  (forall h e, Q h e -> P (base ++ h) e) -> always Q past p -> always P (base ++ past) p.
Proof.
  intros HPQ. revert past. induction p as [a|X c k IH]; intros past H; [done|].
  intros x. destruct (H x) as [? Hk]. split; [by apply HPQ|].
  specialize (IH x _ Hk). by rewrite app_assoc in IH.
Qed.

(** [e] is none of the calls [b] picks. *)
Definition never {E : Type -> Type} (b : ev E -> bool) (past : list (ev E)) (e : ev E) : Prop :=
  b e = false.

(** [never_tac]: go through a program whose calls are all harmless. *)
Ltac never_tac :=
  repeat first
    [ progress cbn [fst snd] | exact I
    | apply always_bind; [|intros ? ? _]
    | apply always_call; intros; reflexivity
    | apply translate_never; intros; reflexivity
    | case_match
    | match goal with x : Empty_set |- _ => destruct x end
    | assumption ].

(** ** Systems *)

(** [x] is the answer [y] of a memory that is then [m]. *)
Definition expect {A} `{EqDecision A} {M} (x y : A) (m : M) : option M :=
  if decide (x = y) then Some m else None.

Lemma expect_Some {A} `{EqDecision A} {M} (x y : A) (m m' : M) :
  expect x y m = Some m' -> x = y /\ m' = m.
Proof. unfold expect. case_decide; naive_solver. Qed.

Section Pool.
Context {E : Type -> Type} {M : Type}.
(** [mem_do self new c x m]: the memory after task [self] made the call [c]
    and received [x]; [None] when [x] is not an answer of this memory.  A
    created task would be number [new]. *)
Context (mem_do : nat -> nat -> forall X, E X -> X -> M -> option M).
(** The task a call created, when it created one. *)
Context (spawned : ev E -> list (prog E unit) -> Prop).

Record sys : Type := Sys { mem : M; pool : list (prog E unit) }.

Inductive sstep : sys -> nat * ev E -> sys -> Prop :=
| sstep_run m m' ts i X (c : E X) k x new :
    ts !! i = Some (Call c k) ->
    mem_do i (length ts) X c x m = Some m' ->
    spawned (Ev c x) new ->
    sstep (Sys m ts) (i, Ev c x) (Sys m' (<[i := k x]> ts ++ new)).

Inductive steps : sys -> list (nat * ev E) -> sys -> Prop :=
| steps_nil s : steps s [] s
| steps_snoc s tr s1 ie s2 : steps s tr s1 -> sstep s1 ie s2 -> steps s (tr ++ [ie]) s2.

(** The calls of task [i]. *)
Definition proj (i : nat) (tr : list (nat * ev E)) : list (ev E) :=
  omap (fun ie => if (ie.1 =? i)%nat then Some ie.2 else None) tr.

Lemma proj_app i t1 t2 : proj i (t1 ++ t2) = proj i t1 ++ proj i t2.
Proof. apply omap_app. Qed.

Lemma proj_one i j e : proj i [(j, e)] = if (j =? i)%nat then [e] else [].
Proof. unfold proj. cbn. by destruct (j =? i)%nat. Qed.

Lemma steps_app_inv s t1 t2 s' :
  steps s (t1 ++ t2) s' -> exists s1, steps s t1 s1 /\ steps s1 t2 s'.
Proof.
  revert s'. induction t2 as [|ie t2 IH] using rev_ind; intros s' H.
  - rewrite app_nil_r in H. exists s'. split; [done|constructor].
  - rewrite app_assoc in H. remember ((t1 ++ t2) ++ [ie]) as tr eqn:Htr.
    destruct H as [s|s tr s1 ie' s2 Hs Hstep]; [by destruct (t1 ++ t2)|].
    apply app_inj_tail in Htr as [-> ->]. apply IH in Hs as (s3 & ? & ?).
    exists s3. split; [done|]. by econstructor.
Qed.

Lemma sstep_pool s i e s' :
  sstep s (i, e) s' ->
  exists X (c : E X) k x new, e = Ev c x /\ pool s !! i = Some (Call c k) /\
    mem_do i (length (pool s)) X c x (mem s) = Some (mem s') /\ spawned e new /\
    pool s' = <[i := k x]> (pool s) ++ new.
Proof. intros H. inversion H; subst. by eexists _, _, _, _, _. Qed.

(** A task not yet created has made no call. *)
Lemma proj_none s tr s' i : steps s tr s' -> pool s' !! i = None -> proj i tr = [].
Proof.
  intros H. revert i. induction H as [s|s tr s1 [j e] s2 _ IH Hstep]; intros i Hi; [done|].
  apply sstep_pool in Hstep as (X & c & k & x & new & -> & Hj & _ & _ & Hp).
  assert (pool s1 !! i = None) as Hi'.
  { apply lookup_ge_None in Hi. rewrite Hp, length_app, length_insert in Hi.
    apply lookup_ge_None. lia. }
  rewrite proj_app, IH, proj_one by done.
  destruct (Nat.eqb_spec j i) as [->|]; [congruence|done].
Qed.

(** Every task has performed its own calls, from the program it had at the
    start or was created with. *)
Lemma steps_origin s tr s' i q :
  steps s tr s' -> pool s' !! i = Some q ->
  exists p, pexec p (proj i tr) q /\
   (pool s !! i = Some p \/
    exists tr1 j X (c : E X) x tr2 s1 m' new,
      tr = tr1 ++ (j, Ev c x) :: tr2 /\ steps s tr1 s1 /\
      mem_do j (length (pool s1)) X c x (mem s1) = Some m' /\ spawned (Ev c x) new /\
      (length (pool s1) <= i)%nat /\ new !! (i - length (pool s1))%nat = Some p).
Proof.
  intros H. revert i q. induction H as [s|s tr s1 [j e] s2 Hs IH Hstep]; intros i q Hi.
  { exists q. split; [done|by left]. }
  pose proof Hstep as Hstep'.
  apply sstep_pool in Hstep' as (X & c & k & x & new & -> & Hj & Hm & Hsp & Hp).
  rewrite Hp in Hi. rewrite proj_app, proj_one.
  destruct (Nat.lt_ge_cases i (length (pool s1))) as [Hlt|Hge].
  - rewrite lookup_app_l in Hi by by rewrite length_insert.
    assert (forall p q', pexec p (proj i tr) q' -> pool s1 !! i = Some q' ->
              pexec p (proj i tr ++ (if (j =? i)%nat then [Ev c x] else [])) q) as Hext.
    { intros p q' Hpe Hq'. apply pexec_app. exists q'. split; [done|].
      destruct (Nat.eqb_spec j i) as [->|Hne].
      - rewrite list_lookup_insert_eq in Hi by done. rewrite Hj in Hq'. simplify_eq.
        simpl. by exists x.
      - rewrite list_lookup_insert_ne in Hi by done. simpl. congruence. }
    destruct (lookup_lt_is_Some_2 _ _ Hlt) as [q' Hq'].
    destruct (IH i q' Hq') as (p & Hpe & Ho). exists p. split; [by eapply Hext|].
    destruct Ho as [Ho|(tr1 & j' & X' & c' & x' & tr2 & s1' & m' & new' & -> & Ho)]; [by left|right].
    exists tr1, j', X', c', x', (tr2 ++ [(j, Ev c x)]), s1', m', new'. by rewrite <-app_assoc.
  - rewrite lookup_app_r in Hi by by rewrite length_insert. rewrite length_insert in Hi.
    exists q. split.
    + assert (j <> i) as Hne by (intros ->; apply lookup_lt_Some in Hj; lia).
      rewrite (proj_none _ _ _ _ Hs) by by apply lookup_ge_None.
      destruct (Nat.eqb_spec j i); [done|]. reflexivity.
    + right. exists tr, j, X, c, x, [], s1, (mem s2), new. by split_and!.
Qed.

(** The task that made the last call of a run. *)
Lemma steps_last s tr i e s' :
  steps s (tr ++ [(i, e)]) s' ->
  exists s1 q, steps s tr s1 /\ sstep s1 (i, e) s' /\ pool s' !! i = Some q.
Proof.
  intros H. remember (tr ++ [(i, e)]) as tr' eqn:Htr.
  destruct H as [s|s tr' s1 ie s2 Hs Hstep]; [by destruct tr|].
  apply app_inj_tail in Htr as [-> ->]. pose proof Hstep as Hstep'.
  apply sstep_pool in Hstep' as (X & c & k & x & new & -> & Hj & Hm & Hsp & Hp).
  exists s1, (k x). split_and!; [done|done|]. rewrite Hp.
  pose proof (lookup_lt_Some _ _ _ Hj).
  rewrite lookup_app_l by by rewrite length_insert. by apply list_lookup_insert_eq.
Qed.

(** Where no call creates a task, what holds of every call of a task's program
    holds of its calls in the system. *)
Lemma steps_always P s t1 i e t2 s' :
  (forall e new, spawned e new -> new = []) ->
  (forall p, pool s !! i = Some p -> always P [] p) ->
  steps s (t1 ++ (i, e) :: t2) s' -> is_Some (pool s !! i) /\ P (proj i t1) e.
Proof.
  intros Hsp HP H. replace (t1 ++ (i, e) :: t2) with ((t1 ++ [(i, e)]) ++ t2) in H by by rewrite <-app_assoc.
  apply steps_app_inv in H as (s1 & H & _).
  destruct (steps_last _ _ _ _ _ H) as (s0 & q & _ & _ & Hq).
  destruct (steps_origin _ _ _ _ _ H Hq) as
    (p & Hp & [Hi|(tr1 & j & X & c & x & tr2 & s2 & m' & new & _ & _ & _ & Hn & _ & Hl)]).
  - split; [by exists p|]. rewrite proj_app, proj_one, Nat.eqb_refl in Hp.
    exact (always_event _ _ _ _ _ _ _ (HP p Hi) Hp).
  - apply Hsp in Hn as ->. by rewrite lookup_nil in Hl.
Qed.

(** ** Schedules *)

(** Running a schedule: [answer] gives the answers (if any), [spawn] the created
    tasks; [None] when an answer is refused or a task has ended. *)
Context (answer : nat -> nat -> M -> forall X, E X -> option X) (spawn : ev E -> list (prog E unit)).

Fixpoint run_sched (sched : list nat) (s : sys) : option (list (nat * ev E) * sys) :=
  match sched with
  | [] => Some ([], s)
  | i :: sched =>
      match pool s !! i with
      | Some (Call c k) =>
          let new := length (pool s) in
          match answer i new (mem s) _ c with
          | Some x =>
              match mem_do i new _ c x (mem s) with
              | Some m' =>
                  match run_sched sched (Sys m' (<[i := k x]> (pool s) ++ spawn (Ev c x))) with
                  | Some (tr, s') => Some ((i, Ev c x) :: tr, s')
                  | None => None
                  end
              | None => None
              end
          | None => None
          end
      | _ => None
      end
  end.

Lemma steps_cons s ie s1 tr s' : sstep s ie s1 -> steps s1 tr s' -> steps s (ie :: tr) s'.
Proof.
  intros H. induction 1 as [s1|s1 tr s2 ie' s3 _ IH Hstep].
  - apply (steps_snoc _ [] s); [constructor|done].
  - change (ie :: tr ++ [ie']) with ((ie :: tr) ++ [ie']). by econstructor; [apply IH|].
Qed.

Lemma run_sched_steps sched s tr s' :
  (forall e, spawned e (spawn e)) -> run_sched sched s = Some (tr, s') -> steps s tr s'.
Proof.
  intros Hsp. revert s tr. induction sched as [|i sched IH]; intros s tr H; simpl in H.
  { simplify_eq. constructor. }
  destruct (pool s !! i) as [[a|X c k]|] eqn:Hi; try done.
  destruct (answer _ _ _ _ _) as [x|]; [|done].
  destruct (mem_do _ _ _ _ _ _) as [m'|] eqn:Hm; [|done].
  destruct (run_sched sched _) as [[tr' s2]|] eqn:Hr; [|done]. simplify_eq.
  eapply steps_cons; [|by apply IH]. destruct s as [m ts]. by econstructor.
Qed.
End Pool.
