(* ===== verification/Platform.v ===== *)
(** * Names of the ESP-IDF and NimBLE interfaces the firmware calls

    Result codes are values of an inductive type under the names the source
    uses; their numeric values belong to the SDK and nothing depends on
    them. *)

From S2P Require Import Prelude.

(** The [esp_err_t] values the source names; any other code is [ESP_ERR]. *)
Inductive esp_err_t : Type :=
| ESP_OK | ESP_FAIL
| ESP_ERR_NO_MEM | ESP_ERR_INVALID_ARG | ESP_ERR_INVALID_STATE | ESP_ERR_INVALID_SIZE
| ESP_ERR_NOT_FOUND | ESP_ERR_TIMEOUT
| ESP_ERR_NVS_NOT_FOUND | ESP_ERR_NVS_NO_FREE_PAGES | ESP_ERR_NVS_NEW_VERSION_FOUND
| ESP_ERR (code : Z).

#[export] Instance esp_err_eq_dec : EqDecision esp_err_t.
Proof. solve_decision. Defined.

Definition esp_ok (e : esp_err_t) : bool := bool_decide (e = ESP_OK).

Lemma esp_ok_true e : esp_ok e = true <-> e = ESP_OK.
Proof. unfold esp_ok. apply bool_decide_eq_true. Qed.

Lemma esp_ok_false e : esp_ok e = false <-> e <> ESP_OK.
Proof. unfold esp_ok. apply bool_decide_eq_false. Qed.
