(* ===== verification/Nvs.v ===== *)
(** * The NVS interface

    The calls of the ESP-IDF key-value store the firmware makes, and their
    documented behaviour as a relation on an abstract flash: the values a
    read sees now, and those a reboot will see.  A handle is represented by
    the namespace it was opened on. *)

From stdpp Require Import gmap strings.
From S2P Require Import Prelude Effects Platform.
Open Scope Z_scope.

Inductive nvsE : Type -> Type :=
| nvs_flash_init : nvsE esp_err_t
| nvs_flash_erase : nvsE esp_err_t
| nvs_open (ns : string) (readwrite : bool) : nvsE esp_err_t
| nvs_get_blob (ns key : string) (cap : Z) : nvsE (esp_err_t * list Z)
| nvs_get_u8 (ns key : string) : nvsE (esp_err_t * Z)
| nvs_get_u32 (ns key : string) : nvsE (esp_err_t * Z)
| nvs_set_blob (ns key : string) (v : list Z) : nvsE esp_err_t
| nvs_set_u8 (ns key : string) (v : Z) : nvsE esp_err_t
| nvs_set_u32 (ns key : string) (v : Z) : nvsE esp_err_t
| nvs_erase_key (ns key : string) : nvsE esp_err_t
| nvs_commit (ns : string) : nvsE esp_err_t
| nvs_close (ns : string) : nvsE unit.

Inductive item : Type := Blob (b : list Z) | U8 (v : Z) | U32 (v : Z).

Abbreviation kv := (gmap (string * string) item).

(** [now]: what reads see; [disk]: what they will see after a reboot. *)
Record flash : Type := Flash { now : kv; disk : kv }.

Definition reboot (f : flash) : flash := Flash (disk f) (disk f).

(** A write of [m] over [now f]: on ESP_OK it is visible; otherwise it may
    or may not have happened.  Before [nvs_commit] it may or may not survive
    a reboot. *)
Definition written (f : flash) (m : kv) (e : esp_err_t) (f' : flash) : Prop :=
  (now f' = m \/ e <> ESP_OK /\ now f' = now f) /\
  (disk f' = disk f \/ disk f' = m).

(** One call against the flash. *)
Definition nvs_step (f : flash) (e : ev nvsE) (f' : flash) : Prop :=
  match e with
  | Ev e x =>
      match e in nvsE X return X -> Prop with
      | nvs_get_blob ns key cap => fun r => f' = f /\
          (fst r = ESP_OK -> now f !! (ns, key) = Some (Blob (snd r)) /\
             Z.of_nat (length (snd r)) <= cap)
      | nvs_get_u8 ns key => fun r => f' = f /\
          (fst r = ESP_OK -> now f !! (ns, key) = Some (U8 (snd r)))
      | nvs_get_u32 ns key => fun r => f' = f /\
          (fst r = ESP_OK -> now f !! (ns, key) = Some (U32 (snd r)))
      | nvs_set_blob ns key v => fun r => written f (<[(ns, key) := Blob v]> (now f)) r f'
      | nvs_set_u8 ns key v => fun r => written f (<[(ns, key) := U8 v]> (now f)) r f'
      | nvs_set_u32 ns key v => fun r => written f (<[(ns, key) := U32 v]> (now f)) r f'
      | nvs_erase_key ns key => fun r =>
          (r = ESP_ERR_NVS_NOT_FOUND -> now f !! (ns, key) = None) /\
          written f (delete (ns, key) (now f)) r f'
      | nvs_commit _ => fun r => now f' = now f /\
          (disk f' = now f \/ r <> ESP_OK /\ disk f' = disk f)
      | nvs_flash_erase => fun r => r = ESP_OK -> f' = Flash ∅ ∅
      | _ => fun _ => f' = f
      end x
  end.

(** A sequence of calls against the flash. *)
Fixpoint nvs_trace (f : flash) (t : list (ev nvsE)) (f' : flash) : Prop :=
  match t with
  | [] => f' = f
  | e :: t => exists f1, nvs_step f e f1 /\ nvs_trace f1 t f'
  end.

Lemma nvs_trace_app f t1 t2 f' :
  nvs_trace f (t1 ++ t2) f' <-> exists f1, nvs_trace f t1 f1 /\ nvs_trace f1 t2 f'.
Proof.
  revert f. induction t1 as [|e t1 IH]; intros f; simpl; [naive_solver|].
  setoid_rewrite IH. naive_solver.
Qed.

(** The call is a read of a stored value that the flash answers: it fails
    only when there is no such value of that type. *)
Definition read_served (f : flash) (e : ev nvsE) : Prop :=
  match e with
  | Ev e x =>
      match e in nvsE X return X -> Prop with
      | nvs_open _ _ => fun r => r = ESP_OK
      | nvs_get_blob ns key cap => fun r =>
          forall b, now f !! (ns, key) = Some (Blob b) -> Z.of_nat (length b) <= cap ->
            fst r = ESP_OK
      | nvs_get_u8 ns key => fun r =>
          forall v, now f !! (ns, key) = Some (U8 v) -> fst r = ESP_OK
      | nvs_get_u32 ns key => fun r =>
          forall v, now f !! (ns, key) = Some (U32 v) -> fst r = ESP_OK
      | _ => fun _ => True
      end x
  end.

(** [nvs_inv]: follow the calls of a known trace through the flash. *)
Ltac nvs_inv :=
  cbn [nvs_trace nvs_step fst snd] in *;
  repeat match goal with
    | H : exists _, _ |- _ => destruct H
    | H : _ /\ _ |- _ => destruct H
    end;
  subst.
