(* ===== verification/Fs.v ===== *)
(** * The file system interface

    The stdio and POSIX calls the firmware makes on the SD card, and their
    documented behaviour as a relation on an abstract card: the contents of
    the files, and the open streams.  Streams are buffered: what [fwrite]
    accepted is certain to be in the file only once [fclose] has returned 0;
    until then, and if [fclose] fails, the file holds some prefix of it. *)

From stdpp Require Import gmap.
From S2P Require Import Prelude Effects Platform.
Open Scope Z_scope.

(** A path, or the contents of a file. *)
Abbreviation bytes := (list Z).

Inductive fmode : Type := MODE_RB | MODE_WB | MODE_A.
Inductive mkdir_res : Type := MKDIR_OK | MKDIR_EEXIST | MKDIR_ERR.
Inductive unlink_res : Type := UNLINK_OK | UNLINK_ENOENT | UNLINK_ERR.

Inductive sdE : Type -> Type :=
| spi_bus_initialize : sdE esp_err_t
| esp_vfs_fat_sdspi_mount (mount_point : bytes) : sdE esp_err_t
| spi_bus_free : sdE unit
| mkdir (path : bytes) : sdE mkdir_res
| fopen (path : bytes) (mode : fmode) : sdE (option Z)  (** the stream *)
| fwrite (f : Z) (data : bytes) : sdE Z
| fputs (f : Z) (data : bytes) : sdE bool  (** not EOF *)
| fread (f : Z) (cap : Z) : sdE bytes
| ferror (f : Z) : sdE bool
| fflush (f : Z) : sdE bool
| fclose (f : Z) : sdE bool  (** returned 0 *)
| unlink (path : bytes) : sdE unlink_res.

(** An open stream: the contents the file had when it was opened and what
    has been accepted since; or what is left to read, and the error
    indicator. *)
Inductive stream : Type :=
| SWrite (path base accepted : bytes) | SRead (rest : bytes) (err : bool).

Record card : Type := Card { files : gmap bytes bytes; streams : gmap Z stream }.

(** The stream [f] for [path] has accepted [c]: the file holds a prefix of it
    after its old contents. *)
Definition accepted (k : card) (f : Z) (path base c : bytes) (k' : card) : Prop :=
  streams k' = <[f := SWrite path base c]> (streams k) /\
  exists d, d `prefix_of` c /\ files k' = <[path := base ++ d]> (files k).

Definition fs_step (k : card) (e : ev sdE) (k' : card) : Prop :=
  match e with
  | Ev e x =>
      match e in sdE X return X -> Prop with
      | fopen path mode => fun r =>
          match r with
          | None => k' = k
          | Some f =>
              streams k !! f = None /\
              match mode with
              | MODE_WB => k' = Card (<[path := []]> (files k)) (<[f := SWrite path [] []]> (streams k))
              | MODE_A => let old := default [] (files k !! path) in
                  k' = Card (<[path := old]> (files k)) (<[f := SWrite path old []]> (streams k))
              | MODE_RB => exists c, files k !! path = Some c /\
                  k' = Card (files k) (<[f := SRead c false]> (streams k))
              end
          end
      | fwrite f data => fun n =>
          0 <= n <= Z.of_nat (length data) /\
          forall path b c, streams k !! f = Some (SWrite path b c) ->
            accepted k f path b (c ++ take (Z.to_nat n) data) k'
      | fputs f data => fun ok =>
          forall path b c, streams k !! f = Some (SWrite path b c) ->
            exists n, (ok = true -> n = length data) /\ accepted k f path b (c ++ take n data) k'
      | fread f cap => fun d =>
          forall rest err, streams k !! f = Some (SRead rest err) ->
            d `prefix_of` take (Z.to_nat cap) rest /\
            exists err', (err = true -> err' = true) /\
              (d <> take (Z.to_nat cap) rest -> err' = true) /\
              k' = Card (files k) (<[f := SRead (drop (length d) rest) err']> (streams k))
      | ferror f => fun r => k' = k /\
          forall rest err, streams k !! f = Some (SRead rest err) -> r = err
      | fflush f => fun _ =>
          forall path b c, streams k !! f = Some (SWrite path b c) -> accepted k f path b c k'
      | fclose f => fun ok =>
          streams k' = delete f (streams k) /\
          (forall path b c, streams k !! f = Some (SWrite path b c) ->
             exists d, d `prefix_of` c /\ (ok = true -> d = c) /\
               files k' = <[path := b ++ d]> (files k)) /\
          (forall rest err, streams k !! f = Some (SRead rest err) -> files k' = files k)
      | unlink path => fun r =>
          match r with
          | UNLINK_OK => k' = Card (delete path (files k)) (streams k)
          | UNLINK_ENOENT => files k !! path = None /\ k' = k
          | UNLINK_ERR => k' = k
          end
      | _ => fun _ => k' = k
      end x
  end.

Fixpoint fs_trace (k : card) (t : list (ev sdE)) (k' : card) : Prop :=
  match t with
  | [] => k' = k
  | e :: t => exists k1, fs_step k e k1 /\ fs_trace k1 t k'
  end.

Lemma fs_trace_app k t1 t2 k' :
  fs_trace k (t1 ++ t2) k' <-> exists k1, fs_trace k t1 k1 /\ fs_trace k1 t2 k'.
Proof.
  revert k. induction t1 as [|e t1 IH]; intros k; simpl; [naive_solver|].
  setoid_rewrite IH. naive_solver.
Qed.

(** Every [fclose] of the trace returned 0. *)
Definition closed_ok (e : ev sdE) : Prop :=
  match e with
  | Ev e x =>
      match e in sdE X return X -> Prop with
      | fclose _ => fun ok => ok = true
      | _ => fun _ => True
      end x
  end.

(** The two cards have the same files except at [path]. *)
Definition same_but (path : bytes) (k k' : card) : Prop :=
  forall p, p <> path -> files k' !! p = files k !! p.

Lemma same_but_insert path d k k' :
  files k' = <[path := d]> (files k) -> same_but path k k'.
Proof. intros H p Hp. rewrite H. by rewrite lookup_insert_ne. Qed.

Lemma same_but_trans path k1 k2 k3 :
  same_but path k1 k2 -> same_but path k2 k3 -> same_but path k1 k3.
Proof. intros H1 H2 p Hp. by rewrite H2, H1. Qed.

(** [fs_inv]: follow the calls of a known trace over the card. *)
Ltac fs_inv :=
  cbn [fs_trace fs_step fst snd] in *;
  repeat match goal with
    | H : exists _, _ |- _ => destruct H
    | H : _ /\ _ |- _ => destruct H
    end;
  subst.

(** One write stream from [fopen] to [fclose]. *)
Lemma stream_written k f path base k1 new k2 ok k3 :
  streams k !! f = None ->
  k1 = Card (<[path := base]> (files k)) (<[f := SWrite path base []]> (streams k)) ->
  accepted k1 f path base new k2 ->
  fs_step k2 (Ev (fclose f) ok) k3 ->
  streams k3 = streams k /\ same_but path k k3 /\
  exists d, d `prefix_of` new /\ (ok = true -> d = new) /\ files k3 !! path = Some (base ++ d).
Proof.
  intros Hf -> [Hs2 (d2 & _ & Hf2)] (Hs3 & Hc & _). cbn in *.
  destruct (Hc path base new) as (d & Hd & Hok & Hf3).
  { rewrite Hs2. by simplify_map_eq. }
  split_and!.
  - rewrite Hs3, Hs2, !delete_insert_eq. by apply delete_id.
  - intros p Hp. rewrite Hf3, Hf2. by simplify_map_eq.
  - exists d. split_and!; [done..|]. rewrite Hf3. by simplify_map_eq.
Qed.

(** One read stream from [fopen] to [fclose]. *)
Lemma stream_read k f c cap d k2 ok k3 :
  streams k !! f = None ->
  fs_step (Card (files k) (<[f := SRead c false]> (streams k))) (Ev (fread f cap) d) k2 ->
  fs_step k2 (Ev (fclose f) ok) k3 ->
  files k3 = files k /\ streams k3 = streams k /\ d `prefix_of` take (Z.to_nat cap) c.
Proof.
  intros Hf Hr (Hs3 & _ & Hc). cbn in *.
  destruct (Hr c false) as (Hp & err & _ & _ & ->); [by simplify_map_eq|]. cbn in *.
  split_and!; [eapply Hc; by simplify_map_eq| |done].
  rewrite Hs3, !insert_insert_eq, delete_insert_eq. by apply delete_id.
Qed.

(** Concrete streams: the steps of a card on which every call succeeds. *)
Lemma fwrite_all fs ss f path base c data :
  ss !! f = Some (SWrite path base c) ->
  fs_step (Card fs ss) (Ev (fwrite f data) (Z.of_nat (length data)))
    (Card (<[path := base ++ c ++ data]> fs) (<[f := SWrite path base (c ++ data)]> ss)).
Proof.
  intros Hf. cbn. split; [lia|]. intros p b c' Hl. rewrite Hf in Hl. simplify_eq.
  rewrite Nat2Z.id, take_ge by lia. split; [done|]. by exists (c' ++ data).
Qed.

Lemma fputs_all fs ss f path base c data :
  ss !! f = Some (SWrite path base c) ->
  fs_step (Card fs ss) (Ev (fputs f data) true)
    (Card (<[path := base ++ c ++ data]> fs) (<[f := SWrite path base (c ++ data)]> ss)).
Proof.
  intros Hf. cbn. intros p b c' Hl. rewrite Hf in Hl. simplify_eq.
  exists (length data). split; [done|]. rewrite take_ge by lia.
  split; [done|]. by exists (c' ++ data).
Qed.

Lemma fclose_write fs ss f path base c :
  ss !! f = Some (SWrite path base c) ->
  fs_step (Card fs ss) (Ev (fclose f) true) (Card (<[path := base ++ c]> fs) (delete f ss)).
Proof.
  intros Hf. cbn. split_and!; [done| |].
  - intros p b c' Hl. rewrite Hf in Hl. simplify_eq. by exists c'.
  - intros rest err Hl. congruence.
Qed.

Lemma fclose_read fs ss f rest err :
  ss !! f = Some (SRead rest err) ->
  fs_step (Card fs ss) (Ev (fclose f) true) (Card fs (delete f ss)).
Proof. intros Hf. cbn. split_and!; [done| |done]. intros p b c Hl. congruence. Qed.
