(* ===== verification/Config.v ===== *)
(** * config.h: the firmware's compile-time parameters

    One definition per macro the modelled code uses, under the macro's
    name. *)

From S2P Require Import Prelude.

(** Audio. *)
Definition SAMPLE_RATE : Z := 16000.
Definition CHANNELS : Z := 1.
Definition FRAME_MS : Z := 20.
Definition FRAME_SAMPLES : Z := SAMPLE_RATE * FRAME_MS / 1000.
Definition OPUS_BITRATE : Z := 32000.
Definition OPUS_COMPLEXITY : Z := 2.
Definition MAX_OPUS_BYTES : Z := 256.

(** Microphone array. *)
Definition I2S_BCK_GPIO : Z := 5.
Definition I2S_WS_GPIO : Z := 6.
Definition I2S_DATA_GPIO : Z := 4.
Definition PRIMARY_CHANNEL : Z := 0.

(** Ring buffer. *)
Definition RING_SECONDS : Z := 60.
Definition RING_FRAMES : Z := RING_SECONDS * 1000 / FRAME_MS.

(** Voice activity detection. *)
Definition VAD_HANGOVER_MS : Z := 600.
Definition VAD_HANGOVER_FRAMES : Z := VAD_HANGOVER_MS / FRAME_MS.
Definition VAD_PREROLL_MS : Z := 300.
Definition VAD_PREROLL_FRAMES : Z := VAD_PREROLL_MS / FRAME_MS.
Definition VAD_ENERGY_THRESHOLD : Z := 50000.
Definition VAD_RATIO_THRESHOLD : Z := 4.
Definition VAD_ENERGY_THRESHOLD_FLOOR : Z := 10000.
Definition VAD_NOISE_MULTIPLIER : Z := 3.
Definition VAD_NOISE_ALPHA_DOWN_Q16 : Z := 1311.
Definition VAD_NOISE_ALPHA_UP_Q16 : Z := 131.

(** Input gain and wind-cut filter. *)
Definition INPUT_GAIN_Q8 : Z := 1024.
Definition HPF_B0_Q14 : Z := 15585.
Definition HPF_B1_Q14 : Z := -31170.
Definition HPF_B2_Q14 : Z := 15585.
Definition HPF_A1_Q14 : Z := -31131.
Definition HPF_A2_Q14 : Z := 14825.

(** Button gesture thresholds. *)
Definition BUTTON_GPIO : Z := 2.
Definition BUTTON_DEBOUNCE_MS : Z := 20.
Definition BUTTON_DOUBLE_GAP_MS : Z := 400.
Definition BUTTON_LONG_MS : Z := 1000.
Definition BUTTON_VERY_LONG_MS : Z := 6000.

(** Battery divider. *)
Definition VBAT_MIN_MV : Z := 3000.
Definition VBAT_FULL_MV : Z := 4100.
Definition BATTERY_SAMPLE_INTERVAL_S : Z := 30.
Definition BATTERY_OVERSAMPLE : Z := 64.

(** BLE advertising cadence. *)
Definition BLE_ADV_FAST_ITVL_MIN_UNITS : Z := 48.
Definition BLE_ADV_FAST_ITVL_MAX_UNITS : Z := 96.
Definition BLE_ADV_FAST_WINDOW_MS : Z := 30000.
Definition BLE_ADV_ITVL_MIN_UNITS : Z := 1280.
Definition BLE_ADV_ITVL_MAX_UNITS : Z := 1600.

(** Dual-microphone canceller. *)
Definition DSP_NLMS_TAPS : Z := 32.
Definition DSP_NLMS_STEP_Q15 : Z := 6553.
Definition DSP_NLMS_LEAK_Q15 : Z := 1.
Definition DSP_NLMS_EPS : Z := 512.

(** C.6 wire format. *)
Definition C6_VERSION : Z := 1.
Definition C6_HEADER_LEN : Z := 12.
Definition C6_FLAG_HISTORICAL : Z := 1.
Definition C6_FLAG_LAST_OF_REQ : Z := 2.
Definition C6_FRAMES_PER_CHUNK : Z := 10.

(** [enum c6_packet_type] and [enum c6_vad_state]. *)
Definition C6_LIVE : Z := 0.
Definition C6_MEMORY_CHUNK : Z := 1.
Definition C6_HISTORICAL : Z := 2.
Definition C6_GAP_MARKER : Z := 0.
Definition C6_SPEECH : Z := 1.
Definition C6_PREROLL : Z := 2.
Definition C6_HANGOVER : Z := 3.

(** Provisioning. *)
Definition PROV_FACTORY_RESET_MAGIC : Z := 0xA5A5A5A5.

(** The compiled-in server key: 32 zero bytes. *)
Definition SERVER_ED25519_PUBKEY : list Z := replicate 32 0.

(** Command executors. *)
Definition EXECUTOR_QUEUE_DEPTH : Z := 8.
Definition REQ_BUFFER_MIN_SECONDS : Z := 1.
Definition REQ_BUFFER_MAX_SECONDS : Z := 60.
Definition DRAIN_REPLAY_QUEUE_DEPTH : Z := 4.

(** Video and snapshots. *)
Definition VIDEO_FPS : Z := 10.
Definition SNAPSHOT_INTERVAL_S : Z := 0.
Definition SNAPSHOT_INTERVAL_MIN : Z := 0.
Definition SNAPSHOT_INTERVAL_MAX : Z := 600.
Definition WIFI_TRANSFER_WINDOW_S : Z := 600.

(** The derived values the header's comments give. *)
Lemma FRAME_SAMPLES_val : FRAME_SAMPLES = 320. Proof. reflexivity. Qed.
Lemma RING_FRAMES_val : RING_FRAMES = 3000. Proof. reflexivity. Qed.
Lemma VAD_HANGOVER_FRAMES_val : VAD_HANGOVER_FRAMES = 30. Proof. reflexivity. Qed.
Lemma VAD_PREROLL_FRAMES_val : VAD_PREROLL_FRAMES = 15. Proof. reflexivity. Qed.

#[export] Hint Unfold SAMPLE_RATE FRAME_MS MAX_OPUS_BYTES
  C6_HEADER_LEN C6_FRAMES_PER_CHUNK C6_VERSION
  C6_LIVE C6_MEMORY_CHUNK C6_HISTORICAL
  C6_GAP_MARKER C6_SPEECH C6_PREROLL C6_HANGOVER : cint.
#[export] Hint Rewrite FRAME_SAMPLES_val RING_FRAMES_val
  VAD_HANGOVER_FRAMES_val VAD_PREROLL_FRAMES_val : cint.

#[global] Arguments RING_FRAMES : simpl never.
#[global] Arguments FRAME_SAMPLES : simpl never.
