(* ===== verification/C6Packet.v ===== *)
(** * c6_packet.c: the writer of the C.6 audio packet, and the parser the
    server runs on it

    [c6_write_packet] is the firmware's writer over an output buffer;
    [encode] and [parse] are the server's [AudioPacket.encode] and
    [AudioPacket.parse] (audio_packet.py).  The theorems show that the two
    tiers agree on the format. *)

From S2P Require Import Prelude Config.

(** ** Nibbles *)

Lemma land_15 (z : Z) : Z.land z 0x0F = z mod 16.
Proof. change 15 with (Z.ones 4). by rewrite Z.land_ones. Qed.

Lemma lor_nibbles (h l : Z) :
  0 <= l < 16 -> Z.lor (Z.shiftl h 4) l = 16 * h + l.
Proof.
  intros Hl. rewrite <-Z.add_nocarry_lor.
  - rewrite Z.shiftl_mul_pow2 by lia. lia.
  - rewrite <-(Z.mod_small l 16) by done. rewrite <-land_15, Z.land_assoc, (Z.land_comm _ l).
    rewrite <-Z.land_assoc, land_15, Z.shiftl_mul_pow2 by lia.
    change (2 ^ 4) with 16. rewrite Z.mod_mul by lia. apply Z.land_0_r.
Qed.

(** ** Writing into a buffer *)

(** [memcpy(out + off, bs, |bs|)]. *)
Definition write_at (out : list Z) (off : nat) (bs : list Z) : list Z :=
  take off out ++ bs ++ drop (off + length bs) out.

Lemma length_write_at (out : list Z) (off : nat) (bs : list Z) :
  (off + length bs <= length out)%nat -> length (write_at out off bs) = length out.
Proof.
  intros. unfold write_at. rewrite !length_app, length_take, length_drop. lia.
Qed.

(** Writing right after an already written prefix extends the prefix. *)
Lemma write_at_prefix (pre bs out rest : list Z) :
  out = pre ++ rest -> (length bs <= length rest)%nat ->
  write_at out (length pre) bs = (pre ++ bs) ++ drop (length bs) rest.
Proof.
  intros -> Hlen. unfold write_at.
  rewrite take_app_length, drop_app_add, <-app_assoc. done.
Qed.

(** ** The firmware's writer *)

Module C6.

(** [c6_frame_t]: a pointer to the payload (the bytes found there) and its
    uint8_t length. *)
Record c6_frame_t : Type := C6Frame { data : list Z; len : Z }.

(** What [memcpy(out + off, frames[i].data, frames[i].len)] copies. *)
Definition payload (f : c6_frame_t) : list Z := take (Z.to_nat (len f)) (data f).

(** A frame the writer may be given: a uint8_t length, and that many
    bytes behind the pointer. *)
Definition frame_ok (f : c6_frame_t) : Prop :=
  is_u8 (len f) /\ (Z.to_nat (len f) <= length (data f))%nat /\ bytes_ok (data f).

(** "Size up front so we never write past cap." *)
Definition c6_total (frames : list c6_frame_t) : Z :=
  fold_left (fun total f => total + (1 + len f)) frames C6_HEADER_LEN.

(** The loop over [frames]: one length byte, then the payload. *)
Fixpoint c6_write_frames (out : list Z) (off : nat) (frames : list c6_frame_t)
  : list Z * nat :=
  match frames with
  | [] => (out, off)
  | f :: fs =>
      let out := write_at out off [len f] in
      let off := S off in
      let out := write_at out off (payload f) in
      c6_write_frames out (off + length (payload f)) fs
  end.

(** [c6_write_packet]: the output buffer after the call and the returned
    size, 0 when nothing is written. *)
Definition c6_write_packet (out : list Z) (cap : Z)
    (ptype chunk_seq rel_ts_ms vad_state flags : Z) (frames : list c6_frame_t)
  : list Z * Z :=
  if 0xFF <? Z.of_nat (length frames) then (out, 0)
  else if cap <? c6_total frames then (out, 0)
  else
    let out := write_at out 0
      [u8 (Z.lor (Z.shiftl (Z.land C6_VERSION 0x0F) 4) (Z.land ptype 0x0F))] in
    let out := write_at out 1 (le32 chunk_seq) in
    let out := write_at out 5 (le32 rel_ts_ms) in
    let out := write_at out 9 [vad_state] in
    let out := write_at out 10 [u8 (Z.of_nat (length frames))] in
    let out := write_at out 11 [flags] in
    let '(out, off) := c6_write_frames out 12 frames in
    (out, Z.of_nat off).

(** The bytes of a packet, as one expression: the writer's specification. *)
Definition wire_body (frames : list c6_frame_t) : list Z :=
  concat (map (fun f => len f :: payload f) frames).

Definition wire (ptype chunk_seq rel_ts_ms vad_state flags : Z)
    (frames : list c6_frame_t) : list Z :=
  [16 + ptype mod 16] ++ le32 chunk_seq ++ le32 rel_ts_ms ++
  [vad_state; Z.of_nat (length frames); flags] ++ wire_body frames.

(** Size of the frame's slot in the packet, and of a run of frames. *)
Definition slot_size (f : c6_frame_t) : Z := 1 + len f.

Definition body_size (frames : list c6_frame_t) : Z :=
  foldr (fun f n => slot_size f + n) 0 frames.

Lemma length_payload (f : c6_frame_t) :
  frame_ok f -> Z.of_nat (length (payload f)) = len f.
Proof.
  intros (Hl & Hd & _). unfold payload. rewrite length_take. clia.
Qed.

Lemma length_wire_body (fs : list c6_frame_t) :
  Forall frame_ok fs -> Z.of_nat (length (wire_body fs)) = body_size fs.
Proof.
  induction 1 as [|f fs Hf _ IH]; [done|].
  unfold wire_body in *. cbn [map concat body_size foldr]. fold (body_size fs).
  rewrite <-IH. cbn [length app]. rewrite length_app.
  pose proof (length_payload f Hf). unfold slot_size. lia.
Qed.

Lemma body_size_nonneg (fs : list c6_frame_t) : Forall frame_ok fs -> 0 <= body_size fs.
Proof. intros. rewrite <-length_wire_body; [lia|done]. Qed.

Lemma body_size_app (fs gs : list c6_frame_t) :
  body_size (fs ++ gs) = body_size fs + body_size gs.
Proof. induction fs; simpl; lia. Qed.

Lemma c6_total_body_size (fs : list c6_frame_t) :
  c6_total fs = C6_HEADER_LEN + body_size fs.
Proof.
  unfold c6_total. generalize C6_HEADER_LEN as a.
  induction fs as [|f fs IH]; intros a; simpl; [lia|].
  rewrite IH. unfold slot_size. lia.
Qed.

(** The writer stores exactly one byte per position of the body. *)
Lemma c6_write_frames_spec (fs : list c6_frame_t) (pre rest : list Z) :
  Forall frame_ok fs ->
  (length (wire_body fs) <= length rest)%nat ->
  c6_write_frames (pre ++ rest) (length pre) fs =
  (pre ++ wire_body fs ++ drop (length (wire_body fs)) rest,
   (length pre + length (wire_body fs))%nat).
Proof.
  intros Hok. revert pre rest. induction Hok as [|f fs Hf _ IH]; intros pre rest Hlen.
  - simpl. rewrite Nat.add_0_r. done.
  - unfold wire_body in Hlen |- *. cbn [map concat length app] in Hlen |- *.
    rewrite length_app in Hlen. fold (wire_body fs) in *.
    cbn [c6_write_frames].
    rewrite (write_at_prefix pre [len f] _ rest) by (done || simpl; lia).
    replace (S (length pre)) with (length (pre ++ [len f])) by (rewrite length_app; simpl; lia).
    rewrite (write_at_prefix (pre ++ [len f]) (payload f) _ (drop 1 rest))
      by (rewrite ?length_drop; simpl; done || lia).
    cbv zeta. rewrite <-length_app.
    rewrite drop_drop. rewrite IH by (rewrite length_drop; simpl; lia).
    f_equal; [|rewrite !length_app; simpl; lia].
    rewrite <-!app_assoc, drop_drop. simpl. do 4 f_equal. rewrite length_app. done.
Qed.

Lemma c6_version_byte (ptype : Z) :
  u8 (Z.lor (Z.shiftl (Z.land C6_VERSION 0x0F) 4) (Z.land ptype 0x0F)) = 16 + ptype mod 16.
Proof.
  change (Z.land C6_VERSION 0x0F) with 1. rewrite land_15, lor_nibbles by clia. clia.
Qed.

(** On well-formed input the writer returns the packet's size and leaves
    the packet at the head of the buffer, the rest untouched. *)
Lemma c6_write_packet_spec out cap ptype chunk_seq rel_ts_ms vad_state flags frames :
  Forall frame_ok frames ->
  (length frames <= 255)%nat ->
  C6_HEADER_LEN + body_size frames <= cap <= Z.of_nat (length out) ->
  let w := wire ptype chunk_seq rel_ts_ms vad_state flags frames in
  c6_write_packet out cap ptype chunk_seq rel_ts_ms vad_state flags frames =
  (w ++ drop (length w) out, Z.of_nat (length w)).
Proof.
  intros Hok Hn Hcap w. unfold c6_write_packet.
  destruct (Z.ltb_spec 255 (Z.of_nat (length frames))); [lia|].
  rewrite c6_total_body_size. destruct (Z.ltb_spec cap (C6_HEADER_LEN + body_size frames)); [lia|].
  pose proof (length_wire_body frames Hok) as Hbody.
  pose proof (body_size_nonneg frames Hok). unfold C6_HEADER_LEN in *.
  rewrite c6_version_byte, (u8_small (Z.of_nat _)) by clia.
  do 12 (destruct out as [|? out]; [simpl in *; lia|]).
  unfold w, wire. simpl write_at.
  pose proof (c6_write_frames_spec frames
    ([16 + ptype mod 16] ++ le32 chunk_seq ++ le32 rel_ts_ms ++
      [vad_state; Z.of_nat (length frames); flags]) out Hok) as Hw.
  simpl in Hw. unfold write_at. simpl. rewrite drop_0, Hw by (simpl in *; lia).
  f_equal; simpl; lia.
Qed.
End C6.

(** ** The server's codec (audio_packet.py) *)

Module Server.

Inductive PacketType : Set := LIVE | MEMORY_CHUNK | HISTORICAL.
Inductive VadState : Set := GAP_MARKER | SPEECH | PREROLL | HANGOVER.

#[export] Instance PacketType_eq_dec : EqDecision PacketType.
Proof. solve_decision. Defined.
#[export] Instance VadState_eq_dec : EqDecision VadState.
Proof. solve_decision. Defined.

Definition ptype_val (p : PacketType) : Z :=
  match p with LIVE => 0 | MEMORY_CHUNK => 1 | HISTORICAL => 2 end.
Definition vad_val (v : VadState) : Z :=
  match v with GAP_MARKER => 0 | SPEECH => 1 | PREROLL => 2 | HANGOVER => 3 end.

(** [PacketType(raw)], [VadState(raw)]: a ValueError is [None]. *)
Definition ptype_of (z : Z) : option PacketType :=
  if z =? 0 then Some LIVE else if z =? 1 then Some MEMORY_CHUNK
  else if z =? 2 then Some HISTORICAL else None.
Definition vad_of (z : Z) : option VadState :=
  if z =? 0 then Some GAP_MARKER else if z =? 1 then Some SPEECH
  else if z =? 2 then Some PREROLL else if z =? 3 then Some HANGOVER else None.

Lemma ptype_of_val (p : PacketType) : ptype_of (ptype_val p) = Some p.
Proof. by destruct p. Qed.
Lemma vad_of_val (v : VadState) : vad_of (vad_val v) = Some v.
Proof. by destruct v. Qed.
Lemma ptype_val_of (z : Z) (p : PacketType) : ptype_of z = Some p -> z = ptype_val p.
Proof.
  unfold ptype_of. repeat case_match; intros; simplify_eq; simpl; lia.
Qed.
Lemma vad_val_of (z : Z) (v : VadState) : vad_of z = Some v -> z = vad_val v.
Proof.
  unfold vad_of. repeat case_match; intros; simplify_eq; simpl; lia.
Qed.

Record AudioPacket : Type := MkAudioPacket {
  version : Z;
  ptype : PacketType;
  chunk_seq : Z;
  rel_ts_ms : Z;
  vad_state : VadState;
  flags : Z;
  frames : list (list Z);
}.

(** [AudioPacketError], one constructor per raise. *)
Inductive AudioPacketError : Set :=
| TooManyFrames
| FrameTooLong (i : nat)
| BufferTooShort
| UnknownPacketType (raw : Z)
| UnknownVadState (raw : Z)
| RanOutOfData (i : nat)
| FrameTruncated (i : nat).

Fixpoint encode_body (i : nat) (fs : list (list Z)) : AudioPacketError + list Z :=
  match fs with
  | [] => inr []
  | f :: fs =>
      if 0xFF <? Z.of_nat (length f) then inl (FrameTooLong i)
      else match encode_body (S i) fs with
           | inl e => inl e
           | inr body => inr (Z.of_nat (length f) :: f ++ body)
           end
  end.

(** [_HEADER.pack(...)], struct "<BIIBBB". *)
Definition pack_header (ver_ptype cs ts vad count flags : Z) : list Z :=
  [ver_ptype] ++ le32 cs ++ le32 ts ++ [vad; count; flags].

(** [AudioPacket.encode]. *)
Definition encode (p : AudioPacket) : AudioPacketError + list Z :=
  if 0xFF <? Z.of_nat (length (frames p)) then inl TooManyFrames
  else match encode_body 0 (frames p) with
       | inl e => inl e
       | inr body =>
           inr (pack_header
                  (Z.lor (Z.shiftl (Z.land (version p) 0x0F) 4)
                         (Z.land (ptype_val (ptype p)) 0x0F))
                  (chunk_seq p) (rel_ts_ms p) (vad_val (vad_state p))
                  (Z.of_nat (length (frames p))) (flags p) ++ body)
       end.

(** The frame loop of [AudioPacket.parse]; [rest] is [data[offset:]]. *)
Fixpoint parse_frames (n : nat) (i : nat) (rest : list Z)
  : AudioPacketError + list (list Z) :=
  match n with
  | O => inr []
  | S n =>
      match rest with
      | [] => inl (RanOutOfData i)
      | l :: rest =>
          if decide (length rest < Z.to_nat l)%nat then inl (FrameTruncated i)
          else match parse_frames n (S i) (drop (Z.to_nat l) rest) with
               | inl e => inl e
               | inr fs => inr (take (Z.to_nat l) rest :: fs)
               end
      end
  end.

(** [AudioPacket.parse]. *)
Definition parse (d : list Z) : AudioPacketError + AudioPacket :=
  match d with
  | b0 :: c0 :: c1 :: c2 :: c3 :: t0 :: t1 :: t2 :: t3 :: vad :: count :: fl :: rest =>
      let version := Z.land (Z.shiftr b0 4) 0x0F in
      let ptype_raw := Z.land b0 0x0F in
      match ptype_of ptype_raw with
      | None => inl (UnknownPacketType ptype_raw)
      | Some pt =>
          match vad_of vad with
          | None => inl (UnknownVadState vad)
          | Some vs =>
              match parse_frames (Z.to_nat count) 0 rest with
              | inl e => inl e
              | inr fs =>
                  inr (MkAudioPacket version pt (un_le32 c0 c1 c2 c3)
                         (un_le32 t0 t1 t2 t3) vs fl fs)
              end
          end
      end
  | _ => inl BufferTooShort
  end.

(** [is_last_of_request]: bit 1 of the flags. *)
Definition is_last_of_request (p : AudioPacket) : bool :=
  negb (Z.land (flags p) 2 =? 0).

(** ** Lemmas on the server's codec *)

(** The frame section of a packet. *)
Definition body_bytes (fs : list (list Z)) : list Z :=
  concat (map (fun f => Z.of_nat (length f) :: f) fs).

Lemma encode_body_inr (fs : list (list Z)) (i : nat) :
  Forall (fun f => length f <= 255)%nat fs -> encode_body i fs = inr (body_bytes fs).
Proof.
  intros H. revert i. induction H as [|f fs Hf _ IH]; intros i; [done|].
  simpl. destruct (Z.ltb_spec 255 (Z.of_nat (length f))); [lia|]. by rewrite IH.
Qed.

Lemma parse_frames_body (fs : list (list Z)) (i : nat) (tl : list Z) :
  parse_frames (length fs) i (body_bytes fs ++ tl) = inr fs.
Proof.
  revert i. induction fs as [|f fs IH]; intros i; [done|].
  unfold body_bytes. cbn [map concat length]. fold (body_bytes fs).
  cbn [app parse_frames]. rewrite Nat2Z.id, <-app_assoc.
  rewrite decide_False by (rewrite length_app; lia).
  by rewrite drop_app_length, IH, take_app_length.
Qed.

Lemma parse_frames_inv (n i : nat) (rest : list Z) (fs : list (list Z)) :
  bytes_ok rest -> parse_frames n i rest = inr fs ->
  length fs = n /\ Forall (fun f => length f <= 255)%nat fs /\
  exists tl, rest = body_bytes fs ++ tl.
Proof.
  revert i rest fs. induction n as [|n IH]; intros i rest fs Hb Hp; simpl in Hp.
  { simplify_eq. split; [done|]. split; [done|]. by exists rest. }
  destruct rest as [|l rest]; [done|]. case_decide; [done|].
  destruct (parse_frames n (S i) _) as [|gs] eqn:Hg; [done|]. simplify_eq.
  inversion Hb as [|? ? Hl Hr]; subst.
  apply IH in Hg as (Hn & Hall & tl & Htl); [|by apply Forall_drop].
  assert (length (take (Z.to_nat l) rest) = Z.to_nat l) as Hlen
    by (rewrite length_take; lia).
  split; [simpl; lia|]. split; [constructor; [rewrite Hlen; clia|done]|].
  exists tl. unfold body_bytes. cbn [map concat]. fold (body_bytes gs).
  rewrite Hlen, Z2Nat.id by clia. cbn [app]. f_equal.
  rewrite <-app_assoc, <-Htl. by rewrite take_drop.
Qed.

(** A parse that runs past the end of the data fails. *)
Lemma parse_frames_short (fs : list (list Z)) (i k : nat) :
  (k < length (body_bytes fs))%nat ->
  exists e, parse_frames (length fs) i (take k (body_bytes fs)) = inl e.
Proof.
  revert i k. induction fs as [|f fs IH]; intros i k Hk; [simpl in Hk; lia|].
  unfold body_bytes in *. cbn [map concat length] in *. fold (body_bytes fs) in *.
  destruct k as [|k]; [by eexists|]. cbn [app take parse_frames]. rewrite Nat2Z.id.
  simpl in Hk. rewrite length_app in Hk.
  case_decide as Hd; [by eexists|].
  rewrite length_take, length_app in Hd. rewrite take_app_ge by lia.
  rewrite drop_app_length.
  destruct (IH (S i) (k - length f)%nat) as [e ->]; [lia|]. by eexists.
Qed.

Lemma nibbles_hi (h l : Z) : 0 <= h < 16 -> 0 <= l < 16 ->
  Z.land (Z.shiftr (16 * h + l) 4) 0x0F = h.
Proof. intros. rewrite land_15, shiftr_div by lia. change (2 ^ 4) with 16. clia. Qed.

Lemma nibbles_lo (h l : Z) : 0 <= h < 16 -> 0 <= l < 16 ->
  Z.land (16 * h + l) 0x0F = l.
Proof. intros. rewrite land_15. clia. Qed.

End Server.

(** ** Theorems *)

Module C6Theorems.
Import C6.

Lemma wire_body_payloads (frames : list c6_frame_t) :
  Forall frame_ok frames -> Server.body_bytes (map payload frames) = wire_body frames.
Proof.
  induction 1 as [|f fs Hf _ IH]; [done|].
  unfold Server.body_bytes, wire_body in *. cbn [map concat].
  by rewrite IH, (length_payload f Hf).
Qed.

Lemma wire_encode (pt : Server.PacketType) (vs : Server.VadState) cs ts flags frames :
  Forall frame_ok frames -> (length frames <= 255)%nat ->
  Server.encode (Server.MkAudioPacket 1 pt cs ts vs flags (map payload frames)) =
  inr (wire (Server.ptype_val pt) cs ts (Server.vad_val vs) flags frames).
Proof.
  intros Hok Hn. unfold Server.encode. cbn [Server.frames].
  rewrite length_map. destruct (Z.ltb_spec 255 (Z.of_nat (length frames))); [lia|].
  rewrite Server.encode_body_inr; cycle 1.
  { apply Forall_fmap. eapply Forall_impl; [exact Hok|]. intros f Hf. simpl.
    pose proof (length_payload f Hf). destruct Hf as [? _]. clia. }
  f_equal. unfold wire, Server.pack_header. rewrite <-wire_body_payloads by done.
  change 0x0F with 15. rewrite !land_15, lor_nibbles by clia.
  destruct pt; by rewrite <-!app_assoc.
Qed.

Lemma parse_wire (pt : Server.PacketType) (vs : Server.VadState) cs ts flags frames tl :
  Forall frame_ok frames -> (length frames <= 255)%nat -> is_u32 cs -> is_u32 ts ->
  Server.parse
    (wire (Server.ptype_val pt) cs ts (Server.vad_val vs) flags frames ++ tl) =
  inr (Server.MkAudioPacket 1 pt cs ts vs flags (map payload frames)).
Proof.
  intros Hok Hn Hcs Hts. unfold wire. simpl. unfold Server.parse.
  assert (0 <= Server.ptype_val pt < 16) by (destruct pt; simpl; lia).
  rewrite (Z.mod_small (Server.ptype_val pt)) by done.
  change (16 + Server.ptype_val pt) with (16 * 1 + Server.ptype_val pt).
  rewrite Server.nibbles_hi, Server.nibbles_lo by lia.
  rewrite Server.ptype_of_val, Server.vad_of_val, Nat2Z.id.
  rewrite <-wire_body_payloads by done.
  rewrite <-(length_map payload frames), Server.parse_frames_body.
  by rewrite !un_le32_le32, !u32_small.
Qed.

(** C12. The firmware and the server agree on the C.6 wire format.  When a
    packet fits, [c6_write_packet] returns its exact size, the bytes it
    stored are those the server's [AudioPacket.encode] produces for the same
    fields, and [AudioPacket.parse] recovers version, type, sequence number,
    timestamp, VAD state, flags and every frame. *)
Theorem writer_parser_roundtrip out cap pt vs cs ts flags frames :
  Forall frame_ok frames -> (length frames <= 255)%nat ->
  is_u32 cs -> is_u32 ts ->
  C6_HEADER_LEN + body_size frames <= cap <= Z.of_nat (length out) ->
  let pkt := Server.MkAudioPacket 1 pt cs ts vs flags (map payload frames) in
  exists out' n,
    c6_write_packet out cap (Server.ptype_val pt) cs ts (Server.vad_val vs) flags frames
      = (out', n) /\
    n = C6_HEADER_LEN + body_size frames /\
    Server.encode pkt = inr (take (Z.to_nat n) out') /\
    Server.parse (take (Z.to_nat n) out') = inr pkt.
Proof.
  intros Hok Hn Hcs Hts Hcap pkt.
  rewrite c6_write_packet_spec by done.
  do 2 eexists. split; [done|]. rewrite Nat2Z.id, take_app_length.
  split; [|split].
  - rewrite <-length_wire_body by done. unfold wire. simpl. clia.
  - by apply wire_encode.
  - rewrite <-(app_nil_r (wire _ _ _ _ _ _)). by apply parse_wire.
Qed.

Lemma writer_parser_roundtrip_witness :
  let f := C6Frame [1; 2; 3] 3 in
  exists out' n,
    c6_write_packet (replicate 20 7) 20 0 7 140 1 0 [f] = (out', n) /\
    n = 16 /\ Server.encode (Server.MkAudioPacket 1 Server.LIVE 7 140 Server.SPEECH 0 [[1;2;3]])
      = inr (take (Z.to_nat n) out') /\
    Server.parse (take (Z.to_nat n) out')
      = inr (Server.MkAudioPacket 1 Server.LIVE 7 140 Server.SPEECH 0 [[1;2;3]]).
Proof.
  intros f.
  apply (writer_parser_roundtrip (replicate 20 7) 20 Server.LIVE Server.SPEECH 7 140 0 [f]).
  - repeat constructor; simpl; clia.
  - simpl; lia.
  - clia.
  - clia.
  - split; by vm_compute.
Defined.

(** C13. The size check precedes every store: the writer returns 0 exactly
    when there are more than 255 frames or the packet does not fit in [cap],
    and then the buffer is untouched; otherwise no byte at or past the
    returned size, hence none past [cap], changes. *)
Theorem writer_stays_in_buffer out cap ptype cs ts vad flags frames :
  Forall frame_ok frames -> cap <= Z.of_nat (length out) ->
  let '(out', n) := c6_write_packet out cap ptype cs ts vad flags frames in
  (n = 0 <-> (255 < length frames)%nat \/ cap < C6_HEADER_LEN + body_size frames) /\
  (n = 0 -> out' = out) /\
  n <= Z.max 0 cap /\ length out' = length out /\
  drop (Z.to_nat n) out' = drop (Z.to_nat n) out.
Proof.
  intros Hok Hcap.
  pose proof (body_size_nonneg frames Hok) as Hb0.
  pose proof (length_wire_body frames Hok) as Hwb.
  destruct (decide (length frames <= 255)%nat) as [Hn|Hn];
    [destruct (decide (C6_HEADER_LEN + body_size frames <= cap)) as [Hc|Hc]|].
  - rewrite c6_write_packet_spec by done.
    set (w := wire _ _ _ _ _ _).
    assert (Z.of_nat (length w) = C6_HEADER_LEN + body_size frames) as Hw
      by (unfold w, wire; simpl; clia).
    rewrite length_app, length_drop, Nat2Z.id, drop_app_length.
    unfold C6_HEADER_LEN in *. split; [lia|]. split; [intros; exfalso; lia|]. split; [lia|]. split; [lia|done].
  - unfold c6_write_packet. rewrite c6_total_body_size.
    destruct (Z.ltb_spec 255 (Z.of_nat (length frames))); [lia|].
    destruct (Z.ltb_spec cap (C6_HEADER_LEN + body_size frames)); [|lia].
    split; [split; [auto with lia|done]|]. repeat split; lia || done.
  - unfold c6_write_packet.
    destruct (Z.ltb_spec 255 (Z.of_nat (length frames))); [|lia].
    split; [split; [auto with lia|done]|]. repeat split; lia || done.
Qed.

Lemma writer_stays_in_buffer_witness :
  let '(out', n) := c6_write_packet (replicate 13 7) 13 0 1 2 1 0 [C6Frame [1;2;3] 3] in
  n = 0 /\ out' = replicate 13 7.
Proof.
  pose proof (writer_stays_in_buffer (replicate 13 7) 13 0 1 2 1 0 [C6Frame [1;2;3] 3]) as H.
  destruct (c6_write_packet _ _ _ _ _ _ _ _) as [out' n].
  destruct H as ([_ H0] & H1 & _).
  - repeat constructor; simpl; clia.
  - simpl; lia.
  - split; [|apply H1]; apply H0; right; by vm_compute.
Defined.



(** A truncated packet never reaches the ingest pipeline: the server's
    parser refuses every proper prefix of a packet the firmware wrote. *)
Lemma truncated_packet_rejected pt vs cs ts flags frames k :
  Forall frame_ok frames -> (length frames <= 255)%nat ->
  let w := wire (Server.ptype_val pt) cs ts (Server.vad_val vs) flags frames in
  (k < length w)%nat ->
  exists e, Server.parse (take k w) = inl e.
Proof.
  intros Hok Hn w Hk.
  do 12 (destruct k as [|k]; [by eexists|]).
  unfold w, wire in *. cbn [app take length le32] in *. unfold Server.parse.
  assert (0 <= Server.ptype_val pt < 16) by (destruct pt; simpl; lia).
  rewrite (Z.mod_small (Server.ptype_val pt)) by done.
  change (16 + Server.ptype_val pt) with (16 * 1 + Server.ptype_val pt).
  rewrite Server.nibbles_lo by lia.
  rewrite Server.ptype_of_val, Server.vad_of_val, Nat2Z.id.
  rewrite <-wire_body_payloads in Hk |- * by done.
  rewrite <-(length_map payload frames).
  destruct (Server.parse_frames_short (map payload frames) 0 k) as [e ->]; [lia|].
  by eexists.
Qed.

End C6Theorems.
