(* ===== verification/RingBuffer.v ===== *)
(** * ring_buffer.c: 60 s of encoded frames in a circular array

    The concrete state is the array of slots and the write counter; the
    abstract state is the list of every frame ever pushed.  [ring_ok]
    relates them; the theorems say that the operations are operations on
    that list, seen through a window of its last [RING_FRAMES] entries.
    Each function of ring_buffer.c is one critical section
    (taskENTER_CRITICAL .. taskEXIT_CRITICAL), so each is one atomic
    definition here. *)

From S2P Require Import Prelude Config.

(** [ring_slot_t]; [slot_data] is the array [data[MAX_OPUS_BYTES]]. *)
Record ring_slot_t : Type := Slot {
  slot_rel_ts_ms : Z;
  slot_vad_state : Z;
  slot_len : Z;
  slot_data : list Z;
}.

(** The file's static variables [s_slots] and [s_write_index]. *)
Record ring : Type := Ring { s_slots : list ring_slot_t; s_write_index : Z }.

(** [ring_frame_t]: the [data] pointer is the number of the slot whose
    array it points into, or the caller's own buffer. *)
Inductive data_ptr : Type := InSlot (slot : nat) | InBuffer.

Record ring_frame_t : Type := RingFrame {
  vad_state : Z;
  rel_ts_ms : Z;
  len : Z;
  data : data_ptr;
}.

Definition zero_slot : ring_slot_t :=
  Slot 0 0 0 (replicate (Z.to_nat MAX_OPUS_BYTES) 0).

(** The calloc'ed array of [RING_FRAMES] slots, and the counter at 0. *)
Definition zero_ring : ring := Ring (replicate (Z.to_nat RING_FRAMES) zero_slot) 0.
#[global] Arguments zero_ring : simpl never.

(** [ring_buffer_init]: [alloc] is whether heap_caps_calloc returned
    memory; [None] is ESP_ERR_NO_MEM. *)
Definition ring_buffer_init (alloc : bool) : option ring :=
  if alloc then Some zero_ring else None.

Definition slot_of (index : Z) : nat := Z.to_nat (index mod RING_FRAMES).

(** [memcpy(slot->data, data, len)]. *)
Definition copy_into (dst src : list Z) (n : Z) : list Z :=
  take (Z.to_nat n) src ++ drop (Z.to_nat n) dst.

(** [ring_buffer_push]; [data] is [None] for a NULL pointer. *)
Definition ring_buffer_push (r : ring) (vad ts : Z) (src : option (list Z)) (n : Z) : ring :=
  let i := slot_of (s_write_index r) in
  let old := default zero_slot (s_slots r !! i) in
  let bytes :=
    match src with
    | Some d => if 0 <? n then copy_into (slot_data old) d n else slot_data old
    | None => slot_data old
    end in
  Ring (<[i := Slot ts vad n bytes]> (s_slots r)) (u32 (s_write_index r + 1)).

Definition ring_buffer_write_index (r : ring) : Z := s_write_index r.

(** [index < w && (w - index) <= RING_FRAMES]. *)
Definition in_range (r : ring) (index : Z) : bool :=
  (index <? s_write_index r) && (s_write_index r - index <=? RING_FRAMES).

(** [ring_buffer_get]: [None] is a false return. *)
Definition ring_buffer_get (r : ring) (index : Z) : option ring_frame_t :=
  if in_range r index then
    let i := slot_of index in
    let s := default zero_slot (s_slots r !! i) in
    Some (RingFrame (slot_vad_state s) (slot_rel_ts_ms s) (slot_len s) (InSlot i))
  else None.

(** [ring_buffer_get_copy]: the frame and the bytes stored at the head of
    [data_buf]. *)
Definition ring_buffer_get_copy (r : ring) (index : Z) : option (ring_frame_t * list Z) :=
  if in_range r index then
    let s := default zero_slot (s_slots r !! slot_of index) in
    Some (RingFrame (slot_vad_state s) (slot_rel_ts_ms s) (slot_len s) InBuffer,
          if 0 <? slot_len s then take (Z.to_nat (slot_len s)) (slot_data s) else [])
  else None.

(** Reading [n] bytes through a pointer into the ring, whatever it holds
    by then. *)
Definition ring_read (r : ring) (slot : nat) (n : Z) : list Z :=
  take (Z.to_nat n) (slot_data (default zero_slot (s_slots r !! slot))).

(** ** The abstract history *)

(** One pushed frame: state, timestamp and the encoded bytes. *)
Record frame : Type := Frame { fr_vad : Z; fr_ts : Z; fr_bytes : list Z }.

Definition fr_len (f : frame) : Z := Z.of_nat (length (fr_bytes f)).

#[export] Instance frame_eq_dec : EqDecision frame.
Proof. solve_decision. Defined.

(** The slot holds the frame: its bytes are the first [len] of the array. *)
Definition slot_holds (s : ring_slot_t) (f : frame) : Prop :=
  slot_vad_state s = fr_vad f /\ slot_rel_ts_ms s = fr_ts f /\
  slot_len s = fr_len f /\ take (Z.to_nat (slot_len s)) (slot_data s) = fr_bytes f.

(** The window of readable indices. *)
Definition in_window (h : list frame) (i : Z) : Prop :=
  0 <= i < Z.of_nat (length h) /\ Z.of_nat (length h) - i <= RING_FRAMES.

Record ring_ok (r : ring) (h : list frame) : Prop := {
  ring_ok_count : s_write_index r = Z.of_nat (length h);
  ring_ok_u32 : is_u32 (Z.of_nat (length h));
  ring_ok_slots : length (s_slots r) = Z.to_nat RING_FRAMES;
  ring_ok_holds : forall i f, in_window h (Z.of_nat i) -> h !! i = Some f ->
    slot_holds (default zero_slot (s_slots r !! slot_of (Z.of_nat i))) f;
}.

(** The [ring_frame_t] (up to the pointer) that presents a frame. *)
Definition presents (rf : ring_frame_t) (f : frame) : Prop :=
  vad_state rf = fr_vad f /\ rel_ts_ms rf = fr_ts f /\ len rf = fr_len f.

(** What the callers of [ring_buffer_push] pass. *)
Definition push_args_ok (src : option (list Z)) (n : Z) (bytes : list Z) : Prop :=
  is_u8 n /\
  match src with
  | Some d => n <= Z.of_nat (length d) /\ bytes = take (Z.to_nat n) d
  | None => n = 0 /\ bytes = []
  end.

Lemma slot_of_lt (i : Z) : (slot_of i < Z.to_nat RING_FRAMES)%nat.
Proof.
  unfold slot_of. rewrite RING_FRAMES_val.
  pose proof (Z.mod_pos_bound i 3000). lia.
Qed.

(** Two indices of one window use different slots. *)
Lemma slot_of_inj (i j : Z) :
  0 <= i -> 0 <= j -> Z.abs (i - j) < RING_FRAMES -> slot_of i = slot_of j -> i = j.
Proof.
  unfold slot_of. rewrite RING_FRAMES_val. intros Hi Hj Hd Heq.
  assert (i mod 3000 = j mod 3000) by
    (apply Z2Nat.inj; [apply Z.mod_pos_bound; lia..|done]).
  Z.div_mod_to_equations. lia.
Qed.

Lemma slot_of_shift (i : Z) : slot_of (i + RING_FRAMES) = slot_of i.
Proof. unfold slot_of. rewrite RING_FRAMES_val. f_equal. clia. Qed.

#[export] Hint Resolve slot_of_lt : cint.

(** ** Lemmas *)


Lemma length_copy_into (dst src : list Z) (n : Z) (bytes : list Z) :
  0 <= n <= Z.of_nat (length src) ->
  take (Z.to_nat n) (copy_into dst src n) = take (Z.to_nat n) src.
Proof.
  intros. unfold copy_into. rewrite take_app_le; [|rewrite length_take; lia].
  rewrite take_take. f_equal. lia.
Qed.

Lemma push_slot_holds old vad ts src n bytes :
  push_args_ok src n bytes ->
  slot_holds
    (Slot ts vad n
       match src with
       | Some d => if 0 <? n then copy_into (slot_data old) d n else slot_data old
       | None => slot_data old
       end) (Frame vad ts bytes).
Proof.
  intros [Hn Hsrc]. unfold slot_holds, fr_len. simpl.
  destruct src as [d|]; destruct Hsrc as [Hd ->].
  - rewrite length_take. split_and!; [done|done|clia|].
    destruct (Z.ltb_spec 0 n); [by rewrite length_copy_into by (done || clia)|].
    by replace (Z.to_nat n) with 0%nat by clia.
  - subst. by split_and!.
Qed.

(** The static invariant holds after initialisation. *)
Lemma ring_init_ok r : ring_buffer_init true = Some r -> ring_ok r [].
Proof.
  intros [= <-]. split.
  - done.
  - simpl. clia.
  - unfold zero_ring. cbn [s_slots]. apply length_replicate.
  - intros i f Hw. destruct Hw as [[? ?] _]. simpl in *. lia.
Qed.

Lemma in_range_window r h i :
  ring_ok r h -> 0 <= i -> in_range r i = true <-> in_window h i.
Proof.
  intros Hr Hi. unfold in_range, in_window.
  rewrite (ring_ok_count _ _ Hr), andb_true_iff, Z.ltb_lt, Z.leb_le. lia.
Qed.

Lemma window_lookup h i : in_window h i -> exists f, h !! Z.to_nat i = Some f.
Proof. intros [? _]. apply lookup_lt_is_Some. lia. Qed.

Lemma ring_slot_at r h i f :
  ring_ok r h -> in_window h i -> h !! Z.to_nat i = Some f ->
  slot_holds (default zero_slot (s_slots r !! slot_of i)) f.
Proof.
  intros Hr Hw Hf. destruct Hw as [? ?] eqn:?.
  replace i with (Z.of_nat (Z.to_nat i)) by lia.
  apply (ring_ok_holds _ _ Hr); [by rewrite Z2Nat.id by lia|done].
Qed.

#[export] Hint Resolve ring_init_ok ring_slot_at : ring.

(** One push, on the abstract side an append. *)
Lemma ring_push_ok r h vad ts src n bytes :
  ring_ok r h -> push_args_ok src n bytes ->
  Z.of_nat (length h) + 1 < 4294967296 ->
  ring_ok (ring_buffer_push r vad ts src n) (h ++ [Frame vad ts bytes]).
Proof.
  intros Hr Hargs Hlen.
  pose proof (ring_ok_count _ _ Hr) as Hc. pose proof (ring_ok_slots _ _ Hr) as Hs.
  assert (length (h ++ [Frame vad ts bytes]) = S (length h)) as Happ
    by (rewrite length_app; simpl; lia).
  split.
  - simpl. rewrite Hc, Happ. clia.
  - rewrite Happ. clia.
  - simpl. by rewrite length_insert.
  - intros i f Hw Hf. simpl. rewrite Hc.
    apply lookup_snoc_Some in Hf as [[Hi Hf]|[-> <-]].
    + rewrite list_lookup_insert_ne.
      * apply ring_slot_at with h; rewrite ?Nat2Z.id; try done.
        unfold in_window in *. lia.
      * intros Heq. apply slot_of_inj in Heq; [|lia..|]; unfold in_window in *; lia.
    + rewrite list_lookup_insert_eq by (rewrite Hs; auto with cint). simpl.
      by apply push_slot_holds.
Qed.

(** Reading inside the window, and outside it. *)
Lemma ring_get_in r h i f :
  ring_ok r h -> in_window h i -> h !! Z.to_nat i = Some f ->
  ring_buffer_get r i =
    Some (RingFrame (fr_vad f) (fr_ts f) (fr_len f) (InSlot (slot_of i))) /\
  ring_buffer_get_copy r i =
    Some (RingFrame (fr_vad f) (fr_ts f) (fr_len f) InBuffer, fr_bytes f) /\
  ring_read r (slot_of i) (fr_len f) = fr_bytes f.
Proof.
  intros Hr Hw Hf. assert (0 <= i) as Hi by (unfold in_window in Hw; lia).
  unfold ring_buffer_get, ring_buffer_get_copy, ring_read.
  rewrite (proj2 (in_range_window _ _ _ Hr Hi) Hw).
  destruct (ring_slot_at _ _ _ _ Hr Hw Hf) as (-> & -> & H3 & H4).
  rewrite H4. rewrite H3 in *. split_and!; [done| |done].
  f_equal. f_equal. destruct (Z.ltb_spec 0 (fr_len f)) as [|Hz]; [done|]. revert Hz.
  unfold fr_len. destruct (fr_bytes f); [done|simpl; lia].
Qed.

Lemma ring_get_out r h i :
  ring_ok r h -> 0 <= i -> ~ in_window h i ->
  ring_buffer_get r i = None /\ ring_buffer_get_copy r i = None.
Proof.
  intros Hr Hi Hw. unfold ring_buffer_get, ring_buffer_get_copy.
  destruct (in_range r i) eqn:Hin; [|done].
  destruct Hw. by apply (in_range_window _ _ _ Hr Hi).
Qed.

(** Several pushes in a row, as the producer makes them. *)
Definition push_all (r : ring) (fs : list frame) : ring :=
  foldl (fun r f => ring_buffer_push r (fr_vad f) (fr_ts f) (Some (fr_bytes f)) (fr_len f)) r fs.

Lemma push_all_ok r h fs :
  ring_ok r h -> Forall (fun f => is_u8 (fr_len f)) fs ->
  Z.of_nat (length h + length fs) < 4294967296 ->
  ring_ok (push_all r fs) (h ++ fs).
Proof.
  intros Hr Hfs. revert r h Hr. induction Hfs as [|f fs Hf _ IH]; intros r h Hr Hlen.
  { by rewrite app_nil_r. }
  simpl in *. replace (h ++ f :: fs) with ((h ++ [f]) ++ fs) by by rewrite <-app_assoc.
  apply IH; [|rewrite length_app; simpl; lia].
  destruct f as [v t bs]. apply ring_push_ok; [done| |lia].
  split; [done|]. unfold fr_len in *. simpl in *. split; [lia|].
  by rewrite Nat2Z.id, take_ge by lia.
Qed.

(** A ring with one frame, for the witnesses. *)
Definition one_frame_ring : ring :=
  ring_buffer_push zero_ring C6_SPEECH 20 (Some [1; 2; 3]) 3.

Lemma one_frame_ring_ok : ring_ok one_frame_ring [Frame C6_SPEECH 20 [1; 2; 3]].
Proof.
  apply (ring_push_ok zero_ring [] C6_SPEECH 20 (Some [1; 2; 3]) 3 [1; 2; 3]).
  - by apply ring_init_ok.
  - split; [clia|]. split; [simpl; lia|done].
  - simpl. lia.
Qed.

(** ** Theorems *)

(** C17. [ring_buffer_push] implements "append to the history": from any
    state that represents history [h], and as long as the uint32_t counter
    has not run out, the new state represents [h] with the pushed frame at
    its end; so every frame of the last 60 s, the new one and the older ones,
    reads back through both accessors with the bytes it was pushed with. *)
Theorem push_refines_append r h vad ts src n bytes :
  ring_ok r h -> push_args_ok src n bytes ->
  Z.of_nat (length h) + 1 < 4294967296 ->
  let r' := ring_buffer_push r vad ts src n in
  let h' := h ++ [Frame vad ts bytes] in
  ring_ok r' h' /\
  (forall i f, in_window h' i -> h' !! Z.to_nat i = Some f ->
     (exists rf, ring_buffer_get r' i = Some rf /\ presents rf f) /\
     (exists rf, ring_buffer_get_copy r' i = Some (rf, fr_bytes f) /\ presents rf f)).
Proof.
  intros Hr Hargs Hlen r' h'. assert (ring_ok r' h') as Hr' by by apply ring_push_ok.
  split; [done|]. intros i f Hw Hf.
  destruct (ring_get_in _ _ _ _ Hr' Hw Hf) as (-> & -> & _).
  split; eexists; by repeat split.
Qed.

Lemma push_refines_append_witness :
  ring_ok (ring_buffer_push one_frame_ring C6_GAP_MARKER 40 None 0)
    [Frame C6_SPEECH 20 [1; 2; 3]; Frame C6_GAP_MARKER 40 []].
Proof.
  apply (push_refines_append one_frame_ring [Frame C6_SPEECH 20 [1; 2; 3]]
           C6_GAP_MARKER 40 None 0 []).
  - apply one_frame_ring_ok.
  - split; [clia|done].
  - simpl. lia.
Defined.

(** The pointer [ring_buffer_get] hands out stays good for as long as
    the header promises and no longer: after any further pushes it still
    reads the frame's bytes while the index is inside the window, and once
    [RING_FRAMES] newer frames exist it reads the bytes of a newer frame. *)
Lemma get_pointer_lifetime r h i rf f fs slot :
  ring_ok r h -> 0 <= i -> h !! Z.to_nat i = Some f ->
  ring_buffer_get r i = Some rf -> data rf = InSlot slot ->
  Forall (fun f => is_u8 (fr_len f)) fs ->
  Z.of_nat (length h + length fs) < 4294967296 ->
  let r' := push_all r fs in
  (in_window (h ++ fs) i -> ring_read r' slot (len rf) = fr_bytes f) /\
  (forall g, Z.of_nat (length (h ++ fs)) - i <= 2 * RING_FRAMES ->
     (h ++ fs) !! Z.to_nat (i + RING_FRAMES) = Some g ->
     ring_read r' slot (fr_len g) = fr_bytes g).
Proof.
  intros Hr Hi Hf Hget Hptr Hfs Hlen r'.
  pose proof (push_all_ok r h fs Hr Hfs Hlen) as Hr'.
  assert (slot = slot_of i) as ->.
  { unfold ring_buffer_get in Hget. case_match; by simplify_eq/=. }
  split.
  - intros Hw. assert (in_window h i) as Hw0.
    { unfold in_window in *. apply lookup_lt_Some in Hf. rewrite length_app in Hw. lia. }
    destruct (ring_get_in _ _ _ _ Hr Hw0 Hf) as (Hget' & _ & _). simplify_eq. simpl.
    by apply (ring_get_in r' (h ++ fs) i f Hr' Hw), lookup_app_l_Some.
  - intros g Hlate Hg.
    assert (in_window (h ++ fs) (i + RING_FRAMES)) as Hw.
    { pose proof (lookup_lt_Some _ _ _ Hg) as Hb. revert Hb Hlate.
      unfold in_window. rewrite RING_FRAMES_val. lia. }
    destruct (ring_slot_at r' (h ++ fs) _ g Hr' Hw Hg) as (_ & _ & Hl & Hb).
    rewrite slot_of_shift in Hl, Hb. unfold ring_read. by rewrite <-Hl.
Qed.

(** The window argument needs the counter not to wrap: at 2^32 frames
    (about 994 days) the index restarts at 0, and since 2^32 is not a
    multiple of [RING_FRAMES] the slot numbering jumps; every frame of the
    history becomes unreadable although the slots still hold it. *)
Lemma counter_wrap_loses_history r vad ts src n :
  s_write_index r = 4294967295 ->
  let r' := ring_buffer_push r vad ts src n in
  s_write_index r' = 0 /\
  (forall i, 0 <= i -> ring_buffer_get r' i = None /\ ring_buffer_get_copy r' i = None) /\
  slot_of 4294967296 <> slot_of 0.
Proof.
  intros Hw r'. assert (s_write_index r' = 0) as H0 by (simpl; rewrite Hw; done).
  split; [done|]. split; [|by vm_compute].
  intros i Hi. unfold ring_buffer_get, ring_buffer_get_copy, in_range. rewrite H0.
  by destruct (Z.ltb_spec i 0); [lia|].
Qed.

