(* ===== verification/DcBlocker.v ===== *)
(** * dc_blocker.c: the one-pole DC-blocking filter

    [dc_step] is one iteration of the loop of [dc_blocker_process]. *)

From S2P Require Import Prelude.

Record dc_blocker_t : Type := DcBlocker { x_prev : Z; y_prev : Z }.

Definition DC_BLOCKER_R_Q15 : Z := 32604.

Definition dc_blocker_init : dc_blocker_t := DcBlocker 0 0.

(** The int32 value [y] of the loop body, before saturation. *)
Definition dc_y (b : dc_blocker_t) (x : Z) : Z :=
  x - x_prev b + Z.shiftr (DC_BLOCKER_R_Q15 * y_prev b) 15.

Definition dc_step (b : dc_blocker_t) (x : Z) : dc_blocker_t * Z :=
  let y16 := sat_int16 (dc_y b x) in
  (DcBlocker x y16, y16).

(** [dc_blocker_process]: the state after the frame and the frame's new
    contents. *)
Fixpoint dc_blocker_process (b : dc_blocker_t) (pcm : list Z) : dc_blocker_t * list Z :=
  match pcm with
  | [] => (b, [])
  | x :: xs =>
      let '(b, y) := dc_step b x in
      let '(b, ys) := dc_blocker_process b xs in
      (b, y :: ys)
  end.

Definition dc_ok (b : dc_blocker_t) : Prop := is_s16 (x_prev b) /\ is_s16 (y_prev b).

(** What a constant input leaves of the recursion. *)
Definition dc_decay (y : Z) : Z := Z.shiftr (DC_BLOCKER_R_Q15 * y) 15.

(** ** Lemmas *)

Lemma dc_decay_div (y : Z) : dc_decay y = 32604 * y / 32768.
Proof. unfold dc_decay, DC_BLOCKER_R_Q15. by rewrite shiftr_div. Qed.

Lemma dc_decay_range (y : Z) : is_s16 y -> is_s16 (dc_decay y).
Proof. rewrite dc_decay_div. clia. Qed.

Lemma dc_step_const (b : dc_blocker_t) :
  is_s16 (y_prev b) ->
  dc_step b (x_prev b) = (DcBlocker (x_prev b) (dc_decay (y_prev b)), dc_decay (y_prev b)).
Proof.
  intros Hy. unfold dc_step, dc_y, dc_decay. rewrite Z.sub_diag, Z.add_0_l.
  by rewrite sat_int16_id by by apply dc_decay_range.
Qed.

Lemma dc_process_const (b : dc_blocker_t) (n : nat) :
  is_s16 (y_prev b) ->
  dc_blocker_process b (replicate n (x_prev b)) =
  (DcBlocker (x_prev b) (Nat.iter n dc_decay (y_prev b)),
   map (fun k => Nat.iter (S k) dc_decay (y_prev b)) (seq 0 n)).
Proof.
  revert b. induction n as [|n IH]; intros [x y] Hy; [done|]. simpl in Hy.
  cbn [replicate dc_blocker_process]. rewrite (dc_step_const (DcBlocker x y)) by done. simpl.
  specialize (IH (DcBlocker x (dc_decay y)) (dc_decay_range y Hy)). simpl in IH.
  rewrite IH. f_equal.
  - f_equal. by rewrite <-Nat.iter_succ_r.
  - f_equal. rewrite <-seq_shift, map_map. apply map_ext. intros k.
    by rewrite <-Nat.iter_succ_r.
Qed.

(** One step of the decay: strictly towards the dead band. *)
Lemma dc_decay_pos (y : Z) : 0 < y -> 0 <= dc_decay y < y.
Proof. rewrite dc_decay_div. clia. Qed.
Lemma dc_decay_neg (y : Z) : y < -199 -> y < dc_decay y <= -199.
Proof. rewrite dc_decay_div. clia. Qed.
Lemma dc_decay_fix (y : Z) : dc_decay y = y <-> -199 <= y <= 0.
Proof. rewrite dc_decay_div. clia. Qed.

Lemma iter_fix {A} (f : A -> A) (a : A) (n : nat) : f a = a -> Nat.iter n f a = a.
Proof. intros Hf. induction n as [|n IH]; [done|]. by rewrite Nat.iter_succ, IH. Qed.

Lemma dc_settle_pos (n : nat) (y : Z) :
  0 <= y <= Z.of_nat n -> Nat.iter n dc_decay y = 0.
Proof.
  revert y. induction n as [|n IH]; intros y Hy; [simpl; lia|].
  rewrite Nat.iter_succ_r. apply IH.
  destruct (decide (y = 0)) as [->|]; [change (dc_decay 0) with 0; lia|].
  pose proof (dc_decay_pos y). lia.
Qed.

Lemma dc_settle_neg (n : nat) (y : Z) :
  -199 - Z.of_nat n <= y <= -199 -> Nat.iter n dc_decay y = -199.
Proof.
  revert y. induction n as [|n IH]; intros y Hy; [simpl; lia|].
  rewrite Nat.iter_succ_r. apply IH.
  destruct (decide (y = -199)) as [->|]; [change (dc_decay (-199)) with (-199); lia|].
  pose proof (dc_decay_neg y). lia.
Qed.

(** ** Theorems *)

(** [dc_blocker_process] never overflows its int32 arithmetic and
    keeps its state and output in int16: for any frame of int16 samples and
    any state reached from [dc_blocker_init], every product and sum the loop
    forms is a valid int32. *)
Lemma dc_no_overflow b pcm :
  dc_ok b -> Forall is_s16 pcm ->
  (forall x, is_s16 x ->
     is_s32 (DC_BLOCKER_R_Q15 * y_prev b) /\ is_s32 (x - x_prev b) /\ is_s32 (dc_y b x)) /\
  dc_ok (fst (dc_blocker_process b pcm)) /\
  Forall is_s16 (snd (dc_blocker_process b pcm)) /\
  length (snd (dc_blocker_process b pcm)) = length pcm.
Proof.
  intros Hb Hpcm. split.
  - intros x Hx. destruct Hb as [Hxp Hyp]. pose proof (dc_decay_range _ Hyp) as Hd.
    unfold dc_y. fold (dc_decay (y_prev b)). unfold DC_BLOCKER_R_Q15. clia.
  - revert b Hb. induction Hpcm as [|x xs Hx _ IH]; intros b Hb; [done|].
    cbn [dc_blocker_process]. unfold dc_step at 1 2 3. cbn iota beta zeta.
    set (y := sat_int16 _). assert (dc_ok (DcBlocker x y)) as Hb'
      by (split; [done|apply sat_int16_range]).
    destruct (IH _ Hb') as (H1 & H2 & H3).
    destruct (dc_blocker_process _ xs) as [b' ys]. simpl in *.
    split; [done|]. split; [constructor; [apply sat_int16_range|done]|lia].
Qed.

(** The filter is continuous across frame boundaries: processing two
    frames in turn is processing their concatenation. *)
Lemma dc_process_app b xs ys :
  dc_blocker_process b (xs ++ ys) =
  let '(b1, o1) := dc_blocker_process b xs in
  let '(b2, o2) := dc_blocker_process b1 ys in
  (b2, o1 ++ o2).
Proof.
  revert b. induction xs as [|x xs IH]; intros b; simpl.
  - by destruct (dc_blocker_process b ys).
  - rewrite IH. destruct (dc_blocker_process _ xs) as [b1 o1].
    by destruct (dc_blocker_process b1 ys).
Qed.

(** DC rejection, with the rounding of the code.  Once the input is
    constant the output settles within 32768 samples: a positive residue
    decays to exactly 0, but because [>> 15] rounds towards minus infinity a
    residue at or below -199 settles at -199 and stays there, so the filter
    does not remove all DC. *)
Lemma dc_rejection b n :
  is_s16 (y_prev b) -> 32768 <= Z.of_nat n ->
  let y := y_prev (fst (dc_blocker_process b (replicate n (x_prev b)))) in
  (0 <= y_prev b -> y = 0) /\
  (y_prev b <= -199 -> y = -199) /\
  (-199 <= y_prev b <= 0 -> y = y_prev b).
Proof.
  intros Hy Hn y. unfold y. rewrite dc_process_const by done. simpl.
  split_and!; intros H.
  - apply dc_settle_pos. clia.
  - apply dc_settle_neg. clia.
  - by apply iter_fix, dc_decay_fix.
Qed.

