(* ===== verification/Gain.v ===== *)
(** * gain.c: fixed-point input gain *)

From S2P Require Import Prelude Config.

(** One sample: [sat_int16(((int32_t)pcm[i] * (int32_t)gain_q8) >> 8)]. *)
Definition gain_sample (gain_q8 x : Z) : Z :=
  sat_int16 (Z.shiftr (x * s32 gain_q8) 8).

Definition gain_apply (pcm : list Z) (gain_q8 : Z) : list Z :=
  map (gain_sample gain_q8) pcm.

(** ** Theorems *)

(** The int32 product of [gain_apply] cannot overflow for any gain up
    to x255 (65535 in Q8), and at the configured [INPUT_GAIN_Q8] each sample
    becomes exactly four times itself, clipped to the int16 rails. *)
Lemma gain_exact gain_q8 pcm :
  0 <= gain_q8 <= 65535 -> Forall is_s16 pcm ->
  Forall (fun x => is_s32 (x * s32 gain_q8)) pcm /\
  Forall is_s16 (gain_apply pcm gain_q8) /\
  gain_apply pcm INPUT_GAIN_Q8 = map (fun x => sat_int16 (4 * x)) pcm /\
  gain_apply pcm 256 = pcm.
Proof.
  intros Hg Hpcm. split_and!.
  - eapply Forall_impl; [exact Hpcm|]. intros x Hx. simpl.
    rewrite s32_small by clia. unfold is_s16, is_s32 in *. nia.
  - unfold gain_apply. apply Forall_fmap, Forall_true. intros x. apply sat_int16_range.
  - apply map_ext. intros x. unfold gain_sample, INPUT_GAIN_Q8. f_equal.
    rewrite s32_small, shiftr_div by clia. change (2 ^ 8) with 256. clia.
  - rewrite <-(map_id pcm) at 2. apply map_ext_in. intros x Hx.
    apply list_elem_of_In in Hx. rewrite Forall_forall in Hpcm. specialize (Hpcm x Hx).
    unfold gain_sample. rewrite s32_small, shiftr_div by clia. change (2 ^ 8) with 256.
    rewrite Z.div_mul by lia. by apply sat_int16_id.
Qed.

