(* ===== verification/Vad.v ===== *)
(** * vad.c: the energy-based voice activity detector

    Three classifiers over one state record: the dual-channel ratio gate,
    the fixed-threshold single-channel gate, and the adaptive noise-floor
    gate the audio task runs.  All three end in the same hangover state
    machine. *)

From S2P Require Import Prelude Config.

(** [vad_t]. *)
Record vad_t : Type := Vad {
  energy_threshold : Z;
  ratio_threshold : Z;
  hangover_frames : Z;
  hangover_left : Z;
  noise_floor : Z;
  multiplier : Z;
  floor_min : Z;
}.

Definition set_hangover (v : vad_t) (left : Z) : vad_t :=
  Vad (energy_threshold v) (ratio_threshold v) (hangover_frames v) left
      (noise_floor v) (multiplier v) (floor_min v).

Definition set_noise_floor (v : vad_t) (nf : Z) : vad_t :=
  Vad (energy_threshold v) (ratio_threshold v) (hangover_frames v) (hangover_left v)
      nf (multiplier v) (floor_min v).

(** [vad_init] leaves the adaptive fields as it finds them. *)
Definition vad_init (v : vad_t) (energy_threshold hangover_frames : Z) : vad_t :=
  Vad energy_threshold VAD_RATIO_THRESHOLD hangover_frames 0
      (noise_floor v) (multiplier v) (floor_min v).

Definition vad_init_adaptive (floor multiplier hangover_frames : Z) : vad_t :=
  Vad floor VAD_RATIO_THRESHOLD hangover_frames 0 floor multiplier floor.

(** The uint64_t accumulator of squares. *)
Definition sum_sq (pcm : list Z) : Z :=
  fold_left (fun s p => u64 (s + u64 (p * p))) pcm 0.

(** [(n > 0) ? (uint32_t)(sp / n) : 0]. *)
Definition energy (pcm : list Z) : Z :=
  match pcm with
  | [] => 0
  | _ => u32 (sum_sq pcm / Z.of_nat (length pcm))
  end.

Definition vad_process_dual (v : vad_t) (primary reference : list Z) : vad_t * Z :=
  let e_pri := energy primary in
  let e_ref := energy reference in
  let speech :=
    (energy_threshold v <? e_pri) &&
    (u64 (ratio_threshold v * u32 (e_ref + 1)) <? e_pri) in
  if speech then (set_hangover v (hangover_frames v), C6_SPEECH)
  else if 0 <? hangover_left v then (set_hangover v (hangover_left v - 1), C6_HANGOVER)
  else (v, C6_GAP_MARKER).

Definition vad_process_single (v : vad_t) (primary : list Z) : vad_t * Z :=
  let e_pri := energy primary in
  let speech := energy_threshold v <? e_pri in
  if speech then (set_hangover v (hangover_frames v), C6_SPEECH)
  else if 0 <? hangover_left v then (set_hangover v (hangover_left v - 1), C6_HANGOVER)
  else (v, C6_GAP_MARKER).

(** The effective threshold of the adaptive gate. *)
Definition effective_threshold (v : vad_t) : Z :=
  let thresh := u32 (noise_floor v * multiplier v) in
  if thresh <? floor_min v then floor_min v else thresh.

(** The asymmetric moving average, on a frame of energy [e]. *)
Definition floor_update (nf e : Z) : Z :=
  let delta := e - nf in
  let update :=
    if delta <? 0 then Z.shiftr (delta * VAD_NOISE_ALPHA_DOWN_Q16) 16
    else if e <? Z.quot (nf * 3) 2 then Z.shiftr (delta * VAD_NOISE_ALPHA_UP_Q16) 16
    else 0 in
  let nf' := nf + update in
  if nf' <? 0 then 0 else u32 nf'.

Definition vad_process_single_adaptive (v : vad_t) (primary : list Z) : vad_t * Z :=
  let e := energy primary in
  if effective_threshold v <? e then (set_hangover v (hangover_frames v), C6_SPEECH)
  else if 0 <? hangover_left v then (set_hangover v (hangover_left v - 1), C6_HANGOVER)
  else (set_noise_floor v (floor_update (noise_floor v) e), C6_GAP_MARKER).

(** Running the gate over a sequence of frames. *)
Fixpoint vad_run (step : vad_t -> list Z -> vad_t * Z) (v : vad_t) (fs : list (list Z))
  : vad_t * list Z :=
  match fs with
  | [] => (v, [])
  | f :: fs =>
      let '(v, s) := step v f in
      let '(v, ss) := vad_run step v fs in
      (v, s :: ss)
  end.

(** A frame of int16 samples, of a length whose sum of squares fits in 64 bits. *)
Definition pcm_ok (pcm : list Z) : Prop :=
  Forall is_s16 pcm /\ Z.of_nat (length pcm) <= 4294967296.

(** The state of the adaptive gate as the audio task configures it. *)
Record adaptive_ok (v : vad_t) : Prop := {
  ad_mult : multiplier v = VAD_NOISE_MULTIPLIER;
  ad_min : floor_min v = VAD_ENERGY_THRESHOLD_FLOOR;
  ad_floor : 0 <= noise_floor v <= 1073741824;
  ad_hang : 0 <= hangover_left v <= hangover_frames v;
}.

(** ** Lemmas *)

Lemma sum_sq_bound (pcm : list Z) (s : Z) :
  Forall is_s16 pcm -> 0 <= s ->
  s + Z.of_nat (length pcm) * 1073741824 < 18446744073709551616 ->
  0 <= fold_left (fun s p => u64 (s + u64 (p * p))) pcm s
    <= s + Z.of_nat (length pcm) * 1073741824.
Proof.
  intros Hpcm. revert s. induction Hpcm as [|p pcm Hp _ IH]; intros s Hs Hlen.
  { simpl in *. lia. }
  cbn [fold_left length] in *.
  assert (0 <= p * p <= 1073741824) as Hsq by (unfold is_s16 in Hp; nia).
  assert (u64 (s + u64 (p * p)) = s + p * p) as ->.
  { unfold u64. rewrite (Z.mod_small (p * p)) by lia. apply Z.mod_small. lia. }
  specialize (IH (s + p * p)). lia.
Qed.

Lemma energy_range (pcm : list Z) : pcm_ok pcm -> 0 <= energy pcm <= 1073741824.
Proof.
  intros [Hpcm Hlen]. unfold energy. destruct pcm as [|p pcm]; [lia|].
  pose proof (sum_sq_bound (p :: pcm) 0 Hpcm ltac:(lia)) as Hb.
  unfold sum_sq. set (n := length (p :: pcm)) in *. set (s := fold_left _ _ _) in *.
  assert (0 < Z.of_nat n) by (subst n; simpl; lia).
  assert (0 <= s / Z.of_nat n <= 1073741824).
  { split; [apply Z.div_pos; lia|]. apply Z.div_le_upper_bound; lia. }
  rewrite u32_small; [lia|]. unfold is_u32. lia.
Qed.

(** The average moves towards the frame's energy and never past it. *)
Lemma floor_update_between (nf e : Z) :
  0 <= nf <= 1073741824 -> 0 <= e <= 1073741824 ->
  Z.min nf e <= floor_update nf e <= Z.max nf e.
Proof.
  intros Hnf He. unfold floor_update, VAD_NOISE_ALPHA_DOWN_Q16, VAD_NOISE_ALPHA_UP_Q16.
  rewrite !shiftr_div by lia. change (2 ^ 16) with 65536.
  rewrite Z.quot_div_nonneg by lia.
  destruct (Z.ltb_spec (e - nf) 0).
  - destruct (Z.ltb_spec (nf + (e - nf) * 1311 / 65536) 0); clia.
  - destruct (Z.ltb_spec e (nf * 3 / 2)).
    + destruct (Z.ltb_spec (nf + (e - nf) * 131 / 65536) 0); clia.
    + destruct (Z.ltb_spec (nf + 0) 0); clia.
Qed.

(** Below 1004 the rise rounds to 0. *)
Lemma floor_update_stuck (nf e : Z) :
  0 <= nf <= 1003 -> 0 <= e <= 1073741824 -> floor_update nf e <= nf.
Proof.
  intros Hnf He. unfold floor_update, VAD_NOISE_ALPHA_DOWN_Q16, VAD_NOISE_ALPHA_UP_Q16.
  rewrite !shiftr_div by lia. change (2 ^ 16) with 65536.
  rewrite Z.quot_div_nonneg by lia.
  destruct (Z.ltb_spec (e - nf) 0).
  - destruct (Z.ltb_spec (nf + (e - nf) * 1311 / 65536) 0); clia.
  - destruct (Z.ltb_spec e (nf * 3 / 2)).
    + destruct (Z.ltb_spec (nf + (e - nf) * 131 / 65536) 0); clia.
    + destruct (Z.ltb_spec (nf + 0) 0); clia.
Qed.

Lemma effective_threshold_max (v : vad_t) :
  adaptive_ok v -> effective_threshold v = Z.max (floor_min v) (noise_floor v * multiplier v).
Proof.
  intros [Hm _ Hf _]. unfold effective_threshold. rewrite Hm. unfold VAD_NOISE_MULTIPLIER.
  rewrite u32_small by clia.
  destruct (Z.ltb_spec (noise_floor v * 3) (floor_min v)); lia.
Qed.

Create HintDb vad.
#[export] Hint Resolve energy_range : vad.

Lemma vad_run_app step v fs gs :
  vad_run step v (fs ++ gs) =
  let '(v1, s1) := vad_run step v fs in
  let '(v2, s2) := vad_run step v1 gs in (v2, s1 ++ s2).
Proof.
  revert v. induction fs as [|f fs IH]; intros v; simpl.
  - by destruct (vad_run step v gs).
  - destruct (step v f) as [v' s]. rewrite IH.
    destruct (vad_run step v' fs) as [v1 s1]. by destruct (vad_run step v1 gs).
Qed.

Lemma adaptive_step_ok v f :
  adaptive_ok v -> pcm_ok f -> adaptive_ok (fst (vad_process_single_adaptive v f)).
Proof.
  intros [Hm Hn Hf Hh] Hp. pose proof (energy_range f Hp) as He.
  pose proof (floor_update_between _ _ Hf He) as Hu.
  unfold vad_process_single_adaptive. case_match; [|case_match eqn:Hl].
  - split; simpl; lia.
  - apply Z.ltb_lt in Hl. split; simpl; lia.
  - split; simpl; lia.
Qed.

Lemma adaptive_run_ok v fs :
  adaptive_ok v -> Forall pcm_ok fs ->
  adaptive_ok (fst (vad_run vad_process_single_adaptive v fs)).
Proof.
  intros Hv Hfs. revert v Hv. induction Hfs as [|f fs Hf _ IH]; intros v Hv; [done|].
  pose proof (adaptive_step_ok v f Hv Hf) as Hv'. cbn [vad_run].
  destruct (vad_process_single_adaptive v f) as [v' s]. specialize (IH v' Hv').
  by destruct (vad_run _ v' fs).
Qed.

Lemma adaptive_hangover_quiet v fs :
  adaptive_ok v -> Forall (fun f => energy f <= effective_threshold v) fs ->
  Z.of_nat (length fs) <= hangover_left v ->
  vad_run vad_process_single_adaptive v fs =
  (set_hangover v (hangover_left v - Z.of_nat (length fs)),
   replicate (length fs) C6_HANGOVER).
Proof.
  intros Hv Hfs. revert v Hv Hfs.
  induction fs as [|f fs IH]; intros v Hv Hfs Hlen.
  { simpl. destruct v; simpl. by rewrite Z.sub_0_r. }
  inversion Hfs as [|? ? Hf Hfs']; subst. cbn [length] in Hlen.
  cbn [vad_run length replicate]. unfold vad_process_single_adaptive at 1.
  destruct (Z.ltb_spec (effective_threshold v) (energy f)); [lia|].
  destruct (Z.ltb_spec 0 (hangover_left v)); [|lia].
  destruct Hv as [H1 H2 H3 H4].
  rewrite IH; simpl; [|by constructor; simpl; try lia|done|lia].
  unfold set_hangover; simpl. f_equal. f_equal. lia.
Qed.

Lemma adaptive_init_ok :
  adaptive_ok (vad_init_adaptive VAD_ENERGY_THRESHOLD_FLOOR VAD_NOISE_MULTIPLIER
                 VAD_HANGOVER_FRAMES).
Proof. split; simpl; rewrite ?VAD_HANGOVER_FRAMES_val; clia || by vm_compute. Qed.

(** ** Theorems *)



(** Hangover length: from a state whose countdown stands at [h], any
    [h] consecutive frames no louder than the effective threshold are all
    tagged HANGOVER and leave the noise floor where it was (a word tail does
    not pull it down), and the next such frame is a GAP. *)
Lemma adaptive_hangover_exact v fs f :
  adaptive_ok v -> Z.of_nat (length fs) = hangover_left v ->
  Forall (fun g => energy g <= effective_threshold v) (fs ++ [f]) ->
  let '(v', ss) := vad_run vad_process_single_adaptive v (fs ++ [f]) in
  ss = replicate (length fs) C6_HANGOVER ++ [C6_GAP_MARKER] /\
  hangover_left v' = 0 /\ noise_floor v' = floor_update (noise_floor v) (energy f).
Proof.
  intros Hv Hlen Hq. apply Forall_app in Hq as [Hfs Hf].
  rewrite Forall_singleton in Hf. rewrite vad_run_app.
  rewrite adaptive_hangover_quiet by (done || lia). cbn [vad_run].
  replace (hangover_left v - Z.of_nat (length fs)) with 0 by lia.
  unfold vad_process_single_adaptive.
  change (effective_threshold (set_hangover v 0)) with (effective_threshold v).
  destruct (Z.ltb_spec (effective_threshold v) (energy f)); [lia|]. by simpl.
Qed.

(** The adaptive floor has a dead zone.  The rise is
    [(delta * 131) >> 16] with [delta < floor / 2], which rounds to 0 once
    the floor is at or below 1003; from then on no sequence of frames, of
    any loudness, ever raises the floor or the threshold again: the gate is
    a fixed gate at 10000. *)
Lemma adaptive_floor_dead_zone v fs :
  adaptive_ok v -> noise_floor v <= 1003 -> Forall pcm_ok fs ->
  let v' := fst (vad_run vad_process_single_adaptive v fs) in
  noise_floor v' <= noise_floor v /\ effective_threshold v' = VAD_ENERGY_THRESHOLD_FLOOR.
Proof.
  intros Hv Hnf Hfs v'.
  pose proof (adaptive_run_ok v fs Hv Hfs) as Hv'. fold v' in Hv'.
  assert (noise_floor v' <= noise_floor v) as Hle.
  { unfold v'. clear v' Hv'. revert v Hv Hnf.
    induction Hfs as [|f fs Hf _ IH]; intros v Hv Hnf; [simpl; lia|].
    pose proof (adaptive_step_ok v f Hv Hf) as Hv'.
    assert (noise_floor (fst (vad_process_single_adaptive v f)) <= noise_floor v) as Hs.
    { unfold vad_process_single_adaptive. repeat case_match; simpl; try lia.
      apply floor_update_stuck; [|by apply energy_range].
      destruct Hv as [_ _ ? _]. lia. }
    cbn [vad_run]. destruct (vad_process_single_adaptive v f) as [w s]. simpl in Hs, Hv'.
    specialize (IH w Hv' ltac:(lia)). destruct (vad_run _ w fs). simpl in *. lia. }
  split; [done|]. rewrite effective_threshold_max by done.
  destruct Hv' as [-> -> ? _]. unfold VAD_NOISE_MULTIPLIER, VAD_ENERGY_THRESHOLD_FLOOR. lia.
Qed.

(** The dual-channel gate rejects loud correlated sound and falls back
    to the plain energy gate: a frame is SPEECH exactly when the primary
    exceeds both the energy threshold and [ratio * (e_ref + 1)]; so equal
    channels are never speech, and with a silent reference the dual gate is
    the single-channel gate. *)
Lemma dual_gate_correct v primary reference :
  pcm_ok primary -> pcm_ok reference ->
  1 <= ratio_threshold v <= 4294967295 -> ratio_threshold v <= energy_threshold v ->
  (snd (vad_process_dual v primary reference) = C6_SPEECH <->
     energy_threshold v < energy primary /\
     ratio_threshold v * (energy reference + 1) < energy primary) /\
  (energy primary <= energy reference ->
     snd (vad_process_dual v primary reference) <> C6_SPEECH) /\
  (energy reference = 0 ->
     vad_process_dual v primary reference = vad_process_single v primary).
Proof.
  intros Hp Hr Hratio Hthr.
  pose proof (energy_range _ Hp) as Hep. pose proof (energy_range _ Hr) as Her.
  unfold vad_process_dual, vad_process_single.
  rewrite (u32_small (energy reference + 1)) by clia.
  assert (u64 (ratio_threshold v * (energy reference + 1))
          = ratio_threshold v * (energy reference + 1)) as ->
    by (unfold u64; apply Z.mod_small; nia).
  destruct (Z.ltb_spec (energy_threshold v) (energy primary));
    destruct (Z.ltb_spec (ratio_threshold v * (energy reference + 1)) (energy primary)); simpl.
  all: unfold C6_SPEECH, C6_HANGOVER, C6_GAP_MARKER.
  all: repeat case_match; simpl; split_and!; intros; try done; try nia; try lia.
  all: split; intros; try done; nia.
Qed.

