(* ===== verification/Hpf.v ===== *)
(** * hpf.c: the 180 Hz wind-cut high-pass filter

    A second-order recursive filter in Q14.  Nothing in the code saturates
    the recursive state, so its arithmetic is only right if the state cannot
    outgrow int32: that is the main theorem, proved with a quadratic
    invariant of the two state combinations [S1], [S2] below. *)

From S2P Require Import Prelude Config.

(** [hpf_t]. *)
Record hpf_t : Type := Hpf { x1 : Z; x2 : Z; y1_q14 : Z; y2_q14 : Z }.

Definition hpf_init : hpf_t := Hpf 0 0 0 0.

(** The int64 accumulator of the loop body. *)
Definition hpf_acc (f : hpf_t) (x0 : Z) : Z :=
  Z.shiftl (HPF_B0_Q14 * x0 + HPF_B1_Q14 * x1 f + HPF_B2_Q14 * x2 f) 14
  - HPF_A1_Q14 * y1_q14 f - HPF_A2_Q14 * y2_q14 f.

(** One iteration: the new state and the output sample. *)
Definition hpf_step (f : hpf_t) (x0 : Z) : hpf_t * Z :=
  let y0 := s32 (Z.shiftr (hpf_acc f x0) 14) in
  (Hpf x0 (x1 f) y0 (y1_q14 f),
   sat_int16 (Z.shiftr (s32 (y0 + Z.shiftl 1 13)) 14)).

Fixpoint hpf_process (f : hpf_t) (pcm : list Z) : hpf_t * list Z :=
  match pcm with
  | [] => (f, [])
  | x :: xs =>
      let '(f, y) := hpf_step f x in
      let '(f, ys) := hpf_process f xs in
      (f, y :: ys)
  end.

(** ** The invariant *)

(** The part of the next accumulator that is already determined, and the
    part of the one after. *)
Definition hpf_S1 (f : hpf_t) : Z :=
  16384 * (HPF_B1_Q14 * x1 f + HPF_B2_Q14 * x2 f)
  - HPF_A1_Q14 * y1_q14 f - HPF_A2_Q14 * y2_q14 f.
Definition hpf_S2 (f : hpf_t) : Z :=
  16384 * (HPF_B2_Q14 * x1 f) - HPF_A2_Q14 * y1_q14 f.

(** The quadratic form, its level, and the bound on the state it gives. *)
Definition hpf_V (S1 S2 : Z) : Z :=
  20641 * (S1 * S1) + 2 * 21342 * (S1 * S2) + 22102 * (S2 * S2).
Definition hpf_level : Z := 7340 * 10 ^ 24.
Definition hpf_bound : Z := 1430000000.

Record hpf_ok (f : hpf_t) : Prop := {
  hpf_ok_x1 : is_s16 (x1 f);
  hpf_ok_x2 : is_s16 (x2 f);
  hpf_ok_y1 : - hpf_bound <= y1_q14 f <= hpf_bound;
  hpf_ok_y2 : - hpf_bound <= y2_q14 f <= hpf_bound;
  hpf_ok_V : hpf_V (hpf_S1 f) (hpf_S2 f) <= hpf_level;
}.

(** ** Lemmas *)

Lemma schur (m Q L Q' : Z) : 0 < m -> m * Q = L * L + Q' -> 0 <= Q' -> 0 <= Q.
Proof. intros Hm Heq HQ'. pose proof (Z.square_nonneg L). nia. Qed.

(** [hpf_T1], [hpf_T2] are 2^14 times the next [S1], [S2], as functions of
    the current ones, the input and the remainder [r] of the [>> 14]. *)
Definition hpf_T1 (S1 S2 x r : Z) : Z :=
  31131 * S1 + 16384 * S2 + (-417999175680) * x - 31131 * r.
Definition hpf_T2 (S1 x r : Z) : Z :=
  -14825 * S1 + 398082293760 * x + 14825 * r.

(** One step contracts the form by 1891/2000, up to the input and the
    rounding: the difference is a sum of squares. *)
Lemma hpf_contraction (S1 S2 x r : Z) :
  2000 * hpf_V (hpf_T1 S1 S2 x r) (hpf_T2 S1 x r) <=
  1891 * 268435456 * hpf_V S1 S2 + 2000 * (10 ^ 26 * (x * x) + 2 ^ 70 * (r * r)).
Proof.
  apply Zle_0_minus_le.
  refine (schur 153211950334736 _
    (153211950334736 * S1 + 145183133663232 * S2 + 4588791125041643520000 * x + 10324395933302000 * r)
    (15422285556196371739967488 * (S2 * S2)
      + (-6542856290411995194813705093120000) * (S2 * x)
      + 277282125780395151052505088000 * (S2 * r)
      + 7617599243186606636982114036290368307200000 * (x * x)
      + (-96159108136197222708444768176701440000) * (x * r)
      + 361761381342950778452100225072889856000 * (r * r)) ltac:(lia) _ _);
    [unfold hpf_V, hpf_T1, hpf_T2; ring|].
  refine (schur 15422285556196371739967488 _
    (15422285556196371739967488 * S2 + (-3271428145205997597406852546560000) * x + 138641062890197575526252544000 * r)
    (106778548671843262466981818552131040527839020854095489105762713600000 * (x * x)
      + (-575884674065065201832872220702518018065398077610187785502720000) * (x * r)
      + 5579168104930718061128824512628116143952350557993433173065728000 * (r * r)) ltac:(lia) _ _); [ring|].
  refine (schur 106778548671843262466981818552131040527839020854095489105762713600000 _
    (106778548671843262466981818552131040527839020854095489105762713600000 * x + (-287942337032532600916436110351259009032699038805093892751360000) * r)
    (595735390129950760876497822052655370051807887231426814180109196852179034815649083372027397505787014011347719766323873657651200000000 * (r * r)) ltac:(lia) _ _); [ring|].
  pose proof (Z.square_nonneg r). lia.
Qed.

Lemma hpf_V_S1 (S1 S2 : Z) :
  hpf_V S1 S2 <= hpf_level -> - (15 * 10 ^ 12) <= S1 <= 15 * 10 ^ 12.
Proof.
  intros HV. assert (22102 * hpf_V S1 S2 =
    (22102 * S2 + 21342 * S1) * (22102 * S2 + 21342 * S1) + 726418 * (S1 * S1)) as Heq
    by (unfold hpf_V; ring).
  pose proof (Z.square_nonneg (22102 * S2 + 21342 * S1)) as Hsq.
  assert (S1 * S1 <= 225 * 10 ^ 24) as Hb by (unfold hpf_level in HV; lia).
  apply Z.abs_le, Z.square_le_simpl_nonneg; [lia|].
  rewrite <-Z.abs_mul, Z.abs_eq by apply Z.square_nonneg. lia.
Qed.

Lemma sq_bound (x b : Z) : - b <= x <= b -> 0 <= x * x <= b * b.
Proof. intros. pose proof (Z.square_nonneg x). nia. Qed.

Lemma hpf_acc_S1 (f : hpf_t) (x0 : Z) :
  hpf_acc f x0 = 255344640 * x0 + hpf_S1 f.
Proof.
  unfold hpf_acc, hpf_S1, HPF_B0_Q14. rewrite Z.shiftl_mul_pow2 by lia.
  change (2 ^ 14) with 16384. ring.
Qed.

Lemma hpf_V_next (f : hpf_t) (x0 : Z) :
  is_s16 x0 -> hpf_V (hpf_S1 f) (hpf_S2 f) <= hpf_level ->
  let f' := Hpf x0 (x1 f) (hpf_acc f x0 / 16384) (y1_q14 f) in
  hpf_V (hpf_S1 f') (hpf_S2 f') <= hpf_level.
Proof.
  intros Hx HV f'. pose (r := hpf_acc f x0 mod 16384).
  assert (0 <= r < 16384) as Hr by (apply Z.mod_pos_bound; lia).
  assert (16384 * (hpf_acc f x0 / 16384) = hpf_acc f x0 - r) as Hy
    by (unfold r; rewrite Z.mod_eq by lia; ring).
  assert (16384 * hpf_S1 f' = hpf_T1 (hpf_S1 f) (hpf_S2 f) x0 r) as H1.
  { unfold hpf_T1. transitivity (268435456 * (HPF_B1_Q14 * x0 + HPF_B2_Q14 * x1 f)
      - HPF_A1_Q14 * (16384 * (hpf_acc f x0 / 16384)) - 16384 * (HPF_A2_Q14 * y1_q14 f));
      [unfold hpf_S1, f'; simpl; ring|].
    rewrite Hy, hpf_acc_S1. unfold hpf_S2, HPF_B1_Q14, HPF_B2_Q14, HPF_A1_Q14, HPF_A2_Q14. ring. }
  assert (16384 * hpf_S2 f' = hpf_T2 (hpf_S1 f) x0 r) as H2.
  { unfold hpf_T2. transitivity (268435456 * (HPF_B2_Q14 * x0)
      - HPF_A2_Q14 * (16384 * (hpf_acc f x0 / 16384)));
      [unfold hpf_S2, f'; simpl; ring|].
    rewrite Hy, hpf_acc_S1. unfold HPF_B2_Q14, HPF_A2_Q14. ring. }
  assert (hpf_V (hpf_T1 (hpf_S1 f) (hpf_S2 f) x0 r) (hpf_T2 (hpf_S1 f) x0 r)
    = 268435456 * hpf_V (hpf_S1 f') (hpf_S2 f')) as HT
    by (rewrite <-H1, <-H2; unfold hpf_V; ring).
  pose proof (hpf_contraction (hpf_S1 f) (hpf_S2 f) x0 r) as Hc. rewrite HT in Hc.
  pose proof (sq_bound x0 32768 ltac:(unfold is_s16 in Hx; lia)).
  pose proof (sq_bound r 16384 ltac:(lia)).
  unfold hpf_level in *. lia.
Qed.

Lemma hpf_y_bound (f : hpf_t) (x0 : Z) :
  is_s16 x0 -> hpf_V (hpf_S1 f) (hpf_S2 f) <= hpf_level ->
  - hpf_bound < hpf_acc f x0 / 16384 < hpf_bound.
Proof.
  intros Hx HV. pose proof (hpf_V_S1 _ _ HV). rewrite hpf_acc_S1.
  unfold hpf_bound. clia.
Qed.

Lemma hpf_step_exact (f : hpf_t) (x0 : Z) :
  is_s16 x0 -> hpf_ok f ->
  hpf_step f x0 =
  (Hpf x0 (x1 f) (hpf_acc f x0 / 16384) (y1_q14 f),
   sat_int16 ((hpf_acc f x0 / 16384 + 8192) / 16384)).
Proof.
  intros Hx [_ _ _ _ HV]. pose proof (hpf_y_bound f x0 Hx HV) as Hy. unfold hpf_bound in Hy.
  unfold hpf_step. rewrite !shiftr_div by lia. change (2 ^ 14) with 16384.
  change (Z.shiftl 1 13) with 8192.
  rewrite (s32_small (_ / 16384)) by clia. by rewrite s32_small by clia.
Qed.

Lemma hpf_step_ok (f : hpf_t) (x0 : Z) :
  is_s16 x0 -> hpf_ok f -> hpf_ok (fst (hpf_step f x0)).
Proof.
  intros Hx Hf. rewrite hpf_step_exact by done. destruct Hf as [H1 H2 H3 H4 HV].
  pose proof (hpf_y_bound f x0 Hx HV). pose proof (hpf_V_next f x0 Hx HV).
  split; simpl; try done; lia.
Qed.

Lemma hpf_init_ok : hpf_ok hpf_init.
Proof. split; vm_compute; split || idtac; discriminate. Qed.

Lemma hpf_process_ok g pcm :
  hpf_ok g -> Forall is_s16 pcm ->
  hpf_ok (fst (hpf_process g pcm)) /\ Forall is_s16 (snd (hpf_process g pcm)) /\
  length (snd (hpf_process g pcm)) = length pcm.
Proof.
  intros Hg Hpcm. revert g Hg. induction Hpcm as [|x xs Hx' _ IH]; intros g Hg; [done|].
  cbn [hpf_process]. pose proof (hpf_step_ok g x Hx' Hg) as Hg'.
  assert (is_s16 (snd (hpf_step g x))) by (rewrite hpf_step_exact by done; apply sat_int16_range).
  destruct (hpf_step g x) as [g' y]. destruct (IH g' Hg') as (IH1 & IH2 & IH3).
  destruct (hpf_process g' xs). simpl in *.
  split; [done|]. split; [by constructor|lia].
Qed.

(** ** Theorems *)

(** C40. The filter's state never overflows.  From [hpf_init], and for any
    int16 input of any length, the int64 accumulator stays below 2^46 as
    the comment claims, its Q14 quotient stays below 1.43e9 in absolute
    value, so neither the cast to int32 nor the rounding addition ever
    loses a bit, and every output sample is a valid int16. *)
Theorem hpf_no_overflow pcm x0 :
  Forall is_s16 pcm -> is_s16 x0 ->
  let f := fst (hpf_process hpf_init pcm) in
  Z.abs (hpf_acc f x0) < 2 ^ 46 /\
  - hpf_bound < Z.shiftr (hpf_acc f x0) 14 < hpf_bound /\
  is_s32 (Z.shiftr (hpf_acc f x0) 14 + 8192) /\
  y1_q14 (fst (hpf_step f x0)) = Z.shiftr (hpf_acc f x0) 14 /\
  Forall is_s16 (snd (hpf_process hpf_init pcm)).
Proof.
  intros Hpcm Hx f.
  destruct (hpf_process_ok hpf_init pcm hpf_init_ok Hpcm) as (Hf & Hout & _).
  fold f in Hf.
  pose proof (hpf_y_bound f x0 Hx (hpf_ok_V _ Hf)) as Hy.
  rewrite hpf_step_exact by done. rewrite shiftr_div by lia. change (2 ^ 14) with 16384.
  unfold hpf_bound in *. split_and!; try done; clia.
Qed.

Lemma hpf_no_overflow_witness :
  let f := fst (hpf_process hpf_init [32767; -32768; 32767]) in
  y1_q14 (fst (hpf_step f (-32768))) = Z.shiftr (hpf_acc f (-32768)) 14.
Proof.
  intros f. apply (hpf_no_overflow [32767; -32768; 32767] (-32768)).
  - repeat constructor; clia.
  - clia.
Defined.

(** The filter has an exact zero at DC: adding the same offset to the
    three input samples in the window leaves every accumulator, hence every
    output, unchanged. *)
Lemma hpf_rejects_offset f x0 c :
  hpf_acc (Hpf (x1 f + c) (x2 f + c) (y1_q14 f) (y2_q14 f)) (x0 + c) = hpf_acc f x0 /\
  snd (hpf_step (Hpf (x1 f + c) (x2 f + c) (y1_q14 f) (y2_q14 f)) (x0 + c))
    = snd (hpf_step f x0).
Proof.
  assert (hpf_acc (Hpf (x1 f + c) (x2 f + c) (y1_q14 f) (y2_q14 f)) (x0 + c)
          = hpf_acc f x0) as Heq.
  { unfold hpf_acc. simpl. do 2 f_equal. f_equal. unfold HPF_B0_Q14, HPF_B1_Q14, HPF_B2_Q14. ring. }
  split; [done|]. unfold hpf_step. by rewrite Heq.
Qed.
