(* ===== verification/Button.v ===== *)
(** * button.c: the gesture classifier

    The classifier is fed one sample per poll (the level and the time in
    ms) and answers with a gesture when one resolves.  Its contract, the list
    under "Semantics" in button.h, is the grammar [script] below: a
    sequence of samples together with the gestures a user would name for
    it.  The main theorem says the automaton reads every script correctly. *)

From S2P Require Import Prelude Config.

Inductive button_gesture_t : Set :=
| BTN_NONE | BTN_SHORT | BTN_DOUBLE | BTN_LONG | BTN_VERY_LONG.

Inductive button_state_t : Set :=
| BTN_STATE_IDLE | BTN_STATE_PRESSED | BTN_STATE_WAIT_DOUBLE.

#[export] Instance button_gesture_eq_dec : EqDecision button_gesture_t.
Proof. solve_decision. Defined.
#[export] Instance button_state_eq_dec : EqDecision button_state_t.
Proof. solve_decision. Defined.

Record button_classifier_t : Type := Classifier {
  state : button_state_t;
  anchor_ms : Z;
  second_tap : bool;
}.

Definition button_classifier_init : button_classifier_t :=
  Classifier BTN_STATE_IDLE 0 false.

Definition button_classifier_event (b : button_classifier_t) (pressed : bool) (now_ms : Z)
  : button_classifier_t * button_gesture_t :=
  let dt := u32 (now_ms - anchor_ms b) in
  match state b with
  | BTN_STATE_IDLE =>
      if pressed then (Classifier BTN_STATE_PRESSED now_ms false, BTN_NONE)
      else (b, BTN_NONE)
  | BTN_STATE_PRESSED =>
      if pressed then
        if BUTTON_VERY_LONG_MS <=? dt then
          (Classifier BTN_STATE_IDLE (anchor_ms b) false, BTN_VERY_LONG)
        else (b, BTN_NONE)
      else if BUTTON_VERY_LONG_MS <=? dt then
        (Classifier BTN_STATE_IDLE (anchor_ms b) false, BTN_VERY_LONG)
      else if BUTTON_LONG_MS <=? dt then
        (Classifier BTN_STATE_IDLE (anchor_ms b) false, BTN_LONG)
      else if second_tap b then
        (Classifier BTN_STATE_IDLE (anchor_ms b) false, BTN_DOUBLE)
      else (Classifier BTN_STATE_WAIT_DOUBLE now_ms (second_tap b), BTN_NONE)
  | BTN_STATE_WAIT_DOUBLE =>
      if pressed then
        if dt <=? BUTTON_DOUBLE_GAP_MS then
          (Classifier BTN_STATE_PRESSED now_ms true, BTN_NONE)
        else (Classifier BTN_STATE_PRESSED now_ms false, BTN_SHORT)
      else if BUTTON_DOUBLE_GAP_MS <? dt then
        (Classifier BTN_STATE_IDLE (anchor_ms b) false, BTN_SHORT)
      else (b, BTN_NONE)
  end.

(** ** Runs *)

(** A sample: the level ([true] = pressed) and the time of the poll. *)
Definition sample : Type := bool * Z.

(** The gestures of a run, in order, and the final state. *)
Fixpoint button_run (b : button_classifier_t) (xs : list sample)
  : button_classifier_t * list button_gesture_t :=
  match xs with
  | [] => (b, [])
  | (p, t) :: xs =>
      let '(b, g) := button_classifier_event b p t in
      let '(b, gs) := button_run b xs in
      (b, if decide (g = BTN_NONE) then gs else g :: gs)
  end.

Lemma button_run_app b xs ys :
  button_run b (xs ++ ys) =
  let '(b, gs) := button_run b xs in
  let '(b, hs) := button_run b ys in (b, gs ++ hs).
Proof.
  revert b. induction xs as [|[p t] xs IH]; intros b; simpl.
  { by destruct (button_run b ys). }
  destruct (button_classifier_event b p t) as [b1 g]. rewrite IH.
  destruct (button_run b1 xs) as [b2 gs]. destruct (button_run b2 ys).
  by case_decide.
Qed.

(** ** The grammar of gestures *)

(** [hold t0 xs]: the button is polled down at [t0] and at every sample of
    [xs], and none of these polls is [BUTTON_VERY_LONG_MS] after [t0]. *)
Inductive hold (t0 : Z) : list sample -> Prop :=
| hold_nil : hold t0 []
| hold_cons t xs : u32 (t - t0) < BUTTON_VERY_LONG_MS -> hold t0 xs ->
    hold t0 ((true, t) :: xs).

(** [quiet r xs]: released at [r] and at every sample of [xs], all inside
    the double-tap gap. *)
Inductive quiet (r : Z) : list sample -> Prop :=
| quiet_nil : quiet r []
| quiet_cons t xs : u32 (t - r) <= BUTTON_DOUBLE_GAP_MS -> quiet r xs ->
    quiet r ((false, t) :: xs).

(** A press at [t0] that resolves by itself: a long or very long hold. *)
Inductive long_press (t0 : Z) : list sample -> button_gesture_t -> Prop :=
| lp_long xs t : hold t0 xs ->
    BUTTON_LONG_MS <= u32 (t - t0) < BUTTON_VERY_LONG_MS ->
    long_press t0 (xs ++ [(false, t)]) BTN_LONG
| lp_very_long xs t (held : bool) : hold t0 xs ->
    BUTTON_VERY_LONG_MS <= u32 (t - t0) ->
    long_press t0 (xs ++ [(held, t)]) BTN_VERY_LONG.

(** A press at [t0] released at [r] before [BUTTON_LONG_MS]. *)
Inductive tap (t0 r : Z) : list sample -> Prop :=
| tap_intro xs : hold t0 xs -> u32 (r - t0) < BUTTON_LONG_MS ->
    tap t0 r (xs ++ [(false, r)]).

(** [script xs gs]: starting released, the samples [xs] spell the gestures
    [gs] and end resolved.  [after_press t0 xs gs] is a script whose first
    press, at [t0], has already been sampled. *)
Inductive script : list sample -> list button_gesture_t -> Prop :=
| script_nil : script [] []
| script_idle t xs gs : script xs gs -> script ((false, t) :: xs) gs
| script_press t0 xs gs : after_press t0 xs gs -> script ((true, t0) :: xs) gs
with after_press : Z -> list sample -> list button_gesture_t -> Prop :=
| ap_long t0 ys g xs gs : long_press t0 ys g -> script xs gs ->
    after_press t0 (ys ++ xs) (g :: gs)
| ap_short t0 r ys qs t xs gs : tap t0 r ys -> quiet r qs ->
    BUTTON_DOUBLE_GAP_MS < u32 (t - r) -> script xs gs ->
    after_press t0 (ys ++ qs ++ (false, t) :: xs) (BTN_SHORT :: gs)
| ap_short_late t0 r ys qs t xs gs : tap t0 r ys -> quiet r qs ->
    BUTTON_DOUBLE_GAP_MS < u32 (t - r) -> after_press t xs gs ->
    after_press t0 (ys ++ qs ++ (true, t) :: xs) (BTN_SHORT :: gs)
| ap_double t0 r ys qs t1 r1 zs xs gs : tap t0 r ys -> quiet r qs ->
    u32 (t1 - r) <= BUTTON_DOUBLE_GAP_MS -> tap t1 r1 zs -> script xs gs ->
    after_press t0 (ys ++ qs ++ (true, t1) :: zs ++ xs) (BTN_DOUBLE :: gs)
| ap_tap_long t0 r ys qs t1 zs g xs gs : tap t0 r ys -> quiet r qs ->
    u32 (t1 - r) <= BUTTON_DOUBLE_GAP_MS -> long_press t1 zs g -> script xs gs ->
    after_press t0 (ys ++ qs ++ (true, t1) :: zs ++ xs) (g :: gs).

Scheme script_mind := Minimality for script Sort Prop
with after_press_mind := Minimality for after_press Sort Prop.

(** ** Lemmas: the automaton on each phrase *)

Ltac btn_bool :=
  repeat match goal with
  | |- context [?a <=? ?b] => destruct (Z.leb_spec a b); try (simpl in *; lia)
  | |- context [?a <? ?b] => destruct (Z.ltb_spec a b); try (simpl in *; lia)
  end.

(** Unfold one event on a state in constructor form. *)
Ltac btn_step :=
  unfold button_classifier_event; simpl;
  unfold BUTTON_VERY_LONG_MS, BUTTON_LONG_MS, BUTTON_DOUBLE_GAP_MS in *;
  btn_bool; try done.

Lemma run_hold t0 s xs : hold t0 xs ->
  button_run (Classifier BTN_STATE_PRESSED t0 s) xs
  = (Classifier BTN_STATE_PRESSED t0 s, []).
Proof.
  induction 1 as [|t xs Ht _ IH]; [done|]. cbn [button_run].
  replace (button_classifier_event _ _ _)
    with (Classifier BTN_STATE_PRESSED t0 s, BTN_NONE) by btn_step.
  by rewrite IH.
Qed.

Lemma run_quiet r s xs : quiet r xs ->
  button_run (Classifier BTN_STATE_WAIT_DOUBLE r s) xs
  = (Classifier BTN_STATE_WAIT_DOUBLE r s, []).
Proof.
  induction 1 as [|t xs Ht _ IH]; [done|]. cbn [button_run].
  replace (button_classifier_event _ _ _)
    with (Classifier BTN_STATE_WAIT_DOUBLE r s, BTN_NONE) by btn_step.
  by rewrite IH.
Qed.

Lemma run_long_press t0 s xs g : long_press t0 xs g ->
  button_run (Classifier BTN_STATE_PRESSED t0 s) xs
  = (Classifier BTN_STATE_IDLE t0 false, [g]).
Proof.
  destruct 1 as [xs t Hh Ht|xs t held Hh Ht];
    rewrite button_run_app, run_hold by done; cbn [button_run].
  - replace (button_classifier_event _ _ _)
      with (Classifier BTN_STATE_IDLE t0 false, BTN_LONG) by btn_step. done.
  - replace (button_classifier_event _ _ _)
      with (Classifier BTN_STATE_IDLE t0 false, BTN_VERY_LONG) by (destruct held; btn_step).
    done.
Qed.

Lemma run_first_tap t0 r xs : tap t0 r xs ->
  button_run (Classifier BTN_STATE_PRESSED t0 false) xs
  = (Classifier BTN_STATE_WAIT_DOUBLE r false, []).
Proof.
  destruct 1 as [xs Hh Hr]. rewrite button_run_app, run_hold by done. cbn [button_run].
  by replace (button_classifier_event _ _ _)
    with (Classifier BTN_STATE_WAIT_DOUBLE r false, BTN_NONE) by btn_step.
Qed.

Lemma run_second_tap t0 r xs : tap t0 r xs ->
  button_run (Classifier BTN_STATE_PRESSED t0 true) xs
  = (Classifier BTN_STATE_IDLE t0 false, [BTN_DOUBLE]).
Proof.
  destruct 1 as [xs Hh Hr]. rewrite button_run_app, run_hold by done. cbn [button_run].
  by replace (button_classifier_event _ _ _)
    with (Classifier BTN_STATE_IDLE t0 false, BTN_DOUBLE) by btn_step.
Qed.

(** After a first tap and its quiet gap, one more sample. *)
Lemma run_tap_quiet t0 r ys qs p t b g xs :
  tap t0 r ys -> quiet r qs ->
  button_classifier_event (Classifier BTN_STATE_WAIT_DOUBLE r false) p t = (b, g) ->
  button_run (Classifier BTN_STATE_PRESSED t0 false) (ys ++ qs ++ (p, t) :: xs) =
  let '(b', gs) := button_run b xs in
  (b', if decide (g = BTN_NONE) then gs else g :: gs).
Proof.
  intros Ht Hq He. rewrite button_run_app, run_first_tap with (r := r) by done.
  rewrite button_run_app, run_quiet by done. cbn [button_run]. rewrite He.
  by destruct (button_run b xs).
Qed.

(** The end of a run: idle, and these gestures. *)
Definition resolves (b : button_classifier_t) (xs : list sample)
    (gs : list button_gesture_t) : Prop :=
  state (fst (button_run b xs)) = BTN_STATE_IDLE /\ snd (button_run b xs) = gs.

Lemma resolves_app b b' xs ys gs hs :
  button_run b xs = (b', gs) -> resolves b' ys hs -> resolves b (xs ++ ys) (gs ++ hs).
Proof.
  unfold resolves. intros E [H1 H2]. rewrite button_run_app, E.
  destruct (button_run b' ys). by simplify_eq/=.
Qed.

Lemma resolves_tap_quiet t0 r ys qs p t b g xs gs :
  tap t0 r ys -> quiet r qs ->
  button_classifier_event (Classifier BTN_STATE_WAIT_DOUBLE r false) p t = (b, g) ->
  resolves b xs gs ->
  resolves (Classifier BTN_STATE_PRESSED t0 false) (ys ++ qs ++ (p, t) :: xs)
    (if decide (g = BTN_NONE) then gs else g :: gs).
Proof.
  unfold resolves. intros Ht Hq He [H1 H2].
  rewrite (run_tap_quiet _ _ _ _ _ _ _ _ _ Ht Hq He).
  destruct (button_run b xs). by simplify_eq/=.
Qed.

Lemma script_resolves xs gs : script xs gs ->
  forall b, state b = BTN_STATE_IDLE -> resolves b xs gs.
Proof.
  intros H. induction H as
    [|t xs gs _ IH|t0 xs gs _ IH
    |t0 ys g xs gs Hl _ IH|t0 r ys qs t xs gs Ht Hq Hd _ IH|t0 r ys qs t xs gs Ht Hq Hd _ IH
    |t0 r ys qs t1 r1 zs xs gs Ht Hq Hd Ht1 _ IH|t0 r ys qs t1 zs g xs gs Ht Hq Hd Hl _ IH]
    using script_mind
    with (P0 := fun t0 xs gs => resolves (Classifier BTN_STATE_PRESSED t0 false) xs gs).
  - by intros b Hb.
  - intros [st a s] Hb. simpl in Hb. subst. unfold resolves. simpl.
    specialize (IH (Classifier BTN_STATE_IDLE a s) eq_refl). unfold resolves in IH.
    by destruct (button_run _ xs).
  - intros [st a s] Hb. simpl in Hb. subst. unfold resolves in *. simpl.
    by destruct (button_run _ xs).
  - apply (resolves_app _ _ _ _ [g] gs (run_long_press _ _ _ _ Hl)). by apply IH.
  - apply (resolves_tap_quiet _ _ _ _ _ _ (Classifier BTN_STATE_IDLE r false) BTN_SHORT
      _ _ Ht Hq); [btn_step|by apply IH].
  - apply (resolves_tap_quiet _ _ _ _ _ _ (Classifier BTN_STATE_PRESSED t false) BTN_SHORT
      _ _ Ht Hq); [btn_step|apply IH].
  - apply (resolves_tap_quiet _ _ _ _ _ _ (Classifier BTN_STATE_PRESSED t1 true) BTN_NONE
      _ _ Ht Hq); [btn_step|].
    apply (resolves_app _ _ _ _ [BTN_DOUBLE] gs (run_second_tap _ _ _ Ht1)). by apply IH.
  - apply (resolves_tap_quiet _ _ _ _ _ _ (Classifier BTN_STATE_PRESSED t1 true) BTN_NONE
      _ _ Ht Hq); [btn_step|].
    apply (resolves_app _ _ _ _ [g] gs (run_long_press _ _ _ _ Hl)). by apply IH.
Qed.

(** Two classifiers whose clocks differ by [k]: the anchor is dead in the
    idle state. *)
Definition shifted (k : Z) (b b' : button_classifier_t) : Prop :=
  state b' = state b /\ second_tap b' = second_tap b /\
  (state b = BTN_STATE_IDLE \/ u32 (anchor_ms b') = u32 (anchor_ms b + k)).

Definition shift_sample (k : Z) (x : sample) : sample := (fst x, u32 (snd x + k)).

Lemma u32_shift_diff t a a' k :
  u32 a' = u32 (a + k) -> u32 (u32 (t + k) - a') = u32 (t - a).
Proof.
  intros H. rewrite <-(u32_sub_r _ a'), H. autorewrite with cint. f_equal. lia.
Qed.

Lemma event_shift k b b' p t :
  shifted k b b' ->
  shifted k (fst (button_classifier_event b p t))
    (fst (button_classifier_event b' p (u32 (t + k)))) /\
  snd (button_classifier_event b' p (u32 (t + k))) = snd (button_classifier_event b p t).
Proof.
  destruct b as [st a s], b' as [st' a' s'].
  intros (H1 & H2 & Ha). simpl in *. subst. unfold button_classifier_event, shifted. simpl.
  destruct st; destruct Ha as [Ha|Ha]; try done;
    try rewrite (u32_shift_diff _ _ _ _ Ha);
    repeat case_match; simpl; rewrite ?u32_idemp; auto 10.
Qed.

(** ** Theorems *)

(** C19. The classifier recognises the gestures of button.h: whatever script
    of taps, double taps and holds the samples spell (with any poll times,
    and from any idle state), the run emits exactly the gestures of the
    script, each once and in order, and ends idle.  In particular a second
    tap held for [BUTTON_LONG_MS] is a long press and not a double, a press
    after the gap emits the pending SHORT and counts as a new press, and a
    very long hold is reported while the button is still down. *)
Theorem classifier_reads_scripts b xs gs :
  state b = BTN_STATE_IDLE -> script xs gs ->
  state (fst (button_run b xs)) = BTN_STATE_IDLE /\ snd (button_run b xs) = gs.
Proof. intros Hb Hs. by apply script_resolves. Qed.

(** A double tap, then a hold over six seconds, polled coarsely. *)
Lemma classifier_reads_scripts_witness :
  snd (button_run button_classifier_init
    ([(false, 0); (true, 20)] ++ [(true, 60)] ++ [(false, 100)] ++ [(false, 300)]
     ++ [(true, 480)] ++ [(false, 520)]
     ++ [(true, 1000); (true, 4000); (true, 7000)])) = [BTN_DOUBLE; BTN_VERY_LONG].
Proof.
  refine (proj2 (classifier_reads_scripts button_classifier_init _ _ eq_refl _)).
  apply script_idle, script_press.
  refine (ap_double 20 100 ([(true, 60)] ++ [(false, 100)]) [(false, 300)] 480 520
    ([] ++ [(false, 520)]) [(true, 1000); (true, 4000); (true, 7000)] [BTN_VERY_LONG] _ _ _ _ _).
  - constructor; [|by vm_compute]. constructor; [by vm_compute|constructor].
  - constructor; [by vm_compute|constructor].
  - by vm_compute.
  - constructor; [constructor|by vm_compute].
  - apply script_press.
    refine (ap_long 1000 ([(true, 4000)] ++ [(true, 7000)]) BTN_VERY_LONG [] [] _ script_nil).
    constructor; [|by vm_compute]. constructor; [by vm_compute|constructor].
Defined.

(** The 32-bit millisecond clock may wrap at any point of a gesture:
    moving every poll time by the same amount modulo 2^32 changes no
    gesture, so the wrap after 49 days is harmless. *)
Lemma gestures_time_shift k b b' xs :
  shifted k b b' ->
  snd (button_run b' (map (shift_sample k) xs)) = snd (button_run b xs) /\
  shifted k (fst (button_run b xs)) (fst (button_run b' (map (shift_sample k) xs))).
Proof.
  revert b b'. induction xs as [|[p t] xs IH]; intros b b' Hs; [done|]. cbn [map button_run].
  destruct (event_shift k b b' p t Hs) as [Hs' Hg]. unfold shift_sample at 1. simpl.
  destruct (button_classifier_event b p t) as [c g].
  destruct (button_classifier_event b' p (u32 (t + k))) as [c' g']. simpl in *. subst g'.
  specialize (IH _ _ Hs').
  destruct (button_run c xs), (button_run c' (map (shift_sample k) xs)).
  simpl in *. destruct IH as [-> ?]. done.
Qed.

