(* ===== verification/CJson.v ===== *)
(** * Interface to cJSON, and IEEE doubles as the code compares them

    cJSON is a managed component outside the repository.  [CJson] lists the
    operations and struct fields the firmware reads, [CJsonLaws] the
    documented behaviour it relies on, and [Json] at the end is a concrete
    instance, so every theorem stated against the interface has a model. *)

From Stdlib Require Export SpecFloat.
From stdpp Require Export strings.
From S2P Require Import Prelude.
Open Scope Z_scope.
Open Scope list_scope.

(** ** Doubles *)

(** IEEE binary64, through the standard library's specification floats. *)
Definition double : Set := spec_float.
Definition double_ok (d : double) : bool :=
  valid_binary 53 1024 d && match d with S754_nan => false | _ => true end.

(** An integer constant of the source, such as [60.0]. *)
Definition dbl (n : Z) : double := binary_normalize 53 1024 n 0 false.

(** C's [a < b] on doubles. *)
Definition dlt (a b : double) : bool := SFltb a b.

(** The value truncated toward zero, and the conversion to uint32_t, which C
    defines when the truncated value fits. *)
Definition dtrunc (d : double) : Z :=
  match d with
  | S754_finite s m e => let v := Z.shiftl (Zpos m) e in if s then - v else v
  | _ => 0
  end.
Definition double_to_u32 (d : double) : Z := u32 (dtrunc d).

Lemma digits2_pos_bound (m : positive) :
  2 ^ (Zpos (digits2_pos m) - 1) <= Zpos m < 2 ^ Zpos (digits2_pos m).
Proof.
  assert (Zpos (digits2_pos m) = Z.log2 (Zpos m) + 1) as ->.
  { induction m as [m IH|m IH|]; [| |done];
      change (Zpos (digits2_pos _)) with (Zpos (Pos.succ (digits2_pos m)));
      rewrite Pos2Z.inj_succ, IH.
    - rewrite (Pos2Z.inj_xI m), Z.log2_succ_double by lia. lia.
    - rewrite (Pos2Z.inj_xO m), Z.log2_double by lia. lia. }
  replace (Z.log2 (Z.pos m) + 1 - 1) with (Z.log2 (Z.pos m)) by lia.
  rewrite Z.add_1_r. apply Z.log2_spec. lia.
Qed.

Lemma valid_mantissa s m e :
  double_ok (S754_finite s m e) = true ->
  Zpos m < 2 ^ 53 /\ (-1074 < e -> 2 ^ 52 <= Zpos m).
Proof.
  unfold double_ok, valid_binary, bounded, canonical_mantissa, fexp, emin.
  intros H. rewrite andb_true_r in H. apply andb_prop in H as [H _].
  apply Z.eqb_eq in H. pose proof (digits2_pos_bound m) as [Hl Hu].
  split.
  - eapply Z.lt_le_trans; [exact Hu|]. apply Z.pow_le_mono_r; lia.
  - intros He. eapply Z.le_trans; [|exact Hl]. apply Z.pow_le_mono_r; lia.
Qed.

Lemma dlt_finite m e m' e' :
  dlt (S754_finite false m e) (S754_finite false m' e') =
  bool_decide (e < e' \/ e = e' /\ Zpos m < Zpos m').
Proof.
  unfold dlt, SFltb, SFcompare.
  destruct (Z.compare_spec e e') as [->|He|He].
  - change (Pos.compare_cont Eq m m') with (m ?= m')%positive.
    destruct (Pos.compare_spec m m'); symmetry;
      (apply bool_decide_eq_true || apply bool_decide_eq_false); lia.
  - symmetry. apply bool_decide_eq_true. lia.
  - symmetry. apply bool_decide_eq_false. lia.
Qed.

Section Bounds.
Context (k : Z) (mk : positive) (ek : Z).
Context (Hk : dbl k = S754_finite false mk ek) (Hek : ek <= 0)
  (Hmk : 2 ^ 52 <= Zpos mk < 2 ^ 53) (Hval : Zpos mk = k * 2 ^ (- ek)).

(** [k <= d] for a positive constant [k], on a valid double. *)
Lemma dlt_lower d :
  double_ok d = true -> dlt d (dbl k) = false -> k <= dtrunc d \/ d = S754_infinity false.
Proof.
  intros Hd Hlt. rewrite Hk in Hlt. destruct d as [s|s| |s m e]; try done.
  { destruct s; [done|by right]. }
  destruct s; [done|]. left. rewrite dlt_finite in Hlt. apply bool_decide_eq_false in Hlt.
  destruct (valid_mantissa _ _ _ Hd) as [Hm1 Hm2]. simpl.
  assert (0 < 2 ^ (- ek)) as Hpos by (apply Z.pow_pos_nonneg; lia).
  destruct (Z.lt_ge_cases e 0) as [He|He].
  - rewrite <-(Z.opp_involutive e), Z.shiftl_opp_r, Z.shiftr_div_pow2 by lia.
    apply Z.div_le_lower_bound; [apply Z.pow_pos_nonneg; lia|].
    destruct (Z.eq_dec e ek) as [->|Hne]; [nia|].
    assert (-1074 < e \/ e <= -1074) as [Hn|Hn] by lia.
    + specialize (Hm2 Hn). assert (2 ^ (- ek) = 2 ^ (- e) * 2 ^ (e - ek)) as Hp
        by (rewrite <-Z.pow_add_r by lia; f_equal; lia).
      assert (2 <= 2 ^ (e - ek)) as H2
        by (change 2 with (2 ^ 1) at 1; apply Z.pow_le_mono_r; lia).
      rewrite Hp in Hval. assert (0 < 2 ^ (- e)) by (apply Z.pow_pos_nonneg; lia).
      change (2 ^ 53) with (2 * 2 ^ 52) in *. nia.
    + assert (1 <= k) by nia.
      assert (2 ^ 1074 <= 2 ^ (- ek)) by (apply Z.pow_le_mono_r; lia).
      assert (2 ^ 53 < 2 ^ 1074) by (apply Z.pow_lt_mono_r; lia).
      assert (1 * 2 ^ (- ek) <= k * 2 ^ (- ek)) by (apply Z.mul_le_mono_nonneg_r; lia). lia.
  - rewrite Z.shiftl_mul_pow2 by lia.
    assert (1 <= 2 ^ e) by (apply (Z.pow_le_mono_r 2 0 e); lia).
    assert (k <= Zpos mk) by nia. destruct (Z.eq_dec e ek) as [->|]; [nia|].
    specialize (Hm2 ltac:(lia)).
    destruct (Z.eq_dec ek 0) as [->|]; [|].
    + assert (2 <= 2 ^ e) by (change 2 with (2 ^ 1) at 1; apply Z.pow_le_mono_r; lia). nia.
    + assert (2 <= 2 ^ (- ek)) by (change 2 with (2 ^ 1) at 1; apply Z.pow_le_mono_r; lia).
      nia.
Qed.

(** [d <= k]. *)
Lemma dlt_upper d :
  double_ok d = true -> dlt (dbl k) d = false -> dtrunc d <= k /\ d <> S754_infinity false.
Proof.
  intros Hd Hlt. rewrite Hk in Hlt.
  assert (0 < 2 ^ (- ek)) as Hpos by (apply Z.pow_pos_nonneg; lia).
  assert (0 <= k) by nia.
  destruct d as [s|s| |s m e]; try done; [by destruct s|].
  split; [|done]. destruct s.
  { simpl. assert (0 <= Z.shiftl (Z.pos m) e) by by apply Z.shiftl_nonneg. lia. }
  rewrite dlt_finite in Hlt. apply bool_decide_eq_false in Hlt.
  destruct (valid_mantissa _ _ _ Hd) as [Hm1 _]. simpl.
  rewrite <-(Z.opp_involutive e), Z.shiftl_opp_r, Z.shiftr_div_pow2 by lia.
  assert (0 < 2 ^ (- e)) as Hpe by (apply Z.pow_pos_nonneg; lia).
  apply Z.lt_succ_r, Z.div_lt_upper_bound; [done|].
  destruct (Z.eq_dec e ek) as [->|]; [nia|].
  assert (2 ^ (- e) = 2 ^ (- ek) * 2 ^ (ek - e)) as Hp
    by (rewrite <-Z.pow_add_r by lia; f_equal; lia).
  assert (2 <= 2 ^ (ek - e)) by (change 2 with (2 ^ 1) at 1; apply Z.pow_le_mono_r; lia).
  change (2 ^ 53) with (2 * 2 ^ 52) in *. nia.
Qed.
End Bounds.

(** ** The interface *)

Class CJson (node : Type) : Type := {
  cJSON_IsObject : node -> bool;
  cJSON_IsNumber : node -> bool;
  cJSON_IsString : node -> bool;
  (** the [child]/[next] chain of an object, each child with its [string] *)
  children : node -> list (string * node);
  cJSON_GetObjectItemCaseSensitive : node -> string -> option node;
  valuedouble : node -> double;
  valuestring : node -> string;
}.

(** The first child with the key. *)
Fixpoint find_key {A} (k : string) (l : list (string * A)) : option A :=
  match l with
  | [] => None
  | (k', a) :: l => if String.eqb k' k then Some a else find_key k l
  end.

Class CJsonLaws (node : Type) `{CJson node} : Prop := {
  get_item_object n k : cJSON_IsObject n = true ->
    cJSON_GetObjectItemCaseSensitive n k = find_key k (children n);
  get_item_other n k : cJSON_IsObject n = false ->
    cJSON_GetObjectItemCaseSensitive n k = None;
  number_double n : cJSON_IsNumber n = true -> double_ok (valuedouble n) = true;
}.

(** ** A concrete instance *)

Module Json.

Inductive json : Type :=
| JNull | JTrue
| JNum (d : double) (ok : double_ok d = true)
| JStr (s : string)
| JArr (l : list json)
| JObj (l : list (string * json)).

(** An integer literal of the payload; [0] if it is not representable. *)
Definition jint (n : Z) : json :=
  match bool_dec (double_ok (dbl n)) true with
  | left ok => JNum (dbl n) ok
  | right _ => JNull
  end.

#[export] Instance json_cjson : CJson json := {
  cJSON_IsObject n := match n with JObj _ => true | _ => false end;
  cJSON_IsNumber n := match n with JNum _ _ => true | _ => false end;
  cJSON_IsString n := match n with JStr _ => true | _ => false end;
  children n := match n with JObj l => l | _ => [] end;
  cJSON_GetObjectItemCaseSensitive n k :=
    match n with JObj l => find_key k l | _ => None end;
  valuedouble n := match n with JNum d _ => d | _ => S754_zero false end;
  valuestring n := match n with JStr s => s | _ => EmptyString end;
}.

#[export] Instance json_laws : CJsonLaws json.
Proof.
  split.
  - by intros [].
  - by intros [].
  - by intros [] ?.
Qed.
End Json.
