(* ===== verification/Doubles.v ===== *)
(** * Integers as doubles

    An integer of less than 2^53 is its double exactly: it is a valid number,
    truncates to itself, and is compared as an integer.  Proved of the standard
    library's specification floats, for every such integer. *)

From S2P Require Import Prelude CJson.
Open Scope Z_scope.

(** ** Rounding *)
Lemma digits2_pos_shift p k :
  Zpos (digits2_pos (Pos.iter xO p k)) = Zpos (digits2_pos p) + Zpos k /\
  Zpos (Pos.iter xO p k) = Zpos p * 2 ^ Zpos k.
Proof.
  induction k as [|k [IH1 IH2]] using Pos.peano_ind.
  - simpl. split; [lia|]. rewrite Z.pow_1_r. lia.
  - rewrite Pos.iter_succ, Pos2Z.inj_succ, Z.pow_succ_r by lia. split.
    + change (digits2_pos (Pos.iter xO p k)~0) with (Pos.succ (digits2_pos (Pos.iter xO p k))). lia.
    + rewrite (Pos2Z.inj_xO (Pos.iter xO p k)). lia.
Qed.

Lemma round_exact s m e :
  Zpos (digits2_pos m) = 53 -> -1074 <= e <= 971 ->
  binary_round_aux 53 1024 s (Zpos m) e loc_Exact = S754_finite s m e.
Proof.
  intros Hd He. unfold binary_round_aux, shr_fexp. cbn [Zdigits2 shr_record_of_loc]. rewrite Hd.
  assert (fexp 53 1024 (53 + e) - e = 0) as E by (unfold fexp, emin; lia).
  rewrite E. cbn [shr shr_m loc_of_shr_record round_nearest_even Zdigits2 shr_record_of_loc].
  rewrite Hd, E. cbn [shr shr_m].
  destruct (Z.leb_spec e (1024 - 53)); [done|lia].
Qed.

Lemma round_int s p :
  Zpos p < 2 ^ 53 ->
  exists m e, binary_round 53 1024 s p 0 = S754_finite s m e /\ -52 <= e <= 0 /\
    Zpos m = Zpos p * 2 ^ (- e) /\ 2 ^ 52 <= Zpos m < 2 ^ 53 /\ Zpos (digits2_pos m) = 53.
Proof.
  intros Hp. pose proof (digits2_pos_bound p) as [Hl Hu]. unfold binary_round. rewrite Z.add_0_r.
  set (d := Zpos (digits2_pos p)) in *.
  assert (d <= 53) as Hd.
  { destruct (Z.le_gt_cases d 53); [done|]. assert (2 ^ 53 <= 2 ^ (d - 1)) by (apply Z.pow_le_mono_r; lia). lia. }
  assert (1 <= d) by lia.
  assert (fexp 53 1024 d = d - 53) as -> by (unfold fexp, emin; lia).
  assert (forall m, Zpos (digits2_pos m) = 53 -> 2 ^ 52 <= Zpos m < 2 ^ 53) as Hr.
  { intros m Hm. pose proof (digits2_pos_bound m) as Hb. rewrite Hm in Hb. exact Hb. }
  unfold shl_align. rewrite Z.sub_0_r. destruct (d - 53) as [|k|k] eqn:E; [|lia|].
  - exists p, 0. assert (Zpos (digits2_pos p) = 53) by (fold d; lia).
    rewrite round_exact by (done || lia). split_and!; try done; try lia; by apply Hr.
  - destruct (digits2_pos_shift p k) as [Hk1 Hk2]. fold d in Hk1.
    exists (Pos.iter xO p k), (Zneg k). assert (Zpos (digits2_pos (Pos.iter xO p k)) = 53) as H53 by lia.
    rewrite round_exact by (done || lia). split_and!; try done; try lia; by apply Hr.
Qed.

Definition is_int53 (z : Z) : Prop := - 2 ^ 53 < z < 2 ^ 53.

Lemma dbl_int z :
  is_int53 z -> z <> 0 ->
  exists m e, dbl z = S754_finite (z <? 0) m e /\ -52 <= e <= 0 /\
    Zpos m = Z.abs z * 2 ^ (- e) /\ 2 ^ 52 <= Zpos m < 2 ^ 53 /\ Zpos (digits2_pos m) = 53.
Proof. intros Hz Hn. unfold is_int53 in Hz. destruct z as [|p|p]; [done|..]; apply round_int; lia. Qed.

Lemma dbl_ok z : is_int53 z -> double_ok (dbl z) = true.
Proof.
  intros Hz. destruct (decide (z = 0)) as [->|Hn]; [done|].
  destruct (dbl_int z Hz Hn) as (m & e & -> & He & _ & _ & Hd).
  unfold double_ok, valid_binary, bounded, canonical_mantissa, fexp, emin. rewrite Hd.
  rewrite andb_true_r. apply andb_true_iff. split; [apply Z.eqb_eq|apply Z.leb_le]; lia.
Qed.

Lemma dtrunc_dbl z : is_int53 z -> dtrunc (dbl z) = z.
Proof.
  intros Hz. destruct (decide (z = 0)) as [->|Hn]; [done|].
  destruct (dbl_int z Hz Hn) as (m & e & -> & He & Hm & _ & _). cbn [dtrunc].
  assert (Z.shiftl (Zpos m) e = Z.abs z) as ->; [|destruct (Z.ltb_spec z 0); lia].
  rewrite <-(Z.opp_involutive e), Z.shiftl_opp_r, Z.shiftr_div_pow2, Hm by lia.
  apply Z.div_mul. assert (0 < 2 ^ (- e)) by (apply Z.pow_pos_nonneg; lia). lia.
Qed.

Lemma scale_lt a b ea eb ma mb :
  ea <= 0 -> eb <= 0 -> ma = a * 2 ^ (- ea) -> mb = b * 2 ^ (- eb) ->
  2 ^ 52 <= ma < 2 ^ 53 -> 2 ^ 52 <= mb < 2 ^ 53 ->
  (ea < eb \/ ea = eb /\ ma < mb) <-> a < b.
Proof.
  intros Ha Hb Hma Hmb Hra Hrb.
  assert (0 < 2 ^ (- ea)) by (apply Z.pow_pos_nonneg; lia).
  assert (0 < 2 ^ (- eb)) by (apply Z.pow_pos_nonneg; lia).
  assert (forall x y u v, x <= 0 -> x < y -> y <= 0 -> 0 < u -> u * 2 ^ (- x) < 2 ^ 53 -> 2 ^ 52 <= v * 2 ^ (- y) -> u < v) as Hlt.
  { intros x y u v Hx Hxy Hy Hu H1 H2. assert (2 ^ (- x) = 2 ^ (- y) * 2 ^ (y - x)) as E
      by (rewrite <-Z.pow_add_r by lia; f_equal; lia).
    assert (2 <= 2 ^ (y - x)) by (change 2 with (2 ^ 1) at 1; apply Z.pow_le_mono_r; lia).
    assert (0 < 2 ^ (- y)) by (apply Z.pow_pos_nonneg; lia).
    change (2 ^ 53) with (2 * 2 ^ 52) in H1. rewrite E in H1. nia. }
  destruct (Z.lt_trichotomy ea eb) as [E|[<-|E]].
  - split; [|by left]. intros _. apply (Hlt ea eb); try lia; nia.
  - split; [intros [?|[_ ?]]; nia|]. intros. right. split; [done|nia].
  - split; [lia|]. intros. assert (b < a); [|lia]. apply (Hlt eb ea); try lia; nia.
Qed.

(** Comparing an integer with a non-negative constant. *)
Lemma dlt_int a b :
  is_int53 a -> is_int53 b -> 0 <= b ->
  dlt (dbl a) (dbl b) = (a <? b) /\ dlt (dbl b) (dbl a) = (b <? a).
Proof.
  intros Ha Hb Hb0.
  destruct (decide (a = 0)) as [->|Hna]; destruct (decide (b = 0)) as [->|Hnb]; [done|..].
  - destruct (dbl_int b Hb Hnb) as (m & e & -> & _).
    destruct (Z.ltb_spec b 0); [lia|]. cbn. split; symmetry; [apply Z.ltb_lt|]; lia.
  - destruct (dbl_int a Ha Hna) as (m & e & -> & _). cbn.
    destruct (Z.ltb_spec a 0), (Z.ltb_spec 0 a); done || lia.
  - destruct (dbl_int a Ha Hna) as (ma & ea & -> & Hea & Hma & Hra & _).
    destruct (dbl_int b Hb Hnb) as (mb & eb & -> & Heb & Hmb & Hrb & _).
    destruct (Z.ltb_spec b 0); [lia|]. destruct (Z.ltb_spec a 0) as [Hn|Hp].
    + split; cbn; symmetry; [apply Z.ltb_lt|apply Z.ltb_ge]; lia.
    + rewrite !dlt_finite. rewrite Z.abs_eq in Hma, Hmb by lia.
      split; apply eq_bool_prop_intro; rewrite bool_decide_spec, Is_true_true, Z.ltb_lt;
        apply (scale_lt _ _ _ _ (Zpos _) (Zpos _)); (done || lia).
Qed.
