(* ===== verification/Freertos.v ===== *)
(** * Interface to FreeRTOS queues

    The code passes requests between tasks through queues of a fixed depth:
    [xQueueSend(q, &item, 0)] fails at once on a full queue, and
    [xQueueReceive] hands items out in the order they were sent.  [FQueue]
    is that interface, [FQueueLaws] its documented behaviour, and [ListQueue]
    an implementation. *)

From S2P Require Import Prelude.

Class FQueue (A Q : Type) : Type := {
  queue_items : Q -> list A;
  queue_depth : Q -> Z;
  xQueueCreate : Z -> Q;
  xQueueSend : Q -> A -> bool * Q;
  xQueueReceive : Q -> option (A * Q);
}.

Class FQueueLaws (A Q : Type) `{FQueue A Q} : Prop := {
  create_items n : queue_items (xQueueCreate n) = [];
  create_depth n : queue_depth (xQueueCreate n) = n;
  send_room q a : Z.of_nat (length (queue_items q)) < queue_depth q ->
    exists q', xQueueSend q a = (true, q') /\
      queue_items q' = queue_items q ++ [a] /\ queue_depth q' = queue_depth q;
  send_full q a : queue_depth q <= Z.of_nat (length (queue_items q)) ->
    xQueueSend q a = (false, q);
  receive_empty q : queue_items q = [] -> xQueueReceive q = None;
  receive_item q a l : queue_items q = a :: l ->
    exists q', xQueueReceive q = Some (a, q') /\
      queue_items q' = l /\ queue_depth q' = queue_depth q;
}.

Section Derived.
Context {A Q : Type} `{FQueueLaws A Q}.

(** A send, whichever way it goes. *)
Lemma send_spec q a ok q' :
  xQueueSend q a = (ok, q') ->
  queue_depth q' = queue_depth q /\
  queue_items q' = queue_items q ++ (if ok then [a] else []) /\
  (ok = true <-> Z.of_nat (length (queue_items q)) < queue_depth q).
Proof.
  intros Hs. destruct (Z.lt_ge_cases (Z.of_nat (length (queue_items q))) (queue_depth q)) as [Hr|Hr].
  - destruct (send_room q a Hr) as (q1 & E & ? & ?). rewrite Hs in E. by simplify_eq.
  - rewrite (send_full q a Hr) in Hs. simplify_eq. rewrite app_nil_r. split_and!; [done..|].
    split; [done|lia].
Qed.

Lemma receive_spec q a q' :
  xQueueReceive q = Some (a, q') ->
  queue_items q = a :: queue_items q' /\ queue_depth q' = queue_depth q.
Proof.
  intros Hr. destruct (queue_items q) as [|b l] eqn:E.
  - by rewrite receive_empty in Hr.
  - destruct (receive_item q b l E) as (q1 & E1 & ? & ?). rewrite Hr in E1. by simplify_eq.
Qed.
End Derived.

Module ListQueue.

Record lqueue (A : Type) : Type := LQueue { lq_depth : Z; lq_items : list A }.
Arguments LQueue {A}.
Arguments lq_depth {A}.
Arguments lq_items {A}.

#[export] Instance list_fqueue A : FQueue A (lqueue A) := {
  queue_items := lq_items;
  queue_depth := lq_depth;
  xQueueCreate n := LQueue n [];
  xQueueSend q a :=
    if Z.of_nat (length (lq_items q)) <? lq_depth q
    then (true, LQueue (lq_depth q) (lq_items q ++ [a])) else (false, q);
  xQueueReceive q :=
    match lq_items q with
    | [] => None
    | a :: l => Some (a, LQueue (lq_depth q) l)
    end;
}.

#[export] Instance list_fqueue_laws A : FQueueLaws A (lqueue A).
Proof.
  split; simpl; try done.
  - intros q a Hq. apply Z.ltb_lt in Hq. rewrite Hq. eauto.
  - intros q a Hq. apply Z.ltb_ge in Hq. by rewrite Hq.
  - intros q Hq. by rewrite Hq.
  - intros q a l Hq. rewrite Hq. eauto.
Qed.
End ListQueue.
