(* ===== verification/ExecutorCore.v ===== *)
(** * executor_core.c: parsing and validating a command, and the replay window

    [executor_parse_and_validate] is a chain of string comparisons, each arm
    with its own parameter checks.  It is proved against the server's own
    table [_TYPE_SCHEMAS] (agent/validator_command.py), which it claims to
    mirror, and [replay_window] against the ring buffer. *)

From stdpp Require Import sets.
From S2P Require Import Prelude Config CJson RingBuffer.
Import Json.
Open Scope string_scope.
Open Scope list_scope.
Open Scope Z_scope.

Inductive executor_status_t : Set := EXEC_OK | EXEC_BAD_PARAMS | EXEC_UNKNOWN_TYPE.

Inductive cmd_type_t : Set :=
| CMD_UNKNOWN
| CMD_START_AUDIO
| CMD_STOP_AUDIO
| CMD_REQUEST_BUFFER
| CMD_CAPTURE_PHOTO
| CMD_RECORD_VIDEO
| CMD_START_VIDEO
| CMD_STOP_VIDEO
| CMD_FLUSH_SNAPSHOTS
| CMD_SET_SNAPSHOT_INTERVAL.

#[export] Instance executor_status_eq_dec : EqDecision executor_status_t.
Proof. solve_decision. Defined.
#[export] Instance cmd_type_eq_dec : EqDecision cmd_type_t.
Proof. solve_decision. Defined.

Record cmd_request_t : Type := CmdRequest {
  type : cmd_type_t;
  status : executor_status_t;
  seconds : Z;
  duration_s : Z;
  snapshot_interval_s : Z;
}.

#[export] Instance cmd_request_eq_dec : EqDecision cmd_request_t.
Proof. solve_decision. Defined.

(** [memset(out, 0, sizeof *out)] with the type and status then assigned. *)
Definition req_of (ty : cmd_type_t) (st : executor_status_t) : cmd_request_t :=
  CmdRequest ty st 0 0 0.

Section Core.
Context {node : Type} `{CJson node}.

Definition params_only_allowed (params : option node) (allowed : list string) : bool :=
  match params with
  | None => true
  | Some p =>
      if negb (cJSON_IsObject p) then true
      else forallb (fun c => existsb (String.eqb (fst c)) allowed) (children p)
  end.

Definition get_number (params : option node) (key : string) : option double :=
  match params with
  | None => None
  | Some p =>
      match cJSON_GetObjectItemCaseSensitive p key with
      | None => None
      | Some n => if negb (cJSON_IsNumber n) then None else Some (valuedouble n)
      end
  end.

(** The arm of a command without parameters. *)
Definition parse_bare (ty : cmd_type_t) (params : option node) : cmd_request_t :=
  if negb (params_only_allowed params []) then req_of ty EXEC_BAD_PARAMS
  else req_of ty EXEC_OK.

(** The checks of the three arms with one numeric parameter; [None] is the
    early return with EXEC_BAD_PARAMS. *)
Definition parse_number (params : option node) (key : string) (lo hi : double)
  : option double :=
  if negb (params_only_allowed params [key]) then None
  else
    match get_number params key with
    | None => None
    | Some d => if dlt d lo || dlt hi d then None else Some d
    end.

Definition executor_parse_and_validate (ty : string) (params : option node)
  : cmd_request_t :=
  if String.eqb ty "start_audio" then parse_bare CMD_START_AUDIO params
  else if String.eqb ty "stop_audio" then parse_bare CMD_STOP_AUDIO params
  else if String.eqb ty "capture_photo" then parse_bare CMD_CAPTURE_PHOTO params
  else if String.eqb ty "record_video" then
    match parse_number params "duration_s" (dbl 1) (dbl 30) with
    | None => req_of CMD_RECORD_VIDEO EXEC_BAD_PARAMS
    | Some d => CmdRequest CMD_RECORD_VIDEO EXEC_OK 0 (double_to_u32 d) 0
    end
  else if String.eqb ty "request_buffer" then
    match parse_number params "seconds"
            (dbl REQ_BUFFER_MIN_SECONDS) (dbl REQ_BUFFER_MAX_SECONDS) with
    | None => req_of CMD_REQUEST_BUFFER EXEC_BAD_PARAMS
    | Some s => CmdRequest CMD_REQUEST_BUFFER EXEC_OK (double_to_u32 s) 0 0
    end
  else if String.eqb ty "start_video" then parse_bare CMD_START_VIDEO params
  else if String.eqb ty "stop_video" then parse_bare CMD_STOP_VIDEO params
  else if String.eqb ty "flush_snapshots" then parse_bare CMD_FLUSH_SNAPSHOTS params
  else if String.eqb ty "set_snapshot_interval" then
    match parse_number params "seconds"
            (dbl SNAPSHOT_INTERVAL_MIN) (dbl SNAPSHOT_INTERVAL_MAX) with
    | None => req_of CMD_SET_SNAPSHOT_INTERVAL EXEC_BAD_PARAMS
    | Some s => CmdRequest CMD_SET_SNAPSHOT_INTERVAL EXEC_OK 0 0 (double_to_u32 s)
    end
  else req_of CMD_UNKNOWN EXEC_UNKNOWN_TYPE.

(** ** The server's validator *)

(** A row of [_TYPE_SCHEMAS]: the required fields with their bounds.  Every
    row's "optional" entry is empty. *)
Definition schema : Type := list (string * (Z * Z)).

Definition _TYPE_SCHEMAS : list (string * schema) :=
  [("capture_photo", []);
   ("record_video", [("duration_s", (1, 30))]);
   ("start_audio", []);
   ("stop_audio", []);
   ("request_buffer", [("seconds", (1, 60))]);
   ("record_audio", [("duration_s", (1, 120))]);
   ("start_video", []);
   ("stop_video", []);
   ("flush_snapshots", []);
   ("sleep", []);
   ("set_snapshot_interval", [("seconds", (0, 600))])].

(** Steps 4 to 6 of [validate], on the decoded parameters: no unknown key,
    no missing key, each field a number inside its bounds. *)
Definition schema_accepts (sch : schema) (params : list (string * node)) : bool :=
  forallb (fun c => existsb (String.eqb (fst c)) (map fst sch)) params &&
  forallb (fun f => match find_key (fst f) params with Some _ => true | None => false end)
    sch &&
  forallb (fun f =>
    match find_key (fst f) params with
    | None => true
    | Some v =>
        cJSON_IsNumber v &&
        negb (dlt (valuedouble v) (dbl (fst (snd f)))) &&
        negb (dlt (dbl (snd (snd f))) (valuedouble v))
    end) sch.

(** Step 3, the schema lookup, then the checks. *)
Definition server_accepts (ty : string) (params : list (string * node)) : bool :=
  match find_key ty _TYPE_SCHEMAS with
  | None => false
  | Some sch => schema_accepts sch params
  end.

(** The types the device implements. *)
Definition device_types : list string :=
  ["start_audio"; "stop_audio"; "capture_photo"; "record_video"; "request_buffer";
   "start_video"; "stop_video"; "flush_snapshots"; "set_snapshot_interval"].
End Core.

(** [replay_window]: start index and count. *)
Definition replay_window (seconds write_idx : Z) : Z * Z :=
  let want := u32 (seconds * (1000 / FRAME_MS)) in
  let N := want in
  let N := if RING_FRAMES <? N then RING_FRAMES else N in
  let N := if write_idx <? N then write_idx else N in
  (u32 (write_idx - N), N).

(** ** Lemmas *)

Section CoreLemmas.
Context {node : Type} `{CJsonLaws node}.

Lemma get_number_valid params key d :
  get_number params key = Some d -> double_ok d = true.
Proof.
  unfold get_number. intros. repeat case_match; simplify_eq.
  apply number_double. by destruct (cJSON_IsNumber _).
Qed.

Lemma parse_number_valid params key lo hi d :
  parse_number params key lo hi = Some d ->
  double_ok d = true /\ dlt d lo = false /\ dlt hi d = false.
Proof.
  unfold parse_number. intros. repeat case_match; simplify_eq.
  split; [by eapply get_number_valid|]. by apply orb_false_iff.
Qed.

(** The value of an accepted field with positive integer bounds. *)
Lemma parse_number_range params key lo hi ml el mh eh d :
  dbl lo = S754_finite false ml el -> el <= 0 ->
  2 ^ 52 <= Zpos ml < 2 ^ 53 -> Zpos ml = lo * 2 ^ (- el) ->
  dbl hi = S754_finite false mh eh -> eh <= 0 ->
  2 ^ 52 <= Zpos mh < 2 ^ 53 -> Zpos mh = hi * 2 ^ (- eh) ->
  parse_number params key (dbl lo) (dbl hi) = Some d -> lo <= dtrunc d <= hi.
Proof.
  intros Hl1 Hl2 Hl3 Hl4 Hh1 Hh2 Hh3 Hh4 Hp.
  apply parse_number_valid in Hp as (Hd & Hlo & Hhi).
  destruct (dlt_upper _ _ _ Hh1 Hh2 Hh3 Hh4 _ Hd Hhi) as [? ?].
  by destruct (dlt_lower _ _ _ Hl1 Hl2 Hl3 Hl4 _ Hd Hlo).
Qed.

(** Likewise with lower bound 0. *)
Lemma parse_number_range0 params key hi mh eh d :
  dbl hi = S754_finite false mh eh -> eh <= 0 ->
  2 ^ 52 <= Zpos mh < 2 ^ 53 -> Zpos mh = hi * 2 ^ (- eh) ->
  parse_number params key (dbl 0) (dbl hi) = Some d -> 0 <= dtrunc d <= hi.
Proof.
  intros Hh1 Hh2 Hh3 Hh4 Hp.
  apply parse_number_valid in Hp as (Hd & Hlo & Hhi).
  destruct (dlt_upper _ _ _ Hh1 Hh2 Hh3 Hh4 _ Hd Hhi) as [? ?]. split; [|done].
  change (dbl 0) with (S754_zero false) in Hlo.
  destruct d as [| | |[] m e]; simpl; try lia; [done|]. by apply Z.shiftl_nonneg.
Qed.

Lemma parse_number_server p key lo hi :
  cJSON_IsObject p = true ->
  (exists d, parse_number (Some p) key (dbl lo) (dbl hi) = Some d) <->
  schema_accepts [(key, (lo, hi))] (children p) = true.
Proof.
  intros Hp. unfold parse_number, params_only_allowed, get_number, schema_accepts.
  rewrite Hp, get_item_object by done. cbn [negb map fst snd].
  destruct (forallb _ (children p)); cbn [negb andb]; [|split; [by intros []|done]].
  cbn [forallb fst snd].
  destruct (find_key key (children p)) as [v|]; cbn [andb]; [|split; [by intros []|done]].
  destruct (cJSON_IsNumber v); cbn [negb andb]; [|split; [by intros []|done]].
  destruct (dlt _ _), (dlt _ _); cbn; naive_solver.
Qed.

Lemma parse_bare_status ty p :
  cJSON_IsObject p = true ->
  status (parse_bare ty (Some p)) = EXEC_OK <-> schema_accepts [] (children p) = true.
Proof.
  intros Hp. unfold parse_bare, params_only_allowed, schema_accepts.
  rewrite Hp. cbn [negb map forallb]. rewrite !andb_true_r. by destruct (forallb _ _).
Qed.
End CoreLemmas.

(** The side conditions of [parse_number_range] at the source's constants. *)
Ltac dbl_const := first [reflexivity | by vm_compute | vm_compute; split; congruence | lia].

Lemma replay_window_min seconds w :
  is_u32 w -> 0 <= seconds <= 85899345 ->
  replay_window seconds w =
  let n := Z.min (seconds * 50) (Z.min RING_FRAMES w) in (w - n, n).
Proof.
  intros Hw Hs. unfold replay_window. change (1000 / FRAME_MS) with 50.
  rewrite (u32_small (seconds * 50)) by clia. rewrite RING_FRAMES_val. cbv zeta.
  destruct (Z.ltb_spec 3000 (seconds * 50));
    match goal with |- context [w <? ?n] => destruct (Z.ltb_spec w n) end;
    rewrite u32_small by clia; f_equal; lia.
Qed.

(** ** Theorems *)

(** Whatever JSON arrives, a request that leaves the parser with
    EXEC_OK is one of the nine the device implements, its numeric field is
    the parameter truncated toward zero and lies in the documented range, and
    its other fields are zero; any other type string is EXEC_UNKNOWN_TYPE. *)
Lemma validated_request_bounds {node} `{CJsonLaws node} ty (params : option node) :
  let r := executor_parse_and_validate ty params in
  (ty ∉ device_types -> r = req_of CMD_UNKNOWN EXEC_UNKNOWN_TYPE) /\
  (status r = EXEC_OK ->
     ty ∈ device_types /\
     match type r with
     | CMD_REQUEST_BUFFER => 1 <= seconds r <= 60
     | _ => seconds r = 0
     end /\
     match type r with
     | CMD_RECORD_VIDEO => 1 <= duration_s r <= 30
     | _ => duration_s r = 0
     end /\
     match type r with
     | CMD_SET_SNAPSHOT_INTERVAL => 0 <= snapshot_interval_s r <= 600
     | _ => snapshot_interval_s r = 0
     end /\
     type r <> CMD_UNKNOWN).
Proof.
  cbv zeta. unfold executor_parse_and_validate, parse_bare, device_types, double_to_u32.
  repeat match goal with
  | |- context [if String.eqb ?a ?b then _ else _] =>
      destruct (String.eqb_spec a b); subst
  end;
  (split; [set_solver|]); [..|done];
  try (destruct (params_only_allowed _ _); [|done]; set_solver);
  match goal with
  | |- context [parse_number ?p ?k ?l ?h] =>
      destruct (parse_number p k l h) as [d|] eqn:Hp; [|done]
  end; simpl; intros _;
  unfold REQ_BUFFER_MIN_SECONDS, REQ_BUFFER_MAX_SECONDS, SNAPSHOT_INTERVAL_MIN,
    SNAPSHOT_INTERVAL_MAX in Hp.
  - eapply parse_number_range in Hp; [|dbl_const..].
    rewrite u32_small by clia. set_solver.
  - eapply parse_number_range in Hp; [|dbl_const..].
    rewrite u32_small by clia. set_solver.
  - eapply parse_number_range0 in Hp; [|dbl_const..].
    rewrite u32_small by clia. set_solver.
Qed.

(** The device's checks agree with the server's table for every type
    the device implements: a parameter object is accepted by the firmware
    exactly when [CommandValidator] accepts it.  The table is not mirrored in
    full, though: the server also issues "record_audio" and "sleep", which the
    firmware classifies as unknown whatever their parameters. *)
Lemma device_agrees_with_server {node} `{CJsonLaws node} ty (p : node) :
  cJSON_IsObject p = true ->
  (ty ∈ device_types ->
     status (executor_parse_and_validate ty (Some p)) = EXEC_OK <->
     server_accepts ty (children p) = true) /\
  (ty = "sleep" \/ ty = "record_audio" ->
     executor_parse_and_validate ty (Some p) = req_of CMD_UNKNOWN EXEC_UNKNOWN_TYPE) /\
  server_accepts (node := node) "sleep" [] = true.
Proof.
  intros Hp. split_and!; [|by intros [->| ->]|done].
  unfold device_types, server_accepts, executor_parse_and_validate.
  intros Hty. repeat (apply elem_of_cons in Hty as [->|Hty]);
    [..|by apply not_elem_of_nil in Hty]; cbn -[parse_bare parse_number dbl dlt schema_accepts];
    try (by apply parse_bare_status).
  all: rewrite <-(parse_number_server p _ _ _ Hp);
    unfold REQ_BUFFER_MIN_SECONDS, REQ_BUFFER_MAX_SECONDS, SNAPSHOT_INTERVAL_MIN,
      SNAPSHOT_INTERVAL_MAX;
    destruct (parse_number _ _ _ _); simpl; naive_solver.
Qed.

(** A request_buffer of [s] seconds replays the last
    min(50 s, 3000, frames written) frames: the window ends at the write
    index, never reaches before frame 0, and every frame of it is readable
    from the ring at the moment it is computed. *)
Lemma replay_window_readable r h s :
  ring_ok r h -> REQ_BUFFER_MIN_SECONDS <= s <= REQ_BUFFER_MAX_SECONDS ->
  let '(start, n) := replay_window s (ring_buffer_write_index r) in
  n = Z.min (s * 50) (Z.of_nat (length h)) /\
  0 <= start /\ start + n = Z.of_nat (length h) /\
  (forall i, start <= i < start + n ->
     exists f, h !! Z.to_nat i = Some f /\
       ring_buffer_get_copy r i =
         Some (RingFrame (fr_vad f) (fr_ts f) (fr_len f) InBuffer, fr_bytes f)).
Proof.
  intros Hr Hs. unfold REQ_BUFFER_MIN_SECONDS, REQ_BUFFER_MAX_SECONDS in Hs.
  pose proof (ring_ok_count _ _ Hr) as Hc. pose proof (ring_ok_u32 _ _ Hr) as Hu.
  unfold ring_buffer_write_index. rewrite Hc.
  rewrite replay_window_min by first [done|lia].
  cbv zeta. rewrite RING_FRAMES_val. split_and!; [lia..|].
  intros i Hi. assert (in_window h i) as Hw
    by (unfold in_window; rewrite RING_FRAMES_val; lia).
  destruct (window_lookup _ _ Hw) as [f Hf]. exists f. split; [done|].
  by apply (ring_get_in r h i f).
Qed.

