(* ===== verification/Executor.v ===== *)
(** * executor.c and audio_gate.c: the command queue and its task

    Producers ([executor_submit] from the BLE host task,
    [executor_dispatch_local] from the button task) and one consumer
    ([executor_task]) share a queue of [EXECUTOR_QUEUE_DEPTH] requests.  The
    dispatch of one request is a program over the calls into the other
    modules; the queue and its interleavings are a step relation. *)

From stdpp Require Import strings.
From S2P Require Import Prelude Effects Config CJson Freertos RingBuffer ExecutorCore.
Import Json ListQueue.
Open Scope list_scope.
Open Scope Z_scope.

(** ** audio_gate.c: one volatile bool *)

Module AudioGate.
Definition s_paused_init : bool := false.
Definition audio_gate_set (s_paused paused : bool) : bool := paused.
Definition audio_gate_paused (s_paused : bool) : bool := s_paused.
End AudioGate.

(** ** The executor *)

(** The calls of the dispatch switch. *)
Inductive execE : Type -> Type :=
| audio_gate_set (paused : bool) : execE unit
| ble_drain_replay_queue : execE bool  (** is the handle non-NULL *)
| replay_send (seconds : Z) : execE bool  (** xQueueSend(rq, &rr, 0) == pdPASS *)
| snapshot_capture_async : execE unit
| rel_ts_ms_now : execE Z
| video_record (duration_s rel_ts : Z) : execE unit
| video_start (rel_ts : Z) : execE unit
| video_stop_async : execE unit
| transfer_flush : execE unit
| snapshot_set_interval (seconds : Z) : execE unit.

#[local] Abbreviation call := (Effects.call (E := execE)).

(** The body of [executor_task]'s loop after the receive. *)
Definition executor_dispatch (req : cmd_request_t) : prog execE unit :=
  match status req with
  | EXEC_OK =>
      match type req with
      | CMD_START_AUDIO => call (audio_gate_set false)
      | CMD_STOP_AUDIO => call (audio_gate_set true)
      | CMD_REQUEST_BUFFER =>
          let* rq := call ble_drain_replay_queue in
          if rq then let* _ := call (replay_send (seconds req)) in Ret tt else Ret tt
      | CMD_CAPTURE_PHOTO => call snapshot_capture_async
      | CMD_RECORD_VIDEO =>
          let* ts := call rel_ts_ms_now in call (video_record (duration_s req) ts)
      | CMD_START_VIDEO => let* ts := call rel_ts_ms_now in call (video_start ts)
      | CMD_STOP_VIDEO => call video_stop_async
      | CMD_FLUSH_SNAPSHOTS => call transfer_flush
      | CMD_SET_SNAPSHOT_INTERVAL => call (snapshot_set_interval (snapshot_interval_s req))
      | CMD_UNKNOWN => Ret tt
      end
  | _ => Ret tt
  end%prog.

Section Executor.
Context {node : Type} `{CJson node}.
Context {Q : Type} `{FQueue cmd_request_t Q}.

(** [executor_init]: [task_ok] is the result of xTaskCreatePinnedToCore;
    on failure the queue is deleted again. *)
Definition executor_init (queue_ok task_ok : bool) : option Q :=
  if negb queue_ok then None
  else if negb task_ok then None
  else Some (xQueueCreate EXECUTOR_QUEUE_DEPTH).

Definition executor_submit (s_queue : Q) (ty : string) (params : option node) : bool * Q :=
  let req := executor_parse_and_validate ty params in
  match xQueueSend s_queue req with
  | (false, q) => (false, q)
  | (true, q) => (true, q)
  end.

Definition executor_dispatch_local (s_queue : Q) (req : option cmd_request_t) : bool * Q :=
  match req with
  | None => (false, s_queue)
  | Some r =>
      match status r with
      | EXEC_OK =>
          match xQueueSend s_queue r with
          | (false, q) => (false, q)
          | (true, q) => (true, q)
          end
      | _ => (false, s_queue)
      end
  end.

(** What the tasks do to the queue, one step each. *)
Inductive exec_label : Type :=
| LSubmit (ty : string) (params : option node) (ok : bool)
| LLocal (req : option cmd_request_t) (ok : bool)
| LRun (req : cmd_request_t) (calls : list (ev execE)).

Inductive exec_step : Q -> exec_label -> Q -> Prop :=
| step_submit q ty params ok q' :
    executor_submit q ty params = (ok, q') -> exec_step q (LSubmit ty params ok) q'
| step_local q req ok q' :
    executor_dispatch_local q req = (ok, q') -> exec_step q (LLocal req ok) q'
| step_run q req q' calls :
    xQueueReceive q = Some (req, q') -> exec (executor_dispatch req) calls tt ->
    exec_step q (LRun req calls) q'.

Inductive exec_steps : Q -> list exec_label -> Q -> Prop :=
| steps_nil q : exec_steps q [] q
| steps_snoc q ls q' l q'' :
    exec_steps q ls q' -> exec_step q' l q'' -> exec_steps q (ls ++ [l]) q''.

(** The requests that were accepted, and those that were run. *)
Definition accepted1 (l : exec_label) : list cmd_request_t :=
  match l with
  | LSubmit ty params true => [executor_parse_and_validate ty params]
  | LLocal (Some r) true => [r]
  | _ => []
  end.
Definition ran1 (l : exec_label) : list cmd_request_t :=
  match l with LRun r _ => [r] | _ => [] end.
Definition accepted (ls : list exec_label) : list cmd_request_t := ls ≫= accepted1.
Definition ran (ls : list exec_label) : list cmd_request_t := ls ≫= ran1.
End Executor.

(** ** The gate the calls leave *)

Definition gate_call (s_paused : bool) (e : ev execE) : bool :=
  match e with
  | Ev (audio_gate_set b) _ => AudioGate.audio_gate_set s_paused b
  | _ => s_paused
  end.

(** The gate as start_audio and stop_audio requests ask for it. *)
Definition gate_request (s_paused : bool) (req : cmd_request_t) : bool :=
  match status req, type req with
  | EXEC_OK, CMD_START_AUDIO => false
  | EXEC_OK, CMD_STOP_AUDIO => true
  | _, _ => s_paused
  end.

Definition calls1 {node} (l : exec_label (node := node)) : list (ev execE) :=
  match l with LRun _ t => t | _ => [] end.

(** ** The contract of one dispatch *)

(** The calls a request asks for. *)
Definition performs (req : cmd_request_t) (t : list (ev execE)) : Prop :=
  match status req, type req with
  | EXEC_OK, CMD_START_AUDIO => t = [Ev (audio_gate_set false) tt]
  | EXEC_OK, CMD_STOP_AUDIO => t = [Ev (audio_gate_set true) tt]
  | EXEC_OK, CMD_REQUEST_BUFFER =>
      t = [Ev ble_drain_replay_queue false] \/
      exists sent, t = [Ev ble_drain_replay_queue true; Ev (replay_send (seconds req)) sent]
  | EXEC_OK, CMD_CAPTURE_PHOTO => t = [Ev snapshot_capture_async tt]
  | EXEC_OK, CMD_RECORD_VIDEO =>
      exists ts, t = [Ev rel_ts_ms_now ts; Ev (video_record (duration_s req) ts) tt]
  | EXEC_OK, CMD_START_VIDEO => exists ts, t = [Ev rel_ts_ms_now ts; Ev (video_start ts) tt]
  | EXEC_OK, CMD_STOP_VIDEO => t = [Ev video_stop_async tt]
  | EXEC_OK, CMD_FLUSH_SNAPSHOTS => t = [Ev transfer_flush tt]
  | EXEC_OK, CMD_SET_SNAPSHOT_INTERVAL =>
      t = [Ev (snapshot_set_interval (snapshot_interval_s req)) tt]
  | _, _ => t = []
  end.

Lemma dispatch_performs req t a : exec (executor_dispatch req) t a -> performs req t.
Proof.
  unfold executor_dispatch, performs. intros Ht.
  destruct (status req), (type req); exec_inv; try done;
    repeat match goal with x : unit |- _ => destruct x end; eauto;
    try match goal with |- context [Ev ble_drain_replay_queue ?b] => destruct b end;
    exec_inv; eauto.
Qed.

Lemma dispatch_total req : exists t, exec (executor_dispatch req) t tt.
Proof.
  destruct (exec_total (executor_dispatch req)
    (fun X e => match e in execE X return X with
                | ble_drain_replay_queue => false | replay_send _ => false
                | rel_ts_ms_now => 0 | _ => tt end)) as (t & [] & Ht).
  eauto.
Qed.

Lemma performs_gate req t b :
  performs req t -> fold_left gate_call t b = gate_request b req.
Proof.
  unfold performs, gate_request. destruct (status req), (type req);
    naive_solver.
Qed.

Section ExecutorLemmas.
Context {node : Type} `{CJson node}.
Context {Q : Type} `{FQueueLaws cmd_request_t Q}.
Abbreviation executor_submit := (executor_submit (node := node)).

Lemma submit_send q ty params :
  executor_submit q ty params = xQueueSend q (executor_parse_and_validate ty params).
Proof. unfold Executor.executor_submit. by destruct (xQueueSend _ _) as [[]]. Qed.

Lemma exec_step_queue (q : Q) (l : exec_label (node := node)) q' :
  exec_step q l q' ->
  queue_depth q' = queue_depth q /\
  ran1 l ++ queue_items q' = queue_items q ++ accepted1 l.
Proof.
  intros Hst. destruct Hst as [q ty params ok q' E|q req ok q' E|q req q' calls E Hr]; simpl.
  - rewrite submit_send in E. by apply send_spec in E as (-> & -> & _).
  - unfold executor_dispatch_local in E. destruct req as [r|].
    + assert ((ok, q') = (false, q) \/ xQueueSend q r = (ok, q')) as [?|Hs]
        by (destruct (status r); [right; by destruct (xQueueSend q r) as [[]]|naive_solver..]).
      * simplify_eq. by rewrite app_nil_r.
      * by apply send_spec in Hs as (-> & -> & _).
    + simplify_eq. by rewrite app_nil_r.
  - apply receive_spec in E as [-> ->]. by rewrite app_nil_r.
Qed.

Lemma exec_steps_queue (q : Q) (ls : list (exec_label (node := node))) q' :
  exec_steps q ls q' ->
  queue_depth q' = queue_depth q /\
  ran ls ++ queue_items q' = queue_items q ++ accepted ls.
Proof.
  unfold ran, accepted. induction 1 as [q|q ls q' l q'' _ [Hd IH] Hst]; simpl.
  { by rewrite app_nil_r. }
  apply exec_step_queue in Hst as [-> Hl]. split; [done|].
  rewrite !bind_app. simpl. rewrite !app_nil_r, <-!app_assoc, Hl.
  rewrite !app_assoc. by rewrite IH.
Qed.

Lemma exec_steps_bound (q : Q) (ls : list (exec_label (node := node))) q' :
  exec_steps q ls q' ->
  Z.of_nat (length (queue_items q)) <= queue_depth q ->
  Z.of_nat (length (queue_items q')) <= queue_depth q'.
Proof.
  induction 1 as [q|q ls q' l q'' _ IH Hst]; [done|]. intros Hq. specialize (IH Hq).
  destruct Hst as [q1 ty params ok q2 E|q1 req ok q2 E|q1 req q2 calls E Hr].
  - rewrite submit_send in E. apply send_spec in E as (-> & -> & Hok).
    rewrite length_app. destruct ok; simpl; lia.
  - unfold executor_dispatch_local in E. destruct req as [r|]; [|naive_solver].
    assert ((ok, q2) = (false, q1) \/ xQueueSend q1 r = (ok, q2)) as [?|Hs]
      by (destruct (status r); [right; by destruct (xQueueSend q1 r) as [[]]|naive_solver..]);
      [naive_solver|].
    apply send_spec in Hs as (-> & -> & Hok). rewrite length_app. destruct ok; simpl; lia.
  - apply receive_spec in E as [E ->]. rewrite E in IH. simpl in IH. lia.
Qed.

Lemma exec_steps_runs (q : Q) (ls : list (exec_label (node := node))) q' req t :
  exec_steps q ls q' -> LRun req t ∈ ls -> performs req t.
Proof.
  induction 1 as [q|q ls q' l q'' _ IH Hst]; [by intros ?%elem_of_nil|].
  intros [?|Hl%list_elem_of_singleton]%elem_of_app; [by apply IH|]. subst l.
  inversion Hst; subst. by eapply dispatch_performs.
Qed.

Lemma exec_steps_gate (q : Q) (ls : list (exec_label (node := node))) q' b :
  exec_steps q ls q' ->
  fold_left gate_call (ls ≫= calls1) b = fold_left gate_request (ran ls) b.
Proof.
  unfold ran. induction 1 as [q|q ls q' l q'' _ IH Hst]; [done|].
  rewrite !bind_app, !fold_left_app, IH. simpl. rewrite !app_nil_r.
  destruct Hst; simpl; [done..|]. by eapply performs_gate, dispatch_performs.
Qed.
End ExecutorLemmas.

(** ** Theorems *)

(** Every accepted command runs exactly once and in order: after any
    interleaving of submissions, local dispatches and task iterations on the
    queue [executor_init] creates, the requests accepted so far are the
    requests run so far followed by those still queued, of which there are at
    most [EXECUTOR_QUEUE_DEPTH]; each run makes exactly the calls its request
    asks for (none for a request with a bad status); and the audio gate is
    where the last start or stop request that ran left it. *)
Lemma executor_exactly_once {node} `{CJson node} {Q} `{FQueueLaws cmd_request_t Q}
    (q0 q : Q) (ls : list (exec_label (node := node))) :
  executor_init true true = Some q0 -> exec_steps q0 ls q ->
  accepted ls = ran ls ++ queue_items q /\
  Z.of_nat (length (queue_items q)) <= EXECUTOR_QUEUE_DEPTH /\
  (forall req t, LRun req t ∈ ls -> performs req t) /\
  fold_left gate_call (ls ≫= calls1) AudioGate.s_paused_init
    = fold_left gate_request (ran ls) false.
Proof.
  unfold executor_init. intros E Hs. simplify_eq/=.
  pose proof (exec_steps_queue _ _ _ Hs) as [Hd Hq].
  pose proof (exec_steps_bound _ _ _ Hs) as Hb.
  rewrite create_items in Hq, Hb. rewrite create_depth in Hd, Hb. split_and!.
  - done.
  - rewrite <-Hd. apply Hb. simpl. by vm_compute.
  - intros req t. by eapply exec_steps_runs.
  - by eapply exec_steps_gate.
Qed.

(** A full queue is an honest "not accepted": [executor_submit] and
    [executor_dispatch_local] answer true exactly when the request was
    appended, false leaves the queue as it was, a submission of any kind
    (bad parameters included) is accepted whenever there is room, and a
    local request with a bad status or a NULL pointer never enters. *)
Lemma submit_honest {node} `{CJson node} {Q} `{FQueueLaws cmd_request_t Q}
    (q : Q) ty (params : option node) (req : option cmd_request_t) :
  let room := Z.of_nat (length (queue_items q)) <? queue_depth q in
  (let '(ok, q') := executor_submit q ty params in
   ok = room /\
   queue_items q' = queue_items q ++
     (if room then [executor_parse_and_validate ty params] else [])) /\
  (let '(ok, q') := executor_dispatch_local q req in
   match req with
   | Some r =>
       if decide (status r = EXEC_OK)
       then ok = room /\ queue_items q' = queue_items q ++ (if room then [r] else [])
       else ok = false /\ q' = q
   | None => ok = false /\ q' = q
   end).
Proof.
  cbv zeta. assert (forall r ok q', xQueueSend q r = (ok, q') ->
    ok = (Z.of_nat (length (queue_items q)) <? queue_depth q) /\
    queue_items q' = queue_items q ++
      (if Z.of_nat (length (queue_items q)) <? queue_depth q then [r] else [])) as Hsend.
  { intros r ok q' Hs. apply send_spec in Hs as (_ & -> & Hok).
    destruct (Z.ltb_spec (Z.of_nat (length (queue_items q))) (queue_depth q)), ok;
      naive_solver lia. }
  split.
  - destruct (executor_submit q ty params) as [ok q'] eqn:E. rewrite submit_send in E.
    by apply Hsend.
  - unfold executor_dispatch_local. destruct req as [r|]; [|done].
    destruct (status r) eqn:Hst; try (by rewrite decide_False by congruence).
    destruct (xQueueSend q r) as [[] q'] eqn:E; rewrite decide_True by done; by apply Hsend.
Qed.

