(* ===== verification/ButtonTask.v ===== *)
(** * button_task.c: polling the button and acting on its gestures

    One poll of [button_task] and the dispatch of a gesture, as programs over
    the platform calls and the executor's queue. *)

From stdpp Require Import strings.
From S2P Require Import Prelude Effects Config CJson Freertos RingBuffer ExecutorCore.
From S2P Require Import Executor Button.
Import ListQueue.
Open Scope list_scope.
Open Scope Z_scope.

Inductive btnE : Type -> Type :=
| gpio_config : btnE bool  (** == ESP_OK *)
| gpio_get_level : btnE Z
| esp_timer_get_time : btnE Z
| audio_gate_paused : btnE bool
| executor_dispatch_local (req : cmd_request_t) : btnE bool
| battery_notify_sleeping : btnE unit
| vTaskDelay (ms : Z) : btnE unit
| esp_sleep_enable_ext0_wakeup (gpio level : Z) : btnE unit
| esp_deep_sleep_start : btnE unit  (** does not return on the device *)
| vTaskDelete : btnE unit.

#[local] Abbreviation call := (Effects.call (E := btnE)).

Definition now_ms : prog btnE Z :=
  (let* us := call esp_timer_get_time in Ret (u32 (Z.quot us 1000)))%prog.

Definition local_req (ty : cmd_type_t) : cmd_request_t := CmdRequest ty EXEC_OK 0 0 0.

Definition dispatch_gesture (g : button_gesture_t) : prog btnE unit :=
  match g with
  | BTN_SHORT =>
      let req := CmdRequest CMD_REQUEST_BUFFER EXEC_OK 60 0 0 in
      let* _ := call (executor_dispatch_local req) in Ret tt
  | BTN_DOUBLE =>
      let* was_paused := call audio_gate_paused in
      let req := if was_paused then local_req CMD_START_AUDIO else local_req CMD_STOP_AUDIO in
      let* _ := call (executor_dispatch_local req) in Ret tt
  | BTN_LONG =>
      let* _ := call (executor_dispatch_local (local_req CMD_CAPTURE_PHOTO)) in Ret tt
  | BTN_VERY_LONG =>
      call battery_notify_sleeping ;;;
      call (vTaskDelay 500) ;;;
      call (esp_sleep_enable_ext0_wakeup BUTTON_GPIO 0) ;;;
      call esp_deep_sleep_start
  | BTN_NONE => Ret tt
  end%prog.

(** One iteration of the polling loop. *)
Definition button_poll (cls : button_classifier_t) : prog btnE button_classifier_t :=
  (let* level := call gpio_get_level in
   let* t := now_ms in
   let '(cls, g) := button_classifier_event cls (level =? 0) t in
   (if decide (g = BTN_NONE) then Ret tt else dispatch_gesture g) ;;;
   call (vTaskDelay BUTTON_DEBOUNCE_MS) ;;;
   Ret cls)%prog.

(** The first [n] iterations. *)
Fixpoint button_polls (n : nat) (cls : button_classifier_t) : prog btnE button_classifier_t :=
  match n with
  | O => Ret cls
  | S n => (let* cls := button_poll cls in button_polls n cls)%prog
  end.

(** [button_task], for [n] iterations of its infinite loop; [None] when it
    deletes itself because the GPIO could not be configured. *)
Definition button_task (n : nat) : prog btnE (option button_classifier_t) :=
  (let* ok := call gpio_config in
   if negb ok then call vTaskDelete ;;; Ret None
   else
     let* _ := now_ms in
     let* _ := call gpio_get_level in
     let* cls := button_polls n button_classifier_init in
     Ret (Some cls))%prog.

(** ** The poll trace as classifier samples *)

(** Each poll is a level read followed by a time read. *)
Fixpoint samples_of (t : list (ev btnE)) : list sample :=
  match t with
  | Ev gpio_get_level l :: ((Ev esp_timer_get_time us :: _) as t') =>
      (l =? 0, u32 (Z.quot us 1000)) :: samples_of t'
  | _ :: t' => samples_of t'
  | [] => []
  end.

(** The calls that leave the task: requests and the sleep sequence. *)
Definition actions_of (t : list (ev btnE)) : list (ev btnE) :=
  List.filter (fun e => match e with
    | Ev (executor_dispatch_local _) _ | Ev battery_notify_sleeping _
    | Ev (esp_sleep_enable_ext0_wakeup _ _) _ | Ev esp_deep_sleep_start _ => true
    | _ => false end) t.

(** What a gesture stands for (button_task.h). *)
Definition gesture_actions (g : button_gesture_t) (t : list (ev btnE)) : Prop :=
  match g with
  | BTN_NONE => t = []
  | BTN_SHORT => exists ok,
      t = [Ev (executor_dispatch_local (CmdRequest CMD_REQUEST_BUFFER EXEC_OK 60 0 0)) ok]
  | BTN_DOUBLE => exists (paused ok : bool),
      t = [Ev (executor_dispatch_local
            (local_req (if paused then CMD_START_AUDIO else CMD_STOP_AUDIO))) ok]
  | BTN_LONG => exists ok, t = [Ev (executor_dispatch_local (local_req CMD_CAPTURE_PHOTO)) ok]
  | BTN_VERY_LONG =>
      t = [Ev battery_notify_sleeping tt; Ev (esp_sleep_enable_ext0_wakeup BUTTON_GPIO 0) tt;
           Ev esp_deep_sleep_start tt]
  end.

Inductive gestures_actions : list button_gesture_t -> list (ev btnE) -> Prop :=
| ga_nil : gestures_actions [] []
| ga_cons g gs t t' : gesture_actions g t -> gestures_actions gs t' ->
    gestures_actions (g :: gs) (t ++ t').

(** The gestures of a dispatched trace never read the level, so they add no
    sample. *)
Lemma dispatch_trace g t a :
  exec (dispatch_gesture g) t a ->
  gesture_actions g (actions_of t) /\ forall t', samples_of (t ++ t') = samples_of t'.
Proof.
  destruct g; simpl; intros Ht.
  - by destruct Ht as [-> _].
  - destruct Ht as (ok & t1 & -> & -> & _). simpl. eauto.
  - destruct Ht as (p & t1 & -> & ok & t2 & -> & -> & _). simpl.
    split; [exists p, ok; by destruct p|done].
  - destruct Ht as (ok & t1 & -> & -> & _). simpl. eauto.
  - destruct Ht as ([] & t1 & -> & [] & t2 & -> & [] & t3 & -> & [] & t4 & -> & -> & _). done.
Qed.

Lemma actions_of_app t1 t2 : actions_of (t1 ++ t2) = actions_of t1 ++ actions_of t2.
Proof. apply List.filter_app. Qed.

Lemma now_ms_exec t v :
  exec now_ms t v -> exists us, t = [Ev esp_timer_get_time us] /\ v = u32 (Z.quot us 1000).
Proof. simpl. intros (us & t' & -> & -> & ->). eauto. Qed.

Lemma poll_trace cls t cls' :
  exec (button_poll cls) t cls' ->
  exists p ms, let '(c, g) := button_classifier_event cls p ms in
    c = cls' /\ gesture_actions g (actions_of t) /\
    forall t', samples_of (t ++ t') = (p, ms) :: samples_of t'.
Proof.
  unfold button_poll. intros Ht.
  destruct Ht as (l & t1 & -> & Ht).
  apply (exec_bind now_ms) in Ht as (t2 & t3 & ms & -> & Hms & Ht).
  apply now_ms_exec in Hms as (us & -> & ->).
  exists (l =? 0), (u32 (Z.quot us 1000)).
  destruct (button_classifier_event cls (l =? 0) _) as [c g].
  apply exec_bind in Ht as (t4 & t5 & [] & -> & Hd & Ht).
  destruct Ht as (u & t6 & -> & Ht). destruct Ht as [-> ->].
  assert (gesture_actions g (actions_of t4) /\
    forall t', samples_of (t4 ++ t') = samples_of t') as [Ha Hsm].
  { case_decide as Hg; [destruct Hd as [-> _]; by subst|by eapply dispatch_trace]. }
  split_and!; [done| |].
  - simpl. rewrite actions_of_app. simpl. by rewrite app_nil_r.
  - intros t'. simpl. f_equal. rewrite <-app_assoc, Hsm. done.
Qed.

(** ** Theorems *)


