(* ===== verification/Commands.v ===== *)
(** * commands.c: verify, deduplicate, execute and acknowledge a command

    The signature check (libsodium) and the JSON parser (cJSON) are
    parameters; the acknowledgement sink and [executor_submit] are calls, so
    the theorems hold whatever they answer. *)

From stdpp Require Import strings.
From S2P Require Import Prelude Effects CJson.
Import Json.
Open Scope string_scope.
Open Scope list_scope.
Open Scope Z_scope.

Definition ED25519_SIG_LEN : nat := 64.
Definition CMD_DEDUPE_N : nat := 16.
Definition CMD_ID_MAX : nat := 64.

(** ** C strings *)

(** The first [n] characters. *)
Fixpoint str_take (n : nat) (s : string) : string :=
  match n, s with
  | S n, String c s => String c (str_take n s)
  | _, _ => EmptyString
  end.

(** [strncmp(a, b, n) == 0]. *)
Definition strncmp_eq (n : nat) (a b : string) : bool :=
  String.eqb (str_take n a) (str_take n b).

(** ** State *)

Record cmd_state : Type := CmdState {
  s_pubkey : list Z;
  s_ack : bool;  (** is the sink non-NULL *)
  s_seen : list string;
  s_seen_head : nat;
}.

Inductive cmdE (node : Type) : Type -> Type :=
| s_ack_fn (data : string) : cmdE node unit
| executor_submit (ty : string) (params : option node) : cmdE node bool.
Arguments s_ack_fn {node}.
Arguments executor_submit {node}.

(** [commands_init]; [None] is the failure return. *)
Definition commands_init (sodium_ok : bool) (server_pubkey : list Z) (ack : bool)
  : option cmd_state :=
  if negb sodium_ok then None
  else Some (CmdState server_pubkey ack (replicate CMD_DEDUPE_N EmptyString) 0).

Definition commands_set_pubkey (st : cmd_state) (server_pubkey : list Z) : cmd_state :=
  CmdState server_pubkey (s_ack st) (s_seen st) (s_seen_head st).

Definition already_seen (st : cmd_state) (id : string) : bool :=
  existsb (fun s => strncmp_eq CMD_ID_MAX s id) (s_seen st).

(** [snprintf(s_seen[head], CMD_ID_MAX, "%s", id)] keeps the first 63
    characters. *)
Definition remember (st : cmd_state) (id : string) : cmd_state :=
  CmdState (s_pubkey st) (s_ack st)
    (<[s_seen_head st := str_take (CMD_ID_MAX - 1) id]> (s_seen st))
    (Nat.modulo (s_seen_head st + 1) CMD_DEDUPE_N).

Section Commands.
Context {node : Type} `{CJson node}.
(** [crypto_sign_ed25519_verify_detached(sig, payload, len, key) == 0] and
    [cJSON_ParseWithLength]. *)
Context (crypto_sign_ed25519_verify_detached : list Z -> list Z -> list Z -> bool).
Context (cJSON_ParseWithLength : list Z -> option node).

#[local] Abbreviation call := (Effects.call (E := cmdE node)).

Definition ack (st : cmd_state) (command_id : string) : prog (cmdE node) unit :=
  if s_ack st then call (s_ack_fn command_id) else Ret tt.

Definition execute (ty : string) (root : node) : prog (cmdE node) bool :=
  let params := cJSON_GetObjectItemCaseSensitive root "params" in
  call (executor_submit ty params).

Definition commands_handle (st : cmd_state) (data : list Z)
  : prog (cmdE node) cmd_state :=
  if (length data <=? ED25519_SIG_LEN)%nat then Ret st
  else
    let sig := take ED25519_SIG_LEN data in
    let payload := drop ED25519_SIG_LEN data in
    if negb (crypto_sign_ed25519_verify_detached sig payload (s_pubkey st)) then Ret st
    else
      match cJSON_ParseWithLength payload with
      | None => Ret st
      | Some root =>
          match cJSON_GetObjectItemCaseSensitive root "command_id",
                cJSON_GetObjectItemCaseSensitive root "type" with
          | Some id, Some ty =>
              if negb (cJSON_IsString id) || negb (cJSON_IsString ty) then Ret st
              else if already_seen st (valuestring id) then
                (ack st (valuestring id) ;;; Ret st)%prog
              else
                let st := remember st (valuestring id) in
                (let* ok := execute (valuestring ty) root in
                 if ok then ack st (valuestring id) ;;; Ret st else Ret st)%prog
          | _, _ => Ret st  (** cJSON_IsString(NULL) is false *)
          end
      end.

(** The frames of a connection, one call each. *)
Fixpoint commands_run (st : cmd_state) (frames : list (list Z)) : prog (cmdE node) cmd_state :=
  match frames with
  | [] => Ret st
  | data :: frames => (let* st := commands_handle st data in commands_run st frames)%prog
  end.

(** ** What a frame says *)

(** The command a frame carries: [None] when the frame is dropped. *)
Definition decode (key : list Z) (data : list Z) : option (string * string * node) :=
  if (length data <=? ED25519_SIG_LEN)%nat then None
  else if negb (crypto_sign_ed25519_verify_detached
                  (take ED25519_SIG_LEN data) (drop ED25519_SIG_LEN data) key) then None
  else
    root ← cJSON_ParseWithLength (drop ED25519_SIG_LEN data);
    id ← cJSON_GetObjectItemCaseSensitive root "command_id";
    ty ← cJSON_GetObjectItemCaseSensitive root "type";
    if cJSON_IsString id && cJSON_IsString ty
    then Some (valuestring id, valuestring ty, root) else None.

(** The acknowledgements and submissions of a trace. *)
Definition ack_trace (st : cmd_state) (id : string) : list (ev (cmdE node)) :=
  if s_ack st then [Ev (s_ack_fn id) tt] else [].

Definition is_submit (e : ev (cmdE node)) : bool :=
  match e with Ev (executor_submit _ _) _ => true | _ => false end.

(** The contract of one call, branch by branch. *)
Definition handles (st : cmd_state) (data : list Z) (t : list (ev (cmdE node)))
    (st' : cmd_state) : Prop :=
  match decode (s_pubkey st) data with
  | None => t = [] /\ st' = st
  | Some (id, ty, root) =>
      if already_seen st id then t = ack_trace st id /\ st' = st
      else exists ok : bool, st' = remember st id /\
        t = Ev (executor_submit ty (cJSON_GetObjectItemCaseSensitive root "params")) ok ::
            (if ok then ack_trace st id else [])
  end.

Lemma exec_ack st id t a : exec (ack st id) t a <-> t = ack_trace st id.
Proof.
  unfold ack, ack_trace. destruct (s_ack st), a; simpl; [|naive_solver].
  split; [intros (x & ? & -> & -> & _); by destruct x|intros ->; eauto].
Qed.

Lemma handle_handles st data t st' :
  exec (commands_handle st data) t st' -> handles st data t st'.
Proof.
  unfold commands_handle, handles, decode. intros Ht.
  destruct (_ <=? _)%nat; [by destruct Ht|].
  destruct (negb _); [by destruct Ht|].
  destruct (cJSON_ParseWithLength _) as [root|]; simpl; [|by destruct Ht].
  destruct (cJSON_GetObjectItemCaseSensitive root "command_id") as [id|]; simpl;
    [|by destruct Ht].
  destruct (cJSON_GetObjectItemCaseSensitive root "type") as [ty|]; simpl; [|by destruct Ht].
  destruct (cJSON_IsString id), (cJSON_IsString ty); simpl in *; try by destruct Ht.
  destruct (already_seen st (valuestring id)).
  - apply exec_bind in Ht as (t1 & t2 & a & -> & Ha & [-> ->]).
    apply exec_ack in Ha as ->. by rewrite app_nil_r.
  - destruct Ht as (ok & t' & -> & Ht). exists ok. destruct ok.
    + apply exec_bind in Ht as (t1 & t2 & a & -> & Ha & [-> ->]).
      apply exec_ack in Ha as ->. by rewrite app_nil_r.
    + by destruct Ht as [-> ->].
Qed.
End Commands.

(** ** The dedupe table *)

Lemma str_take_ge n s : (String.length s <= n)%nat -> str_take n s = s.
Proof.
  revert s. induction n as [|n IH]; intros [|c s] Hs; simpl in *; [done|lia|done|].
  f_equal. apply IH. lia.
Qed.

Lemma str_take_length n s : String.length (str_take n s) = (n `min` String.length s)%nat.
Proof. revert s. induction n as [|n IH]; intros [|c s]; simpl; [done..|]. by rewrite IH. Qed.

Lemma seen_short s id :
  (String.length id < CMD_ID_MAX)%nat -> s = str_take (CMD_ID_MAX - 1) id ->
  strncmp_eq CMD_ID_MAX s id = true.
Proof.
  unfold strncmp_eq, CMD_ID_MAX. intros Hid ->.
  rewrite (str_take_ge (64 - 1) id) by lia. apply String.eqb_refl.
Qed.

(** [h] lists the ids remembered so far, oldest first. *)
Record seen_ok (st : cmd_state) (h : list string) : Prop := {
  seen_length : length (s_seen st) = CMD_DEDUPE_N;
  seen_head : s_seen_head st = (length h mod CMD_DEDUPE_N)%nat;
  seen_recent : forall j id, h !! j = Some id -> (length h - j <= CMD_DEDUPE_N)%nat ->
    s_seen st !! (j mod CMD_DEDUPE_N)%nat = Some (str_take (CMD_ID_MAX - 1) id);
}.

Lemma commands_init_ok key a st : commands_init true key a = Some st -> seen_ok st [].
Proof.
  unfold commands_init. intros. simplify_eq/=. split; [done..|].
  intros j id Hj. by rewrite lookup_nil in Hj.
Qed.

Lemma mod16_inj a b :
  (a < b)%nat -> (b - a < CMD_DEDUPE_N)%nat ->
  (a mod CMD_DEDUPE_N)%nat <> (b mod CMD_DEDUPE_N)%nat.
Proof.
  unfold CMD_DEDUPE_N. intros ? ? Heq.
  pose proof (Nat.div_mod_eq a 16). pose proof (Nat.div_mod_eq b 16).
  assert (b - a = 16 * (b / 16 - a / 16))%nat by lia. lia.
Qed.

Lemma remember_ok st h id : seen_ok st h -> seen_ok (remember st id) (h ++ [id]).
Proof.
  intros [Hl Hh Hr]. split; cbn [s_seen s_seen_head remember].
  - by rewrite length_insert.
  - rewrite Hh, length_app. apply Nat.Div0.add_mod_idemp_l.
  - rewrite length_app. simpl. intros j i Hj Hlt.
    apply lookup_snoc_Some in Hj as [[Hlen Hj]|[-> <-]].
    + rewrite Hh, list_lookup_insert_ne; [apply Hr; [done|lia]|].
      apply not_eq_sym, mod16_inj; lia.
    + rewrite Hh, list_lookup_insert_eq; [done|]. rewrite Hl. by apply Nat.mod_upper_bound.
Qed.

(** An id remembered among the last sixteen is recognised. *)
Lemma recent_seen st h j id :
  seen_ok st h -> h !! j = Some id -> (length h - j <= CMD_DEDUPE_N)%nat ->
  (String.length id < CMD_ID_MAX)%nat -> already_seen st id = true.
Proof.
  intros Hs Hj Hlt Hid. unfold already_seen. apply existsb_exists.
  exists (str_take (CMD_ID_MAX - 1) id). split; [|by apply seen_short].
  apply list_elem_of_In, list_elem_of_lookup. eexists. by apply (seen_recent _ _ Hs).
Qed.

(** An id of 64 characters or more never is. *)
Lemma long_never_seen st h id :
  seen_ok st h -> (CMD_ID_MAX <= String.length id)%nat ->
  (forall s, s ∈ s_seen st -> String.length s < CMD_ID_MAX)%nat ->
  already_seen st id = false.
Proof.
  intros _ Hid Hs. apply not_true_iff_false. unfold already_seen.
  intros (s & Hin & He)%existsb_exists. apply list_elem_of_In, Hs in Hin.
  unfold strncmp_eq in He. apply String.eqb_eq, (f_equal String.length) in He.
  rewrite !str_take_length in He. lia.
Qed.

Lemma remember_short st id :
  (forall s, s ∈ s_seen st -> String.length s < CMD_ID_MAX)%nat ->
  (forall s, s ∈ s_seen (remember st id) -> String.length s < CMD_ID_MAX)%nat.
Proof.
  intros Hs s. cbn [s_seen remember]. intros Hin. apply list_elem_of_lookup in Hin as [i Hi].
  apply list_lookup_insert_Some in Hi as [(_ & <- & _)|[_ Hi]].
  - rewrite str_take_length. unfold CMD_ID_MAX. lia.
  - by eapply Hs, list_elem_of_lookup_2.
Qed.

(** ** Submissions *)

Section Runs.
Context {node : Type} `{CJson node}.

Definition submits (t : list (ev (cmdE node))) : list (ev (cmdE node)) :=
  List.filter is_submit t.

Lemma submits_app t1 t2 : submits (t1 ++ t2) = submits t1 ++ submits t2.
Proof. apply List.filter_app. Qed.

Lemma submits_ack st id : submits (ack_trace (node := node) st id) = [].
Proof. unfold ack_trace. by destruct (s_ack st). Qed.
End Runs.

(** ** Theorems *)

(** C7. What one command write does, on every branch.  A frame that is too
    short, fails the signature check, does not parse or lacks a string
    command_id or type is dropped: no call is made and no state changes.  A
    verified command whose id is in the dedupe table is acknowledged and not
    executed.  Any other verified command is remembered, submitted exactly
    once with the "params" member of its payload, and acknowledged if and
    only if the submission was accepted. *)
Theorem command_contract {node} `{CJson node} verify parse st data t st' :
  exec (commands_handle verify parse st data) t st' ->
  (decode verify parse (s_pubkey st) data = None -> t = [] /\ st' = st) /\
  (forall id ty root, decode verify parse (s_pubkey st) data = Some (id, ty, root) ->
     verify (take ED25519_SIG_LEN data) (drop ED25519_SIG_LEN data) (s_pubkey st) = true /\
     (already_seen st id = true -> t = ack_trace st id /\ st' = st) /\
     (already_seen st id = false ->
        exists ok : bool, st' = remember st id /\
          t = Ev (executor_submit ty (cJSON_GetObjectItemCaseSensitive root "params")) ok ::
              (if ok then ack_trace st id else []))).
Proof.
  intros Ht. apply handle_handles in Ht. unfold handles in Ht. split.
  - intros Hd. by rewrite Hd in Ht.
  - intros id ty root Hd. rewrite Hd in Ht. split.
    + unfold decode in Hd. destruct (_ <=? _)%nat; [done|].
      by destruct (verify _ _ _).
    + destruct (already_seen st id); naive_solver.
Qed.

(** A JSON payload for the witnesses, and a frame that carries it. *)
Definition demo_command (id ty : string) : Json.json :=
  Json.JObj [("command_id", Json.JStr id); ("type", Json.JStr ty)].
Definition demo_frame : list Z := replicate 65 0.
Definition demo_state : cmd_state := CmdState [] true (replicate CMD_DEDUPE_N EmptyString) 0.

Lemma command_contract_witness :
  let t : list (ev (cmdE Json.json)) :=
    [Ev (executor_submit "stop_audio" None) true; Ev (s_ack_fn "a") tt] in
  exists ok : bool, remember demo_state "a" = remember demo_state "a" /\
    t = Ev (executor_submit "stop_audio" None) ok :: (if ok then ack_trace demo_state "a" else []).
Proof.
  intros t.
  refine (proj2 (proj2 (proj2 (command_contract (fun _ _ _ => true)
    (fun _ => Some (demo_command "a" "stop_audio")) demo_state demo_frame t
    (remember demo_state "a") _) "a"%string "stop_audio"%string
    (demo_command "a" "stop_audio") _)) _).
  - exists true, [Ev (s_ack_fn "a") tt]. split; [done|]. by exists tt, [].
  - reflexivity.
  - reflexivity.
Defined.

(** C15. A command refused because the executor queue is full is lost: its id
    has already been remembered, so when the server issues the same command
    again (as the comment on [execute] and executor.h expect) the device
    acknowledges it without submitting it. *)
Theorem refused_command_is_lost {node} `{CJson node} verify parse st h data id ty root t1 st1 t2 st2 :
  seen_ok st h -> decode verify parse (s_pubkey st) data = Some (id, ty, root) ->
  already_seen st id = false -> (String.length id < CMD_ID_MAX)%nat ->
  exec (commands_handle verify parse st data) t1 st1 ->
  t1 = [Ev (executor_submit ty (cJSON_GetObjectItemCaseSensitive root "params")) false] ->
  exec (commands_handle verify parse st1 data) t2 st2 ->
  t2 = ack_trace st id /\ st2 = st1 /\ submits t2 = [].
Proof.
  intros Hs Hd Hns Hid H1 Ht1 H2.
  apply handle_handles in H1, H2. unfold handles in H1, H2.
  rewrite Hd, Hns in H1. destruct H1 as (ok & -> & _).
  change (s_pubkey (remember st id)) with (s_pubkey st) in H2. rewrite Hd in H2.
  rewrite (recent_seen _ (h ++ [id]) (length h) id) in H2;
    [|by apply remember_ok|by rewrite list_lookup_middle|rewrite length_app;
      unfold CMD_DEDUPE_N; simpl; lia|done].
  destruct H2 as [-> ->]. split_and!; [done..|]. apply (submits_ack st id).
Qed.

Lemma refused_command_is_lost_witness :
  let t1 : list (ev (cmdE Json.json)) := [Ev (executor_submit "stop_audio" None) false] in
  let t2 : list (ev (cmdE Json.json)) := [Ev (s_ack_fn "a") tt] in
  exec (commands_run (fun _ _ _ => true)
    (fun _ => Some (demo_command "a" "stop_audio")) demo_state [demo_frame; demo_frame])
    (t1 ++ t2) (remember demo_state "a") /\ submits t2 = [].
Proof.
  intros t1 t2. split; [exists false, t2; split; [done|]; by exists tt, []|].
  refine (proj2 (proj2 (refused_command_is_lost (fun _ _ _ => true)
    (fun _ => Some (demo_command "a" "stop_audio")) demo_state [] demo_frame "a" "stop_audio"
    (demo_command "a" "stop_audio") t1 (remember demo_state "a") t2 (remember demo_state "a")
    _ _ _ _ _ _ _))).
  - by apply (commands_init_ok [] true).
  - reflexivity.
  - reflexivity.
  - simpl. unfold CMD_ID_MAX. lia.
  - exists false, []. done.
  - reflexivity.
  - exists tt, []. done.
Defined.

(** The two ids the dedupe table cannot represent.  An id of 64
    characters or more is stored truncated to 63 and compared over 64, so it
    is never recognised and such a command is submitted every time it
    arrives.  The empty id matches the zeroed table, so before sixteen
    commands have been remembered it is acknowledged and never executed. *)
Lemma dedupe_limits {node} `{CJson node} verify parse st h data id ty root t st' :
  seen_ok st h -> (forall s, s ∈ s_seen st -> String.length s < CMD_ID_MAX)%nat ->
  decode (node := node) verify parse (s_pubkey st) data = Some (id, ty, root) ->
  exec (commands_handle verify parse st data) t st' ->
  ((CMD_ID_MAX <= String.length id)%nat -> length (submits t) = 1%nat /\
     (forall s, s ∈ s_seen st' -> String.length s < CMD_ID_MAX)%nat) /\
  (id = EmptyString -> EmptyString ∈ s_seen st -> t = ack_trace st id /\ st' = st).
Proof.
  intros Hs Hshort Hd Ht. apply handle_handles in Ht. unfold handles in Ht. rewrite Hd in Ht.
  split.
  - intros Hid. rewrite (long_never_seen _ _ _ Hs Hid Hshort) in Ht.
    destruct Ht as (ok & -> & ->). split; [|by apply remember_short].
    by destruct ok; [unfold ack_trace; destruct (s_ack st)|].
  - intros -> Hin. replace (already_seen st EmptyString) with true in Ht; [done|].
    symmetry. apply existsb_exists. exists EmptyString.
    split; [by apply list_elem_of_In|done].
Qed.

