(* ===== verification/CommandPath.v ===== *)
(** * From a command write to its execution: commands.c and executor.c together

    The BLE host task handles each write of the COMMAND characteristic
    ([commands_handle]), the provisioning callbacks may change the key, the
    button task queues its own requests, and the executor task takes requests
    off the queue and dispatches them.  The tasks share the queue only, and
    each step here makes at most one queue operation, so it stands at the
    instant of that operation.  The specification is a machine with a list of
    the ids handled and a list of the pending requests; the theorem says that
    the circular dedupe table and the FreeRTOS queue implement it. *)

From stdpp Require Import strings.
From S2P Require Import Prelude Effects Config CJson Freertos ExecutorCore Executor Commands.
Import Json ListQueue.
Open Scope list_scope.
Open Scope Z_scope.

(** What can be seen of the system: a write, the acknowledgements it caused
    and the requests it put in the queue; a new key; a request of the button
    task; a request being run, with its calls. *)
Inductive cmd_label : Type :=
| Write (data : list Z) (acks : list string) (took : list cmd_request_t)
| SetKey (key : list Z)
| Local (req : option cmd_request_t) (ok : bool)
| Run (req : cmd_request_t) (calls : list (ev execE)).

(** ** The specification *)

Record spec_st : Type := Spec {
  sp_key : list Z;
  sp_ids : list string;  (** oldest first *)
  sp_pending : list cmd_request_t;
}.

Section Spec.
Context {node : Type} `{CJson node}.
Context (verify : list Z -> list Z -> list Z -> bool) (parse : list Z -> option node).
(** Is there an acknowledgement sink. *)
Context (sink : bool).

Definition acked (id : string) : list string := if sink then [id] else [].

(** Handled among the last sixteen commands. *)
Definition recently (ids : list string) (id : string) : bool :=
  existsb (String.eqb id) (drop (length ids - CMD_DEDUPE_N) ids).

Definition room (s : spec_st) : bool :=
  Z.of_nat (length (sp_pending s)) <? EXECUTOR_QUEUE_DEPTH.

Definition enqueue (s : spec_st) (req : cmd_request_t) : spec_st :=
  Spec (sp_key s) (sp_ids s) (if room s then sp_pending s ++ [req] else sp_pending s).

Definition spec_write (s : spec_st) (data : list Z)
    : list string * list cmd_request_t * spec_st :=
  match decode verify parse (sp_key s) data with
  | None => ([], [], s)
  | Some (id, ty, root) =>
      if recently (sp_ids s) id then (acked id, [], s)
      else
        let s1 := Spec (sp_key s) (sp_ids s ++ [id]) (sp_pending s) in
        let req := executor_parse_and_validate ty
                     (cJSON_GetObjectItemCaseSensitive root "params") in
        (if room s then acked id else [], if room s then [req] else [], enqueue s1 req)
  end.

Definition spec_local (s : spec_st) (req : option cmd_request_t) : bool * spec_st :=
  match req with
  | Some r => if decide (status r = EXEC_OK) then (room s, enqueue s r) else (false, s)
  | None => (false, s)
  end.

Inductive spec_step : spec_st -> cmd_label -> spec_st -> Prop :=
| sp_write s data acks took s' :
    spec_write s data = (acks, took, s') -> spec_step s (Write data acks took) s'
| sp_set_key s key : spec_step s (SetKey key) (Spec key (sp_ids s) (sp_pending s))
| sp_local s req ok s' : spec_local s req = (ok, s') -> spec_step s (Local req ok) s'
| sp_run s r l calls :
    sp_pending s = r :: l -> performs r calls ->
    spec_step s (Run r calls) (Spec (sp_key s) (sp_ids s) l).

Inductive spec_run (s0 : spec_st) : list cmd_label -> spec_st -> Prop :=
| spec_start : spec_run s0 [] s0
| spec_next ls s l s' : spec_run s0 ls s -> spec_step s l s' -> spec_run s0 (ls ++ [l]) s'.

(** ** The implementation *)

Context {Q : Type} `{FQueue cmd_request_t Q}.

(** The calls of one [commands_handle], its submissions answered by
    executor.c over the queue. *)
Fixpoint answered (q : Q) (t : list (ev (cmdE node))) (q' : Q) : Prop :=
  match t with
  | [] => q' = q
  | Ev e x :: t =>
      match e in cmdE _ X return X -> Prop with
      | Commands.executor_submit ty params => fun ok =>
          exists q1, Executor.executor_submit q ty params = (ok, q1) /\ answered q1 t q'
      | s_ack_fn _ => fun _ => answered q t q'
      end x
  end.

Definition ack_of (e : ev (cmdE node)) : list string :=
  match e with Ev (s_ack_fn id) _ => [id] | _ => [] end.
Definition acks_of (t : list (ev (cmdE node))) : list string := concat (map ack_of t).

Definition took_of (e : ev (cmdE node)) : list cmd_request_t :=
  match e with
  | Ev e x =>
      match e in cmdE _ X return X -> list cmd_request_t with
      | Commands.executor_submit ty params => fun ok =>
          if ok then [executor_parse_and_validate ty params] else []
      | s_ack_fn _ => fun _ => []
      end x
  end.
Definition takes (t : list (ev (cmdE node))) : list cmd_request_t := concat (map took_of t).

Inductive impl_step : cmd_state * Q -> cmd_label -> cmd_state * Q -> Prop :=
| im_write st q data t st' q' :
    exec (commands_handle verify parse st data) t st' -> answered q t q' ->
    impl_step (st, q) (Write data (acks_of t) (takes t)) (st', q')
| im_set_key st q key : impl_step (st, q) (SetKey key) (commands_set_pubkey st key, q)
| im_local st q req ok q' :
    executor_dispatch_local q req = (ok, q') -> impl_step (st, q) (Local req ok) (st, q')
| im_run st q req q' calls :
    xQueueReceive q = Some (req, q') -> exec (executor_dispatch req) calls tt ->
    impl_step (st, q) (Run req calls) (st, q').

Inductive impl_run (c0 : cmd_state * Q) : list cmd_label -> cmd_state * Q -> Prop :=
| impl_start : impl_run c0 [] c0
| impl_next ls c l c' : impl_run c0 ls c -> impl_step c l c' -> impl_run c0 (ls ++ [l]) c'.
End Spec.

(** ** The dedupe table holds exactly the last sixteen ids *)

(** The ids the table can represent. *)
Definition id_ok (id : string) : Prop := (0 < String.length id < CMD_ID_MAX)%nat.

Record seen_exact (st : cmd_state) (h : list string) : Prop := {
  se_ok : seen_ok st h;
  se_entries : forall i s, s_seen st !! i = Some s -> s = EmptyString \/
    exists j, h !! j = Some s /\ (j mod CMD_DEDUPE_N = i)%nat /\ (length h - j <= CMD_DEDUPE_N)%nat;
}.

Lemma str_take_short id : id_ok id -> str_take (CMD_ID_MAX - 1) id = id.
Proof. intros [_ Hl]. apply str_take_ge. unfold CMD_ID_MAX in *. lia. Qed.

Lemma strncmp_short a b :
  (String.length a < CMD_ID_MAX)%nat -> id_ok b -> strncmp_eq CMD_ID_MAX a b = String.eqb b a.
Proof.
  intros Ha [_ Hb]. unfold strncmp_eq. rewrite !str_take_ge by (unfold CMD_ID_MAX in *; lia).
  apply String.eqb_sym.
Qed.

Lemma recently_spec ids id :
  recently ids id = true <->
  exists j, ids !! j = Some id /\ (length ids - j <= CMD_DEDUPE_N)%nat.
Proof.
  unfold recently. rewrite existsb_exists. split.
  - intros (s & Hin & ->%String.eqb_eq). apply list_elem_of_In, list_elem_of_lookup in Hin as [j Hj].
    rewrite lookup_drop in Hj. eexists. split; [exact Hj|]. lia.
  - intros (j & Hj & Hl). exists id. split; [|apply String.eqb_refl].
    pose proof (lookup_lt_Some _ _ _ Hj).
    apply list_elem_of_In, (list_elem_of_lookup_2 _ (j - (length ids - CMD_DEDUPE_N))).
    rewrite lookup_drop. rewrite <-Hj. f_equal. lia.
Qed.

Lemma seen_recently st h id :
  seen_exact st h -> Forall id_ok h -> id_ok id -> already_seen st id = recently h id.
Proof.
  intros [Hs He] Hh Hid. apply eq_true_iff_eq. rewrite recently_spec. split.
  - unfold already_seen. intros (s & Hin & Heq)%existsb_exists.
    apply list_elem_of_In, list_elem_of_lookup in Hin as [i Hi].
    destruct (He i s Hi) as [->|(j & Hj & _ & Hl)].
    + rewrite strncmp_short in Heq; [|unfold CMD_ID_MAX; simpl; lia|done].
      apply String.eqb_eq in Heq as ->. destruct Hid as [Hid _]. simpl in Hid. lia.
    + pose proof (Forall_lookup_1 _ _ _ _ Hh Hj) as [_ Hsl].
      rewrite strncmp_short in Heq by done. apply String.eqb_eq in Heq as ->. eauto.
  - intros (j & Hj & Hl). apply (recent_seen st h j id); try done. apply Hid.
Qed.

Lemma seen_exact_init key sink st : commands_init true key sink = Some st -> seen_exact st [].
Proof.
  intros Hi. split; [by eapply commands_init_ok|]. injection Hi as <-.
  intros i s Hs. left. eapply (Forall_lookup_1 (fun s => s = EmptyString)); [|exact Hs].
  simpl. repeat constructor.
Qed.

Lemma seen_exact_key st key h : seen_exact st h -> seen_exact (commands_set_pubkey st key) h.
Proof. intros [[? ? ?] ?]. by split; [split|]. Qed.

Lemma seen_exact_remember st h id :
  seen_exact st h -> id_ok id -> seen_exact (remember st id) (h ++ [id]).
Proof.
  intros [Hs He] Hid. split; [by apply remember_ok|]. intros i s Hi.
  cbn [s_seen remember] in Hi. rewrite (seen_head _ _ Hs), (str_take_short _ Hid) in Hi.
  apply list_lookup_insert_Some in Hi as [(<- & <- & _)|[Hne Hi]].
  - right. exists (length h). rewrite list_lookup_middle, length_app by done. simpl.
    split_and!; [done..|]. unfold CMD_DEDUPE_N. lia.
  - destruct (He i s Hi) as [->|(j & Hj & Hm & Hl)]; [by left|]. right. exists j.
    split_and!; [by apply lookup_app_l_Some|done|]. rewrite length_app. simpl.
    assert (length h - j <> CMD_DEDUPE_N)%nat; [|lia]. intros E. apply Hne. rewrite <-Hm.
    pose proof (lookup_lt_Some _ _ _ Hj).
    replace (length h) with (j + 1 * CMD_DEDUPE_N)%nat by lia.
    apply Nat.Div0.mod_add.
Qed.

(** ** The simulation *)

Section Simulation.
Context {node : Type} `{CJson node}.
Context (verify : list Z -> list Z -> list Z -> bool) (parse : list Z -> option node) (sink : bool).
Context {Q : Type} `{FQueueLaws cmd_request_t Q}.

Record impl_ok (c : cmd_state * Q) (s : spec_st) : Prop := {
  io_key : s_pubkey (fst c) = sp_key s;
  io_sink : s_ack (fst c) = sink;
  io_seen : seen_exact (fst c) (sp_ids s);
  io_ids : Forall id_ok (sp_ids s);
  io_items : queue_items (snd c) = sp_pending s;
  io_depth : queue_depth (snd c) = EXECUTOR_QUEUE_DEPTH;
}.

(** Every command a written frame can carry has an id of 1 to 63 characters. *)
Definition ids_ok (l : cmd_label) : Prop :=
  match l with
  | Write data _ _ => forall key id ty root, decode verify parse key data = Some (id, ty, root) -> id_ok id
  | _ => True
  end.

Lemma room_items c s :
  impl_ok c s -> (Z.of_nat (length (queue_items (snd c))) <? queue_depth (snd c)) = room s.
Proof. intros Hok. unfold room. by rewrite (io_items _ _ Hok), (io_depth _ _ Hok). Qed.

(** One send, with its outcome decided by the pending requests. *)
Lemma send_room_eq c s req ok q' :
  impl_ok c s -> xQueueSend (snd c) req = (ok, q') ->
  ok = room s /\ impl_ok (fst c, q') (enqueue s req).
Proof.
  intros Hok Hs. apply send_spec in Hs as (Hd & Hi & Hr).
  assert (ok = room s) as ->.
  { rewrite <-(room_items _ _ Hok). apply eq_true_iff_eq. by rewrite Hr, Z.ltb_lt. }
  split; [done|]. destruct Hok as [? ? ? ? Hit ?]. split; try done; simpl.
  - rewrite Hi, Hit. by destruct (room s); rewrite ?app_nil_r.
  - congruence.
Qed.

Lemma impl_remember st q s id :
  impl_ok (st, q) s -> id_ok id ->
  impl_ok (remember st id, q) (Spec (sp_key s) (sp_ids s ++ [id]) (sp_pending s)).
Proof.
  intros [? ? ? ? ? ?] Hid. split; try done; simpl.
  - by apply seen_exact_remember.
  - apply Forall_app. by split; [|constructor].
Qed.

Lemma acks_of_ack st q s id :
  impl_ok (st, q) s -> acks_of (ack_trace (node := node) st id) = acked sink id.
Proof. intros Hok. unfold ack_trace, acked. rewrite <-(io_sink _ _ Hok). simpl.
  by destruct (s_ack st).
Qed.

Lemma ack_takes st id : takes (ack_trace (node := node) st id) = [].
Proof. unfold ack_trace. by destruct (s_ack st). Qed.

Lemma ack_answered st id (q q' : Q) : answered q (ack_trace (node := node) st id) q' -> q' = q.
Proof. unfold ack_trace. by destruct (s_ack st). Qed.

Lemma write_simulated st q data t st' q' s :
  impl_ok (st, q) s -> ids_ok (Write data (acks_of t) (takes t)) ->
  exec (commands_handle verify parse st data) t st' -> answered q t q' ->
  exists s', spec_write verify parse sink s data = (acks_of t, takes t, s') /\
    impl_ok (st', q') s'.
Proof.
  intros Hok Hids Ht Hq. apply handle_handles in Ht. unfold handles in Ht.
  pose proof (io_key _ _ Hok) as Hkey. simpl in Hkey. rewrite Hkey in Ht. unfold spec_write.
  destruct (decode verify parse (sp_key s) data) as [[[id ty] root]|] eqn:Hd; cycle 1.
  { destruct Ht as [-> ->]. simpl in Hq. subst q'. eauto. }
  pose proof (Hids _ _ _ _ Hd) as Hid.
  rewrite (seen_recently st _ _ (io_seen _ _ Hok) (io_ids _ _ Hok) Hid) in Ht.
  destruct (recently (sp_ids s) id).
  - destruct Ht as [-> ->]. rewrite (ack_answered _ _ _ _ Hq), (acks_of_ack _ _ _ _ Hok), ack_takes. eauto.
  - destruct Ht as (ok & -> & ->). simpl in Hq. destruct Hq as (q1 & Hs & Hq).
    rewrite submit_send in Hs.
    destruct (send_room_eq _ _ _ _ _ (impl_remember _ _ _ _ Hok Hid) Hs) as [Hr Hok'].
    simpl in Hok'. change (room (Spec _ _ _)) with (room s) in Hr. subst ok.
    assert (q' = q1) as -> by (destruct (room s); [by eapply ack_answered|done]).
    eexists. split; [|exact Hok']. destruct (room s); [|done].
    unfold acks_of, takes. cbn [map concat ack_of took_of app].
    change (concat (map ack_of ?u)) with (acks_of u).
    change (concat (map took_of ?u)) with (takes u).
    by rewrite (acks_of_ack _ _ _ _ Hok), ack_takes.
Qed.

Lemma step_simulated c l c' s :
  impl_ok c s -> ids_ok l -> impl_step verify parse c l c' ->
  exists s', spec_step verify parse sink s l s' /\ impl_ok c' s'.
Proof.
  intros Hok Hids Hst. destruct Hst as [st q data t st' q' Ht Hq|st q key|st q req ok q' Hl
    |st q req q' calls Hr He].
  - destruct (write_simulated _ _ _ _ _ _ _ Hok Hids Ht Hq) as (s' & Hw & Hok').
    exists s'. split; [by constructor|done].
  - eexists. split; [constructor|]. destruct Hok as [? ? ? ? ? ?]. split; try done.
    by apply seen_exact_key.
  - destruct (spec_local s req) as [ok1 s1] eqn:E. exists s1. unfold executor_dispatch_local in Hl.
    unfold spec_local in E. destruct req as [r|]; [|by simplify_eq; split; [constructor|]].
    destruct (decide (status r = EXEC_OK)) as [Hs|Hs].
    + rewrite Hs in Hl.
      assert (xQueueSend q r = (ok, q')) as Hsend by by destruct (xQueueSend q r) as [[]].
      destruct (send_room_eq (st, q) s r ok q' Hok Hsend) as [-> Hok']. simplify_eq.
      split; [|done]. constructor. simpl. by rewrite decide_True.
    + assert ((ok, q') = (false, q)) as Hf by (destruct (status r); congruence). simplify_eq.
      split; [|done]. constructor. simpl. by rewrite decide_False.
  - apply receive_spec in Hr as [Hr Hd]. destruct Hok as [? ? ? ? Hit Hdep]. simpl in *.
    eexists. split.
    + apply (sp_run _ _ _ s req (queue_items q')); [congruence|by eapply dispatch_performs].
    + by split; simpl; try congruence.
Qed.

Lemma run_simulated c0 ls c s0 :
  impl_ok c0 s0 -> impl_run verify parse c0 ls c -> Forall ids_ok ls ->
  exists s, spec_run verify parse sink s0 ls s /\ impl_ok c s.
Proof.
  intros Hok. induction 1 as [|ls c l c' _ IH Hst]; intros Hids.
  { exists s0. by split; [constructor|]. }
  apply Forall_app in Hids as [Hids Hl]. apply Forall_cons_1 in Hl as [Hl _].
  destruct (IH Hids) as (s & Hrun & Hs).
  destruct (step_simulated _ _ _ _ Hs Hl Hst) as (s' & Hst' & Hs').
  exists s'. split; [|done]. by econstructor.
Qed.
End Simulation.

(** ** What the specification promises *)

(** The requests that entered the queue, and those that ran. *)
Definition accepted1 (l : cmd_label) : list cmd_request_t :=
  match l with
  | Write _ _ took => took
  | Local (Some r) true => [r]
  | _ => []
  end.
Definition ran1 (l : cmd_label) : list cmd_request_t := match l with Run r _ => [r] | _ => [] end.

(** Two commands with the same id have sixteen others between them. *)
Definition spaced (ids : list string) : Prop :=
  forall i j id, (i < j)%nat -> ids !! i = Some id -> ids !! j = Some id -> (CMD_DEDUPE_N < j - i)%nat.

Lemma spaced_snoc ids id : spaced ids -> recently ids id = false -> spaced (ids ++ [id]).
Proof.
  intros Hs Hr i j x Hij Hi Hj. apply lookup_snoc_Some in Hj as [[_ Hj]|[-> ->]].
  - apply lookup_lt_Some in Hj as Hl. rewrite lookup_app_l in Hi by lia. by apply (Hs i j x).
  - rewrite lookup_app_l in Hi by done.
    destruct (decide (length ids - i <= CMD_DEDUPE_N)%nat); [|lia].
    assert (recently ids x = true) as E by (apply recently_spec; eauto). congruence.
Qed.

Record spec_ok (ls : list cmd_label) (s : spec_st) : Prop := {
  so_accounts : concat (map accepted1 ls) = concat (map ran1 ls) ++ sp_pending s;
  so_bound : Z.of_nat (length (sp_pending s)) <= EXECUTOR_QUEUE_DEPTH;
  so_spaced : spaced (sp_ids s);
}.

Lemma enqueue_ok ls s req :
  spec_ok ls s ->
  concat (map accepted1 ls) ++ (if room s then [req] else []) =
    concat (map ran1 ls) ++ sp_pending (enqueue s req) /\
  Z.of_nat (length (sp_pending (enqueue s req))) <= EXECUTOR_QUEUE_DEPTH.
Proof.
  intros [Ha Hb _]. rewrite Ha, <-app_assoc. unfold enqueue, room in *. simpl.
  destruct (Z.ltb_spec (Z.of_nat (length (sp_pending s))) EXECUTOR_QUEUE_DEPTH);
    rewrite ?app_nil_r; split; try done. rewrite length_app. simpl. lia.
Qed.

Lemma spec_step_ok {node} `{CJson node} verify (parse : list Z -> option node) sink ls s l s' :
  spec_ok ls s -> spec_step verify parse sink s l s' -> spec_ok (ls ++ [l]) s'.
Proof.
  intros Hok Hst. pose proof Hok as [Ha Hb Hs].
  destruct Hst as [s data acks took s' Hw|s key|s req ok s' Hl|s r l calls Hp _].
  - unfold spec_write in Hw.
    destruct (decode verify parse (sp_key s) data) as [[[id ty] root]|];
      [destruct (recently (sp_ids s) id) eqn:Hr|].
    + simplify_eq. split; rewrite ?map_app, ?concat_app; simpl; by rewrite ?app_nil_r.
    + injection Hw as <- <- <-. destruct (enqueue_ok ls s
        (executor_parse_and_validate ty (cJSON_GetObjectItemCaseSensitive root "params")) Hok)
        as [He1 He2].
      split; rewrite ?map_app, ?concat_app; simpl; rewrite ?app_nil_r.
      * exact He1.
      * exact He2.
      * by apply spaced_snoc.
    + simplify_eq. split; rewrite ?map_app, ?concat_app; simpl; by rewrite ?app_nil_r.
  - split; rewrite ?map_app, ?concat_app; simpl; by rewrite ?app_nil_r.
  - unfold spec_local in Hl. destruct req as [r|]; [case_decide|].
    + injection Hl as <- <-. destruct (enqueue_ok ls s r Hok) as [He1 He2].
      split; rewrite ?map_app, ?concat_app; simpl; [|done|done].
      rewrite !app_nil_r. exact He1.
    + simplify_eq. split; rewrite ?map_app, ?concat_app; simpl; by rewrite ?app_nil_r.
    + simplify_eq. split; rewrite ?map_app, ?concat_app; simpl; by rewrite ?app_nil_r.
  - rewrite Hp in Ha, Hb. split; rewrite ?map_app, ?concat_app; simpl; [|simpl in Hb; lia|done].
    by rewrite app_nil_r, Ha, <-app_assoc.
Qed.

Lemma spec_run_ok {node} `{CJson node} verify (parse : list Z -> option node) sink key ls s :
  spec_run verify parse sink (Spec key [] []) ls s -> spec_ok ls s.
Proof.
  induction 1 as [|ls s l s' _ IH Hst]; [|by eapply spec_step_ok].
  split; [done|by vm_compute|]. intros i j id _ Hi. done.
Qed.

(** ** Theorem *)

(** C6. The command path is its specification.  From boot, for any
    interleaving of command writes, key changes, button requests and the
    executor task, and for commands whose ids have 1 to 63 characters: the
    firmware does what [spec_step] does with a list of ids and a list of
    pending requests.  A write that does not decode under the current key is
    ignored; an id handled among the last sixteen is acknowledged and nothing
    else; any other command is recorded and, exactly when fewer than eight
    requests are pending, queued and acknowledged; requests run in order,
    making the calls they ask for.  So the requests accepted are, in order,
    those run and those pending, at most eight; and two commands with the same
    id have at least sixteen others between them. *)
Theorem command_path_refines_spec {node} `{CJson node} verify (parse : list Z -> option node)
    {Q} `{FQueueLaws cmd_request_t Q} key sink st0 (q0 : Q) ls st q :
  commands_init true key sink = Some st0 -> executor_init true true = Some q0 ->
  impl_run verify parse (st0, q0) ls (st, q) -> Forall (ids_ok verify parse) ls ->
  exists s, spec_run verify parse sink (Spec key [] []) ls s /\
    queue_items q = sp_pending s /\ s_pubkey st = sp_key s /\
    concat (map accepted1 ls) = concat (map ran1 ls) ++ queue_items q /\
    Z.of_nat (length (queue_items q)) <= EXECUTOR_QUEUE_DEPTH /\ spaced (sp_ids s).
Proof.
  intros Hc Hq Hrun Hids. injection Hq as <-.
  assert (impl_ok sink (st0, xQueueCreate EXECUTOR_QUEUE_DEPTH) (Spec key [] [])) as Hinit.
  { pose proof (seen_exact_init _ _ _ Hc). injection Hc as <-.
    split; try done; [apply create_items|apply create_depth]. }
  destruct (run_simulated verify parse sink _ _ _ _ Hinit Hrun Hids) as (s & Hs & Hok).
  exists s. pose proof (spec_run_ok _ _ _ _ _ _ Hs) as [Ha Hb Hsp].
  rewrite <-(io_items _ _ _ Hok : queue_items q = _) in Ha, Hb.
  split_and!; try done; apply Hok.
Qed.

(** The button asks for a photo, stop_audio arrives twice and is run after it. *)
Definition demo_q (l : list cmd_request_t) : ListQueue.lqueue cmd_request_t :=
  ListQueue.LQueue EXECUTOR_QUEUE_DEPTH l.
Definition demo_photo : cmd_request_t := req_of CMD_CAPTURE_PHOTO EXEC_OK.
Definition demo_stop : cmd_request_t := req_of CMD_STOP_AUDIO EXEC_OK.
Definition demo_labels : list cmd_label :=
  [Local (Some demo_photo) true; Write demo_frame ["a"%string] [demo_stop];
   Write demo_frame ["a"%string] []; Run demo_photo [Ev snapshot_capture_async tt]].
Definition demo_parse (p : list Z) : option Json.json := Some (demo_command "a" "stop_audio").

Lemma demo_impl_run :
  impl_run (fun _ _ _ => true) demo_parse (demo_state, demo_q []) demo_labels
    (remember demo_state "a", demo_q [demo_stop]).
Proof.
  assert (impl_run (fun _ _ _ => true) demo_parse (demo_state, demo_q []) (take 1 demo_labels)
    (demo_state, demo_q [demo_photo])) as H1.
  { apply (impl_next _ _ _ [] (demo_state, demo_q [])); [constructor|]. by apply im_local. }
  assert (impl_run (fun _ _ _ => true) demo_parse (demo_state, demo_q []) (take 2 demo_labels)
    (remember demo_state "a", demo_q [demo_photo; demo_stop])) as H2.
  { apply (impl_next _ _ _ _ _ _ _ H1).
    apply (im_write _ _ demo_state (demo_q [demo_photo]) demo_frame
      [Ev (Commands.executor_submit "stop_audio" None) true; Ev (s_ack_fn "a") tt]).
    - exists true, [Ev (s_ack_fn "a") tt]. split; [done|]. by exists tt, [].
    - by eexists. }
  apply (impl_next _ _ _ (take 3 demo_labels)
    (remember demo_state "a", demo_q [demo_photo; demo_stop])).
  - apply (impl_next _ _ _ _ _ _ _ H2).
    apply (im_write _ _ _ (demo_q [demo_photo; demo_stop]) demo_frame [Ev (s_ack_fn "a") tt]); [|done].
    by exists tt, [].
  - apply im_run; [done|]. by exists tt, [].
Qed.

Lemma command_path_refines_spec_witness :
  exists s, spec_run (fun _ _ _ => true) demo_parse true (Spec [] [] []) demo_labels s /\
    sp_pending s = [demo_stop] /\
    concat (map accepted1 demo_labels) = concat (map ran1 demo_labels) ++ [demo_stop].
Proof.
  destruct (command_path_refines_spec (fun _ _ _ => true) demo_parse [] true demo_state
    (demo_q []) demo_labels (remember demo_state "a") (demo_q [demo_stop]))
    as (s & Hs & Hp & _ & Ha & _).
  - reflexivity.
  - reflexivity.
  - apply demo_impl_run.
  - repeat (apply Forall_cons_2; [try done|]); [| |constructor];
      intros k id ty root Hd; vm_compute in Hd; injection Hd as <- <- <-;
      unfold id_ok, CMD_ID_MAX; simpl; lia.
  - exists s. split; [exact Hs|]. split; [symmetry; exact Hp|exact Ha].
Defined.
