(* ===== verification/Validator.v ===== *)
(** * validator_command.py: the server's checks, against the device's

    [StrictCommandValidator.validate] with its rejection reasons, over the
    values Python decodes from a model's answer.  The parameters reach the
    device as JSON: [Wire] is that encoding together with cJSON's decoding,
    with the documented behaviour of both.  The theorem says which request
    executor_core.c makes, and commands.c queues, of every payload the server
    has judged. *)

From S2P Require Import Prelude Effects Config CJson Doubles Freertos.
From S2P Require Import ExecutorCore Executor Commands CommandPath.
Import Json ListQueue.
Open Scope string_scope.
Open Scope list_scope.
Open Scope Z_scope.

(** ** The server *)

(** A decoded JSON value; [PyOther] is a list or a dict. *)
Inductive pyval : Type :=
| PyNone | PyBool (b : bool) | PyInt (z : Z) | PyFloat (d : double) | PyStr (s : string) | PyOther.

Definition _is_number (v : pyval) : bool :=
  match v with PyInt _ | PyFloat _ => true | _ => false end.

(** [value < n] and [value > n] for a number and an integer constant. *)
Definition below (v : pyval) (n : Z) : bool :=
  match v with PyInt z => z <? n | PyFloat d => dlt d (dbl n) | _ => false end.
Definition above (v : pyval) (n : Z) : bool :=
  match v with PyInt z => n <? z | PyFloat d => dlt (dbl n) d | _ => false end.

Inductive RejectionReason : Set :=
| UNKNOWN_TYPE | UNKNOWN_PARAM | MISSING_REQUIRED_PARAM | INVALID_PARAM_TYPE
| PARAM_OUT_OF_RANGE | INVALID_IDEMPOTENCY_KEY.

(** A dict is the list of its items in insertion order. *)
Abbreviation pydict := (list (string * pyval)).

Record IssueCommandPayload : Type := Payload {
  command_type : string; params : pydict; idempotency_key : string; confidence : double }.

Record ValidatedCommand : Type := Validated {
  v_type : string; v_params : pydict; v_key : string; v_confidence : double }.

Definition ALLOWLIST : list string :=
  ["capture_photo"; "record_video"; "start_audio"; "stop_audio"; "request_buffer";
   "record_audio"; "start_video"; "stop_video"; "flush_snapshots"; "sleep";
   "set_snapshot_interval"].

Definition mem (k : string) (l : list string) : bool := existsb (String.eqb k) l.

(** Step 6: the type and the bounds of each field, in the schema's order. *)
Fixpoint check_fields (fields : schema) (ps : pydict) : RejectionReason + pydict :=
  match fields with
  | [] => inr []
  | (key, (lo, hi)) :: fields =>
      match find_key key ps with
      | None => check_fields fields ps
      | Some value =>
          if negb (_is_number value) then inl INVALID_PARAM_TYPE
          else if below value lo then inl PARAM_OUT_OF_RANGE
          else if above value hi then inl PARAM_OUT_OF_RANGE
          else
            match check_fields fields ps with
            | inl r => inl r
            | inr cleaned => inr ((key, value) :: cleaned)
            end
      end
  end.

Definition validate (p : IssueCommandPayload) : RejectionReason + ValidatedCommand :=
  if String.eqb (idempotency_key p) "" then inl INVALID_IDEMPOTENCY_KEY
  else if negb (mem (command_type p) ALLOWLIST) then inl UNKNOWN_TYPE
  else
    match find_key (command_type p) _TYPE_SCHEMAS with
    | None => inl UNKNOWN_TYPE
    | Some sch =>
        let required := map fst sch in
        if negb (forallb (fun kv => mem (fst kv) required) (params p)) then inl UNKNOWN_PARAM
        else if negb (forallb (fun key => mem key (map fst (params p))) required)
        then inl MISSING_REQUIRED_PARAM
        else
          match check_fields sch (params p) with
          | inl r => inl r
          | inr cleaned =>
              inr (Validated (command_type p) cleaned (idempotency_key p) (confidence p))
          end
    end.

(** ** The wire *)

(** What the device's parser makes of a value and of a params object. *)
Class Wire (node : Type) : Type := {
  wire : pyval -> node;
  wire_obj : pydict -> node;
}.

(** Keys that survive as C strings. *)
Fixpoint no_nul (s : string) : bool :=
  match s with
  | EmptyString => true
  | String c s => negb (Ascii.eqb c Ascii.zero) && no_nul s
  end.

(** A finite number. *)
Definition finite (d : double) : bool :=
  double_ok d && match d with S754_infinity _ => false | _ => true end.

(** An integer a double holds exactly, a finite float, or no number at all.
    NaN and the infinities have no JSON form. *)
Definition sendable (v : pyval) : Prop :=
  match v with PyInt z => is_int53 z | PyFloat d => finite d = true | _ => True end.

(** A dict has one value per key. *)
Record sendable_dict (ps : pydict) : Prop := {
  sendable_keys : NoDup (map fst ps);
  sendable_names : forallb (fun kv => no_nul (fst kv)) ps = true;
  sendable_values : Forall (fun kv => sendable (snd kv)) ps;
}.

Class WireLaws (node : Type) `{CJsonLaws node, Wire node} : Prop := {
  wire_int z : is_int53 z ->
    cJSON_IsNumber (wire (PyInt z)) = true /\ valuedouble (wire (PyInt z)) = dbl z;
  wire_float d : finite d = true ->
    cJSON_IsNumber (wire (PyFloat d)) = true /\ valuedouble (wire (PyFloat d)) = d;
  wire_other v : _is_number v = false -> cJSON_IsNumber (wire v) = false;
  wire_object ps : cJSON_IsObject (wire_obj ps) = true;
  wire_children ps : forallb (fun kv => no_nul (fst kv)) ps = true ->
    Permutation (children (wire_obj ps)) (map (fun kv => (fst kv, wire (snd kv))) ps);
}.

(** The whole part of a number, as the device stores it. *)
Definition whole (v : pyval) : Z :=
  match v with PyInt z => z | PyFloat d => dtrunc d | _ => 0 end.

(** The request a validated command stands for. *)
Definition the_param (key : string) (c : ValidatedCommand) : Z :=
  match find_key key (v_params c) with Some v => whole v | None => 0 end.

Definition request_of (c : ValidatedCommand) : cmd_request_t :=
  let t := v_type c in
  if String.eqb t "start_audio" then req_of CMD_START_AUDIO EXEC_OK
  else if String.eqb t "stop_audio" then req_of CMD_STOP_AUDIO EXEC_OK
  else if String.eqb t "capture_photo" then req_of CMD_CAPTURE_PHOTO EXEC_OK
  else if String.eqb t "record_video" then
    CmdRequest CMD_RECORD_VIDEO EXEC_OK 0 (the_param "duration_s" c) 0
  else if String.eqb t "request_buffer" then
    CmdRequest CMD_REQUEST_BUFFER EXEC_OK (the_param "seconds" c) 0 0
  else if String.eqb t "start_video" then req_of CMD_START_VIDEO EXEC_OK
  else if String.eqb t "stop_video" then req_of CMD_STOP_VIDEO EXEC_OK
  else if String.eqb t "flush_snapshots" then req_of CMD_FLUSH_SNAPSHOTS EXEC_OK
  else CmdRequest CMD_SET_SNAPSHOT_INTERVAL EXEC_OK 0 0 (the_param "seconds" c).

(** ** Lemmas *)

Lemma mem_spec k l : mem k l = true <-> k ∈ l.
Proof.
  unfold mem. rewrite existsb_exists, list_elem_of_In. split.
  - intros (k' & Hin & ->%String.eqb_eq). done.
  - intros. exists k. by rewrite String.eqb_refl.
Qed.

Lemma mem_find_key {A} k (l : list (string * A)) :
  mem k (map fst l) = match find_key k l with Some _ => true | None => false end.
Proof.
  unfold mem. induction l as [|[k' a] l IH]; [done|]. cbn.
  rewrite (String.eqb_sym k k'). by destruct (String.eqb k' k).
Qed.

Lemma find_key_fmap {A B} (f : A -> B) k l :
  find_key k (map (fun kv => (fst kv, f (snd kv))) l) = option_map f (find_key k l).
Proof. induction l as [|[k' a] l IH]; [done|]. cbn. by destruct (String.eqb k' k). Qed.

Lemma find_key_elem {A} k (v : A) l : find_key k l = Some v -> (k, v) ∈ l.
Proof.
  induction l as [|[k' a] l IH]; [done|]. cbn.
  destruct (String.eqb_spec k' k) as [->|]; [intros [= ->]; left|right; auto].
Qed.

(** Looking a key up does not depend on the order of distinct keys. *)
Lemma find_key_perm {A} k (l l' : list (string * A)) :
  Permutation l l' -> NoDup (map fst l) -> find_key k l = find_key k l'.
Proof.
  induction 1 as [|[k1 a] l l' _ IH|[k1 a] [k2 b] l|l l' l'' H1 IH1 _ IH2]; cbn; intros Hnd.
  - done.
  - apply NoDup_cons in Hnd as [_ Hnd]. by rewrite IH.
  - apply NoDup_cons in Hnd as [Hne _]. rewrite not_elem_of_cons in Hne.
    destruct (String.eqb_spec k1 k), (String.eqb_spec k2 k); naive_solver congruence.
  - rewrite IH1 by done. apply IH2. by rewrite <-H1.
Qed.

Lemma forallb_perm {A} (f : A -> bool) l l' :
  Permutation l l' -> forallb f l = forallb f l'.
Proof.
  induction 1 as [|x l l' _ IH|x y l|l l' l'' _ IH1 _ IH2]; cbn; [done|by rewrite IH| |congruence].
  by destruct (f x), (f y).
Qed.

Lemma forallb_map {A B} (f : B -> bool) (g : A -> B) l :
  forallb f (map g l) = forallb (fun x => f (g x)) l.
Proof. induction l as [|x l IH]; [done|]. cbn. by rewrite IH. Qed.

(** The parameter of a command with one numeric field, when it is there, alone
    and in range. *)
Definition number_param (ps : pydict) (key : string) (lo hi : Z) : option pyval :=
  if negb (forallb (fun kv => mem (fst kv) [key]) ps) then None
  else
    match find_key key ps with
    | None => None
    | Some v => if _is_number v && negb (below v lo) && negb (above v hi) then Some v else None
    end.

(** What the server answers for such a command. *)
Lemma validate_number p key lo hi :
  mem (command_type p) ALLOWLIST = true ->
  find_key (command_type p) _TYPE_SCHEMAS = Some [(key, (lo, hi))] ->
  match validate p with
  | inr c =>
      exists v, number_param (params p) key lo hi = Some v /\
        c = Validated (command_type p) [(key, v)] (idempotency_key p) (confidence p)
  | inl INVALID_IDEMPOTENCY_KEY => idempotency_key p = ""
  | inl UNKNOWN_TYPE => False
  | inl _ => number_param (params p) key lo hi = None
  end.
Proof.
  intros Ha Hs. unfold validate, number_param. rewrite Ha, Hs.
  destruct (String.eqb_spec (idempotency_key p) ""); [done|]. cbn [negb map fst].
  destruct (forallb _ (params p)); cbn [negb]; [|done].
  cbn [forallb]. rewrite mem_find_key, andb_true_r. cbn [check_fields].
  destruct (find_key key (params p)) as [v|]; [|done]. cbn [negb].
  destruct (_is_number v); [|done]. cbn [negb andb].
  destruct (below v lo); [done|]. destruct (above v hi); [done|]. cbn. by exists v.
Qed.

(** Likewise for a command without parameters. *)
Lemma validate_bare p :
  mem (command_type p) ALLOWLIST = true ->
  find_key (command_type p) _TYPE_SCHEMAS = Some [] ->
  match validate p with
  | inr c =>
      params p = [] /\ c = Validated (command_type p) [] (idempotency_key p) (confidence p)
  | inl INVALID_IDEMPOTENCY_KEY => idempotency_key p = ""
  | inl UNKNOWN_TYPE => False
  | inl _ => params p <> []
  end.
Proof.
  intros Ha Hs. unfold validate. rewrite Ha, Hs.
  destruct (String.eqb_spec (idempotency_key p) ""); [done|]. by destruct (params p).
Qed.

Section Wired.
Context {node : Type} `{WireLaws node}.

Lemma wire_number v n :
  _is_number v = true -> sendable v -> is_int53 n -> 0 <= n ->
  cJSON_IsNumber (wire v) = true /\ dtrunc (valuedouble (wire v)) = whole v /\
  dlt (valuedouble (wire v)) (dbl n) = below v n /\ dlt (dbl n) (valuedouble (wire v)) = above v n.
Proof.
  intros Hv Hs Hn Hn0. destruct v as [|b|z|d|s|]; try done; cbn in Hs.
  - destruct (wire_int z Hs) as [-> ->]. split; [done|]. split; [by apply dtrunc_dbl|].
    by apply dlt_int.
  - by destruct (wire_float d Hs) as [-> ->].
Qed.

Lemma wire_find ps k :
  sendable_dict ps -> find_key k (children (wire_obj ps)) = option_map wire (find_key k ps).
Proof.
  intros [Hk Hn _]. pose proof (wire_children ps Hn) as Hp. symmetry in Hp.
  rewrite <-(find_key_perm k _ _ Hp), find_key_fmap; [done|].
  rewrite map_map. exact Hk.
Qed.

Lemma wire_only_allowed ps l :
  sendable_dict ps ->
  params_only_allowed (Some (wire_obj ps)) l = forallb (fun kv => mem (fst kv) l) ps.
Proof.
  intros [_ Hn _]. unfold params_only_allowed. rewrite wire_object. cbn [negb].
  by rewrite (forallb_perm _ _ _ (wire_children ps Hn)), forallb_map.
Qed.

(** The device's check of one numeric field is the server's. *)
Lemma parse_number_wire ps key lo hi :
  sendable_dict ps -> is_int53 lo -> 0 <= lo -> is_int53 hi -> 0 <= hi ->
  match parse_number (Some (wire_obj ps)) key (dbl lo) (dbl hi) with
  | Some d => exists v, number_param ps key lo hi = Some v /\ dtrunc d = whole v
  | None => number_param ps key lo hi = None
  end.
Proof.
  intros Hps Hlo Hlo0 Hhi Hhi0. unfold parse_number, get_number, number_param.
  rewrite wire_only_allowed by done. destruct (forallb _ ps); cbn [negb]; [|done].
  rewrite get_item_object by apply wire_object. rewrite wire_find by done.
  destruct (find_key key ps) as [v|] eqn:Hv; cbn [option_map]; [|done].
  assert (sendable v) as Hs.
  { pose proof (sendable_values _ Hps) as Hall. rewrite Forall_forall in Hall.
    apply (Hall (key, v)). by apply find_key_elem. }
  destruct (_is_number v) eqn:Hnum; [|by rewrite wire_other].
  destruct (wire_number v lo Hnum Hs Hlo Hlo0) as (-> & Ht & Elo & _).
  destruct (wire_number v hi Hnum Hs Hhi Hhi0) as (_ & _ & _ & Ehi). cbn [negb andb]. rewrite Elo, Ehi.
  destruct (below v lo), (above v hi); cbn; try done. by exists v.
Qed.

Lemma parse_bare_wire ty ps :
  sendable_dict ps ->
  parse_bare ty (Some (wire_obj ps)) =
  req_of ty (if bool_decide (ps = []) then EXEC_OK else EXEC_BAD_PARAMS).
Proof.
  intros Hps. unfold parse_bare. rewrite wire_only_allowed by done. by destruct ps.
Qed.
End Wired.

(** What the device's request must be, given the server's answer. *)
Definition judged (p : IssueCommandPayload) (r : cmd_request_t) : Prop :=
  match validate p with
  | inr c => r = request_of c
  | inl INVALID_IDEMPOTENCY_KEY => idempotency_key p = ""
  | inl UNKNOWN_TYPE => False
  | inl _ => r = req_of (type r) EXEC_BAD_PARAMS
  end.

Section Arms.
Context {node : Type} `{WireLaws node}.

Lemma judged_number p ty key lo hi mk :
  sendable_dict (params p) -> mem (command_type p) ALLOWLIST = true ->
  find_key (command_type p) _TYPE_SCHEMAS = Some [(key, (lo, hi))] ->
  is_int53 lo -> 0 <= lo -> is_int53 hi -> 0 <= hi ->
  (forall d, parse_number (Some (wire_obj (params p))) key (dbl lo) (dbl hi) = Some d ->
     0 <= dtrunc d < 2 ^ 32) ->
  (forall v, mk (whole v) =
     request_of (Validated (command_type p) [(key, v)] (idempotency_key p) (confidence p))) ->
  judged p
    match parse_number (Some (wire_obj (params p))) key (dbl lo) (dbl hi) with
    | None => req_of ty EXEC_BAD_PARAMS
    | Some d => mk (double_to_u32 d)
    end.
Proof.
  intros Hps Ha Hs Hlo Hlo0 Hhi Hhi0 Hr Hmk.
  pose proof (validate_number p key lo hi Ha Hs) as Hv.
  pose proof (parse_number_wire (params p) key lo hi Hps Hlo Hlo0 Hhi Hhi0) as Hw. unfold judged.
  destruct (parse_number _ _ _ _) as [d|].
  - destruct Hw as (v & Hp & Hd). rewrite Hp in Hv.
    unfold double_to_u32. rewrite u32_small by (by apply Hr). rewrite Hd, Hmk.
    destruct (validate p) as [[]|c]; naive_solver.
  - rewrite Hw in Hv. destruct (validate p) as [[]|c]; naive_solver.
Qed.

Lemma judged_bare p ty :
  sendable_dict (params p) -> mem (command_type p) ALLOWLIST = true ->
  find_key (command_type p) _TYPE_SCHEMAS = Some [] ->
  req_of ty EXEC_OK =
    request_of (Validated (command_type p) [] (idempotency_key p) (confidence p)) ->
  judged p (parse_bare ty (Some (wire_obj (params p)))).
Proof.
  intros Hps Ha Hs Hr. pose proof (validate_bare p Ha Hs) as Hv.
  rewrite parse_bare_wire by done. unfold judged. destruct (params p) as [|q ps].
  - rewrite bool_decide_true by done. destruct (validate p) as [[]|c]; naive_solver.
  - rewrite bool_decide_false by done. destruct (validate p) as [[]|c]; naive_solver.
Qed.
End Arms.

(** What the device makes of the payload's type and parameters. *)
Definition device_request {node} `{CJson node, Wire node} (p : IssueCommandPayload) : cmd_request_t :=
  executor_parse_and_validate (command_type p) (Some (wire_obj (params p))).

Lemma device_judged {node} `{WireLaws node} (p : IssueCommandPayload) :
  sendable_dict (params p) ->
  if mem (command_type p) device_types then judged p (device_request p)
  else device_request p = req_of CMD_UNKNOWN EXEC_UNKNOWN_TYPE.
Proof.
  intros Hps. unfold device_request. destruct (mem _ _) eqn:Hm.
  - apply mem_spec in Hm.
    destruct p as [ty ps k c]. cbn [command_type] in *. unfold device_types in Hm.
    repeat (apply elem_of_cons in Hm as [->|Hm]); [..|by apply not_elem_of_nil in Hm].
    all: try (by apply (judged_bare (Payload _ ps k c))).
    + apply (judged_number (Payload "record_video" ps k c) _ "duration_s" 1 30
               (fun n => CmdRequest CMD_RECORD_VIDEO EXEC_OK 0 n 0)); try done.
      intros d Hd. eapply parse_number_range in Hd; [|dbl_const..]. lia.
    + apply (judged_number (Payload "request_buffer" ps k c) _ "seconds" 1 60
               (fun n => CmdRequest CMD_REQUEST_BUFFER EXEC_OK n 0 0)); try done.
      intros d Hd. eapply parse_number_range in Hd; [|dbl_const..]. lia.
    + apply (judged_number (Payload "set_snapshot_interval" ps k c) _ "seconds" 0 600
               (fun n => CmdRequest CMD_SET_SNAPSHOT_INTERVAL EXEC_OK 0 0 n)); try done.
      intros d Hd. eapply parse_number_range0 in Hd; [|dbl_const..]. lia.
  - apply validated_request_bounds. intros Hin%mem_spec. congruence.
Qed.

(** A write of a command not seen before puts its request in a queue with
    room. *)
Lemma write_queues {node} `{CJson node} {Q} `{FQueueLaws cmd_request_t Q} verify parse st data t st'
    (q q' : Q) id ty root :
  decode verify parse (s_pubkey st) data = Some (id, ty, root) -> already_seen st id = false ->
  Z.of_nat (length (queue_items q)) < queue_depth q ->
  exec (commands_handle verify parse st data) t st' -> answered q t q' ->
  queue_items q' = queue_items q ++
    [executor_parse_and_validate ty (cJSON_GetObjectItemCaseSensitive root "params")].
Proof.
  intros Hd Hs Hr Ht Ha. apply handle_handles in Ht. unfold handles in Ht. rewrite Hd, Hs in Ht.
  destruct Ht as (ok & _ & ->). destruct Ha as (q1 & Hq & Ha).
  unfold Executor.executor_submit in Hq. destruct (xQueueSend _ _) as [b q2] eqn:E.
  apply send_spec in E as (_ & Hi & Hok). apply Hok in Hr as ->.
  injection Hq as <- <-. unfold ack_trace in Ha. destruct (s_ack st); cbn in Ha; by subst q'.
Qed.

(** ** Theorem *)


(** ** The JSON values of CJson.v as the wire *)

Lemma finite_ok d : finite d = true -> double_ok d = true.
Proof. unfold finite. by intros [? _]%andb_true_iff. Qed.

(** A number of the payload; null where it has no JSON number. *)
Definition json_number (d : double) : Json.json :=
  match bool_dec (double_ok d) true with
  | left ok => Json.JNum d ok
  | right _ => Json.JNull
  end.

Definition json_of (v : pyval) : Json.json :=
  match v with
  | PyNone => Json.JNull
  | PyBool b => if b then Json.JTrue else Json.JNull
  | PyInt z => json_number (dbl z)
  | PyFloat d => json_number d
  | PyStr s => Json.JStr s
  | PyOther => Json.JArr []
  end.

#[export] Instance json_wire : Wire Json.json := {
  wire := json_of;
  wire_obj ps := Json.JObj (map (fun kv => (fst kv, json_of (snd kv))) ps);
}.

Lemma json_number_ok d :
  double_ok d = true ->
  cJSON_IsNumber (json_number d) = true /\ valuedouble (json_number d) = d.
Proof. intros Hd. unfold json_number. by destruct (bool_dec _ _). Qed.

#[export] Instance json_wire_laws : WireLaws Json.json.
Proof.
  split.
  - intros z Hz. apply json_number_ok. by apply dbl_ok.
  - intros d Hd. apply json_number_ok. by apply finite_ok.
  - by intros [|[]| | | |].
  - done.
  - done.
Qed.

(** A command of the demonstrations. *)
Definition demo_payload (ty : string) (ps : pydict) : IssueCommandPayload :=
  Payload ty ps "key-1" (dbl 1).

(** A command of the server as the device decodes it. *)
Definition demo_root (p : IssueCommandPayload) : Json.json :=
  Json.JObj [("command_id", Json.JStr "a"); ("type", Json.JStr (command_type p));
             ("params", wire_obj (params p))].

Definition demo_half_minute : IssueCommandPayload := demo_payload "request_buffer" [("seconds", PyInt 30)].

Lemma demo_half_minute_sendable : sendable_dict (params demo_half_minute).
Proof.
  split; [by apply NoDup_singleton|reflexivity|].
  apply Forall_singleton. cbn. unfold is_int53. lia.
Qed.


(** NaN is below no minimum and above no maximum: the server validates it, and
    no JSON number can take it to the device. *)
Lemma nan_is_validated :
  let ps := [("seconds", PyFloat S754_nan)] in
  validate (demo_payload "request_buffer" ps) =
    inr (Validated "request_buffer" ps "key-1" (dbl 1)) /\
  status (executor_parse_and_validate "request_buffer"
            (Some (wire_obj (node := Json.json) ps))) = EXEC_BAD_PARAMS.
Proof. by vm_compute. Qed.

(** Half a second is a cadence for the server and "off" for the device. *)
Lemma half_second_is_off :
  let ps := [("seconds", PyFloat (S754_finite false (2 ^ 52) (-53)))] in
  validate (demo_payload "set_snapshot_interval" ps) =
    inr (Validated "set_snapshot_interval" ps "key-1" (dbl 1)) /\
  executor_parse_and_validate "set_snapshot_interval"
    (Some (wire_obj (node := Json.json) ps)) =
    CmdRequest CMD_SET_SNAPSHOT_INTERVAL EXEC_OK 0 0 0.
Proof. by vm_compute. Qed.
