(* ===== verification/BleDrain.v ===== *)
(** * ble_drain.c: from the ring buffer to BLE notifications

    The drain task reads the ring (written concurrently by the audio task),
    packs frames into C.6 packets sized to the ATT MTU and notifies them.  Every
    read of the ring, every dereference of a pointer into it and every call of
    the link is a platform call here, so the theorems cover each interleaving
    with the producer and each answer of the radio. *)

From S2P Require Import Prelude Effects Config C6Packet RingBuffer ExecutorCore.
Import C6.

Definition PACKET_BUF_CAP : Z := C6_HEADER_LEN + C6_FRAMES_PER_CHUNK * (1 + MAX_OPUS_BYTES).

Inductive drainE : Type -> Type :=
| replay_receive : drainE (option Z)  (** xQueueReceive(s_replay_queue, &rr, 0) *)
| ring_buffer_write_index : drainE Z
| ring_buffer_get (index : Z) : drainE (option ring_frame_t)
| ring_buffer_get_copy (index : Z) : drainE (option (ring_frame_t * list Z))
| deref (p : data_ptr) (n : Z) : drainE (list Z)  (** the memcpy from a ring pointer *)
| ble_link_att_mtu : drainE Z
| ble_link_notify_audio (pkt : list Z) : drainE Z
| vTaskDelay (ms : Z) : drainE unit.

#[local] Abbreviation call := (Effects.call (E := drainE)).

(** [max_payload] and [budget] of both paths. *)
Definition max_payload (mtu : Z) : Z := if 23 <=? mtu then mtu - 3 else 244.
Definition budget_of (mtu : Z) : Z :=
  if C6_HEADER_LEN <? max_payload mtu then max_payload mtu - C6_HEADER_LEN else 0.

(** The inner loop of the packers: the longest prefix that fits. *)
Fixpoint take_fit {F} (flen : F -> Z) (budget used : Z) (fs : list F) : list F * list F :=
  match fs with
  | [] => ([], [])
  | f :: fs' =>
      if used + 1 + flen f <=? budget
      then let '(seg, rest) := take_fit flen budget (used + 1 + flen f) fs' in (f :: seg, rest)
      else ([], fs)
  end.

(** ** drain_replay *)

Module Replay.

(** One entry of [frames], [frame_vad], [frame_rel_ts]: the data pointer is
    an offset into [data_scratch]. *)
Record rframe : Type := RFrame { f_off : nat; f_len : Z; f_vad : Z; f_ts : Z }.

(** The locals of one outer iteration. *)
Record locals : Type := Locals {
  scratch : list Z;
  frames : list rframe;
  first_rel_ts : Z;
  used : Z;
  data_off : nat;
}.

(** What the collecting loop ends with: the locals and how many of the [N]
    frames are left, or a store past the end of [data_scratch] or of the
    10-entry arrays. *)
Inductive collected : Type :=
| Collected (l : locals) (left : nat)
| Overflow.

(** The inner [while (i < N)]; [left] is [N - i]. *)
Fixpoint collect (left : nat) (start_idx i budget : Z) (l : locals) : prog drainE collected :=
  match left with
  | O => Ret (Collected l O)
  | S left' =>
      let* r := call (ring_buffer_get_copy (u32 (start_idx + i))) in
      match r with
      | None => collect left' start_idx (i + 1) budget l
      | Some (f, bs) =>
          if (length (scratch l) <? data_off l + length bs)%nat then Ret Overflow else
          let sc := write_at (scratch l) (data_off l) bs in
          let first := match frames l with [] => rel_ts_ms f | _ => first_rel_ts l end in
          let l := Locals sc (frames l) first (used l) (data_off l) in
          if (vad_state f =? C6_GAP_MARKER) || (RingBuffer.len f =? 0) then
            collect left' start_idx (i + 1) budget l
          else if budget <? used l + 1 + RingBuffer.len f then
            match frames l with
            | [] => Ret (Collected l left')
            | _ => Ret (Collected l left)
            end
          else if C6_FRAMES_PER_CHUNK <=? Z.of_nat (length (frames l)) then Ret Overflow
          else
            collect left' start_idx (i + 1) budget
              (Locals sc
                 (frames l ++ [RFrame (data_off l) (RingBuffer.len f) (vad_state f) (rel_ts_ms f)])
                 first (used l + 1 + RingBuffer.len f)
                 (data_off l + Z.to_nat (RingBuffer.len f)))
      end
  end%prog.

(** [frames[k]] as [c6_write_packet] sees it. *)
Definition c6_of (sc : list Z) (f : rframe) : c6_frame_t :=
  C6Frame (take (Z.to_nat (f_len f)) (drop (f_off f) sc)) (f_len f).

(** The shipping loop over the collected frames. *)
Fixpoint ship (fuel : nat) (budget : Z) (last : bool) (sc : list Z) (fs : list rframe)
    (chunk_seq : Z) (pkt : list Z) : prog drainE (Z * list Z) :=
  match fuel, fs with
  | _, [] | O, _ => Ret (chunk_seq, pkt)
  | S fuel, f :: fs' =>
      match take_fit f_len budget 0 fs with
      | ([], _) => ship fuel budget last sc fs' chunk_seq pkt
      | (s :: seg, rest) =>
          let fl := match rest with [] => if last then C6_FLAG_LAST_OF_REQ else 0 | _ => 0 end in
          let '(pkt, n) :=
            c6_write_packet pkt PACKET_BUF_CAP C6_MEMORY_CHUNK chunk_seq (f_ts s) (f_vad s) fl
              (map (c6_of sc) (s :: seg)) in
          (if n =? 0 then Ret 0 else call (ble_link_notify_audio (take (Z.to_nat n) pkt))) ;;;
          ship fuel budget last sc rest (u32 (chunk_seq + 1)) pkt
      end
  end%prog.

(** An empty packet: a silent span or the boundary packet. *)
Definition ship_empty (flags ts chunk_seq : Z) (pkt : list Z) : prog drainE (Z * list Z) :=
  let '(pkt, n) :=
    c6_write_packet pkt PACKET_BUF_CAP C6_MEMORY_CHUNK chunk_seq ts C6_GAP_MARKER flags [] in
  ((if 0 <? n then call (ble_link_notify_audio (take (Z.to_nat n) pkt)) else Ret 0) ;;;
   Ret (u32 (chunk_seq + 1), pkt))%prog.

(** [data_scratch]'s size. *)
Definition SCRATCH_CAP : Z := PACKET_BUF_CAP - C6_HEADER_LEN.

(** The outer [while (i < N)]; [None] is the overflow. *)
Fixpoint outer (fuel : nat) (left : nat) (start_idx N budget : Z) (sc : list Z)
    (chunk_seq : Z) (pkt : list Z) : prog drainE (option (Z * list Z)) :=
  match fuel, left with
  | _, O | O, _ => Ret (Some (chunk_seq, pkt))
  | S fuel, S _ =>
      let* c := collect left start_idx (N - Z.of_nat left) budget (Locals sc [] 0 0 0) in
      match c with
      | Overflow => Ret None
      | Collected l left' =>
          let last := match left' with O => true | _ => false end in
          let flags := if last then C6_FLAG_LAST_OF_REQ else 0 in
          let* r :=
            match frames l with
            | [] => ship_empty flags (first_rel_ts l) chunk_seq pkt
            | fs => ship (length fs) budget last (scratch l) fs chunk_seq pkt
            end in
          let '(chunk_seq, pkt) := r in
          outer fuel left' start_idx N budget (scratch l) chunk_seq pkt
      end
  end%prog.

(** [drain_replay]; [sc] is what the static [data_scratch] holds from the
    previous call. *)
Definition drain_replay (seconds chunk_seq : Z) (pkt sc : list Z)
  : prog drainE (option (Z * list Z)) :=
  (let* write_idx := call ring_buffer_write_index in
   let want := u32 (seconds * (1000 / FRAME_MS)) in
   let N := if RING_FRAMES <? want then RING_FRAMES else want in
   let N := if write_idx <? N then write_idx else N in
   let start_idx := u32 (write_idx - N) in
   let* mtu := call ble_link_att_mtu in
   let budget := budget_of mtu in
   if N <=? 0 then
     let* r := ship_empty C6_FLAG_LAST_OF_REQ 0 chunk_seq pkt in Ret (Some r)
   else outer (Z.to_nat N) (Z.to_nat N) start_idx N budget sc chunk_seq pkt)%prog.
End Replay.

(** ** The live path of drain_task *)

Module Live.

Record lframe : Type := LFrame { l_ptr : data_ptr; l_len : Z; l_vad : Z; l_ts : Z }.

(** The locals of [drain_task] that survive an iteration. *)
Record drain_st : Type := DrainSt {
  cursor : Z;
  chunk_seq : Z;
  in_speech : bool;
  pkt : list Z;
}.

Definition drain_init : drain_st :=
  DrainSt 0 0 false (replicate (Z.to_nat PACKET_BUF_CAP) 0).

(** The header tag of a frame: preroll overrides its own state. *)
Definition tag (prerolled : bool) (preroll_base idx vad : Z) : Z :=
  if prerolled && (u32 (idx - preroll_base) <? VAD_PREROLL_FRAMES) then C6_PREROLL else vad.

(** The collecting [for]; [n] iterations left, at [i]. *)
Fixpoint collect (n : nat) (i cur : Z) (prerolled : bool) (base : Z)
    (fs : list lframe) (first_ts : Z) : prog drainE (list lframe * Z) :=
  match n with
  | O => Ret (fs, first_ts)
  | S n =>
      let idx := u32 (cur + i) in
      let* r := call (ring_buffer_get idx) in
      match r with
      | None => Ret (fs, first_ts)
      | Some f =>
          let first_ts := if i =? 0 then rel_ts_ms f else first_ts in
          if (vad_state f =? C6_GAP_MARKER) || (RingBuffer.len f =? 0) then
            collect n (i + 1) cur prerolled base fs first_ts
          else
            collect n (i + 1) cur prerolled base
              (fs ++ [LFrame (RingBuffer.data f) (RingBuffer.len f)
                        (tag prerolled base idx (vad_state f)) (rel_ts_ms f)]) first_ts
      end
  end%prog.

(** Reading the bytes of the frames of one packet through their pointers. *)
Fixpoint load (fs : list lframe) : prog drainE (list c6_frame_t) :=
  match fs with
  | [] => Ret []
  | f :: fs =>
      let* bs := call (deref (l_ptr f) (l_len f)) in
      let* cs := load fs in
      Ret (C6Frame bs (l_len f) :: cs)
  end%prog.

(** The retry loop; [attempts] left. *)
Fixpoint retry (attempts : nat) (p : list Z) : prog drainE unit :=
  match attempts with
  | O => Ret tt
  | S attempts =>
      call (vTaskDelay 2) ;;;
      let* last_rc := call (ble_link_notify_audio p) in
      if last_rc =? 0 then Ret tt
      else if negb (last_rc =? -1) then Ret tt
      else retry attempts p
  end%prog.

(** One packet, with its retries. *)
Definition send (p : list Z) : prog drainE unit :=
  (let* rc := call (ble_link_notify_audio p) in
   if rc =? 0 then Ret tt
   else if rc =? -1 then retry 3 p
   else Ret tt)%prog.

(** The packing loop. *)
Fixpoint pack (fuel : nat) (budget : Z) (fs : list lframe) (notify_count seq : Z) (p : list Z)
  : prog drainE (Z * list Z) :=
  match fuel, fs with
  | _, [] | O, _ => Ret (seq, p)
  | S fuel, f :: fs' =>
      match take_fit l_len budget 0 fs with
      | ([], _) => pack fuel budget fs' notify_count seq p
      | (s :: seg, rest) =>
          let* cs := load (s :: seg) in
          let '(p, n) :=
            c6_write_packet p PACKET_BUF_CAP C6_LIVE seq (l_ts s) (l_vad s) 0 cs in
          if n =? 0 then pack fuel budget rest notify_count (u32 (seq + 1)) p
          else
            (if (0 <? notify_count) && (notify_count mod 4 =? 0)
             then call (vTaskDelay 1) else Ret tt) ;;;
            send (take (Z.to_nat n) p) ;;;
            pack fuel budget rest (u32 (notify_count + 1)) (u32 (seq + 1)) p
      end
  end%prog.

Definition is_voiced (vad : Z) : bool := (vad =? C6_SPEECH) || (vad =? C6_HANGOVER).

(** The rewind decision: the new cursor, or [None] for the early [continue]. *)
Definition preroll (st : drain_st) (write_idx : Z) : prog drainE (option (Z * bool)) :=
  if in_speech st then Ret (Some (cursor st, false))
  else
    let head_idx := cursor st in
    let* head := call (ring_buffer_get head_idx) in
    match head with
    | Some f =>
        if is_voiced (vad_state f) then
          let rewind_to :=
            if VAD_PREROLL_FRAMES <=? head_idx then u32 (head_idx - VAD_PREROLL_FRAMES) else 0 in
          let* check := call (ring_buffer_get rewind_to) in
          match check with
          | Some _ =>
              if 0 <? u32 (head_idx - rewind_to) then
                if u32 (write_idx - rewind_to) <? C6_FRAMES_PER_CHUNK then Ret None
                else Ret (Some (rewind_to, true))
              else Ret (Some (cursor st, false))
          | None => Ret (Some (cursor st, false))
          end
        else Ret (Some (cursor st, false))
    | None => Ret (Some (cursor st, false))
    end%prog.

(** The early [continue] leaves the rewound cursor behind. *)
Definition rewound (st : drain_st) : drain_st :=
  DrainSt (if VAD_PREROLL_FRAMES <=? cursor st then u32 (cursor st - VAD_PREROLL_FRAMES) else 0)
    (chunk_seq st) (in_speech st) (pkt st).

(** One iteration of the live path, from the [write_idx] read on. *)
Definition live (st : drain_st) : prog drainE drain_st :=
  (let* write_idx := call ring_buffer_write_index in
   if u32 (write_idx - cursor st) <? C6_FRAMES_PER_CHUNK then call (vTaskDelay 10) ;;; Ret st
   else
     let* pre := preroll st write_idx in
     match pre with
     | None => call (vTaskDelay 10) ;;; Ret (rewound st)
     | Some (cur, prerolled) =>
         let* c := collect (Z.to_nat C6_FRAMES_PER_CHUNK) 0 cur prerolled cur [] 0 in
         let '(fs, first_ts) := c in
         let* mtu := call ble_link_att_mtu in
         let* r :=
           match fs with
           | [] =>
               let '(p, n) :=
                 c6_write_packet (pkt st) PACKET_BUF_CAP C6_LIVE (chunk_seq st) first_ts
                   C6_GAP_MARKER 0 [] in
               (if 0 <? n then call (ble_link_notify_audio (take (Z.to_nat n) p)) else Ret 0) ;;;
               Ret (u32 (chunk_seq st + 1), p)
           | _ => pack (length fs) (budget_of mtu) fs 0 (chunk_seq st) (pkt st)
           end in
         let '(seq, p) := r in
         let speech := match last fs with Some f => is_voiced (l_vad f) | None => false end in
         Ret (DrainSt (u32 (cur + C6_FRAMES_PER_CHUNK)) seq speech p)
     end)%prog.

(** One step of the loops of [drain_task]: serve one pending replay, or, with
    none pending, one live iteration.  [None]: the replay overran its buffers. *)
Definition drain_step (sc : list Z) (st : drain_st) : prog drainE (option drain_st) :=
  (let* rr := call replay_receive in
   match rr with
   | Some seconds =>
       let* r := Replay.drain_replay seconds (chunk_seq st) (pkt st) sc in
       match r with
       | None => Ret None
       | Some (seq, p) => Ret (Some (DrainSt (cursor st) seq (in_speech st) p))
       end
   | None => let* st := live st in Ret (Some st)
   end)%prog.
End Live.
