(* ===== verification/DrainSpec.v ===== *)
(** * What the drain task promises, and lemmas shared by its two paths

    The answers a correct ring gives ([consistent]), what the radio saw
    ([notifies], [sent]), and the packing lemmas. *)

From S2P Require Import Prelude Effects Config C6Packet RingBuffer ExecutorCore BleDrain.
Import C6.

(** ** The ring's answers *)

(** A frame the audio task can have pushed. *)
Definition hist_frame_ok (f : frame) : Prop :=
  is_u8 (fr_len f) /\ bytes_ok (fr_bytes f) /\ 0 <= fr_vad f <= 3 /\ is_u32 (fr_ts f).

(** [H] is the history of pushed frames (up to some later moment); the frames
    from [lo] to [hi] are in the ring while the call runs.  [AudioPath]
    proves these facts of the ring and the audio task. *)
Definition consistent (H : list frame) (lo hi : Z) (e : ev drainE) : Prop :=
  match e with
  | Ev e x =>
      match e in drainE X return X -> Prop with
      | ring_buffer_get i => fun r =>
          match r with
          | None => True
          | Some rf => exists f, 0 <= i /\ H !! Z.to_nat i = Some f /\
              rf = RingFrame (fr_vad f) (fr_ts f) (fr_len f) (InSlot (slot_of i))
          end
      | ring_buffer_get_copy i => fun r =>
          match r with
          | None => True
          | Some (rf, bs) => exists f, 0 <= i /\ H !! Z.to_nat i = Some f /\
              rf = RingFrame (fr_vad f) (fr_ts f) (fr_len f) InBuffer /\ bs = fr_bytes f
          end
      | deref p n => fun bs =>
          forall i f, lo <= i < hi -> 0 <= i -> H !! Z.to_nat i = Some f ->
            p = InSlot (slot_of i) -> n = fr_len f -> bs = fr_bytes f
      | ring_buffer_write_index => fun w => 0 <= w <= Z.of_nat (length H)
      | ble_link_att_mtu => fun m => is_u16 m
      | replay_receive => fun r =>
          match r with
          | None => True
          | Some s => REQ_BUFFER_MIN_SECONDS <= s <= REQ_BUFFER_MAX_SECONDS
          end
      | _ => fun _ => True
      end x
  end.

(** The real ring answers consistently: [RingBuffer]'s accessors on a ring
    that represents a prefix of [H]. *)
Lemma ring_answers_consistent r h k lo hi i :
  ring_ok r h -> 0 <= i ->
  consistent (h ++ k) lo hi (Ev (ring_buffer_get i) (RingBuffer.ring_buffer_get r i)) /\
  consistent (h ++ k) lo hi (Ev (ring_buffer_get_copy i) (RingBuffer.ring_buffer_get_copy r i)) /\
  consistent (h ++ k) lo hi (Ev ring_buffer_write_index (RingBuffer.ring_buffer_write_index r)).
Proof.
  intros Hr Hi. assert (in_window h i \/ ~ in_window h i) as [Hw|Hw]
    by (unfold in_window; lia).
  - destruct (window_lookup _ _ Hw) as [f Hf].
    destruct (ring_get_in _ _ _ _ Hr Hw Hf) as (-> & -> & _).
    assert ((h ++ k) !! Z.to_nat i = Some f) by by apply lookup_app_l_Some.
    split_and!; simpl; eauto. unfold RingBuffer.ring_buffer_write_index.
    rewrite (ring_ok_count _ _ Hr).
    rewrite length_app. lia.
  - destruct (ring_get_out _ _ _ Hr Hi Hw) as [-> ->]. split_and!; simpl; [done..|].
    unfold RingBuffer.ring_buffer_write_index.
    rewrite (ring_ok_count _ _ Hr), length_app. lia.
Qed.

(** ... and a pointer into a slot reads the frame it was taken for, as long
    as the frame is in the window. *)
Lemma ring_deref_consistent r h k lo hi s n :
  ring_ok r h -> 0 <= lo -> hi <= Z.of_nat (length h) ->
  Z.of_nat (length h) <= lo + RING_FRAMES ->
  consistent (h ++ k) lo hi (Ev (deref (InSlot s) n) (ring_read r s n)).
Proof.
  intros Hr Hlo Hhi Hlen i f Hi Hi0 Hf Hp ->. simplify_eq.
  rewrite lookup_app_l in Hf by lia.
  assert (in_window h i) as Hw by (unfold in_window; lia).
  by destruct (ring_get_in _ _ _ _ Hr Hw Hf) as (_ & _ & ->).
Qed.

(** ** What the radio saw *)

(** The notification calls of a trace with their results. *)
Definition notifies (t : list (ev drainE)) : list (list Z * Z) :=
  omap (fun e => match e with
    | Ev e x => match e in drainE X return X -> option (list Z * Z) with
                | ble_link_notify_audio p => fun rc => Some (p, rc)
                | _ => fun _ => None
                end x
    end) t.

(** One packet: up to three failed calls for want of buffers, then a last
    call, which fails that way only if it is the fourth. *)
Definition attempts (p : list Z) (l : list (list Z * Z)) : Prop :=
  exists n rc, (n <= 3)%nat /\ l = replicate n (p, -1) ++ [(p, rc)] /\ (rc = -1 -> n = 3%nat).

Inductive sent : list (list Z) -> list (list Z * Z) -> Prop :=
| sent_nil : sent [] []
| sent_cons p ps l l' : attempts p l -> sent ps l' -> sent (p :: ps) (l ++ l').

(** The bytes [raw] are the packet [p], for the server in both directions. *)
Definition carries (raw : list Z) (p : Server.AudioPacket) : Prop :=
  Server.parse raw = inr p /\ Server.encode p = inr raw.

(** Consecutive sequence numbers modulo 2^32. *)
Fixpoint seqs (s : Z) (n : nat) : list Z :=
  match n with
  | O => []
  | S n => s :: seqs (u32 (s + 1)) n
  end.

Lemma seqs_app s n m : is_u32 s -> seqs s (n + m) = seqs s n ++ seqs (u32 (s + Z.of_nat n)) m.
Proof.
  revert s. induction n as [|n IH]; intros s Hs; simpl.
  { by rewrite Z.add_0_r, u32_small. }
  rewrite IH by auto with cint. do 3 f_equal. autorewrite with cint. f_equal. lia.
Qed.

Lemma notifies_app t1 t2 : notifies (t1 ++ t2) = notifies t1 ++ notifies t2.
Proof. apply omap_app. Qed.

Lemma sent_app ps qs l l' : sent ps l -> sent qs l' -> sent (ps ++ qs) (l ++ l').
Proof.
  induction 1 as [|p ps l1 l2 Ha _ IH]; intros Hq; [done|].
  simpl. rewrite <-app_assoc. constructor; auto.
Qed.

(** ** Audible frames and their sizes *)

Definition audible (f : frame) : bool := negb ((fr_vad f =? C6_GAP_MARKER) || (fr_len f =? 0)).

Definition fits (budget : Z) (f : frame) : bool := 1 + fr_len f <=? budget.

Definition c6f (f : frame) : c6_frame_t := C6Frame (fr_bytes f) (fr_len f).

Definition size_of (fs : list frame) : Z := foldr (fun f n => 1 + fr_len f + n) 0 fs.

Lemma fr_len_nonneg f : 0 <= fr_len f.
Proof. unfold fr_len. lia. Qed.
#[export] Hint Resolve fr_len_nonneg : drain.

Lemma size_of_app fs gs : size_of (fs ++ gs) = size_of fs + size_of gs.
Proof. induction fs; simpl; lia. Qed.

Lemma size_of_nonneg fs : 0 <= size_of fs.
Proof. induction fs as [|f fs IH]; simpl; [lia|]. pose proof (fr_len_nonneg f). lia. Qed.

Lemma size_of_bound fs :
  Forall hist_frame_ok fs -> size_of fs <= 256 * Z.of_nat (length fs).
Proof. induction 1 as [|f fs Hf _ IH]; simpl; [lia|]. destruct Hf as [Hf _]. clia. Qed.

Lemma c6f_ok f : hist_frame_ok f -> frame_ok (c6f f).
Proof. intros (Hl & Hb & _). split_and!; [done| |done]. simpl. unfold fr_len. lia. Qed.

Lemma payload_c6f f : payload (c6f f) = fr_bytes f.
Proof. unfold payload, c6f, fr_len. simpl. apply take_ge. lia. Qed.

Lemma body_size_c6f fs : body_size (map c6f fs) = size_of fs.
Proof. induction fs as [|f fs IH]; [done|]. simpl. by rewrite IH. Qed.

(** Writing a packet of at most ten frames always succeeds, and the server
    reads back what was meant. *)
Lemma write_carries pkt pt vs cs ts flags fs :
  Forall hist_frame_ok fs -> (length fs <= 10)%nat ->
  Z.of_nat (length pkt) = PACKET_BUF_CAP -> is_u32 cs -> is_u32 ts ->
  exists raw,
    c6_write_packet pkt PACKET_BUF_CAP (Server.ptype_val pt) cs ts (Server.vad_val vs) flags
      (map c6f fs) = (raw ++ drop (length raw) pkt, Z.of_nat (length raw)) /\
    Z.of_nat (length raw) = C6_HEADER_LEN + size_of fs /\
    Z.of_nat (length (raw ++ drop (length raw) pkt)) = PACKET_BUF_CAP /\
    carries raw (Server.MkAudioPacket 1 pt cs ts vs flags (map fr_bytes fs)).
Proof.
  intros Hok Hn Hp Hcs Hts. pose proof (size_of_bound fs Hok) as Hsz.
  assert (Forall frame_ok (map c6f fs)) as Hok'
    by (apply Forall_fmap; eapply Forall_impl; [exact Hok|apply c6f_ok]).
  assert (C6_HEADER_LEN + body_size (map c6f fs) <= PACKET_BUF_CAP) as Hcap.
  { rewrite body_size_c6f. unfold PACKET_BUF_CAP, C6_HEADER_LEN, C6_FRAMES_PER_CHUNK,
      MAX_OPUS_BYTES. lia. }
  set (raw := wire (Server.ptype_val pt) cs ts (Server.vad_val vs) flags (map c6f fs)).
  assert (Z.of_nat (length raw) = C6_HEADER_LEN + size_of fs) as Hraw.
  { rewrite <-body_size_c6f, <-length_wire_body by done. unfold raw, wire. simpl. clia. }
  assert (map payload (map c6f fs) = map fr_bytes fs) as Hpay.
  { rewrite map_map. apply map_ext, payload_c6f. }
  exists raw. split_and!.
  - apply c6_write_packet_spec; [done|rewrite length_map; lia|].
    split; [done|by rewrite Hp].
  - done.
  - rewrite body_size_c6f in Hcap. rewrite length_app, length_drop. lia.
  - split.
    + rewrite <-(app_nil_r raw). unfold raw. rewrite C6Theorems.parse_wire; try done.
      * by rewrite Hpay.
      * rewrite length_map. lia.
    + rewrite <-Hpay. apply C6Theorems.wire_encode; [done|]. rewrite length_map. lia.
Qed.

Lemma take_fit_spec {F} (flen : F -> Z) (R : F -> frame -> Prop) budget used fs seg rest hs :
  (forall f h, R f h -> flen f = fr_len h) ->
  take_fit flen budget used fs = (seg, rest) -> Forall2 R fs hs -> used <= budget ->
  exists hseg hrest, fs = seg ++ rest /\ hs = hseg ++ hrest /\
    Forall2 R seg hseg /\ Forall2 R rest hrest /\
    used + size_of hseg <= budget /\
    (forall f rest', rest = f :: rest' -> budget < used + size_of hseg + 1 + flen f).
Proof.
  intros HR. revert used seg rest hs.
  induction fs as [|f fs IH]; intros used seg rest hs Htf Hf Hu; simpl in Htf.
  { simplify_eq. inversion Hf; subst. exists [], []. split_and!; try done; simpl; lia. }
  destruct (Z.leb_spec (used + 1 + flen f) budget) as [Hle|Hlt]; cycle 1.
  { simplify_eq. exists [], hs. split_and!; try done; [simpl; lia|].
    intros ? ? [= <- <-]. simpl. lia. }
  destruct (take_fit flen budget (used + 1 + flen f) fs) as [seg' rest'] eqn:E. simplify_eq.
  apply Forall2_cons_inv_l in Hf as (h & hs' & Hh & Hf & ->).
  destruct (IH _ _ _ _ E Hf Hle) as (hseg & hrest & -> & -> & H1 & H2 & H3 & H4).
  pose proof (HR _ _ Hh) as Hl.
  exists (h :: hseg), hrest. split_and!; try done; [by constructor|simpl; lia|].
  intros g r Hr. simpl. pose proof (H4 g r Hr). lia.
Qed.

(** The bytes of the frames that fit. *)
Definition delivered (budget : Z) (hs : list frame) : list (list Z) :=
  map fr_bytes (List.filter (fits budget) hs).

Lemma delivered_app budget hs ks : delivered budget (hs ++ ks) = delivered budget hs ++ delivered budget ks.
Proof. unfold delivered. by rewrite List.filter_app, map_app. Qed.

Lemma delivered_fit budget hs : size_of hs <= budget -> delivered budget hs = map fr_bytes hs.
Proof.
  unfold delivered. induction hs as [|h hs IH]; intros Hs; [done|]. simpl in *.
  pose proof (size_of_nonneg hs). pose proof (fr_len_nonneg h). unfold fits at 1.
  destruct (Z.leb_spec (1 + fr_len h) budget); [|lia]. simpl. by rewrite IH by lia.
Qed.

Lemma delivered_drop budget h hs : budget < 1 + fr_len h -> delivered budget (h :: hs) = delivered budget hs.
Proof.
  unfold delivered. intros. simpl. unfold fits at 1.
  by destruct (Z.leb_spec (1 + fr_len h) budget); [lia|].
Qed.

Lemma vad_some v : 0 <= v <= 3 -> exists vs, v = Server.vad_val vs.
Proof.
  intros. assert (v = 0 \/ v = 1 \/ v = 2 \/ v = 3) as [->|[->|[->| ->]]] by lia.
  - by exists Server.GAP_MARKER.
  - by exists Server.SPEECH.
  - by exists Server.PREROLL.
  - by exists Server.HANGOVER.
Qed.

Lemma budget_of_range mtu : is_u16 mtu -> 0 <= budget_of mtu /\
  C6_HEADER_LEN + budget_of mtu <= max_payload mtu.
Proof.
  intros. unfold budget_of, max_payload, C6_HEADER_LEN.
  destruct (Z.leb_spec 23 mtu);
    [destruct (Z.ltb_spec 12 (mtu - 3))|change (12 <? 244) with true; cbv iota]; clia.
Qed.

(** ** A concrete platform, for the witnesses *)

(** The ring holds the history [H] (less than a full ring of it), the MTU is
    fixed and every notification is accepted. *)
Definition sim_get (H : list frame) (p : data_ptr) (i : Z) : option ring_frame_t :=
  if 0 <=? i then
    match H !! Z.to_nat i with
    | Some f => Some (RingFrame (fr_vad f) (fr_ts f) (fr_len f) p)
    | None => None
    end
  else None.

Definition sim (H : list frame) (mtu : Z) (X : Type) (e : drainE X) (s : unit) : X * unit :=
  match e in drainE X return X * unit with
  | replay_receive => (None, s)
  | ring_buffer_write_index => (Z.of_nat (length H), s)
  | ring_buffer_get i => (sim_get H (InSlot (slot_of i)) i, s)
  | ring_buffer_get_copy i =>
      (match sim_get H InBuffer i with
       | Some rf => Some (rf, default [] (fr_bytes <$> H !! Z.to_nat i))
       | None => None
       end, s)
  | deref p n =>
      (match p with InSlot j => default [] (fr_bytes <$> H !! j) | InBuffer => [] end, s)
  | ble_link_att_mtu => (mtu, s)
  | ble_link_notify_audio _ => (0, s)
  | vTaskDelay _ => (tt, s)
  end.

Lemma sim_get_some H p i rf :
  sim_get H p i = Some rf ->
  exists f, 0 <= i /\ H !! Z.to_nat i = Some f /\
    rf = RingFrame (fr_vad f) (fr_ts f) (fr_len f) p.
Proof.
  unfold sim_get. destruct (Z.leb_spec 0 i); [|done].
  destruct (H !! Z.to_nat i) as [f|]; [|done]. intros. simplify_eq. eauto.
Qed.

Lemma sim_consistent H mtu lo hi X (e : drainE X) s :
  Z.of_nat (length H) <= RING_FRAMES -> is_u16 mtu ->
  consistent H lo hi (Ev e (fst (sim H mtu X e s))).
Proof.
  intros Hl Hm. destruct e; simpl; try done.
  - split; lia.
  - destruct (sim_get _ _ _) as [rf|] eqn:E; [|done]. by apply sim_get_some in E.
  - destruct (sim_get _ _ _) as [rf|] eqn:E; [|done].
    apply sim_get_some in E as (f & Hi & Hf & ->). rewrite Hf. exists f. by split_and!.
  - intros i f _ Hi Hf -> _. unfold slot_of. pose proof (lookup_lt_Some _ _ _ Hf).
    rewrite Z.mod_small by lia. by rewrite Hf.
Qed.

Lemma sim_trace_consistent {A} H mtu lo hi (p : prog drainE A) :
  Z.of_nat (length H) <= RING_FRAMES -> is_u16 mtu ->
  Forall (consistent H lo hi) (fst (fst (run (sim H mtu) p tt))).
Proof. intros. apply run_Forall. intros. by apply sim_consistent. Qed.
