(* ===== verification/DrainLive.v ===== *)
(** * The live path of the drain task: packing, sequence numbers, retries *)

From S2P Require Import Prelude Effects Config C6Packet RingBuffer ExecutorCore BleDrain.
From S2P Require Import DrainSpec.
Import C6 Live.

(** ** Single calls *)

#[local] Arguments retry : simpl never.

Lemma retry_attempts n p t u :
  exec (retry n p) t u ->
  exists m, (m <= n)%nat /\
    (notifies t = replicate m (p, -1) /\ m = n \/
     (m < n)%nat /\ exists rc, rc <> -1 /\ notifies t = replicate m (p, -1) ++ [(p, rc)]).
Proof.
  revert t. induction n as [|n IH]; intros t Ht.
  { destruct Ht as [-> _]. exists 0%nat. auto. }
  destruct Ht as ([] & t1 & -> & rc & t2 & -> & Ht). simpl in Ht.
  destruct (Z.eqb_spec rc 0) as [->|]; [|destruct (Z.eqb_spec rc (-1)) as [->|]]; simpl in Ht.
  - destruct Ht as [-> _]. exists 0%nat. split; [lia|]. right. split; [lia|]. by exists 0.
  - apply IH in Ht as (m & Hm & [[E ->]|(Hlt & r & Hr & E)]); simpl.
    + exists (S n). split; [done|]. left. by rewrite E.
    + exists (S m). split; [lia|]. right. split; [lia|]. exists r. split; [done|]. by rewrite E.
  - destruct Ht as [-> _]. exists 0%nat. split; [lia|]. right. split; [lia|]. by exists rc.
Qed.

Lemma send_attempts p t u : exec (send p) t u -> attempts p (notifies t).
Proof.
  intros (rc & t1 & -> & Ht). simpl in Ht.
  destruct (Z.eqb_spec rc 0) as [->|]; [|destruct (Z.eqb_spec rc (-1)) as [->|]]; simpl.
  - destruct Ht as [-> _]. exists 0%nat, 0. split_and!; [lia|done..].
  - apply retry_attempts in Ht as (m & Hm & [[-> ->]|(Hlt & r & Hr & ->)]).
    + exists 3%nat, (-1). split_and!; [lia|done..].
    + exists (S m), r. split_and!; [lia|done..].
  - destruct Ht as [-> _]. exists 0%nat, rc. split_and!; [lia|done..].
Qed.

(** ** Collecting *)

Section Live.
Context (H : list frame) (lo hi : Z).
Context (HH : Forall hist_frame_ok H).

(** The collected entry presents the history frame at some live index. *)
Definition presents (pre : bool) (l : lframe) (f : frame) : Prop :=
  exists i, lo <= i < hi /\ 0 <= i /\ H !! Z.to_nat i = Some f /\
    l_ptr l = InSlot (slot_of i) /\ l_len l = fr_len f /\ l_ts l = fr_ts f /\
    (l_vad l = fr_vad f \/ pre = true /\ l_vad l = C6_PREROLL).

Lemma presents_len pre l f : presents pre l f -> l_len l = fr_len f.
Proof. by intros (i & _ & _ & _ & _ & ? & _). Qed.

(** Only the first read sets the timestamp of the batch. *)
Lemma collect_ts n i cur pre base fs ts t fs' ts' :
  exec (collect n i cur pre base fs ts) t (fs', ts') -> 0 < i -> ts' = ts.
Proof.
  revert i fs ts t. induction n as [|n IH]; intros i fs ts t Ht Hi; [by destruct Ht; simplify_eq|].
  destruct Ht as (r & t1 & -> & Ht). simpl in Ht.
  destruct r as [rf|]; [|by destruct Ht; simplify_eq].
  destruct (Z.eqb_spec i 0); [lia|]. case_match; eapply IH in Ht; lia.
Qed.

Lemma live_collect_spec n i cur pre base fs ts t fs' ts' hs :
  exec (collect n i cur pre base fs ts) t (fs', ts') ->
  Forall (consistent H lo hi) t -> Forall2 (presents pre) fs hs ->
  0 <= i -> lo <= cur -> 0 <= cur -> cur + i + Z.of_nat n <= Z.of_nat (length H) ->
  i + Z.of_nat n <= 10 -> cur + 10 <= hi ->
  Z.of_nat (length H) < 4294967296 ->
  exists m, (m <= n)%nat /\ notifies t = [] /\
    Forall2 (presents pre) fs' (hs ++
      List.filter audible (take m (drop (Z.to_nat (cur + i)) H))) /\
    (m < n -> Ev (ring_buffer_get (cur + i + Z.of_nat m)) None ∈ t)%nat /\
    (i = 0 -> ts = 0 -> is_u32 ts').
Proof.
  intros Ht Hc. revert i fs ts t hs Ht Hc.
  induction n as [|n IH]; intros i fs ts t hs Ht Hc Hfs Hi Hlo Hcur Hn Hin Hw HL.
  { destruct Ht as [-> ?]. simplify_eq. exists 0%nat. rewrite take_0, app_nil_r. simpl.
    split_and!; [done..|lia|]. intros _ ->. clia. }
  destruct Ht as (r & t1 & -> & Ht). apply Forall_cons in Hc as [Hr Hc].
  rewrite u32_small in * by clia. simpl in Ht.
  destruct r as [rf|]; cycle 1.
  { destruct Ht as [-> ?]. simplify_eq. exists 0%nat. rewrite take_0, app_nil_r, Z.add_0_r.
    split_and!; [lia|done|done|intros; left|]. intros _ ->. clia. }
  destruct Hr as (f & _ & Hf & ->). simpl in Ht.
  assert (drop (Z.to_nat (cur + i)) H = f :: drop (Z.to_nat (cur + (i + 1))) H) as Hd.
  { replace (Z.to_nat (cur + (i + 1))) with (S (Z.to_nat (cur + i))) by lia.
    by apply drop_S. }
  assert (hist_frame_ok f) as Hok by (eapply Forall_lookup_1; [exact HH|done]).
  set (ts0 := if i =? 0 then fr_ts f else ts) in *.
  assert (forall hs' fs'', Forall2 (presents pre) fs'' hs' ->
    exec (collect n (i + 1) cur pre base fs'' ts0) t1 (fs', ts') ->
    exists m, (m <= n)%nat /\ notifies t1 = [] /\
      Forall2 (presents pre) fs' (hs' ++
        List.filter audible (take m (drop (Z.to_nat (cur + (i + 1))) H))) /\
      (m < n -> Ev (ring_buffer_get (cur + (i + 1) + Z.of_nat m)) None ∈ t1)%nat) as Hrec.
  { intros hs' fs'' Hfs'' Ht'. destruct (IH (i + 1) fs'' ts0 t1 hs' Ht' Hc Hfs'')
      as (m & ? & ? & ? & ? & _); [lia..|]. eauto 10. }
  destruct ((fr_vad f =? C6_GAP_MARKER) || (fr_len f =? 0)) eqn:Hg.
  - pose proof (collect_ts _ _ _ _ _ _ _ _ _ _ Ht ltac:(lia)) as Et.
    destruct (Hrec hs fs Hfs Ht) as (m & Hm & Hnt & HF & Hmiss).
    exists (S m). rewrite Hd. cbn [take List.filter]. unfold audible at 1. rewrite Hg.
    cbn [negb]. split_and!; [lia|done|done| |].
    + intros. right. replace (cur + i + Z.of_nat (S m)) with (cur + (i + 1) + Z.of_nat m) by lia.
      apply Hmiss. lia.
    + intros -> _. subst ts'. by destruct Hok as (_ & _ & _ & ?).
  - pose proof (collect_ts _ _ _ _ _ _ _ _ _ _ Ht ltac:(lia)) as Et.
    set (lf := LFrame _ _ _ _) in Ht.
    assert (presents pre lf f) as Hlf.
    { exists (cur + i). split_and!; simpl; try done; try lia. unfold tag.
      destruct pre; simpl; [|by left]. case_match; auto. }
    destruct (Hrec (hs ++ [f]) (fs ++ [lf])) as (m & Hm & Hnt & HF & Hmiss);
      [by apply Forall2_app; [done|constructor]|done|].
    exists (S m). rewrite Hd. cbn [take List.filter]. unfold audible at 1. rewrite Hg.
    cbn [negb]. rewrite <-app_assoc in HF. split_and!; [lia|done|done| |].
    + intros. right. replace (cur + i + Z.of_nat (S m)) with (cur + (i + 1) + Z.of_nat m) by lia.
      apply Hmiss. lia.
    + intros -> _. subst ts'. by destruct Hok as (_ & _ & _ & ?).
Qed.

Lemma load_spec pre fs hs t cs :
  exec (load fs) t cs -> Forall (consistent H lo hi) t -> Forall2 (presents pre) fs hs ->
  cs = map c6f hs /\ notifies t = [].
Proof.
  intros Ht Hc Hfs. revert t cs Ht Hc.
  induction Hfs as [|l f fs hs Hlf _ IH]; intros t cs Ht Hc.
  { by destruct Ht as [-> ->]. }
  destruct Ht as (bs & t1 & -> & Ht). apply Forall_cons in Hc as [Hb Hc].
  apply (exec_bind (load fs)) in Ht as (t2 & t3 & cs' & -> & Hl & [-> ->]).
  rewrite app_nil_r in *. destruct (IH _ _ Hl Hc) as [-> Hn].
  destruct Hlf as (i & Hi & Hi0 & Hf & Hp & Hlen & _).
  simpl in Hb. rewrite (Hb i f Hi Hi0 Hf Hp Hlen), Hlen. done.
Qed.
End Live.

(** ** Packing *)

(** A packet whose body is the frames [seg] and whose header comes from the
    first of them. *)
Definition packet_of (pre : bool) (p : Server.AudioPacket) (seg : list frame) : Prop :=
  Server.version p = 1 /\ Server.ptype p = Server.LIVE /\ Server.flags p = 0 /\
  exists s tl, seg = s :: tl /\ Server.frames p = map fr_bytes seg /\
    Server.rel_ts_ms p = fr_ts s /\
    (Server.vad_val (Server.vad_state p) = fr_vad s \/
     pre = true /\ Server.vad_state p = Server.PREROLL).

(** The frames [hs] went out from sequence number [seq] on, in packets of at
    most [budget] body bytes: [raws] on the air, [segs] the frames of each. *)
Definition shipped (pre : bool) (budget seq : Z) (hs : list frame) (log : list (list Z * Z))
    (seq' : Z) : Prop :=
  exists raws pkts segs,
    sent raws log /\ Forall2 carries raws pkts /\ Forall2 (packet_of pre) pkts segs /\
    concat segs = List.filter (fits budget) hs /\
    Forall (fun raw => Z.of_nat (length raw) <= C6_HEADER_LEN + budget) raws /\
    map Server.chunk_seq pkts = seqs seq (length pkts) /\
    seq' = u32 (seq + Z.of_nat (length pkts)).

Lemma shipped_nil pre budget seq : is_u32 seq -> shipped pre budget seq [] [] seq.
Proof.
  intros. exists [], [], []. split_and!; try constructor; simpl.
  by rewrite Z.add_0_r, u32_small.
Qed.

Lemma shipped_drop pre budget seq h hs log seq' :
  budget < 1 + fr_len h -> shipped pre budget seq hs log seq' ->
  shipped pre budget seq (h :: hs) log seq'.
Proof.
  intros Hb (raws & pkts & segs & Hs). exists raws, pkts, segs. simpl. unfold fits at 1.
  by destruct (Z.leb_spec (1 + fr_len h) budget); [lia|].
Qed.

Lemma filter_fits_all budget hs :
  size_of hs <= budget -> List.filter (fits budget) hs = hs.
Proof.
  induction hs as [|h hs IH]; intros Hs; [done|]. simpl in *.
  pose proof (size_of_nonneg hs). pose proof (fr_len_nonneg h). unfold fits at 1.
  destruct (Z.leb_spec (1 + fr_len h) budget); [|lia]. by rewrite IH by lia.
Qed.

Lemma shipped_cons pre budget seq seg hs raw p log log' seq' :
  is_u32 seq -> size_of seg <= budget -> attempts raw log -> carries raw p -> packet_of pre p seg ->
  Z.of_nat (length raw) = C6_HEADER_LEN + size_of seg -> Server.chunk_seq p = seq ->
  shipped pre budget (u32 (seq + 1)) hs log' seq' ->
  shipped pre budget seq (seg ++ hs) (log ++ log') seq'.
Proof.
  intros Hu Hsz Ha Hc Hp Hl Hq (raws & pkts & segs & H1 & H2 & H3 & H4 & H5 & H6 & ->).
  exists (raw :: raws), (p :: pkts), (seg :: segs). split_and!.
  - by constructor.
  - by constructor.
  - by constructor.
  - by rewrite List.filter_app, filter_fits_all, <-H4.
  - constructor; [lia|done].
  - simpl. by rewrite Hq, H6.
  - simpl length. autorewrite with cint. f_equal. lia.
Qed.

Section Pack.
Context (H : list frame) (lo hi : Z).
Context (HH : Forall hist_frame_ok H).
Abbreviation presents := (presents H lo hi).

Lemma presents_ok pre fs hs : Forall2 (presents pre) fs hs -> Forall hist_frame_ok hs.
Proof.
  induction 1 as [|l f fs hs (i & _ & _ & Hf & _) _ IH]; constructor; [|done].
  eapply Forall_lookup_1; [exact HH|done].
Qed.

(** The tag of a presented frame is a legal VAD state. *)
Lemma presents_vad pre l f : presents pre l f -> 
  exists vs, l_vad l = Server.vad_val vs /\ l_ts l = fr_ts f /\
    (Server.vad_val vs = fr_vad f \/ pre = true /\ vs = Server.PREROLL).
Proof.
  intros (i & _ & _ & Hf & _ & _ & Ht & Hv).
  assert (hist_frame_ok f) as (_ & _ & Hv0 & _) by (eapply Forall_lookup_1; [exact HH|done]).
  destruct Hv as [Hv|[-> Hv]].
  - destruct (vad_some _ Hv0) as [vs Hvs]. exists vs. split_and!; [congruence|done|by left].
  - exists Server.PREROLL. split_and!; [done..|]. by right.
Qed.

Lemma pack_shipped pre fuel budget fs hs nc seq pkt t seq' pkt' :
  exec (pack fuel budget fs nc seq pkt) t (seq', pkt') -> Forall (consistent H lo hi) t ->
  Forall2 (presents pre) fs hs -> (length fs <= fuel)%nat -> (length fs <= 10)%nat ->
  0 <= budget -> is_u32 seq -> Z.of_nat (length pkt) = PACKET_BUF_CAP ->
  shipped pre budget seq hs (notifies t) seq' /\ Z.of_nat (length pkt') = PACKET_BUF_CAP.
Proof.
  revert fs hs nc seq pkt t. induction fuel as [|fuel IH];
    intros fs hs nc seq pkt t Ht Hc Hfs Hfuel Hlen Hb Hu Hp.
  { destruct fs; [|simpl in Hfuel; lia]. inversion Hfs; subst. destruct Ht; simplify_eq.
    split; [by apply shipped_nil|done]. }
  destruct fs as [|f fs'].
  { inversion Hfs; subst. destruct Ht; simplify_eq. split; [by apply shipped_nil|done]. }
  cbn [pack] in Ht.
  destruct (take_fit l_len budget 0 (f :: fs')) as [seg rest] eqn:E.
  destruct (take_fit_spec l_len (presents pre) _ _ _ _ _ _ (presents_len H lo hi pre) E Hfs Hb)
    as (hseg & hrest & Hfseg & -> & Hseg & Hrest & Hsz & Hmax).
  destruct seg as [|s seg].
  - inversion Hseg; subst. simpl in Hfseg. subst rest.
    apply Forall2_cons_inv_l in Hrest as (h & hs' & Hh & Hrest & ->).
    pose proof (Hmax _ _ eq_refl) as Hbig. rewrite (presents_len _ _ _ _ _ _ Hh) in Hbig.
    destruct (IH _ _ _ _ _ _ Ht Hc Hrest) as [Hs Hl]; [simpl in *; lia..|done|done|done|].
    split; [|done]. apply shipped_drop; [simpl in *; lia|done].
  - apply (exec_bind (load (s :: seg))) in Ht as (t1 & t2 & cs & -> & Hload & Ht).
    apply Forall_app in Hc as [Hc1 Hc2].
    destruct (load_spec H lo hi _ _ _ _ _ Hload Hc1 Hseg) as [-> Hn1].
    pose proof (presents_ok _ _ _ Hseg) as Hok.
    assert (length (s :: seg) = length hseg) as Hls by by eapply Forall2_length.
    rewrite Hfseg, length_app in Hlen. rewrite Hfseg, length_app in Hfuel.
    destruct (Forall2_cons_inv_l _ _ _ _ Hseg) as (hs0 & htl & Hs0 & _ & Ehseg).
    destruct (presents_vad _ _ _ Hs0) as (vs & Hvs & Hts & Hvad).
    assert (is_u32 (fr_ts hs0)) as Hts32.
    { subst hseg. by apply Forall_cons in Hok as [(_ & _ & _ & ?) _]. }
    destruct (write_carries pkt Server.LIVE vs seq (fr_ts hs0) 0 hseg Hok) as
      (raw & Hw & Hraw & Hcap & Hcar); [lia|done..|].
    rewrite Hvs, Hts in Ht. change C6_LIVE with (Server.ptype_val Server.LIVE) in Ht.
    rewrite Hw in Ht. pose proof (size_of_nonneg hseg).
    destruct (Z.eqb_spec (Z.of_nat (length raw)) 0) as [Hz|_];
      [unfold C6_HEADER_LEN in Hraw; lia|].
    apply exec_bind in Ht as (t3 & t4 & [] & -> & Hpace & Ht).
    assert (notifies t3 = []) as Hn3.
    { case_match; [by apply exec_one in Hpace as ->|by destruct Hpace as [-> _]]. }
    apply exec_bind in Ht as (t5 & t6 & [] & -> & Hsend & Ht).
    rewrite Nat2Z.id, take_app_length in Hsend.
    apply Forall_app in Hc2 as [_ Hc2]. apply Forall_app in Hc2 as [_ Hc2].
    destruct (IH _ _ _ _ _ _ Ht Hc2 Hrest) as [Hs Hl];
      [simpl in *; lia..|auto with cint|done|].
    split; [|done]. rewrite !notifies_app, Hn1, Hn3. simpl.
    eapply (shipped_cons _ _ _ _ _ raw); try done; [by eapply send_attempts|].
    split_and!; [done..|]. subst hseg. by exists hs0, htl.
Qed.
End Pack.

(** ** One iteration *)

Record drain_ok (H : list frame) (st : drain_st) : Prop := {
  ok_hist : Forall hist_frame_ok H;
  ok_count : Z.of_nat (length H) + 10 < 4294967296;
  ok_cursor : 0 <= cursor st <= Z.of_nat (length H);
  ok_seq : is_u32 (chunk_seq st);
  ok_pkt : Z.of_nat (length (pkt st)) = PACKET_BUF_CAP;
}.

(** The oldest index a batch can start at. *)
Definition rewind_to (c : Z) : Z := Z.max 0 (c - VAD_PREROLL_FRAMES).

Definition not_behind (c : Z) (e : ev drainE) : Prop :=
  match e with
  | Ev e x => match e in drainE X return X -> Prop with
              | ring_buffer_write_index => fun w => c <= w
              | _ => fun _ => True
              end x
  end.

(** A read of the ring that failed. *)
Definition miss (e : ev drainE) : bool :=
  match e with
  | Ev e x => match e in drainE X return X -> bool with
              | ring_buffer_get _ => fun r => match r with None => true | _ => false end
              | _ => fun _ => false
              end x
  end.

(** The answers of one iteration: consistent with the history, and the
    write index never behind the cursor. *)
Definition answers (H : list frame) (st : drain_st) (t : list (ev drainE)) : Prop :=
  Forall (consistent H (rewind_to (cursor st)) (cursor st + 10)) t /\ Forall (not_behind (cursor st)) t.

(** Whether the iteration rewinds: only at a voiced frame outside speech,
    and then always, unless the ring refuses a read. *)
Definition preroll_outcome (H : list frame) (st : drain_st) (t : list (ev drainE))
    (cur : Z) (pre : bool) : Prop :=
  pre = false /\ cur = cursor st /\
    (in_speech st = true \/ cursor st = 0 \/
     (exists f, H !! Z.to_nat (cursor st) = Some f /\ is_voiced (fr_vad f) = false) \/
     exists i, Ev (ring_buffer_get i) None ∈ t) \/
  pre = true /\ cur = rewind_to (cursor st) /\ cur < cursor st /\ in_speech st = false /\
    exists f, H !! Z.to_nat (cursor st) = Some f /\ is_voiced (fr_vad f) = true.

Lemma preroll_spec H lo hi st w t r :
  drain_ok H st -> exec (preroll st w) t r -> Forall (consistent H lo hi) t ->
  cursor st + 10 <= w -> w <= Z.of_nat (length H) ->
  notifies t = [] /\ exists cur pre, r = Some (cur, pre) /\
    preroll_outcome H st t cur pre.
Proof.
  intros [_ Hcount Hcur _ _] Ht Hc Hw HwH. unfold preroll in Ht.
  assert (notifies t = [] -> r = Some (cursor st, false) ->
    (in_speech st = true \/ cursor st = 0 \/
     (exists f, H !! Z.to_nat (cursor st) = Some f /\ is_voiced (fr_vad f) = false) \/
     exists i, Ev (ring_buffer_get i) None ∈ t) ->
    notifies t = [] /\ exists cur pre, r = Some (cur, pre) /\
      preroll_outcome H st t cur pre) as Hno.
  { intros Hn -> ?. split; [done|]. exists (cursor st), false. split; [done|]. by left. }
  destruct (in_speech st) eqn:Hsp; [destruct Ht as [-> ?]; apply Hno; auto|].
  destruct Ht as (head & t1 & -> & Ht). apply Forall_cons in Hc as [Hh Hc]. simpl in Ht.
  destruct head as [rf|]; cycle 1.
  { destruct Ht as [-> ?]. apply Hno; [done..|]. do 3 right. eexists. left. }
  destruct Hh as (f & _ & Hf & ->). simpl in Ht.
  destruct (is_voiced (fr_vad f)) eqn:Hv; [|destruct Ht as [-> ?]; apply Hno; eauto 7].
  assert ((if VAD_PREROLL_FRAMES <=? cursor st then u32 (cursor st - VAD_PREROLL_FRAMES) else 0)
    = rewind_to (cursor st)) as Hrw.
  { unfold rewind_to. rewrite VAD_PREROLL_FRAMES_val.
    destruct (Z.leb_spec 15 (cursor st)); [rewrite u32_small by clia|]; lia. }
  rewrite Hrw in Ht. destruct Ht as (check & t2 & -> & Ht). simpl in Ht.
  assert (0 <= rewind_to (cursor st) <= cursor st) as Hrange
    by (unfold rewind_to; rewrite VAD_PREROLL_FRAMES_val; lia).
  destruct check as [|]; cycle 1.
  { destruct Ht as [-> ?]. apply Hno; [done..|]. do 3 right. eexists. right. left. }
  rewrite !u32_small in Ht by clia. unfold C6_FRAMES_PER_CHUNK in Ht.
  destruct (Z.ltb_spec 0 (cursor st - rewind_to (cursor st))) as [Hlt|]; cycle 1.
  { destruct Ht as [-> ?]. apply Hno; [done..|]. right. left.
    unfold rewind_to in *. rewrite VAD_PREROLL_FRAMES_val in *. lia. }
  destruct (Z.ltb_spec (w - rewind_to (cursor st)) 10); [lia|].
  destruct Ht as [-> ->]. split; [done|]. exists (rewind_to (cursor st)), true.
  split; [done|]. right. split_and!; [done..|lia|done|]. eauto.
Qed.

(** What one iteration of the live path does with a full chunk. *)
Definition chunk_done (H : list frame) (st st' : drain_st) (t : list (ev drainE)) : Prop :=
  exists cur pre mtu m,
    preroll_outcome H st t cur pre /\
    cursor st' = cur + 10 /\
    Ev ble_link_att_mtu mtu ∈ t /\ is_u16 mtu /\
    (m <= 10)%nat /\ (m < 10 -> Ev (ring_buffer_get (cur + Z.of_nat m)) None ∈ t)%nat /\
    let hs := List.filter audible (take m (drop (Z.to_nat cur) H)) in
    match hs with
    | [] => exists raw rc p, notifies t = [(raw, rc)] /\ carries raw p /\
        Server.ptype p = Server.LIVE /\ Server.vad_state p = Server.GAP_MARKER /\
        Server.frames p = [] /\ Server.chunk_seq p = chunk_seq st /\
        Z.of_nat (length raw) = C6_HEADER_LEN /\
        chunk_seq st' = u32 (chunk_seq st + 1) /\ in_speech st' = false
    | _ => shipped pre (budget_of mtu) (chunk_seq st) hs (notifies t) (chunk_seq st') /\
        (pre = false -> in_speech st' = true)
    end.

Lemma audible_voiced f : hist_frame_ok f -> audible f = true -> fr_vad f <> C6_PREROLL ->
  is_voiced (fr_vad f) = true.
Proof.
  intros (_ & _ & Hv & _). unfold audible, is_voiced, C6_GAP_MARKER, C6_SPEECH, C6_HANGOVER,
    C6_PREROLL. intros Ha Hp.
  assert (fr_vad f = 0 \/ fr_vad f = 1 \/ fr_vad f = 3) as [E|[E|E]] by lia;
    rewrite E in *; done.
Qed.

(** What the batch [hs] puts on the air: one empty gap-marker packet, or the
    audible frames. *)
Definition batch_sent (pre : bool) (mtu seq : Z) (hs : list frame) (log : list (list Z * Z))
    (seq' : Z) : Prop :=
  match hs with
  | [] => exists raw rc p, log = [(raw, rc)] /\ carries raw p /\
      Server.ptype p = Server.LIVE /\ Server.vad_state p = Server.GAP_MARKER /\
      Server.frames p = [] /\ Server.chunk_seq p = seq /\
      Z.of_nat (length raw) = C6_HEADER_LEN /\ seq' = u32 (seq + 1)
  | _ => shipped pre (budget_of mtu) seq hs log seq'
  end.

Lemma gap_sent pkt seq ts t seq' pkt' :
  exec (let '(p, n) := c6_write_packet pkt PACKET_BUF_CAP C6_LIVE seq ts C6_GAP_MARKER 0 [] in
        (if 0 <? n then call (ble_link_notify_audio (take (Z.to_nat n) p)) else Ret 0) ;;;
        Ret (u32 (seq + 1), p))%prog t (seq', pkt') ->
  is_u32 seq -> is_u32 ts -> Z.of_nat (length pkt) = PACKET_BUF_CAP ->
  (forall pre mtu, batch_sent pre mtu seq [] (notifies t) seq') /\
  Z.of_nat (length pkt') = PACKET_BUF_CAP.
Proof.
  intros Ht Hseq Hts Hp.
  destruct (write_carries pkt Server.LIVE Server.GAP_MARKER seq ts 0 [])
    as (raw & Hw & Hraw & Hcap & Hcar); [constructor|simpl; lia|done..|].
  cbn [map] in Hw. change (Server.ptype_val Server.LIVE) with C6_LIVE in Hw.
  change (Server.vad_val Server.GAP_MARKER) with C6_GAP_MARKER in Hw.
  rewrite Hw in Ht. simpl in Hraw. unfold C6_HEADER_LEN in *.
  destruct (Z.ltb_spec 0 (Z.of_nat (length raw))); [|lia].
  destruct Ht as (rc & t9 & -> & -> & ?). simplify_eq. split; [|done].
  rewrite Nat2Z.id, take_app_length. intros pre mtu. eexists raw, rc, _. by split_and!.
Qed.

Section Batch.
Context (H : list frame) (lo hi : Z).
Context (HH : Forall hist_frame_ok H).

Lemma batch_spec pre mtu fs hs ts seq pkt t seq' pkt' :
  exec (match fs with
        | [] =>
            let '(p, n) := c6_write_packet pkt PACKET_BUF_CAP C6_LIVE seq ts C6_GAP_MARKER 0 [] in
            (if 0 <? n then call (ble_link_notify_audio (take (Z.to_nat n) p)) else Ret 0) ;;;
            Ret (u32 (seq + 1), p)
        | _ => pack (length fs) (budget_of mtu) fs 0 seq pkt
        end)%prog t (seq', pkt') ->
  Forall (consistent H lo hi) t -> Forall2 (presents H lo hi pre) fs hs ->
  (length hs <= 10)%nat -> is_u16 mtu -> is_u32 seq -> is_u32 ts ->
  Z.of_nat (length pkt) = PACKET_BUF_CAP ->
  batch_sent pre mtu seq hs (notifies t) seq' /\ Z.of_nat (length pkt') = PACKET_BUF_CAP.
Proof.
  intros Ht Hc Hfs Hlen Hmtu Hseq Hts Hp. pose proof (Forall2_length _ _ _ Hfs) as Hll.
  destruct Hfs as [|l h fs hs Hl Hfs].
  { by edestruct gap_sent as [Hs Hpkt]; [exact Ht|done..|]. }
  destruct (budget_of_range mtu Hmtu).
  eapply pack_shipped; try done; [by constructor|lia].
Qed.

(** After a batch that was not prerolled the last frame is voiced. *)
Lemma speech_after fs hs :
  Forall2 (presents H lo hi false) fs hs -> hs <> [] ->
  Forall (fun f => fr_vad f <> C6_PREROLL) H -> Forall (fun h => audible h = true) hs ->
  match last fs with Some f => is_voiced (l_vad f) | None => false end = true.
Proof.
  intros Hfs Hne Hnp Ha. destruct (last fs) as [lf|] eqn:Hlast; cycle 1.
  { apply last_None in Hlast. subst. by inversion Hfs; subst. }
  apply last_Some in Hlast as [fs' ->].
  apply Forall2_app_inv_l in Hfs as (hs1 & hs2 & _ & Hlf & ->).
  apply Forall2_cons_inv_l in Hlf as (hl & hs3 & Hlf & Hnil & ->). inversion Hnil; subst hs3.
  destruct Hlf as (i & _ & _ & Hi & _ & _ & _ & [-> |[? _]]); [|done].
  apply Forall_app in Ha as [_ Ha]. apply Forall_cons in Ha as [Ha _].
  apply audible_voiced; [by eapply Forall_lookup_1|done|by eapply Forall_lookup_1 in Hnp].
Qed.
End Batch.

Lemma preroll_range H st t cur pre :
  preroll_outcome H st t cur pre -> 0 <= cursor st ->
  rewind_to (cursor st) <= cur <= cursor st /\ 0 <= cur.
Proof.
  unfold preroll_outcome, rewind_to. rewrite VAD_PREROLL_FRAMES_val. intros [?|?]; lia.
Qed.

Lemma preroll_outcome_mono H st t t' cur pre :
  preroll_outcome H st t cur pre -> t ⊆ t' -> preroll_outcome H st t' cur pre.
Proof.
  intros [(? & ? & Hx)|?] Hsub; [left|by right]. split_and!; [done..|].
  destruct Hx as [?|[?|[?|[i Hi]]]]; [auto..|]. do 3 right. exists i. by apply Hsub.
Qed.

Lemma batch_audible m c (H : list frame) :
  Forall (fun h => audible h = true) (List.filter audible (take m (drop c H))).
Proof. apply Forall_forall. intros h Hh. apply list_elem_of_In, filter_In in Hh. tauto. Qed.

(** A batch that was read, shipped and accounted for is a processed chunk. *)
Lemma batch_done H st st' t cur pre mtu m log :
  preroll_outcome H st t cur pre -> notifies t = log -> cursor st' = cur + 10 ->
  Ev ble_link_att_mtu mtu ∈ t -> is_u16 mtu -> (m <= 10)%nat ->
  (m < 10 -> Ev (ring_buffer_get (cur + Z.of_nat m)) None ∈ t)%nat ->
  let hs := List.filter audible (take m (drop (Z.to_nat cur) H)) in
  batch_sent pre mtu (chunk_seq st) hs log (chunk_seq st') ->
  (hs = [] -> in_speech st' = false) ->
  (hs <> [] -> pre = false -> in_speech st' = true) ->
  chunk_done H st st' t.
Proof.
  intros Hpo <- Hcur Hin Hmtu Hm Hmiss hs Hsent Hquiet Hsp.
  exists cur, pre, mtu, m. split_and!; [done..|]. fold hs.
  unfold batch_sent in Hsent. destruct hs; [|split; [done|by apply Hsp]].
  destruct Hsent as (raw & rc & p & Hx). exists raw, rc, p.
  specialize (Hquiet eq_refl). tauto.
Qed.

Lemma live_spec H st t st' :
  drain_ok H st -> Forall (fun f => fr_vad f <> C6_PREROLL) H ->
  exec (live st) t st' -> answers H st t ->
  (notifies t = [] /\ st' = st) \/
  (chunk_done H st st' t /\ Z.of_nat (length (pkt st')) = PACKET_BUF_CAP /\
   exists w, head t = Some (Ev ring_buffer_write_index w) /\
     cursor st' <= w <= Z.of_nat (length H)).
Proof.
  intros Hok Hnp Ht [Hc Hwr]. pose proof Hok as [HH Hcount Hcur Hseq Hp].
  destruct Ht as (w & t1 & -> & Ht). apply Forall_cons in Hc as [Hw Hc].
  simpl in Hw. apply Forall_cons in Hwr as [Hwr _]. simpl in Hwr. cbn [bind] in Ht.
  rewrite (u32_small (w - cursor st)) in Ht by clia. unfold C6_FRAMES_PER_CHUNK in Ht.
  destruct (Z.ltb_spec (w - cursor st) 10).
  { left. destruct Ht as ([] & t2 & -> & -> & ->). done. }
  right. apply (exec_bind (preroll st w)) in Ht as (t2 & t3 & r & -> & Hpre & Ht).
  apply Forall_app in Hc as [Hc2 Hc].
  destruct (preroll_spec H _ _ st w _ _ Hok Hpre Hc2) as (Hn2 & cur & pre & -> & Hcase); [lia..|].
  destruct (preroll_range _ _ _ _ _ Hcase) as [Hrange Hcur0]; [lia|].
  apply exec_bind in Ht as (t4 & t5 & [fs first_ts] & -> & Hcol & Ht).
  apply Forall_app in Hc as [Hc4 Hc].
  destruct (live_collect_spec H _ _ HH _ _ _ _ _ _ _ _ _ _ [] Hcol Hc4)
    as (m & Hm & Hn4 & Hfs & Hmiss & Hts); [constructor|lia..|].
  simpl in Hfs. rewrite Z.add_0_r in *. specialize (Hts eq_refl eq_refl).
  destruct Ht as (mtu & t6 & -> & Ht). apply Forall_cons in Hc as [Hmtu Hc]. simpl in Hmtu.
  cbn [bind] in Ht. apply exec_bind in Ht as (t7 & t8 & [seq p] & -> & Hsend & Ht).
  apply Forall_app in Hc as [Hc7 _]. destruct Ht as [-> ->].
  change (Z.to_nat 10) with 10%nat in *. rewrite app_nil_r.
  pose proof (batch_audible m (Z.to_nat cur) H) as Haud.
  destruct (batch_spec H _ _ HH _ _ _ _ _ _ _ _ _ _ Hsend Hc7 Hfs) as [Hsent Hp']; [|done..|].
  { etrans; [apply List.filter_length_le|]. rewrite length_take. lia. }
  assert (u32 (cur + 10) = cur + 10) as Hcur' by (apply u32_small; clia).
  split_and!; [|done|exists w; cbn [cursor]; rewrite Hcur'; split; [done|lia]].
  apply (batch_done _ _ _ _ cur pre mtu m (notifies t7)); cbn [cursor chunk_seq in_speech pkt].
  - eapply preroll_outcome_mono; [exact Hcase|]. intros e He. right. apply elem_of_app. by left.
  - change (notifies (t2 ++ t4 ++ [Ev ble_link_att_mtu mtu] ++ t7) = notifies t7).
    by rewrite !notifies_app, Hn2, Hn4.
  - done.
  - right. apply elem_of_app. right. apply elem_of_app. right. left.
  - done.
  - done.
  - intros Hm10. right. apply elem_of_app. right. apply elem_of_app. left. by apply Hmiss.
  - done.
  - intros E. rewrite E in Hfs. by inversion Hfs; subst.
  - intros Hne ->. by eapply speech_after.
Qed.

(** ** Progress and preroll *)

(** A frame as [audio_task] pushes it: a gap marker without bytes, or a
    voiced frame with some. *)
Definition pushed_ok (f : frame) : Prop :=
  fr_vad f = C6_GAP_MARKER /\ fr_len f = 0 \/
  is_voiced (fr_vad f) = true /\ 0 < fr_len f.

Lemma pushed_audible f : pushed_ok f -> audible f = is_voiced (fr_vad f).
Proof.
  unfold audible. intros [[-> _]|[Hv Hl]]; [done|]. rewrite Hv.
  destruct (Z.eqb_spec (fr_len f) 0); [lia|]. unfold is_voiced in Hv.
  unfold C6_GAP_MARKER, C6_SPEECH, C6_HANGOVER in *.
  destruct (Z.eqb_spec (fr_vad f) 0) as [E|]; [by rewrite E in Hv|done].
Qed.

Lemma pushed_not_preroll f : pushed_ok f -> fr_vad f <> C6_PREROLL.
Proof. intros [[-> _]|[Hv _]]; [done|]. intros E. by rewrite E in Hv. Qed.

Definition silent (H : list frame) (i : Z) : Prop :=
  forall f, H !! Z.to_nat i = Some f -> is_voiced (fr_vad f) = false.

(** Outside speech, the ten frames before the cursor are silent, or the frame
    at the cursor is (after a rewind), or nothing has been read yet. *)
Definition quiet_before (H : list frame) (st : drain_st) : Prop :=
  in_speech st = false ->
  cursor st = 0 \/ silent H (cursor st) \/
  10 <= cursor st /\ forall i, cursor st - 10 <= i < cursor st -> silent H i.

(** No read of the ring failed: the task is less than a ring behind. *)
Definition no_miss (t : list (ev drainE)) : Prop := Forall (fun e => miss e = false) t.

Lemma no_miss_elem t i : no_miss t -> Ev (ring_buffer_get i) None ∈ t -> False.
Proof. intros Hn Hin. by apply (proj1 (Forall_forall _ _) Hn) in Hin. Qed.

Lemma batch_silent H c i :
  Forall pushed_ok H -> List.filter audible (take 10 (drop (Z.to_nat c) H)) = [] ->
  0 <= c -> c <= i < c + 10 -> silent H i.
Proof.
  intros HP Hf Hc Hi f Hlk.
  assert (audible f = false) as Ha.
  { apply not_true_iff_false. intros Ha.
    assert (f ∈ List.filter audible (take 10 (drop (Z.to_nat c) H))) as Hin.
    { apply list_elem_of_In, filter_In. split; [|done]. apply list_elem_of_In.
      apply (list_elem_of_lookup_2 _ (Z.to_nat (i - c))).
      rewrite lookup_take_lt by lia. rewrite lookup_drop. rewrite <-Hlk. f_equal. lia. }
    by rewrite Hf in Hin; apply not_elem_of_nil in Hin. }
  rewrite <-pushed_audible; [done|]. by eapply Forall_lookup_1.
Qed.

(** The batch of a chunk whose reads all succeeded. *)
Lemma chunk_done_full H st st' t :
  chunk_done H st st' t -> no_miss t -> Forall pushed_ok H ->
  exists cur pre,
    preroll_outcome H st t cur pre /\ cursor st' = cur + 10 /\
    (in_speech st' = false -> pre = true \/
       List.filter audible (take 10 (drop (Z.to_nat cur) H)) = []).
Proof.
  intros (cur & pre & mtu & m & Hpo & Hcur & _ & _ & Hm & Hmiss & Hout) Hnm HP.
  exists cur, pre. split_and!; [done..|]. intros Hsp.
  destruct (decide (m < 10)%nat) as [Hlt|]; [by destruct (no_miss_elem _ _ Hnm (Hmiss Hlt))|].
  replace m with 10%nat in * by lia. cbv zeta in Hout.
  destruct (List.filter audible _); [by right|].
  destruct Hout as [_ Hsp']. destruct pre; [by left|]. by rewrite Hsp' in Hsp.
Qed.

Lemma silent_not_voiced H i f :
  silent H i -> H !! Z.to_nat i = Some f -> is_voiced (fr_vad f) = true -> False.
Proof. intros Hs Hf Hv. by rewrite (Hs _ Hf) in Hv. Qed.

(** One processed chunk keeps [quiet_before]; a rewind lands five frames
    behind, on a silent frame. *)
Lemma chunk_quiet H st st' t :
  chunk_done H st st' t -> no_miss t -> Forall pushed_ok H ->
  quiet_before H st -> 0 <= cursor st -> cursor st = 0 \/ 15 <= cursor st ->
  quiet_before H st' /\
  (cursor st' = cursor st + 10 \/
   cursor st' = cursor st - 5 /\ silent H (cursor st')).
Proof.
  intros Hd Hnm HP Hq Hc0 Hc15.
  destruct (chunk_done_full _ _ _ _ Hd Hnm HP) as (cur & pre & Hpo & Hcur & Hsp).
  destruct Hpo as [(-> & -> & _)|(-> & -> & Hlt & Hns & f & Hf & Hv)].
  - split; [|by left]. intros Hs. destruct (Hsp Hs) as [|Hnil]; [done|].
    right. right. rewrite Hcur. split; [lia|]. intros i Hi.
    eapply batch_silent; [done..| |]; lia.
  - unfold rewind_to in *. rewrite VAD_PREROLL_FRAMES_val in *.
    destruct Hc15 as [|Hc15]; [lia|].
    assert (silent H (cursor st')) as Hsil.
    { destruct (Hq Hns) as [|[Hs|[_ Hs]]]; [lia| |].
      - by destruct (silent_not_voiced _ _ _ Hs Hf Hv).
      - apply Hs. lia. }
    split; [intros _; by right; left|]. right. split; [lia|done].
Qed.

Lemma chunk_done_ok H st st' t :
  drain_ok H st -> chunk_done H st st' t -> Z.of_nat (length (pkt st')) = PACKET_BUF_CAP ->
  cursor st' <= Z.of_nat (length H) -> drain_ok H st'.
Proof.
  intros [HH Hcount Hcur Hseq _] (cur & pre & mtu & m & Hpo & Hcs & _ & _ & _ & _ & Hout) Hp Hle.
  split; try done.
  - unfold preroll_outcome, rewind_to in Hpo.
    destruct Hpo as [(_ & -> & _)|(_ & -> & _)]; lia.
  - cbv zeta in Hout. destruct (List.filter audible _).
    + destruct Hout as (raw & rc & p & _ & _ & _ & _ & _ & _ & _ & -> & _). auto with cint.
    + destruct Hout as [(raws & pkts & segs & _ & _ & _ & _ & _ & _ & ->) _]. auto with cint.
Qed.

(** ** Theorems *)

(** C3. What one iteration of the live path does, for every answer of the
    ring and the radio.  Either fewer than ten frames are ready and nothing
    happens, or a batch of ten ring frames starting at the cursor (or at the
    preroll point) is read and the cursor moves past it.  A batch without
    audio goes out as one empty gap-marker packet with the next sequence
    number.  Otherwise the packets, each sent until it is accepted, refused,
    or has failed four times for want of buffers, carry every audible frame
    that fits the MTU, once and in order, with consecutive sequence numbers;
    each header has the timestamp and VAD state of the packet's first frame. *)
Theorem live_chunk_delivers H st t st' :
  drain_ok H st -> Forall (fun f => fr_vad f <> C6_PREROLL) H ->
  exec (live st) t st' -> answers H st t ->
  ((notifies t = [] /\ st' = st) \/ chunk_done H st st' t) /\ drain_ok H st'.
Proof.
  intros Hok Hnp Ht Ha. destruct (live_spec _ _ _ _ Hok Hnp Ht Ha)
    as [[Hn ->]|(Hd & Hp & w & _ & Hw)]; [auto|].
  split; [by right|]. eapply chunk_done_ok; try done. lia.
Qed.

(** C10. The drain makes progress: from cursor 15 on, two processed
    iterations in a row (with a keeping-up reader and the frames
    [audio_task] pushes) advance the cursor by at least five frames, because
    a rewind lands on a silent frame and so is never followed by another. *)
Theorem live_progress H st st1 st2 t1 t2 :
  drain_ok H st -> Forall pushed_ok H -> quiet_before H st -> 15 <= cursor st ->
  exec (live st) t1 st1 -> answers H st t1 -> no_miss t1 ->
  exec (live st1) t2 st2 -> answers H st1 t2 -> no_miss t2 ->
  st1 = st \/ st2 = st1 \/ cursor st + 5 <= cursor st2.
Proof.
  intros Hok HP Hq Hc He1 Ha1 Hm1 He2 Ha2 Hm2.
  assert (Forall (fun f => fr_vad f <> C6_PREROLL) H) as Hnp
    by (eapply Forall_impl; [exact HP|apply pushed_not_preroll]).
  destruct (live_spec _ _ _ _ Hok Hnp He1 Ha1) as [[_ ?]|(Hd1 & Hp1 & w & _ & Hw)]; [by left|].
  destruct (chunk_quiet _ _ _ _ Hd1 Hm1 HP Hq) as [Hq1 Hcase]; [lia|lia|].
  assert (drain_ok H st1) as Hok1
    by (eapply chunk_done_ok; try done; lia).
  destruct (live_spec _ _ _ _ Hok1 Hnp He2 Ha2) as [[_ ?]|(Hd2 & _ & _)]; [by right; left|].
  do 2 right. destruct (chunk_done_full _ _ _ _ Hd2 Hm2 HP) as (cur & pre & Hpo & -> & _).
  destruct Hpo as [(_ & -> & _)|(_ & -> & _ & _ & f & Hf & Hv)].
  - destruct Hcase as [->|[-> _]]; lia.
  - unfold rewind_to. rewrite VAD_PREROLL_FRAMES_val. destruct Hcase as [->|[_ Hs]]; [lia|].
    by destruct (silent_not_voiced _ _ _ Hs Hf Hv).
Qed.

(** The preroll carries no pre-onset audio.  A rewind (in a state the
    task can be in, past frame 20, with a keeping-up reader) reads fifteen
    frames back, but the ten frames before the onset are silent and silence
    is suppressed; only the five frames before those can be audible, and they
    belong to the batch that had already been sent. *)
Lemma preroll_adds_nothing H st t st' :
  drain_ok H st -> Forall pushed_ok H -> quiet_before H st -> 20 <= cursor st ->
  exec (live st) t st' -> answers H st t -> no_miss t -> cursor st' < cursor st ->
  let batch := take 10 (drop (Z.to_nat (cursor st - 15)) H) in
  (exists mtu, shipped true (budget_of mtu) (chunk_seq st) (List.filter audible batch)
                 (notifies t) (chunk_seq st') \/
     List.filter audible batch = []) /\
  List.filter audible batch = List.filter audible (take 5 batch) /\
  (forall i, cursor st - 10 <= i < cursor st -> silent H i).
Proof.
  intros Hok HP Hq Hc He Ha Hm Hlt batch.
  assert (Forall (fun f => fr_vad f <> C6_PREROLL) H) as Hnp
    by (eapply Forall_impl; [exact HP|apply pushed_not_preroll]).
  destruct (live_spec _ _ _ _ Hok Hnp He Ha) as [[_ ->]|(Hd & _ & _)]; [lia|].
  destruct Hd as (cur & pre & mtu & m & Hpo & Hcur & _ & _ & Hm10 & Hmiss & Hout).
  destruct (decide (m < 10)%nat) as [Hmlt|];
    [by destruct (no_miss_elem _ _ Hm (Hmiss Hmlt))|].
  replace m with 10%nat in * by lia.
  destruct Hpo as [(_ & -> & _)|(-> & -> & _ & Hns & f & Hf & Hv)]; [lia|].
  assert (rewind_to (cursor st) = cursor st - 15) as Hrw
    by (unfold rewind_to; rewrite VAD_PREROLL_FRAMES_val; lia).
  rewrite Hrw in Hout. cbv zeta in Hout. fold batch in Hout.
  assert (forall i, cursor st - 10 <= i < cursor st -> silent H i) as Hsil.
  { destruct (Hq Hns) as [|[Hs|[_ Hs]]]; [lia| |done].
    by destruct (silent_not_voiced _ _ _ Hs Hf Hv). }
  split_and!; [|clear Hout|done].
  - exists mtu. destruct (List.filter audible batch); [by right|left]. by destruct Hout.
  - rewrite <-(take_drop 5 batch) at 1. rewrite List.filter_app.
    enough (List.filter audible (drop 5 batch) = []) as -> by by rewrite app_nil_r.
    destruct (List.filter audible (drop 5 batch)) as [|g gs] eqn:E; [done|exfalso].
    assert (g ∈ List.filter audible (drop 5 batch)) as Hin by (rewrite E; left).
    apply list_elem_of_In, filter_In in Hin as [Hin Hau].
    apply list_elem_of_In, list_elem_of_lookup in Hin as [j Hj].
    unfold batch in Hj. rewrite lookup_drop in Hj.
    pose proof Hj as Hj'. apply lookup_lt_Some in Hj'. rewrite length_take in Hj'.
    rewrite lookup_take_lt, lookup_drop in Hj by lia.
    rewrite pushed_audible in Hau by by eapply Forall_lookup_1.
    rewrite (Hsil (cursor st - 10 + Z.of_nat j)) with (f := g) in Hau; [done|lia|].
    rewrite <-Hj. f_equal. lia.
Qed.

(** Iterations one after the other, each answered by the ring without a
    miss. *)
Inductive lives (H : list frame) : drain_st -> list (list (ev drainE)) -> drain_st -> Prop :=
| lives_nil st : lives H st [] st
| lives_cons st t st' ts st'' :
    exec (live st) t st' -> answers H st t -> no_miss t -> lives H st' ts st'' ->
    lives H st (t :: ts) st''.

(** C11. The rewind can fail to make progress at all: when the recording
    starts with ten silent frames and the eleventh is voiced, the task at
    cursor 10 rewinds to 0, emits one empty packet, and is at cursor 10 outside
    speech again; so for as long as the ring still holds frame 0 (a minute)
    the cursor never moves, however many iterations run and however many
    frames have been recorded. *)
Theorem preroll_livelock H st ts st' f :
  drain_ok H st -> Forall pushed_ok H -> cursor st = 10 -> in_speech st = false ->
  (forall i, 0 <= i < 10 -> silent H i) ->
  H !! 10%nat = Some f -> is_voiced (fr_vad f) = true ->
  lives H st ts st' ->
  cursor st' = 10 /\ in_speech st' = false /\
  Forall (fun t => notifies t = [] \/ exists raw rc p,
    notifies t = [(raw, rc)] /\ Server.parse raw = inr p /\ Server.frames p = []) ts.
Proof.
  intros Hok HP Hc Hsp Hsil Hf Hv Hl.
  assert (Forall (fun f => fr_vad f <> C6_PREROLL) H) as Hnp
    by (eapply Forall_impl; [exact HP|apply pushed_not_preroll]).
  induction Hl as [st|st t st' ts st'' He Ha Hm _ IH]; [done|].
  destruct (live_spec _ _ _ _ Hok Hnp He Ha) as [[Hn ->]|(Hd & Hpk & w & _ & Hw)].
  { destruct IH as (? & ? & ?); [done..|]. split_and!; [done..|]. constructor; auto. }
  pose proof Hd as (cur & pre & mtu & m & Hpo & Hcur & _ & _ & Hm10 & Hmiss & Hout).
  destruct (decide (m < 10)%nat) as [Hmlt|];
    [by destruct (no_miss_elem _ _ Hm (Hmiss Hmlt))|].
  replace m with 10%nat in * by lia. unfold preroll_outcome in Hpo.
  rewrite Hc, Hsp in Hpo. destruct Hpo as [(_ & _ & Hno)|(-> & -> & _)].
  { destruct Hno as [|[|[(g & Hg & Hgv)|[i Hi]]]]; [done|lia| |].
    - change (Z.to_nat 10) with 10%nat in Hg. congruence.
    - by destruct (no_miss_elem _ _ Hm Hi). }
  change (rewind_to 10) with 0 in *. cbv zeta in Hout.
  destruct (List.filter audible _) as [|g gs] eqn:E; cycle 1.
  { exfalso. assert (g ∈ List.filter audible (take 10 (drop (Z.to_nat 0) H))) as Hin
      by (rewrite E; left).
    apply list_elem_of_In, filter_In in Hin as [Hin Hau].
    apply list_elem_of_In, list_elem_of_lookup in Hin as [j Hj].
    pose proof Hj as Hj'. apply lookup_lt_Some in Hj'. rewrite length_take in Hj'.
    rewrite lookup_take_lt in Hj by lia. simpl in Hj. rewrite drop_0 in Hj.
    rewrite pushed_audible in Hau by by eapply Forall_lookup_1.
    rewrite (Hsil (Z.of_nat j)) with (f := g) in Hau; [done|lia|]. by rewrite Nat2Z.id. }
  destruct Hout as (raw & rc & p & Hn & [Hp _] & _ & _ & Hfr & _ & _ & _ & Hsp').
  destruct IH as (? & ? & ?); [|lia|done|].
  { eapply chunk_done_ok; try done. lia. }
  split_and!; [done..|]. constructor; [|done]. right. eauto 6.
Qed.

(** ** Witnesses *)

(** Ten silent frames, then speech; and a word, a pause and speech. *)
Definition gap_frames (i n : nat) : list frame :=
  map (fun i => Frame C6_GAP_MARKER (20 * i) []) (map Z.of_nat (seq i n)).
Definition speech_frames (i n : nat) : list frame :=
  map (fun i => Frame C6_SPEECH (20 * i) [i; i]) (map Z.of_nat (seq i n)).
Definition demo_history : list frame := gap_frames 0 10 ++ speech_frames 10 30.
Definition demo_pause : list frame :=
  gap_frames 0 5 ++ speech_frames 5 5 ++ gap_frames 10 10 ++ speech_frames 20 20.

Lemma silent_range H (a n : nat) i :
  forallb (fun f => negb (is_voiced (fr_vad f))) (take n (drop a H)) = true ->
  Z.of_nat a <= i < Z.of_nat (a + n) -> silent H i.
Proof.
  intros Hall Hi f Hf. apply negb_true_iff.
  apply (proj1 (forallb_forall _ _) Hall), list_elem_of_In.
  apply (list_elem_of_lookup_2 _ (Z.to_nat i - a)).
  rewrite lookup_take_lt, lookup_drop by lia. rewrite <-Hf. f_equal. lia.
Qed.

Lemma gap_frames_ok i n : (i + n <= 255)%nat ->
  Forall hist_frame_ok (gap_frames i n) /\ Forall pushed_ok (gap_frames i n).
Proof.
  intros Hn. unfold gap_frames.
  split; apply Forall_fmap, Forall_fmap, Forall_seq; intros j Hj;
    unfold compose, hist_frame_ok, pushed_ok, fr_len; simpl; [|by left].
  split; [clia|]. split; [apply Forall_nil_2|]. clia.
Qed.

Lemma speech_frames_ok i n : (i + n <= 255)%nat ->
  Forall hist_frame_ok (speech_frames i n) /\ Forall pushed_ok (speech_frames i n).
Proof.
  intros Hn. unfold speech_frames.
  split; apply Forall_fmap, Forall_fmap, Forall_seq; intros j Hj;
    unfold compose, hist_frame_ok, pushed_ok, fr_len; simpl; [|by right].
  split; [clia|]. split; [repeat apply Forall_cons_2; try apply Forall_nil_2; clia|]. clia.
Qed.

(** What the examples need of a history. *)
Record demo_ok (H : list frame) : Prop := {
  demo_length : length H = 40%nat;
  demo_frames : Forall hist_frame_ok H;
  demo_pushed : Forall pushed_ok H;
}.

Lemma demo_history_ok : demo_ok demo_history.
Proof.
  destruct (gap_frames_ok 0 10), (speech_frames_ok 10 30); [lia..|].
  split; [done|by apply Forall_app..].
Qed.

Lemma demo_pause_ok : demo_ok demo_pause.
Proof.
  destruct (gap_frames_ok 0 5), (speech_frames_ok 5 5), (gap_frames_ok 10 10),
    (speech_frames_ok 20 20); [lia..|].
  unfold demo_pause. split; [done|rewrite !Forall_app; auto..].
Qed.

Lemma demo_not_preroll H : demo_ok H -> Forall (fun f => fr_vad f <> C6_PREROLL) H.
Proof.
  intros Hd. eapply Forall_impl; [exact (demo_pushed _ Hd)|apply pushed_not_preroll].
Qed.

Definition demo_at (c : Z) (sp : bool) : drain_st :=
  DrainSt c 0 sp (replicate (Z.to_nat PACKET_BUF_CAP) 0).

Lemma demo_at_ok H c sp : demo_ok H -> 0 <= c <= 40 -> drain_ok H (demo_at c sp).
Proof.
  intros [Hl Hf _] Hc. split; rewrite ?Hl; [done|lia|simpl; lia|simpl; clia|].
  cbn [pkt demo_at]. by rewrite length_replicate.
Qed.

(** One iteration against the concrete platform. *)
Definition demo_trace (H : list frame) (st : drain_st) : list (ev drainE) :=
  fst (fst (run (sim H 247) (live st) tt)).
Definition demo_next (H : list frame) (st : drain_st) : drain_st :=
  snd (fst (run (sim H 247) (live st) tt)).

Lemma demo_exec H st : exec (live st) (demo_trace H st) (demo_next H st).
Proof. apply run_exec_fst. Qed.

Lemma demo_answers H st : demo_ok H -> cursor st <= 40 -> answers H st (demo_trace H st).
Proof.
  intros [Hl _ _] Hc. split.
  - apply sim_trace_consistent; [rewrite Hl, RING_FRAMES_val; lia|clia].
  - apply run_Forall. intros X [] s; simpl; try done. by rewrite Hl.
Qed.

#[local] Hint Resolve demo_history_ok demo_pause_ok demo_not_preroll demo_exec
  demo_frames demo_pushed : drain.
#[local] Hint Extern 1 (drain_ok _ _) => apply demo_at_ok; [|lia] : drain.
#[local] Hint Extern 1 (answers _ _ _) => apply demo_answers; [|by vm_compute] : drain.
#[local] Hint Extern 1 (no_miss _) => by vm_compute; repeat constructor : drain.

Lemma live_chunk_delivers_witness :
  let st := demo_at 20 true in
  ((notifies (demo_trace demo_history st) = [] /\ demo_next demo_history st = st) \/
   chunk_done demo_history st (demo_next demo_history st) (demo_trace demo_history st)) /\
  chunk_seq (demo_next demo_history st) = 1.
Proof.
  intros st. split; [|by vm_compute].
  apply (live_chunk_delivers demo_history st (demo_trace demo_history st)
    (demo_next demo_history st)); unfold st; auto with drain.
Defined.

Lemma live_progress_witness :
  let st := demo_at 20 false in
  let st1 := demo_next demo_pause st in
  cursor st1 = 15 /\
  (st1 = st \/ demo_next demo_pause st1 = st1 \/
   cursor st + 5 <= cursor (demo_next demo_pause st1)).
Proof.
  intros st st1. split; [by vm_compute|].
  apply (live_progress demo_pause st st1 (demo_next demo_pause st1)
    (demo_trace demo_pause st) (demo_trace demo_pause st1)); unfold st1, st;
    auto with drain; [|simpl; lia].
  intros _. right. right. split; [simpl; lia|]. simpl.
  intros i Hi. apply (silent_range _ 10 10); [by vm_compute|lia].
Defined.

Lemma preroll_livelock_witness :
  let next := demo_next demo_history in
  let st := demo_at 10 false in
  cursor (next (next st)) = 10 /\ length (notifies (demo_trace demo_history (next st))) = 1%nat.
Proof.
  intros next st. split; [|by vm_compute].
  apply (preroll_livelock demo_history st
    [demo_trace demo_history st; demo_trace demo_history (next st)]
    (next (next st)) (Frame C6_SPEECH 200 [10; 10])); unfold next, st; auto with drain.
  - intros i Hi. apply (silent_range _ 0 10); [by vm_compute|lia].
  - apply lives_cons with (next st); auto with drain.
    apply lives_cons with (next (next st)); unfold next, st; auto with drain.
    constructor.
Defined.
