(* ===== verification/DrainReplay.v ===== *)
(** * The replay path of the drain task: request_buffer *)

From S2P Require Import Prelude Effects Config C6Packet RingBuffer ExecutorCore BleDrain.
From S2P Require Import DrainSpec DrainLive.
Import C6 Replay.

(** ** The scratch buffer *)

Lemma write_at_before out off bs off' n :
  (off' + n <= off)%nat -> (off <= length out)%nat ->
  take n (drop off' (write_at out off bs)) = take n (drop off' out).
Proof.
  intros H1 H2. unfold write_at. rewrite drop_app_le by (rewrite length_take; lia).
  rewrite take_app_le by (rewrite length_drop, length_take; lia).
  rewrite !take_drop_commute, take_take. do 2 f_equal. lia.
Qed.

Lemma write_at_here out off bs :
  (off <= length out)%nat -> take (length bs) (drop off (write_at out off bs)) = bs.
Proof.
  intros H. unfold write_at. rewrite drop_app_length' by (rewrite length_take; lia).
  apply take_app_length.
Qed.

Lemma write_at_length out off bs :
  (off + length bs <= length out)%nat -> length (write_at out off bs) = length out.
Proof. intros. apply length_write_at. lia. Qed.

(** A collected entry points at the bytes of a history frame. *)
Definition holds (sc : list Z) (off : nat) (r : rframe) (h : frame) : Prop :=
  f_len r = fr_len h /\ f_ts r = fr_ts h /\ f_vad r = fr_vad h /\
  take (length (fr_bytes h)) (drop (f_off r) sc) = fr_bytes h /\
  (f_off r + length (fr_bytes h) <= off)%nat.

Lemma holds_write sc off bs off' fs hs :
  Forall2 (holds sc off) fs hs -> (off <= length sc)%nat -> (off <= off')%nat ->
  Forall2 (holds (write_at sc off bs) off') fs hs.
Proof.
  intros Hf Hl Ho. eapply Forall2_impl; [exact Hf|].
  intros r h (? & ? & ? & Hb & Hoff). split_and!; try done; [|lia].
  by rewrite write_at_before.
Qed.

Lemma c6_of_holds sc off fs hs :
  Forall2 (holds sc off) fs hs -> map (c6_of sc) fs = map c6f hs.
Proof.
  induction 1 as [|r h fs hs (Hl & _ & _ & Hb & _) _ IH]; [done|]. simpl. f_equal; [|done].
  unfold c6_of, c6f. rewrite Hl. f_equal. unfold fr_len. by rewrite Nat2Z.id.
Qed.

Lemma Forall2_nil_iff {A B} (P : A -> B -> Prop) fs hs : Forall2 P fs hs -> fs = [] <-> hs = [].
Proof. by destruct 1. Qed.

(** ** Collecting *)

(** No frame was overwritten while it was replayed. *)
Definition copied (e : ev drainE) : Prop :=
  match e with
  | Ev e x => match e in drainE X return X -> Prop with
              | ring_buffer_get_copy _ => fun r =>
                  match r with Some _ => True | None => False end
              | _ => fun _ => True
              end x
  end.

(** The locals hold the frames [hs]. *)
Record locals_ok (budget : Z) (l : locals) (hs : list frame) : Prop := {
  lo_frames : Forall2 (holds (scratch l) (data_off l)) (frames l) hs;
  lo_used : used l = size_of hs;
  lo_fit : size_of hs <= Z.max 0 budget;
  lo_count : (length hs <= 10)%nat;
  lo_off : Z.of_nat (data_off l) <= size_of hs;
  lo_room : (data_off l <= length (scratch l))%nat;
  lo_ts : is_u32 (first_rel_ts l);
}.

(** How the loop over the window [W] ends, having kept [acc]. *)
Inductive collects (budget : Z) (hs : list frame) : list frame -> list frame -> list frame -> Prop :=
| col_end W : collects budget hs W [] (List.filter audible W)
| col_full Wc f tl : audible f = true -> hs ++ List.filter audible Wc <> [] ->
    budget < size_of (hs ++ List.filter audible Wc) + 1 + fr_len f ->
    collects budget hs (Wc ++ f :: tl) (f :: tl) (List.filter audible Wc)
| col_big Wc f tl : hs = [] -> List.filter audible Wc = [] -> audible f = true ->
    budget < 1 + fr_len f -> collects budget hs (Wc ++ f :: tl) tl [].

(** Eleven frames that fit one packet, or a budget the scratch cannot hold. *)
Definition overflows (budget : Z) (cap : nat) (hs W : list frame) : Prop :=
  Z.of_nat cap < Z.max 0 budget + 255 \/
  exists Wc f tl, W = Wc ++ f :: tl /\ audible f = true /\
    length (hs ++ List.filter audible Wc) = 10%nat /\
    size_of (hs ++ List.filter audible Wc) + 1 + fr_len f <= budget.

Lemma filter_cons_audible f W :
  List.filter audible (f :: W) = if audible f then f :: List.filter audible W
                                 else List.filter audible W.
Proof. done. Qed.

Lemma collects_skip budget hs f W W' acc :
  audible f = false -> collects budget hs W W' acc -> collects budget hs (f :: W) W' acc.
Proof.
  intros Hf Hc. destruct Hc as [W|Wc g tl Hg Hne Hb|Wc g tl Hn Hw Hg Hb].
  - assert (List.filter audible W = List.filter audible (f :: W)) as ->
      by by rewrite filter_cons_audible, Hf. constructor.
  - assert (List.filter audible Wc = List.filter audible (f :: Wc)) as E
      by by rewrite filter_cons_audible, Hf.
    rewrite E in *. by apply (col_full budget hs (f :: Wc)).
  - apply (col_big budget hs (f :: Wc)); [done| |done..].
    by rewrite filter_cons_audible, Hf.
Qed.

Lemma collects_keep budget hs f W W' acc :
  audible f = true -> collects budget (hs ++ [f]) W W' acc ->
  collects budget hs (f :: W) W' (f :: acc).
Proof.
  intros Hf Hc. destruct Hc as [W|Wc g tl Hg Hne Hb|Wc g tl Hn Hw Hg Hb].
  - assert (f :: List.filter audible W = List.filter audible (f :: W)) as ->
      by by rewrite filter_cons_audible, Hf. constructor.
  - assert (f :: List.filter audible Wc = List.filter audible (f :: Wc)) as E
      by by rewrite filter_cons_audible, Hf.
    rewrite <-app_assoc in Hb, Hne. simpl in Hb, Hne. rewrite E in *.
    by apply (col_full budget hs (f :: Wc)).
  - by destruct hs.
Qed.

Lemma overflows_cons budget cap hs f W :
  (if audible f then overflows budget cap (hs ++ [f]) W else overflows budget cap hs W) ->
  overflows budget cap hs (f :: W).
Proof.
  destruct (audible f) eqn:Hf; (intros [?|(Wc & g & tl & -> & Hg & Hl & Hs)]; [by left|]);
    right; exists (f :: Wc), g, tl; (split; [done|]); (split; [done|]);
    rewrite filter_cons_audible, Hf; [|done].
  rewrite <-app_assoc in Hl, Hs. done.
Qed.

(** What [collect] leaves behind after reading the window [W] with the frames
    [hs] already kept, in a scratch buffer of [cap] bytes. *)
Definition collected_ok (budget : Z) (cap : nat) (hs W : list frame) (c : collected) : Prop :=
  match c with
  | Overflow => overflows budget cap hs W
  | Collected l' left' => exists W' acc,
      collects budget hs W W' acc /\ length W' = left' /\ locals_ok budget l' (hs ++ acc) /\
      length (scratch l') = cap /\ (frames l' = [] <-> hs ++ acc = [])
  end.

Lemma collected_skip budget cap hs f W c :
  audible f = false -> collected_ok budget cap hs W c -> collected_ok budget cap hs (f :: W) c.
Proof.
  intros Ha. destruct c as [l' left'|]; simpl.
  - intros (W' & acc & Hcol & Hrest). exists W', acc. split; [by apply collects_skip|done].
  - intros Ho. apply overflows_cons. by rewrite Ha.
Qed.

Lemma collected_keep budget cap hs f W c :
  audible f = true -> collected_ok budget cap (hs ++ [f]) W c ->
  collected_ok budget cap hs (f :: W) c.
Proof.
  intros Ha. destruct c as [l' left'|]; simpl.
  - intros (W' & acc & Hcol & HW & Hl & Hs & Hf). exists W', (f :: acc).
    rewrite <-app_assoc in Hl, Hf. split_and!; try done. by apply collects_keep.
  - intros Ho. apply overflows_cons. by rewrite Ha.
Qed.

Lemma locals_nil budget l hs : locals_ok budget l hs -> frames l = [] <-> hs = [].
Proof. intros Hl. eapply Forall2_nil_iff, (lo_frames _ _ _ Hl). Qed.

(** A frame past the budget ends the batch: it stays for the next packet, or
    is dropped when no packet could hold it. *)
Lemma collected_big budget l hs f W :
  audible f = true -> locals_ok budget l hs -> budget < used l + 1 + fr_len f ->
  collected_ok budget (length (scratch l)) hs (f :: W)
    (match frames l with
     | [] => Collected l (length W)
     | _ :: _ => Collected l (S (length W))
     end).
Proof.
  intros Ha Hl Hbig. pose proof (locals_nil _ _ _ Hl) as Hnil.
  rewrite (lo_used _ _ _ Hl) in Hbig. destruct (frames l) as [|r0 rs] eqn:Efr.
  - assert (hs = []) as -> by by apply Hnil. exists W, []. rewrite app_nil_r, Efr.
    split_and!; try done. apply (col_big budget [] []); [done..|]. simpl in Hbig. lia.
  - assert (hs <> []) as Hne by (intros E; by apply Hnil in E).
    exists (f :: W), []. rewrite app_nil_r, Efr. split_and!; try done.
    apply (col_full budget hs []); [done|by rewrite app_nil_r|rewrite app_nil_r; lia].
Qed.

Lemma collected_done budget l hs :
  locals_ok budget l hs -> collected_ok budget (length (scratch l)) hs [] (Collected l 0).
Proof.
  intros Hl. exists [], []. rewrite app_nil_r.
  split_and!; [apply col_end|done|done|done|by apply (locals_nil budget)..].
Qed.

(** Copying a frame in keeps the locals' invariant, and so does keeping it. *)
Definition copy_in (l : locals) (f : frame) : locals :=
  Locals (write_at (scratch l) (data_off l) (fr_bytes f)) (frames l)
    (match frames l with [] => fr_ts f | _ => first_rel_ts l end) (used l) (data_off l).

Definition keep_in (l : locals) (f : frame) : locals :=
  let l0 := copy_in l f in
  Locals (scratch l0) (frames l ++ [RFrame (data_off l) (fr_len f) (fr_vad f) (fr_ts f)])
    (first_rel_ts l0) (used l + 1 + fr_len f) (data_off l + Z.to_nat (fr_len f)).

Section Copy.
Context (budget : Z) (l : locals) (hs : list frame) (f : frame).
Context (Hl : locals_ok budget l hs) (Hf : hist_frame_ok f).
Context (Hin : (data_off l + length (fr_bytes f) <= length (scratch l))%nat).

Lemma copy_in_length : length (scratch (copy_in l f)) = length (scratch l).
Proof. by apply write_at_length. Qed.

Lemma copy_in_ok : locals_ok budget (copy_in l f) hs.
Proof.
  destruct Hl as [Hfr Hu Hfit Hcnt Hoff Hroom Hts]. destruct Hf as (_ & _ & _ & Hts32).
  split; rewrite ?copy_in_length; simpl; try done; [by apply holds_write|by destruct (frames l)].
Qed.

Lemma keep_in_ok :
  used l + 1 + fr_len f <= budget -> (length hs < 10)%nat ->
  locals_ok budget (keep_in l f) (hs ++ [f]).
Proof.
  intros Hfits H10. pose proof copy_in_length as Hsc.
  destruct copy_in_ok as [_ _ _ _ _ _ Hts']. destruct Hl as [Hfr Hu Hfit Hcnt Hoff Hroom Hts].
  assert (Z.of_nat (length (fr_bytes f)) = fr_len f) as Hlen by done. simpl in Hsc.
  split; simpl; rewrite ?size_of_app, ?length_app; simpl; try lia; [|done].
  apply Forall2_app; [by apply holds_write; [..|lia]|]. constructor; [|done].
  split_and!; simpl; try done; [by apply write_at_here|]. lia.
Qed.
End Copy.

Section Collect.
Context (H : list frame) (lo hi : Z).
Context (HH : Forall hist_frame_ok H) (HL : Z.of_nat (length H) < 4294967296).

Lemma replay_collect_spec left start i budget l t c hs :
  exec (collect left start i budget l) t c ->
  Forall (consistent H lo hi) t -> Forall copied t -> locals_ok budget l hs ->
  0 <= start -> 0 <= i -> start + i + Z.of_nat left <= Z.of_nat (length H) ->
  notifies t = [] /\
  collected_ok budget (length (scratch l)) hs (take left (drop (Z.to_nat (start + i)) H)) c.
Proof.
  revert i l t hs. induction left as [|left IH]; intros i l t hs Ht Hc Hcp Hl Hst Hi Hn.
  { destruct Ht as [-> ->]. split; [done|]. by apply collected_done. }
  destruct Ht as (r & t1 & -> & Ht). apply Forall_cons in Hc as [Hr Hc].
  apply Forall_cons in Hcp as [Hrc Hcp]. rewrite u32_small in * by clia. simpl in Ht.
  destruct r as [[rf bs]|]; [|by destruct Hrc].
  destruct Hr as (f & _ & Hf & -> & ->). simpl in Ht.
  assert (hist_frame_ok f) as Hok by (eapply Forall_lookup_1; [exact HH|done]).
  rewrite (drop_S H f) by done. cbn [take].
  replace (S (Z.to_nat (start + i))) with (Z.to_nat (start + (i + 1))) by lia.
  assert (length (take left (drop (Z.to_nat (start + (i + 1))) H)) = left) as HW
    by (rewrite length_take, length_drop; lia).
  pose proof (proj1 Hok) as Hl8. unfold fr_len in Hl8.
  destruct (Nat.ltb_spec (length (scratch l)) (data_off l + length (fr_bytes f))) as [Hov|Hin].
  { destruct Ht as [-> ->]. split; [done|]. left.
    destruct Hl as [_ _ Hfit _ Hoff _ _]. clia. }
  pose proof (copy_in_ok budget l hs f Hl Hok Hin) as Hl0.
  pose proof (copy_in_length l f Hin) as Hsc.
  destruct ((fr_vad f =? C6_GAP_MARKER) || (fr_len f =? 0)) eqn:Hg.
  { destruct (IH _ (copy_in l f) _ _ Ht Hc Hcp Hl0) as [Hn' Hres]; [lia..|]. split; [done|].
    rewrite Hsc in Hres. apply collected_skip; [|done]. unfold audible. by rewrite Hg. }
  assert (audible f = true) as Ha by (unfold audible; by rewrite Hg).
  destruct (Z.ltb_spec budget (used l + 1 + fr_len f)) as [Hbig|Hfits].
  { pose proof (collected_big budget (copy_in l f) hs f (take left (drop (Z.to_nat (start + (i + 1))) H)) Ha Hl0 Hbig) as Hres.
    rewrite Hsc, HW in Hres. unfold copy_in in Hres; cbn [frames] in Hres.
    destruct (frames l); destruct Ht as [-> ->]; by split. }
  pose proof (Forall2_length _ _ _ (lo_frames _ _ _ Hl)) as Hlfr.
  pose proof (lo_used _ _ _ Hl) as Hu. unfold C6_FRAMES_PER_CHUNK in Ht.
  destruct (Z.leb_spec 10 (Z.of_nat (length (frames l)))) as [H10|H10].
  { destruct Ht as [-> ->]. split; [done|]. right. pose proof (lo_count _ _ _ Hl).
    exists [], f. eexists. rewrite app_nil_r. split_and!; [done..|lia|lia]. }
  assert (locals_ok budget (keep_in l f) (hs ++ [f])) as Hl1 by (apply keep_in_ok; [done..|lia]).
  destruct (IH _ (keep_in l f) _ _ Ht Hc Hcp Hl1) as [Hn' Hres]; [lia..|]. split; [done|].
  apply collected_keep; [done|]. simpl in Hres. by rewrite write_at_length in Hres.
Qed.
End Collect.

(** ** Shipping *)

(** One packet of the replay went out. *)
Definition one_packet (budget seq flags : Z) (body : list (list Z)) (log : list (list Z * Z)) : Prop :=
  exists raw rc p, log = [(raw, rc)] /\ carries raw p /\
    Server.version p = 1 /\ Server.ptype p = Server.MEMORY_CHUNK /\
    Server.chunk_seq p = seq /\ Server.flags p = flags /\ Server.frames p = body /\
    Z.of_nat (length raw) <= C6_HEADER_LEN + budget.

Lemma ship_one sc off budget lst fs hs seq pkt t seq' pkt' :
  exec (ship (length fs) budget lst sc fs seq pkt) t (seq', pkt') ->
  Forall2 (holds sc off) fs hs -> Forall hist_frame_ok hs -> fs <> [] ->
  size_of hs <= budget -> (length hs <= 10)%nat -> is_u32 seq ->
  Z.of_nat (length pkt) = PACKET_BUF_CAP ->
  one_packet budget seq (if lst then C6_FLAG_LAST_OF_REQ else 0) (map fr_bytes hs) (notifies t) /\
  seq' = u32 (seq + 1) /\ Z.of_nat (length pkt') = PACKET_BUF_CAP.
Proof.
  intros Ht Hfs Hok Hne Hsz Hlen Hu Hp.
  destruct fs as [|f fs]; [done|]. cbn [ship length] in Ht.
  destruct (take_fit f_len budget 0 (f :: fs)) as [seg rest] eqn:E.
  assert (forall r h, holds sc off r h -> f_len r = fr_len h) as Hlenf by by intros r h (? & _).
  pose proof (size_of_nonneg hs) as H0.
  destruct (take_fit_spec f_len (holds sc off) _ _ _ _ _ _ Hlenf E Hfs ltac:(lia))
    as (hseg & hrest & Efs & Ehs & Hseg & Hrest & Hs & Hmax).
  assert (rest = []) as ->.
  { destruct rest as [|r rest]; [done|]. exfalso.
    apply Forall2_cons_inv_l in Hrest as (h & hs' & Hh & _ & ->).
    specialize (Hmax _ _ eq_refl). rewrite (Hlenf _ _ Hh) in Hmax. subst hs.
    rewrite size_of_app in Hsz. simpl in Hsz. pose proof (size_of_nonneg hs'). lia. }
  inversion Hrest; subst hrest. rewrite app_nil_r in Efs, Ehs. subst seg hseg.
  apply Forall2_cons_inv_l in Hfs as (h & hs' & Hh & Hfs & ->).
  pose proof Hh as (Hl & Hts & Hvad & _).
  pose proof (proj1 (Forall_cons _ _ _) Hok) as [(_ & _ & Hv3 & Hts32) _].
  destruct (vad_some _ Hv3) as [vs Hvs].
  rewrite (c6_of_holds sc off _ (h :: hs')) in Ht by done.
  destruct (write_carries pkt Server.MEMORY_CHUNK vs seq (fr_ts h)
    (if lst then C6_FLAG_LAST_OF_REQ else 0) (h :: hs') Hok Hlen Hp Hu Hts32)
    as (raw & Hw & Hraw & Hcap & Hcar).
  change C6_MEMORY_CHUNK with (Server.ptype_val Server.MEMORY_CHUNK) in Ht.
  rewrite Hts, Hvad, Hvs, Hw in Ht. cbv zeta in Ht.
  destruct (Z.eqb_spec (Z.of_nat (length raw)) 0) as [Hz|_];
    [unfold C6_HEADER_LEN in Hraw; lia|].
  destruct Ht as (rc & t1 & -> & Ht). rewrite Nat2Z.id, take_app_length in *.
  cbn [bind] in Ht. destruct fs; destruct Ht as [-> ?]; simplify_eq.
  all: split_and!; [|done..]; eexists raw, rc, _; split_and!; try done; lia.
Qed.

Lemma ship_empty_one budget flags ts seq pkt t seq' pkt' :
  exec (ship_empty flags ts seq pkt) t (seq', pkt') ->
  0 <= budget -> is_u32 seq -> is_u32 ts -> Z.of_nat (length pkt) = PACKET_BUF_CAP ->
  one_packet budget seq flags [] (notifies t) /\
  seq' = u32 (seq + 1) /\ Z.of_nat (length pkt') = PACKET_BUF_CAP.
Proof.
  intros Ht Hb Hu Hts Hp. unfold ship_empty in Ht.
  destruct (write_carries pkt Server.MEMORY_CHUNK Server.GAP_MARKER seq ts flags [])
    as (raw & Hw & Hraw & Hcap & Hcar); [constructor|simpl; lia|done..|].
  cbn [map] in Hw. change (Server.ptype_val Server.MEMORY_CHUNK) with C6_MEMORY_CHUNK in Hw.
  change (Server.vad_val Server.GAP_MARKER) with C6_GAP_MARKER in Hw. rewrite Hw in Ht.
  simpl in Hraw. unfold C6_HEADER_LEN in Hraw.
  destruct (Z.ltb_spec 0 (Z.of_nat (length raw))); [|lia].
  destruct Ht as (rc & t1 & -> & -> & ?). simplify_eq.
  rewrite Nat2Z.id, take_app_length. split_and!; [|done..].
  eexists raw, rc, _. split_and!; try done. unfold C6_HEADER_LEN. lia.
Qed.

(** ** The whole replay *)

(** Exactly the last packet is flagged. *)
Definition last_flagged (pkts : list Server.AudioPacket) : Prop :=
  exists ps p, pkts = ps ++ [p] /\ Server.flags p = C6_FLAG_LAST_OF_REQ /\
    Forall (fun p => Server.flags p = 0) ps.

(** The frames of [W] went out as memory-chunk packets. *)
Definition replayed (budget seq : Z) (W : list frame) (log : list (list Z * Z)) (seq' : Z)
    : Prop :=
  exists pkts,
    Forall2 carries (map fst log) pkts /\
    Forall (fun p => Server.version p = 1 /\ Server.ptype p = Server.MEMORY_CHUNK) pkts /\
    concat (map Server.frames pkts) = delivered budget (List.filter audible W) /\
    Forall (fun x => Z.of_nat (length (fst x)) <= C6_HEADER_LEN + budget) log /\
    map Server.chunk_seq pkts = seqs seq (length pkts) /\
    seq' = u32 (seq + Z.of_nat (length pkts)) /\ last_flagged pkts.

Lemma replayed_last budget seq W body log seq' :
  is_u32 seq -> one_packet budget seq C6_FLAG_LAST_OF_REQ body log ->
  body = delivered budget (List.filter audible W) -> seq' = u32 (seq + 1) ->
  replayed budget seq W log seq'.
Proof.
  intros Hu (raw & rc & p & -> & Hc & Hv & Hty & Hs & Hf & Hb & Hl) -> ->.
  exists [p]. split_and!; simpl; try done.
  - by apply Forall2_cons_2.
  - by apply Forall_cons_2.
  - by rewrite app_nil_r.
  - by apply Forall_cons_2.
  - by rewrite Hs.
  - by exists [], p.
Qed.

Lemma replayed_cons budget seq W W' body log log' seq' :
  is_u32 seq -> one_packet budget seq 0 body log ->
  delivered budget (List.filter audible W) =
    body ++ delivered budget (List.filter audible W') ->
  replayed budget (u32 (seq + 1)) W' log' seq' -> replayed budget seq W (log ++ log') seq'.
Proof.
  intros Hu (raw & rc & p & -> & Hc & Hv & Hty & Hs & Hf & Hb & Hl) HW
    (pkts & H1 & H2 & H3 & H4 & H5 & -> & ps & q & -> & Hq & Hps).
  exists (p :: ps ++ [q]). split_and!; simpl.
  - by apply Forall2_cons_2.
  - by apply Forall_cons_2.
  - by rewrite HW, H3, Hb.
  - by apply Forall_cons_2.
  - by rewrite Hs, H5.
  - autorewrite with cint. f_equal. lia.
  - exists (p :: ps), q. split_and!; [done..|by apply Forall_cons_2].
Qed.

(** What was kept of a window and what is left of it. *)
Lemma collects_delivered budget hs W W' acc :
  collects budget hs W W' acc -> size_of acc <= budget ->
  delivered budget (List.filter audible W) =
    map fr_bytes acc ++ delivered budget (List.filter audible W').
Proof.
  intros Hc Hs. destruct Hc as [W|Wc f tl Hf Hne Hb|Wc f tl Hn Hw Hf Hb].
  - simpl. by rewrite delivered_fit, app_nil_r.
  - by rewrite List.filter_app, delivered_app, (delivered_fit _ (List.filter audible Wc)).
  - rewrite List.filter_app, Hw. simpl. rewrite Hf. by rewrite delivered_drop.
Qed.

(** Something was consumed, from an empty start. *)
Lemma collects_shorter budget W W' acc :
  collects budget [] W W' acc -> W <> [] -> (length W' < length W)%nat.
Proof.
  intros Hc HW. destruct Hc as [W|Wc f tl Hf Hne Hb|Wc f tl Hn Hw Hf Hb].
  - destruct W; [done|simpl; lia].
  - destruct Wc; [done|]. rewrite length_app. simpl. lia.
  - rewrite length_app. simpl. lia.
Qed.

Lemma collects_acc_in budget hs W W' acc f : collects budget hs W W' acc -> f ∈ acc -> f ∈ W.
Proof.
  intros Hc. destruct Hc as [W|Wc g tl Hf Hne Hb|Wc g tl Hn Hw Hf Hb]; intros Hin.
  - apply list_elem_of_In, filter_In in Hin as [Hin _]. by apply list_elem_of_In.
  - apply list_elem_of_In, filter_In in Hin as [Hin _]. apply elem_of_app. left.
    by apply list_elem_of_In.
  - by apply not_elem_of_nil in Hin.
Qed.

Lemma collects_ok budget hs W W' acc :
  collects budget hs W W' acc -> Forall hist_frame_ok W -> Forall hist_frame_ok acc.
Proof.
  intros Hc HW. apply Forall_forall. intros f Hf.
  apply (proj1 (Forall_forall _ _) HW). by eapply collects_acc_in.
Qed.

(** What was collected goes out as one packet, an empty one for silence. *)
Lemma batch_shipped budget left l acc seq pkt t seq' pkt' lst :
  exec (match frames l with
        | [] => ship_empty (if (lst : bool) then C6_FLAG_LAST_OF_REQ else 0) (first_rel_ts l) seq pkt
        | fs => ship (length fs) budget lst (scratch l) fs seq pkt
        end) t (seq', pkt') ->
  locals_ok budget l acc -> Forall hist_frame_ok acc -> 0 <= budget -> is_u32 seq ->
  Z.of_nat (length pkt) = PACKET_BUF_CAP -> lst = (match left with O => true | _ => false end) ->
  one_packet budget seq (match left with O => C6_FLAG_LAST_OF_REQ | S _ => 0 end)
    (map fr_bytes acc) (notifies t) /\
  seq' = u32 (seq + 1) /\ Z.of_nat (length pkt') = PACKET_BUF_CAP.
Proof.
  intros Ht Hl Hacc Hb Hu Hp Hlst. pose proof (lo_frames _ _ _ Hl) as Hfr.
  pose proof (lo_fit _ _ _ Hl) as Hfit. rewrite Z.max_r in Hfit by done.
  replace (match left with O => C6_FLAG_LAST_OF_REQ | S _ => 0 end)
    with (if lst then C6_FLAG_LAST_OF_REQ else 0) by (subst lst; by destruct left).
  destruct (frames l) as [|f fs] eqn:Ef.
  - assert (acc = []) as -> by (by apply (locals_nil _ _ _ Hl)).
    eapply ship_empty_one; try done. apply (lo_ts _ _ _ Hl).
  - eapply ship_one; try done. apply (lo_count _ _ _ Hl).
Qed.

(** The rest of a window is its end. *)
Lemma collects_suffix budget hs W W' acc :
  collects budget hs W W' acc -> W' = drop (length W - length W') W.
Proof.
  intros Hc. destruct Hc as [W|Wc f tl Hf Hne Hb|Wc f tl Hn Hw Hf Hb].
  - simpl. by rewrite Nat.sub_0_r, drop_all.
  - rewrite length_app. simpl. replace (_ + _ - _)%nat with (length Wc) by lia.
    by rewrite drop_app_length.
  - rewrite length_app. simpl.
    replace (length Wc + S (length tl) - length tl)%nat with (length (Wc ++ [f]))
      by (rewrite length_app; simpl; lia).
    change (f :: tl) with ([f] ++ tl). by rewrite app_assoc, drop_app_length.
Qed.

Section Outer.
Context (H : list frame) (lo hi : Z).
Context (HH : Forall hist_frame_ok H) (HL : Z.of_nat (length H) < 4294967296).

(** Where the outer loop can go wrong: some batch of it overflows. *)
Definition batch_overflows (budget : Z) (cap : nat) (W : list frame) : Prop :=
  exists k, overflows budget cap [] (drop k W).

Lemma outer_spec fuel left start N budget sc seq pkt t r :
  exec (outer fuel left start N budget sc seq pkt) t r ->
  Forall (consistent H lo hi) t -> Forall copied t ->
  (left <= fuel)%nat -> (0 < left)%nat -> 0 <= start -> Z.of_nat left <= N ->
  start + N <= Z.of_nat (length H) -> 0 <= budget -> is_u32 seq ->
  Z.of_nat (length pkt) = PACKET_BUF_CAP ->
  let W := take left (drop (Z.to_nat (start + N - Z.of_nat left)) H) in
  match r with
  | Some (seq', pkt') => replayed budget seq W (notifies t) seq' /\
      Z.of_nat (length pkt') = PACKET_BUF_CAP
  | None => batch_overflows budget (length sc) W
  end.
Proof.
  revert left sc seq pkt t. induction fuel as [|fuel IH];
    intros left sc seq pkt t Ht Hc Hcp Hfuel Hleft Hst HN Hn Hb Hu Hp W; [lia|].
  destruct left as [|left]; [lia|].
  cbn [outer] in Ht. apply exec_bind in Ht as (t1 & t2 & c & -> & Hcol & Ht).
  apply Forall_app in Hc as [Hc1 Hc2]. apply Forall_app in Hcp as [Hcp1 Hcp2].
  assert (locals_ok budget (Locals sc [] 0 0 0) []) as Hl0.
  { split; simpl; [constructor|done|lia..|clia]. }
  destruct (replay_collect_spec H lo hi HH HL _ _ _ _ _ _ _ _ Hcol Hc1 Hcp1 Hl0) as [Hn1 Hres]; [lia..|].
  replace (start + (N - Z.of_nat (S left))) with (start + N - Z.of_nat (S left)) in Hres by lia.
  change (take (S left) (drop (Z.to_nat (start + N - Z.of_nat (S left))) H)) with W in Hres.
  assert (length W = S left) as HlW by (unfold W; rewrite length_take, length_drop; lia).
  rewrite notifies_app, Hn1. cbn [app].
  destruct c as [l left'|]; cycle 1.
  { destruct Ht as [_ ->]. exists 0%nat. by rewrite drop_0. }
  destruct Hres as (W' & acc & Hcs & HlW' & Hl & Hsc & Hnil). simpl in Hl, Hnil, Hsc.
  apply exec_bind in Ht as (t3 & t4 & [seq1 pkt1] & -> & Hship & Ht).
  apply Forall_app in Hc2 as [_ Hc4]. apply Forall_app in Hcp2 as [_ Hcp4].
  rewrite notifies_app. pose proof (lo_fit _ _ _ Hl) as Hfit. rewrite Z.max_r in Hfit by done.
  assert (Forall hist_frame_ok acc) as Hacc
    by (eapply collects_ok; [exact Hcs|]; by apply Forall_take, Forall_drop).
  pose proof (collects_delivered _ _ _ _ _ Hcs Hfit) as Hdel.
  destruct (batch_shipped _ left' _ _ _ _ _ _ _ _ Hship Hl Hacc Hb Hu Hp eq_refl) as (Hone & -> & Hp1).
  assert (W <> []) as HWne by (intros E; by rewrite E in HlW).
  pose proof (collects_shorter _ _ _ _ Hcs HWne) as Hshort.
  pose proof (collects_suffix _ _ _ _ _ Hcs) as Hsuf.
  destruct left' as [|left'].
  - destruct fuel; destruct Ht as [-> ->]; rewrite app_nil_r; (split; [|done]);
      (eapply replayed_last; [done..| |done]); rewrite Hdel;
      (destruct W'; [|done]); simpl; by rewrite app_nil_r.
  - specialize (IH (S left') (scratch l) (u32 (seq + 1)) pkt1 t4 Ht Hc4 Hcp4).
    assert (take (S left') (drop (Z.to_nat (start + N - Z.of_nat (S left'))) H) = W') as EW'.
    { rewrite Hsuf, HlW, HlW'. unfold W. rewrite skipn_firstn_comm, drop_drop.
      f_equal; [lia|]. f_equal. lia. }
    rewrite EW' in IH.
    destruct r as [[seq' pkt']|].
    + destruct IH as [HI ?]; [lia..|auto with cint|done|]. split; [|done].
      by eapply replayed_cons.
    + destruct IH as [k Hk]; [lia..|auto with cint|done|]. rewrite Hsc in Hk.
      exists (length W - length W' + k)%nat. by rewrite <-drop_drop, <-Hsuf.
Qed.
End Outer.

(** Eleven audible frames at the front of a window fit one packet. *)
Definition eleven_fit (budget : Z) (W : list frame) : Prop :=
  exists Wc f tl, W = Wc ++ f :: tl /\ audible f = true /\
    length (List.filter audible Wc) = 10%nat /\
    size_of (List.filter audible Wc) + 1 + fr_len f <= budget.

Lemma size_of_take_mono n m fs : (n <= m)%nat -> size_of (take n fs) <= size_of (take m fs).
Proof.
  revert n m. induction fs as [|f fs IH]; intros [|n] [|m] Hnm; simpl; try lia.
  - pose proof (size_of_nonneg (take m fs)). pose proof (fr_len_nonneg f). lia.
  - specialize (IH n m). lia.
Qed.

(** Two cuts of the same filtered window. *)
Lemma cut_size Wc f tl Vc g vl :
  Wc ++ f :: tl = Vc ++ g :: vl -> audible f = true -> audible g = true ->
  (length (List.filter audible Vc) <= length (List.filter audible Wc))%nat ->
  size_of (List.filter audible Vc) + 1 + fr_len g <=
  size_of (List.filter audible Wc) + 1 + fr_len f.
Proof.
  intros E Hf Hg Hl. apply (f_equal (List.filter audible)) in E.
  rewrite !List.filter_app in E. simpl in E. rewrite Hf, Hg in E.
  set (a := List.filter audible Wc) in *. set (b := List.filter audible Vc) in *.
  assert (forall x h y, size_of (take (S (length x)) (x ++ h :: y)) = size_of x + 1 + fr_len h)
    as Hsz.
  { intros x h y. rewrite take_app, take_ge by lia.
    replace (S (length x) - length x)%nat with 1%nat by lia. simpl.
    rewrite take_0, size_of_app. simpl. lia. }
  rewrite <-(Hsz a f (List.filter audible tl)), <-(Hsz b g (List.filter audible vl)), <-E.
  apply size_of_take_mono. lia.
Qed.

Lemma collects_not_eleven budget W W' acc :
  collects budget [] W W' acc -> (length acc <= 10)%nat -> ~ eleven_fit budget W.
Proof.
  intros Hc Hl (Vc & g & vl & E & Hg & H10 & Hsz).
  destruct Hc as [W|Wc f tl Hf Hne Hb|Wc f tl Hn Hw Hf Hb]; simpl in *.
  - subst W. rewrite List.filter_app in Hl. simpl in Hl. rewrite Hg, length_app in Hl.
    simpl in Hl. lia.
  - symmetry in E. pose proof (cut_size _ _ _ _ _ _ E Hg Hf) as Hcut. lia.
  - symmetry in E. pose proof (cut_size _ _ _ _ _ _ E Hg Hf) as Hcut.
    rewrite Hw in Hcut. simpl in Hcut. lia.
Qed.

(** The window of a replay. *)
Definition window (H : list frame) (seconds w : Z) : list frame :=
  let '(start, n) := replay_window seconds w in take (Z.to_nat n) (drop (Z.to_nat start) H).

Section ReplaySpec.
Context (H : list frame) (lo hi : Z).
Context (HH : Forall hist_frame_ok H) (HL : Z.of_nat (length H) < 4294967296).

(** [drain_replay] from the two reads on. *)
Lemma drain_replay_cases seconds seq pkt sc t r :
  exec (drain_replay seconds seq pkt sc) t r -> Forall (consistent H lo hi) t ->
  REQ_BUFFER_MIN_SECONDS <= seconds <= REQ_BUFFER_MAX_SECONDS ->
  exists w mtu t', t = Ev ring_buffer_write_index w :: Ev ble_link_att_mtu mtu :: t' /\
    0 <= w <= Z.of_nat (length H) /\ is_u16 mtu /\
    let N := Z.min (seconds * 50) (Z.min RING_FRAMES w) in
    replay_window seconds w = (w - N, N) /\
    (N = 0 /\ (exists q, r = Some q /\ exec (ship_empty C6_FLAG_LAST_OF_REQ 0 seq pkt) t' q) \/
     0 < N /\ exec (outer (Z.to_nat N) (Z.to_nat N) (w - N) N (budget_of mtu) sc seq pkt) t' r).
Proof.
  intros Ht Hc Hs. unfold REQ_BUFFER_MIN_SECONDS, REQ_BUFFER_MAX_SECONDS in Hs.
  destruct Ht as (w & t1 & -> & Ht). apply Forall_cons in Hc as [Hw Hc]. simpl in Hw.
  destruct Ht as (mtu & t2 & -> & Ht). apply Forall_cons in Hc as [Hm _]. simpl in Hm.
  exists w, mtu, t2. split; [done|]. split; [done|]. split; [done|]. cbv zeta.
  assert (is_u32 w) as Hw32 by clia.
  pose proof (replay_window_min seconds w Hw32 ltac:(lia)) as Hwin. split; [exact Hwin|].
  unfold replay_window in Hwin. cbv zeta in Hwin. injection Hwin as Hst HN.
  rewrite Hst, HN in Ht. set (N := Z.min (seconds * 50) (Z.min RING_FRAMES w)) in *.
  cbn [bind] in Ht. assert (0 <= N) by (unfold N; rewrite RING_FRAMES_val; lia).
  destruct (Z.leb_spec N 0); [left|right; split; [lia|exact Ht]]. split; [lia|].
  apply exec_bind in Ht as (t3 & t4 & q & -> & Hq & [-> ->]). rewrite app_nil_r. eauto.
Qed.

Lemma drain_replay_result seconds seq pkt sc t r :
  exec (drain_replay seconds seq pkt sc) t r -> Forall (consistent H lo hi) t -> Forall copied t ->
  REQ_BUFFER_MIN_SECONDS <= seconds <= REQ_BUFFER_MAX_SECONDS -> is_u32 seq ->
  Z.of_nat (length pkt) = PACKET_BUF_CAP ->
  exists w mtu, Ev ring_buffer_write_index w ∈ t /\ Ev ble_link_att_mtu mtu ∈ t /\
    is_u16 mtu /\
    match r with
    | Some (seq', pkt') =>
        replayed (budget_of mtu) seq (window H seconds w) (notifies t) seq' /\
        Z.of_nat (length pkt') = PACKET_BUF_CAP /\
        ~ (length sc = Z.to_nat SCRATCH_CAP /\ eleven_fit (budget_of mtu) (window H seconds w))
    | None => batch_overflows (budget_of mtu) (length sc) (window H seconds w)
    end.
Proof.
  intros Ht Hc Hcp Hs Hu Hp.
  destruct (drain_replay_cases _ _ _ _ _ _ Ht Hc Hs)
    as (w & mtu & t' & -> & Hw & Hm & Hwin & Hcase).
  set (N := Z.min (seconds * 50) (Z.min RING_FRAMES w)) in *.
  exists w, mtu. split; [left|]. split; [right; left|]. split; [done|].
  apply Forall_cons in Hc as [_ Hc]. apply Forall_cons in Hc as [_ Hc].
  apply Forall_cons in Hcp as [_ Hcp]. apply Forall_cons in Hcp as [_ Hcp].
  destruct (budget_of_range mtu Hm) as [Hb _].
  change (notifies (Ev ring_buffer_write_index w :: Ev ble_link_att_mtu mtu :: t'))
    with (notifies t').
  unfold window. rewrite Hwin.
  destruct Hcase as [(HN & [seq' pkt'] & -> & Hq)|[HN Hout]].
  - rewrite HN. simpl. destruct (ship_empty_one (budget_of mtu) _ _ _ _ _ _ _ Hq Hb Hu)
      as (Hone & -> & Hp'); [clia|done|].
    split; [by eapply replayed_last|]. split; [done|]. intros [_ (Wc & f & tl & E & _)]. by destruct Wc.
  - pose proof (outer_spec H lo hi HH HL _ _ _ _ _ _ _ _ _ _ Hout Hc Hcp) as Hspec.
    replace (w - N + N - Z.of_nat (Z.to_nat N)) with (w - N) in Hspec by lia.
    assert (0 <= w - N) by (unfold N; lia).
    destruct r as [[seq' pkt']|]; [|apply Hspec; try done; lia].
    split; [apply Hspec; try done; lia|]. split; [apply Hspec; try done; lia|]. intros [_ H11].
    destruct (Z.to_nat N) as [|n] eqn:En; [lia|]. cbn [outer] in Hout.
    apply exec_bind in Hout as (t1 & t2 & c & -> & Hcol & Hout).
    apply Forall_app in Hc as [Hc1 _]. apply Forall_app in Hcp as [Hcp1 _].
    assert (locals_ok (budget_of mtu) (Locals sc [] 0 0 0) []) as Hl0.
    { split; simpl; [constructor|done|lia..|clia]. }
    destruct (replay_collect_spec H lo hi HH HL _ _ _ _ _ _ _ _ Hcol Hc1 Hcp1 Hl0) as [_ Hres]; [lia..|].
    replace (w - N + (N - Z.of_nat (S n))) with (w - N) in Hres by lia.
    destruct c as [l left'|]; [|by destruct Hout].
    destruct Hres as (W' & acc & Hcs & _ & Hl & _). simpl in Hl.
    by eapply collects_not_eleven; [exact Hcs|apply (lo_count _ _ _ Hl)|].
Qed.
End ReplaySpec.

(** ** Theorems *)



(** ** Witnesses *)

Definition demo_pkt : list Z := replicate (Z.to_nat PACKET_BUF_CAP) 0.
Definition demo_scratch : list Z := replicate (Z.to_nat SCRATCH_CAP) 0.

(** A one-second replay of [demo_history] at a given MTU. *)
Definition demo_replay (mtu : Z) : list (ev drainE) * option (Z * list Z) :=
  fst (run (sim demo_history mtu) (drain_replay 1 0 demo_pkt demo_scratch) tt).

Lemma demo_replay_exec mtu :
  exec (drain_replay 1 0 demo_pkt demo_scratch) (fst (demo_replay mtu)) (snd (demo_replay mtu)).
Proof. apply run_exec_fst. Qed.

Lemma demo_replay_consistent mtu lo hi :
  is_u16 mtu -> Forall (consistent demo_history lo hi) (fst (demo_replay mtu)).
Proof. intros. apply sim_trace_consistent; [by vm_compute|done]. Qed.


