(* ===== verification/AudioTask.v ===== *)
(** * openrecall_sensor.c, audio_capture.c, opus_stream.c: the audio task

    One iteration of [audio_task]'s loop: read a stereo frame from the I2S
    driver, and either push a gap marker (capture paused), or run the DC
    blocker, the high-pass filter and the adaptive gate, and push the encoded
    frame or a gap marker.  The microphone driver, the Opus encoder and the
    pause flag (which the executor writes from the other core) answer each
    call freely; the ring, which only this task writes, is part of the
    state. *)

From S2P Require Import Prelude Effects Platform Config DcBlocker Gain Hpf Vad RingBuffer.
From S2P Require Import DrainSpec DrainLive.
Open Scope Z_scope.

(** ** The calls *)

(** What [i2s_channel_init_std_mode] is configured with. *)
Record i2s_cfg : Type := I2sCfg {
  cfg_rate : Z;
  cfg_bclk : Z;
  cfg_ws : Z;
  cfg_din : Z;
  cfg_data_bits : Z;
  cfg_slot_bits : Z;
  cfg_ws_width : Z;
}.

Inductive audioE : Type -> Type :=
| i2s_new_channel (dma_desc_num dma_frame_num : Z) : audioE esp_err_t
| i2s_channel_init_std_mode (cfg : i2s_cfg) : audioE esp_err_t
| i2s_channel_enable : audioE esp_err_t
| i2s_channel_read (want : Z) : audioE (esp_err_t * list Z * Z)
    (** the result, the buffer's samples and [bytes_read] *)
| opus_encoder_create (rate channels : Z) : audioE bool  (** OPUS_OK and non-NULL *)
| opus_set_bitrate (b : Z) : audioE unit
| opus_set_complexity (c : Z) : audioE unit
| opus_set_signal_voice : audioE unit
| opus_encode (pcm : list Z) (frame_size cap : Z) : audioE (Z * list Z)
    (** the return value and the bytes at the head of [out] *)
| audio_gate_paused : audioE bool
| uxTaskGetStackHighWaterMark : audioE Z.

#[local] Abbreviation call := (Effects.call (E := audioE)).

(** ** audio_capture.c *)

Definition audio_capture_init : prog audioE esp_err_t :=
  (let* e := call (i2s_new_channel 6 FRAME_SAMPLES) in
   if negb (esp_ok e) then Ret e else
   let* e := call (i2s_channel_init_std_mode
                     (I2sCfg SAMPLE_RATE I2S_BCK_GPIO I2S_WS_GPIO I2S_DATA_GPIO 16 32 32)) in
   if negb (esp_ok e) then Ret e else
   let* e := call i2s_channel_enable in
   if negb (esp_ok e) then Ret e else Ret ESP_OK)%prog.

(** The deinterleaving loop: [n] pairs of the buffer. *)
Fixpoint deinterleave (n : nat) (stereo : list Z) : list Z * list Z :=
  match n with
  | O => ([], [])
  | S n =>
      let l := nth 0 stereo 0 in
      let r := nth 1 stereo 0 in
      let '(pri, ref) := deinterleave n (drop 2 stereo) in
      if PRIMARY_CHANNEL =? 0 then (l :: pri, r :: ref) else (r :: pri, l :: ref)
  end.

(** [inr] is ESP_OK with the two filled buffers. *)
Definition audio_capture_read_stereo : prog audioE (esp_err_t + list Z * list Z) :=
  (let want := FRAME_SAMPLES * 2 * 2 in
   let* r := call (i2s_channel_read want) in
   let '(err, stereo, bytes_read) := r in
   if negb (esp_ok err) then Ret (inl err)
   else if negb (bytes_read =? want) then Ret (inl ESP_ERR_INVALID_SIZE)
   else Ret (inr (deinterleave (Z.to_nat FRAME_SAMPLES) stereo)))%prog.

(** ** opus_stream.c *)

Definition opus_stream_init : prog audioE esp_err_t :=
  (let* ok := call (opus_encoder_create SAMPLE_RATE CHANNELS) in
   if negb ok then Ret ESP_FAIL else
   call (opus_set_bitrate OPUS_BITRATE) ;;;
   call (opus_set_complexity OPUS_COMPLEXITY) ;;;
   call opus_set_signal_voice ;;;
   Ret ESP_OK)%prog.

Definition opus_stream_encode (pcm : list Z) (cap : Z) : prog audioE (Z * list Z) :=
  (let* r := call (opus_encode pcm FRAME_SAMPLES cap) in
   let '(n, out) := r in
   if n <? 0 then Ret (-1, out) else Ret (n, out))%prog.

(** ** The task *)

(** The locals of [audio_task], the clock it publishes and the ring it
    pushes to. *)
Record audio_st : Type := AudioSt {
  a_vad : vad_t;
  a_dc : dc_blocker_t;
  a_hpf : hpf_t;
  frames : Z;
  voiced : Z;
  gaps : Z;
  total : Z;
  ts : Z;
  acc_pri : Z;
  acc_ref : Z;
  stack_report_at : Z;
  s_rel_ts_ms : Z;
  s_ring : ring;
}.

Definition audio_init (r : ring) : audio_st :=
  AudioSt (vad_init_adaptive VAD_ENERGY_THRESHOLD_FLOOR VAD_NOISE_MULTIPLIER VAD_HANGOVER_FRAMES)
    dc_blocker_init hpf_init 0 0 0 0 0 0 0 3000 0 r.

Definition rel_ts_ms_now (st : audio_st) : Z := s_rel_ts_ms st.

(** [ring_buffer_push(C6_GAP_MARKER, rel_ts_ms, NULL, 0); gaps++]. *)
Definition push_gap (st : audio_st) : audio_st :=
  AudioSt (a_vad st) (a_dc st) (a_hpf st) (frames st) (voiced st) (u32 (gaps st + 1)) (total st)
    (ts st) (acc_pri st) (acc_ref st) (stack_report_at st) (s_rel_ts_ms st)
    (ring_buffer_push (s_ring st) C6_GAP_MARKER (ts st) None 0).

Definition count_gap (st : audio_st) : audio_st :=
  AudioSt (a_vad st) (a_dc st) (a_hpf st) (frames st) (voiced st) (u32 (gaps st + 1)) (total st)
    (ts st) (acc_pri st) (acc_ref st) (stack_report_at st) (s_rel_ts_ms st) (s_ring st).

Definition push_voiced (st : audio_st) (state n : Z) (out : list Z) : audio_st :=
  AudioSt (a_vad st) (a_dc st) (a_hpf st) (frames st) (u32 (voiced st + 1)) (gaps st)
    (u32 (total st + n)) (ts st) (acc_pri st) (acc_ref st) (stack_report_at st) (s_rel_ts_ms st)
    (ring_buffer_push (s_ring st) state (ts st) (Some out) (u8 n)).

(** The calibration accumulators: [acc += (uint64_t)(p * p)]. *)
Definition accumulate (acc : Z) (pcm : list Z) : Z :=
  fold_left (fun a p => u64 (a + u64 (p * p))) pcm acc.

(** The new signal-processing state, with the accumulators. *)
Definition set_dsp (st : audio_st) (v : vad_t) (dc : dc_blocker_t) (h : hpf_t) (ap ar : Z)
  : audio_st :=
  AudioSt v dc h (frames st) (voiced st) (gaps st) (total st) (ts st) ap ar
    (stack_report_at st) (s_rel_ts_ms st) (s_ring st).

(** [frame_tail]: the counters, the clock, the two reports. *)
Definition frame_tail (st : audio_st) : prog audioE audio_st :=
  (let frames' := u32 (frames st + 1) in
   let ts' := u32 (ts st + FRAME_MS) in
   let* report :=
     (if frames' =? stack_report_at st
      then call uxTaskGetStackHighWaterMark ;;; Ret (u32 (stack_report_at st + 3000))
      else Ret (stack_report_at st)) in
   let second := frames' mod (1000 / FRAME_MS) =? 0 in
   Ret (AudioSt (a_vad st) (a_dc st) (a_hpf st) frames' (voiced st) (gaps st)
          (if second then 0 else total st) ts'
          (if second then 0 else acc_pri st) (if second then 0 else acc_ref st)
          report ts' (s_ring st)))%prog.

(** The live branch: filter, classify, encode or mark a gap. *)
Definition capture_frame (st : audio_st) (pri ref : list Z) : prog audioE audio_st :=
  (let ap := accumulate (acc_pri st) pri in
   let ar := accumulate (acc_ref st) ref in
   let '(dc, pri) := dc_blocker_process (a_dc st) pri in
   let '(h, pri) := hpf_process (a_hpf st) pri in
   let '(v, state) := vad_process_single_adaptive (a_vad st) pri in
   let st := set_dsp st v dc h ap ar in
   if (state =? C6_SPEECH) || (state =? C6_HANGOVER) then
     let pri := gain_apply pri INPUT_GAIN_Q8 in
     let* r := opus_stream_encode pri MAX_OPUS_BYTES in
     let '(n, out) := r in
     if (0 <? n) && (n <=? 255) then Ret (push_voiced st state n out) else Ret (count_gap st)
   else Ret (push_gap st))%prog.

(** One iteration of [audio_task]'s loop. *)
Definition audio_iteration (st : audio_st) : prog audioE audio_st :=
  (let* r := audio_capture_read_stereo in
   match r with
   | inl _ => Ret st
   | inr (pri, ref) =>
       let* paused := call audio_gate_paused in
       let* st := (if paused then Ret (push_gap st) else capture_frame st pri ref) in
       frame_tail st
   end)%prog.

Fixpoint audio_task (n : nat) (st : audio_st) : prog audioE audio_st :=
  match n with
  | O => Ret st
  | S n => let* st := audio_iteration st in audio_task n st
  end%prog.

(** ** Traces *)

(** The documented behaviour of the driver and of libopus: a read fills the
    buffer with int16 samples; a positive result of [opus_encode] counts the
    bytes it wrote, at most its capacity. *)
Definition audio_honest (e : ev audioE) : Prop :=
  match e with
  | Ev e x =>
      match e in audioE X return X -> Prop with
      | i2s_channel_read want => fun r =>
          2 * Z.of_nat (length (snd (fst r))) = want /\ Forall is_s16 (snd (fst r))
      | opus_encode _ _ cap => fun r =>
          0 < fst r -> fst r <= cap /\ fst r <= Z.of_nat (length (snd r)) /\ bytes_ok (snd r)
      | _ => fun _ => True
      end x
  end.

(** The call satisfies the preconditions of [opus_encode]: 20 ms of int16
    samples at 16 kHz, and a buffer of [MAX_OPUS_BYTES]. *)
Definition encoder_input_ok (e : ev audioE) : Prop :=
  match e with
  | Ev (opus_encode pcm frame_size cap) _ =>
      Z.of_nat (length pcm) = FRAME_SAMPLES /\ Forall is_s16 pcm /\
      frame_size = FRAME_SAMPLES /\ cap = MAX_OPUS_BYTES
  | _ => True
  end.

(** A frame was read (the pause flag is read once per frame). *)
Definition is_frame (e : ev audioE) : bool :=
  match e with Ev audio_gate_paused _ => true | _ => false end.

(** The pause flag was read as set. *)
Definition is_pause (e : ev audioE) : bool :=
  match e with
  | Ev e x =>
      match e in audioE X return X -> bool with
      | audio_gate_paused => fun b => b
      | _ => fun _ => false
      end x
  end.

Definition is_encode (e : ev audioE) : bool :=
  match e with Ev (opus_encode _ _ _) _ => true | _ => false end.

Definition encode_fails (e : ev audioE) : bool :=
  match e with
  | Ev e x =>
      match e in audioE X return X -> bool with
      | opus_encode _ _ _ => fun r => negb ((0 <? fst r) && (fst r <=? 255))
      | _ => fun _ => false
      end x
  end.

Definition count (p : ev audioE -> bool) (t : list (ev audioE)) : Z :=
  Z.of_nat (length (List.filter p t)).

Lemma count_app p t1 t2 : count p (t1 ++ t2) = count p t1 + count p t2.
Proof. unfold count. rewrite List.filter_app, length_app. lia. Qed.

Lemma count_cons p e t : count p (e :: t) = (if p e then 1 else 0) + count p t.
Proof. unfold count. simpl. case_match; cbn [length]; lia. Qed.

(** The bytes the encoder produced, per successful call. *)
Definition encoded_by (e : ev audioE) : list (list Z) :=
  match e with
  | Ev e x =>
      match e in audioE X return X -> list (list Z) with
      | opus_encode _ _ _ => fun r =>
          if (0 <? fst r) && (fst r <=? 255) then [take (Z.to_nat (fst r)) (snd r)] else []
      | _ => fun _ => []
      end x
  end.

Definition encoded (t : list (ev audioE)) : list (list Z) := concat (map encoded_by t).

Lemma encoded_app t1 t2 : encoded (t1 ++ t2) = encoded t1 ++ encoded t2.
Proof. unfold encoded. by rewrite map_app, concat_app. Qed.

(** The bytes of the audible frames of a history. *)
Definition voice (H : list frame) : list (list Z) := map fr_bytes (List.filter audible H).

Lemma voice_app H1 H2 : voice (H1 ++ H2) = voice H1 ++ voice H2.
Proof. unfold voice. by rewrite List.filter_app, map_app. Qed.

(** What one frame does to the history: nothing when the encoder failed. *)
Inductive frame_step (st : audio_st) : list (ev audioE) -> audio_st -> option frame -> Prop :=
| fs_gap v dc h ap ar :
    frame_step st [] (push_gap (set_dsp st v dc h ap ar))
      (Some (Frame C6_GAP_MARKER (ts st) []))
| fs_voiced v dc h ap ar state pcm n out :
    state = C6_SPEECH \/ state = C6_HANGOVER -> 0 < n <= 255 ->
    frame_step st [Ev (opus_encode pcm FRAME_SAMPLES MAX_OPUS_BYTES) (n, out)]
      (push_voiced (set_dsp st v dc h ap ar) state n out)
      (Some (Frame state (ts st) (take (Z.to_nat n) out)))
| fs_error v dc h ap ar pcm n out :
    ~ 0 < n <= 255 ->
    frame_step st [Ev (opus_encode pcm FRAME_SAMPLES MAX_OPUS_BYTES) (n, out)]
      (count_gap (set_dsp st v dc h ap ar)) None.

(** The signal-processing state, on which no arithmetic overflows. *)
Record dsp_ok (st : audio_st) : Prop := {
  dsp_dc : dc_ok (a_dc st);
  dsp_hpf : hpf_ok (a_hpf st);
  dsp_vad : adaptive_ok (a_vad st);
}.

Lemma set_dsp_id st :
  set_dsp st (a_vad st) (a_dc st) (a_hpf st) (acc_pri st) (acc_ref st) = st.
Proof. by destruct st. Qed.

(** ** Lemmas *)

Lemma deinterleave_spec n stereo :
  Forall is_s16 stereo ->
  let '(pri, ref) := deinterleave n stereo in
  length pri = n /\ length ref = n /\ Forall is_s16 pri /\ Forall is_s16 ref.
Proof.
  revert stereo. induction n as [|n IH]; intros stereo Hs; [done|]. cbn [deinterleave].
  assert (forall i, is_s16 (nth i stereo 0)) as Hn.
  { intros i. destruct (nth_in_or_default i stereo 0) as [Hi| ->]; [|by split].
    rewrite Forall_forall in Hs. by apply Hs, list_elem_of_In. }
  specialize (IH (drop 2 stereo) (Forall_drop _ 2 _ Hs)).
  destruct (deinterleave n (drop 2 stereo)) as [pri ref].
  destruct IH as (H1 & H2 & H3 & H4). unfold PRIMARY_CHANNEL. simpl.
  split_and!; try lia; by constructor.
Qed.

#[global] Arguments deinterleave : simpl never.

Lemma read_cases t r :
  exec audio_capture_read_stereo t r ->
  (exists x e, t = [Ev (i2s_channel_read 1280) x] /\ r = inl e) \/
  (exists stereo, t = [Ev (i2s_channel_read 1280) (ESP_OK, stereo, 1280)] /\
     r = inr (deinterleave (Z.to_nat FRAME_SAMPLES) stereo)).
Proof.
  unfold audio_capture_read_stereo.
  change (FRAME_SAMPLES * 2 * 2) with 1280. simpl.
  intros ([[err stereo] n] & t' & -> & H).
  destruct (esp_ok err) eqn:He; simpl in H.
  - apply esp_ok_true in He as ->. destruct (Z.eqb_spec n 1280) as [->|]; simpl in H;
      destruct H as [-> ->]; eauto.
  - destruct H as [-> ->]; eauto.
Qed.

Lemma tail_spec st t st' :
  exec (frame_tail st) t st' ->
  (t = [] \/ exists x, t = [Ev uxTaskGetStackHighWaterMark x]) /\
  a_vad st' = a_vad st /\ a_dc st' = a_dc st /\ a_hpf st' = a_hpf st /\
  frames st' = u32 (frames st + 1) /\ voiced st' = voiced st /\ gaps st' = gaps st /\
  ts st' = u32 (ts st + FRAME_MS) /\ s_rel_ts_ms st' = ts st' /\ s_ring st' = s_ring st.
Proof.
  unfold frame_tail. intros H. apply exec_bind in H as (t1 & t2 & rep & -> & H1 & [-> ->]).
  rewrite app_nil_r. split; [|done]. destruct (_ =? _); simpl in H1.
  - destruct H1 as (x & t' & -> & -> & _). eauto.
  - destruct H1 as [-> _]. by left.
Qed.

Lemma capture_spec st stereo t st' :
  dsp_ok st -> Forall is_s16 stereo ->
  (let '(pri, ref) := deinterleave (Z.to_nat FRAME_SAMPLES) stereo in
   exec (capture_frame st pri ref) t st') ->
  (exists o, frame_step st t st' o) /\ dsp_ok st' /\ Forall encoder_input_ok t.
Proof.
  intros [Hdc Hh Hv] Hs. pose proof (deinterleave_spec (Z.to_nat FRAME_SAMPLES) stereo Hs) as Hd.
  destruct (deinterleave _ stereo) as [pri ref]. destruct Hd as (Hl & _ & Hp & _).
  unfold capture_frame.
  destruct (dc_no_overflow (a_dc st) pri Hdc Hp) as (_ & Hdc' & Hp1 & Hl1).
  destruct (dc_blocker_process (a_dc st) pri) as [dc pri1]. simpl in Hdc', Hp1, Hl1.
  destruct (hpf_process_ok (a_hpf st) pri1 Hh Hp1) as (Hh' & Hp2 & Hl2).
  destruct (hpf_process (a_hpf st) pri1) as [h pri2]. simpl in Hh', Hp2, Hl2.
  assert (length pri2 = 320%nat) as Hlen by (rewrite Hl2, Hl1, Hl, FRAME_SAMPLES_val; reflexivity).
  assert (pcm_ok pri2) as Hpcm by (split; [exact Hp2|lia]).
  pose proof (adaptive_step_ok _ _ Hv Hpcm) as Hv'.
  destruct (vad_process_single_adaptive (a_vad st) pri2) as [v state]. simpl in Hv'.
  destruct ((state =? C6_SPEECH) || (state =? C6_HANGOVER)) eqn:Hst.
  - unfold opus_stream_encode. intros H. simpl in H.
    destruct H as ([n out] & t' & -> & H).
    assert (Forall encoder_input_ok
      [Ev (opus_encode (gain_apply pri2 INPUT_GAIN_Q8) FRAME_SAMPLES MAX_OPUS_BYTES) (n, out)])
      as Henc.
    { constructor; [|constructor]. split_and!; [|by apply (gain_exact 1024)|reflexivity|reflexivity].
      unfold gain_apply. rewrite length_map, Hlen. reflexivity. }
    assert (state = C6_SPEECH \/ state = C6_HANGOVER) as Hst'
      by (apply orb_true_iff in Hst; rewrite !Z.eqb_eq in Hst; done).
    destruct (Z.ltb_spec n 0); cbn [bind] in H.
    + simpl in H. destruct H as [-> ->]. split_and!; [|by split|done].
      eexists. apply fs_error. lia.
    + destruct ((0 <? n) && (n <=? 255)) eqn:Hn; simpl in H; destruct H as [-> ->];
        (split_and!; [|by split|done]); eexists; [apply fs_voiced|apply fs_error]; try lia; done.
  - intros [-> ->]. split_and!; [|by split|done]. eexists. apply fs_gap.
Qed.

(** One iteration: nothing, or one frame. *)
Lemma iteration_cases st t st' :
  dsp_ok st -> Forall audio_honest t -> exec (audio_iteration st) t st' ->
  (exists x, t = [Ev (i2s_channel_read 1280) x] /\ st' = st) \/
  (exists x paused t1 t2 st1 o,
     t = Ev (i2s_channel_read 1280) x :: Ev audio_gate_paused paused :: t1 ++ t2 /\
     frame_step st t1 st1 o /\ dsp_ok st1 /\ exec (frame_tail st1) t2 st' /\
     Forall encoder_input_ok t1 /\
     (paused = true -> t1 = [] /\ st1 = push_gap st)).
Proof.
  intros Hd Hh H. unfold audio_iteration in H.
  apply exec_bind in H as (t0 & t3 & r & -> & Hr & H).
  apply read_cases in Hr as [(x & e & -> & ->)|(stereo & -> & ->)].
  { destruct H as [-> ->]. left. eauto. }
  right. destruct (deinterleave _ stereo) as [pri ref] eqn:Hde.
  simpl in H. destruct H as (paused & t4 & -> & H). simpl.
  apply exec_bind in H as (t1 & t2 & st1 & -> & H1 & H2).
  apply Forall_cons_1 in Hh as [Hs _]. cbn in Hs. destruct Hs as [_ Hs].
  destruct paused.
  - destruct H1 as [-> ->]. exists (ESP_OK, stereo, 1280), true, [], t2, (push_gap st).
    eexists. split_and!; [done| |by destruct Hd; split|done|done|done].
    rewrite <-(set_dsp_id st) at 2. apply fs_gap.
  - destruct (capture_spec st stereo t1 st1 Hd Hs) as ([o Ho] & Hd1 & He);
      [by rewrite Hde|].
    exists (ESP_OK, stereo, 1280), false, t1, t2, st1, o. split_and!; done.
Qed.

(** ** The history the task builds *)

Definition increasing (ks : list Z) : Prop :=
  forall i j a b, (i < j)%nat -> ks !! i = Some a -> ks !! j = Some b -> a < b.

Lemma increasing_snoc ks k :
  increasing ks -> Forall (fun a => a < k) ks -> increasing (ks ++ [k]).
Proof.
  intros Hi Hk i j a b Hij Ha Hb. rewrite Forall_lookup in Hk.
  apply lookup_app_Some in Hb as [Hb|[Hlj Hb]].
  - apply lookup_lt_Some in Hb as Hj. rewrite lookup_app_l in Ha by lia. exact (Hi i j a b Hij Ha Hb).
  - apply list_lookup_singleton_Some in Hb as [Hj <-].
    rewrite lookup_app_l in Ha by lia. by apply (Hk i).
Qed.

(** After [K] frames, [errs] of which the encoder refused: the ring presents
    [H], whose frames were captured in the periods [ks]. *)
Record history_ok (st : audio_st) (K errs : Z) (H : list frame) (ks : list Z) : Prop := {
  ho_ring : ring_ok (s_ring st) H;
  ho_frames : Forall hist_frame_ok H;
  ho_pushed : Forall pushed_ok H;
  ho_stamps : map fr_ts H = map (fun k => u32 (k * FRAME_MS)) ks;
  ho_sorted : increasing ks;
  ho_range : Forall (fun k => 0 <= k < K) ks;
  ho_len : Z.of_nat (length H) + errs = K;
  ho_all : errs = 0 -> ks = seqZ 0 K;
  ho_clock : ts st = u32 (K * FRAME_MS) /\ s_rel_ts_ms st = ts st;
  ho_count : frames st = u32 K /\ u32 (voiced st + gaps st) = u32 K;
}.

Lemma frame_step_frame st t st1 fr :
  frame_step st t st1 (Some fr) -> Forall audio_honest t -> is_u32 (ts st) ->
  hist_frame_ok fr /\ pushed_ok fr /\ fr_ts fr = ts st /\ count encode_fails t = 0.
Proof.
  intros Hs Hh Hts. inversion Hs as [|? ? ? ? ? state pcm n out Hst Hn|]; subst.
  - split_and!; [|by left|done|done].
    unfold hist_frame_ok, fr_len. simpl.
    split; [clia|]. split; [constructor|]. split; [clia|done].
  - apply Forall_cons_1 in Hh as [Hh _]. cbn in Hh. destruct Hh as (Hc & Hl & Hb); [lia|].
    assert (fr_len (Frame state (ts st) (take (Z.to_nat n) out)) = n) as Hlen.
    { unfold fr_len. cbn [fr_bytes]. rewrite length_take. lia. }
    split_and!.
    + unfold hist_frame_ok. rewrite Hlen. split_and!; try apply Hts; try by apply Forall_take.
      all: simpl; destruct Hst as [-> | ->]; clia.
    + right. rewrite Hlen. split; [|lia]. by destruct Hst as [-> | ->].
    + done.
    + unfold count. simpl. replace (0 <? n) with true by lia.
      by replace (n <=? 255) with true by lia.
Qed.

Lemma history_extends st t1 st1 o t2 st' K errs H ks :
  history_ok st K errs H ks -> 0 <= errs -> 0 <= K < 4294967295 ->
  frame_step st t1 st1 o -> Forall audio_honest t1 -> exec (frame_tail st1) t2 st' ->
  history_ok st' (K + 1) (errs + count encode_fails t1) (H ++ option_list o)
    (ks ++ match o with Some _ => [K] | None => [] end).
Proof.
  intros [Hr Hf Hp Hst Hs Hra Hl Ha [Hc1 Hc2] [Hn1 Hn2]] He HK Hstep Hh Htail.
  apply tail_spec in Htail as (_ & _ & _ & _ & Tf & Tv & Tg & Tt & Tr & Ts).
  assert (is_u32 (ts st)) as Hu by (rewrite Hc1; apply u32_range).
  assert (frames st1 = frames st /\ ts st1 = ts st /\
          u32 (voiced st1 + gaps st1) = u32 (voiced st + gaps st + 1)) as (F1 & F2 & F3).
  { inversion Hstep; subst; simpl; autorewrite with cint; split_and!; try done; f_equal; lia. }
  assert (u32 (K * FRAME_MS + FRAME_MS) = u32 ((K + 1) * FRAME_MS)) as HK1 by (f_equal; lia).
  destruct o as [fr|].
  - destruct (frame_step_frame _ _ _ _ Hstep Hh Hu) as (Hfr & Hpr & Hts & Hz).
    rewrite Hz. cbn [option_list]. split.
    + rewrite Ts. inversion Hstep as [|? ? ? ? ? state pcm n out Hvs Hn|]; subst.
      * simpl. apply ring_push_ok; [done|by split|]. clia.
      * apply Forall_cons_1 in Hh as [Hh _]. cbn in Hh. destruct Hh as (_ & Hl' & _); [lia|].
        simpl. rewrite u8_small by clia. apply ring_push_ok; [done| |clia].
        split; [clia|]. done.
    + apply Forall_app. split; [done|]. by constructor.
    + apply Forall_app. split; [done|]. by constructor.
    + rewrite !map_app. f_equal; [done|]. simpl. by rewrite Hts, Hc1.
    + apply increasing_snoc; [done|]. eapply Forall_impl; [exact Hra|]. simpl. lia.
    + apply Forall_app. split; [eapply Forall_impl; [exact Hra|]; simpl; lia|].
      constructor; [lia|done].
    + rewrite length_app. simpl. lia.
    + intros Hz'. rewrite Ha by lia. rewrite seqZ_app by lia. done.
    + rewrite Tr. split; [|done]. by rewrite Tt, F2, Hc1, u32_add_l, HK1.
    + rewrite Tf, Tv, Tg, F1, F3, Hn1, u32_add_l. split; [done|].
      by rewrite <-u32_add_l, Hn2, u32_add_l.
  - inversion Hstep as [| |? ? ? ? ? pcm n out Hbad]; subst.
    assert (count encode_fails
      [Ev (opus_encode pcm FRAME_SAMPLES MAX_OPUS_BYTES) (n, out)] = 1) as ->.
    { unfold count. simpl. destruct (Z.ltb_spec 0 n); destruct (Z.leb_spec n 255); simpl; lia. }
    cbn [option_list]. rewrite !app_nil_r. split; try done.
    + by rewrite Ts.
    + eapply Forall_impl; [exact Hra|]. simpl. lia.
    + lia.
    + lia.
    + rewrite Tr. split; [|done]. by rewrite Tt, F2, Hc1, u32_add_l, HK1.
    + rewrite Tf, Tv, Tg, F1, F3, Hn1, u32_add_l. split; [done|].
      by rewrite <-u32_add_l, Hn2, u32_add_l.
Qed.

Lemma frame_step_counts st t1 st1 o : frame_step st t1 st1 o -> count is_frame t1 = 0.
Proof. by inversion 1. Qed.

Lemma tail_counts st t st' :
  exec (frame_tail st) t st' ->
  count is_frame t = 0 /\ count encode_fails t = 0 /\ Forall encoder_input_ok t.
Proof.
  intros H. apply tail_spec in H as ([-> | (x & ->)] & _); split_and!; try done.
  by repeat constructor.
Qed.

Lemma tail_dsp st t st' : exec (frame_tail st) t st' -> dsp_ok st -> dsp_ok st'.
Proof.
  intros H [? ? ?]. apply tail_spec in H as (_ & Hv & Hd & Hh & _).
  split; by rewrite ?Hv, ?Hd, ?Hh.
Qed.

(** What is pushed is what was encoded. *)
Lemma frame_step_encoded st t1 st1 o :
  frame_step st t1 st1 o -> Forall audio_honest t1 -> voice (option_list o) = encoded t1.
Proof.
  intros Hs Hh. inversion Hs as [|? ? ? ? ? state pcm n out Hst Hn|? ? ? ? ? pcm n out Hbad]; subst.
  - done.
  - apply Forall_cons_1 in Hh as [Hh _]. cbn in Hh. destruct Hh as (_ & Hl & _); [lia|].
    unfold voice, encoded, audible, fr_len. cbn.
    replace (0 <? n) with true by lia. replace (n <=? 255) with true by lia.
    rewrite length_take. destruct (Z.eqb_spec (Z.of_nat (Z.to_nat n `min` length out)) 0); [lia|].
    by destruct Hst as [-> | ->].
  - unfold voice, encoded. cbn.
    by destruct (Z.ltb_spec 0 n); destruct (Z.leb_spec n 255); simpl; try lia.
Qed.

Lemma tail_encoded st t st' : exec (frame_tail st) t st' -> encoded t = [].
Proof. intros H. by apply tail_spec in H as ([-> | (x & ->)] & _). Qed.

Lemma audio_task_history n st t st' K errs H ks :
  exec (audio_task n st) t st' -> Forall audio_honest t -> dsp_ok st ->
  history_ok st K errs H ks -> 0 <= errs -> 0 <= K -> K + Z.of_nat n < 4294967296 ->
  exists Hn ks', history_ok st' (K + count is_frame t) (errs + count encode_fails t) (H ++ Hn) ks' /\
    voice Hn = encoded t /\ dsp_ok st' /\ Forall encoder_input_ok t.
Proof.
  revert st t K errs H ks. induction n as [|n IH]; intros st t K errs H ks He Hh Hd Hho Hr HK Hn.
  { destruct He as [-> ->]. exists [], ks. unfold count. simpl. by rewrite !Z.add_0_r, app_nil_r. }
  cbn [audio_task] in He. apply exec_bind in He as (t1 & t2 & sm & -> & H1 & H2).
  apply Forall_app in Hh as [Hh1 Hh2].
  destruct (iteration_cases st t1 sm Hd Hh1 H1)
    as [(x & -> & ->)|(x & paused & u1 & u2 & s1 & o & -> & Hstep & Hd1 & Htail & Hin & _)].
  - destruct (IH _ _ _ _ _ _ H2 Hh2 Hd Hho) as (Hn' & ks' & Hf & Hp & Hd' & He); [lia..|].
    exists Hn', ks'. cbn [app]. rewrite !count_cons. simpl.
    split_and!; [exact Hf|exact Hp|done|by constructor].
  - apply Forall_cons_1 in Hh1 as [_ Hh1]. apply Forall_cons_1 in Hh1 as [_ Hh1].
    apply Forall_app in Hh1 as [Hh1 _].
    pose proof (history_extends _ _ _ _ _ _ _ _ _ _ Hho Hr ltac:(lia) Hstep Hh1 Htail) as Hho'.
    destruct (tail_counts _ _ _ Htail) as (C1 & C2 & C3).
    assert (0 <= count encode_fails u1) by (unfold count; lia).
    destruct (IH _ _ _ _ _ _ H2 Hh2 (tail_dsp _ _ _ Htail Hd1) Hho')
      as (Hn' & ks' & Hf & Hp & Hd' & He); [lia..|].
    exists (option_list o ++ Hn'), ks'. rewrite !count_app, !count_cons, !count_app.
    rewrite C1, C2, (frame_step_counts _ _ _ _ Hstep). simpl. rewrite app_assoc.
    split_and!.
    + match goal with |- history_ok _ ?k ?e _ _ =>
        replace k with (K + 1 + count is_frame t2) by lia;
        replace e with (errs + count encode_fails u1 + count encode_fails t2) by lia
      end. exact Hf.
    + rewrite voice_app, (frame_step_encoded _ _ _ _ Hstep Hh1), Hp.
      change (encoded u1 ++ encoded t2 = encoded ((u1 ++ u2) ++ t2)).
      by rewrite !encoded_app, (tail_encoded _ _ _ Htail), app_nil_r.
    + done.
    + constructor; [done|]. constructor; [done|]. rewrite !Forall_app. done.
Qed.

Lemma dsp_init_ok r : dsp_ok (audio_init r).
Proof. split; [by split; vm_compute|apply hpf_init_ok|apply adaptive_init_ok]. Qed.

Lemma history_init r : ring_ok r [] -> history_ok (audio_init r) 0 0 [] [].
Proof. by split. Qed.

(** A microphone that hears a loud 4 kHz tone, and an encoder that answers
    three bytes per frame, or an error. *)
Definition tone : list Z := concat (replicate 160 [9000; 0; -9000; 0]).

Definition demo_audio (paused : bool) (n : Z) (X : Type) (e : audioE X) (s : unit) : X * unit :=
  (match e in audioE X return X with
   | i2s_channel_read want => (ESP_OK, tone, want)
   | opus_encode _ _ _ => (n, [1; 2; 3])
   | audio_gate_paused => paused
   | i2s_new_channel _ _ => ESP_OK
   | i2s_channel_init_std_mode _ => ESP_OK
   | i2s_channel_enable => ESP_OK
   | opus_encoder_create _ _ => true
   | opus_set_bitrate _ => tt
   | opus_set_complexity _ => tt
   | opus_set_signal_voice => tt
   | uxTaskGetStackHighWaterMark => 0
   end, s).

Definition demo_run (paused : bool) (n : Z) (iterations : nat) : list (ev audioE) * audio_st :=
  fst (run (demo_audio paused n) (audio_task iterations (audio_init zero_ring)) tt).

Lemma demo_run_exec paused n k :
  exec (audio_task k (audio_init zero_ring)) (fst (demo_run paused n k)) (snd (demo_run paused n k)).
Proof. apply run_exec_fst. Qed.

(** Boolean form of [audio_honest], for concrete traces. *)
Definition audio_honest_b (e : ev audioE) : bool :=
  match e with
  | Ev e x =>
      match e in audioE X return X -> bool with
      | i2s_channel_read want => fun r =>
          (2 * Z.of_nat (length (snd (fst r))) =? want) &&
          forallb (fun v => (-32768 <=? v) && (v <=? 32767)) (snd (fst r))
      | opus_encode _ _ cap => fun r =>
          (fst r <=? 0) ||
          (fst r <=? cap) && (fst r <=? Z.of_nat (length (snd r))) &&
            forallb (fun v => (0 <=? v) && (v <? 256)) (snd r)
      | _ => fun _ => true
      end x
  end.

Lemma audio_honest_b_ok t : forallb audio_honest_b t = true -> Forall audio_honest t.
Proof.
  intros H. rewrite forallb_forall in H. apply Forall_forall. intros e He.
  apply list_elem_of_In in He. specialize (H e He). destruct e as [X e x]. destruct e; try done; cbn in *.
  - apply andb_true_iff in H as [Hl Hs]. split; [lia|]. rewrite forallb_forall in Hs.
    apply Forall_forall. intros v Hv. apply list_elem_of_In, Hs in Hv. clia.
  - intros Hn. apply orb_true_iff in H as [H|H]; [lia|].
    apply andb_true_iff in H as [H Hb]. split_and!; [lia..|]. rewrite forallb_forall in Hb.
    apply Forall_forall. intros v Hv. apply list_elem_of_In, Hb in Hv. clia.
Qed.

(** ** Theorems *)

(** C25. The recorded history.  After any number of iterations from boot (up
    to 2^32 frames, 2.7 years), whatever the driver, the encoder and the
    pause flag answered: the ring presents a list of frames, each a gap
    marker without bytes or a voiced frame with 1 to 255 bytes; the bytes of
    the voiced frames are, in order, exactly what the encoder's successful
    calls returned; the frames are stamped with the start of the
    20 ms period they were captured in, in strictly increasing order, and
    cover every period except those whose encode failed; the published clock
    is 20 ms per frame read; and every call of the encoder gets 320 int16
    samples and a 256-byte buffer. *)
Theorem audio_history n t st :
  exec (audio_task n (audio_init zero_ring)) t st -> Forall audio_honest t ->
  Z.of_nat n < 4294967296 ->
  Forall encoder_input_ok t /\
  exists H ks, history_ok st (count is_frame t) (count encode_fails t) H ks /\
    map fr_bytes (List.filter audible H) = encoded t.
Proof.
  intros He Hh Hn.
  destruct (audio_task_history n _ _ _ 0 0 [] [] He Hh (dsp_init_ok _))
    as (H' & ks' & Hho & Hv & _ & Hi).
  - apply history_init, ring_init_ok. done.
  - lia.
  - lia.
  - lia.
  - split; [done|]. by exists H', ks'.
Qed.

Lemma audio_history_witness :
  Forall encoder_input_ok (fst (demo_run false 3 2)) /\
  exists H ks, history_ok (snd (demo_run false 3 2)) 2 0 H ks /\
    map fr_bytes (List.filter audible H) = encoded (fst (demo_run false 3 2)).
Proof.
  assert (count is_frame (fst (demo_run false 3 2)) = 2) as H1 by by vm_compute.
  assert (count encode_fails (fst (demo_run false 3 2)) = 0) as H2 by by vm_compute.
  rewrite <-H1, <-H2. apply (audio_history 2).
  - apply demo_run_exec.
  - apply audio_honest_b_ok. by vm_compute.
  - lia.
Defined.

(** Paused means paused.  When the pause flag is set, an iteration makes
    no call to the encoder, pushes exactly one gap marker, and leaves the
    filters and the gate as they were, so no sample heard during the pause
    influences what is sent later; the clock advances as always.  When the
    driver returns no frame the iteration changes nothing.  When the encoder
    fails the frame is counted as a gap, but no gap marker is pushed: the
    ring is unchanged while the clock moves on, so the history skips the
    period. *)
Lemma iteration_contract st t st' :
  dsp_ok st -> Forall audio_honest t -> exec (audio_iteration st) t st' ->
  (0 < count is_pause t ->
     count is_encode t = 0 /\
     s_ring st' = ring_buffer_push (s_ring st) C6_GAP_MARKER (ts st) None 0 /\
     a_vad st' = a_vad st /\ a_dc st' = a_dc st /\ a_hpf st' = a_hpf st /\
     ts st' = u32 (ts st + FRAME_MS) /\ s_rel_ts_ms st' = ts st') /\
  (count is_frame t = 0 -> count is_encode t = 0 /\ st' = st) /\
  (0 < count encode_fails t ->
     s_ring st' = s_ring st /\ ts st' = u32 (ts st + FRAME_MS) /\ gaps st' = u32 (gaps st + 1)).
Proof.
  intros Hd Hh H.
  destruct (iteration_cases st t st' Hd Hh H)
    as [(x & -> & ->)|(x & paused & t1 & t2 & st1 & o & -> & Hstep & _ & Htail & _ & Hp)].
  - split_and!; by intros.
  - assert (count is_pause t1 = 0) as C1 by by inversion Hstep.
    assert (count is_pause t2 = 0) as C2.
    { apply tail_spec in Htail as ([-> | (y & ->)] & _); done. }
    split.
    + rewrite !count_cons, count_app, C1, C2. simpl. destruct paused; [intros _|lia].
      destruct Hp as [-> ->]; [done|].
      apply tail_spec in Htail as (Ht & Hv & Hdc & Hh' & _ & _ & _ & Hts & Hr & Hs).
      split_and!; try done. by destruct Ht as [-> | (y & ->)].
    + split; [intros Hc; rewrite !count_cons in Hc; simpl in Hc; unfold count in Hc; lia|].
      pose proof (tail_counts _ _ _ Htail) as (_ & C3 & _).
      rewrite !count_cons, count_app, C3. simpl.
      apply tail_spec in Htail as (_ & _ & _ & _ & _ & _ & Hg & Hts & _ & Hs).
      inversion Hstep as [|? ? ? ? ? state pcm n out _ Hn|]; subst; unfold count; simpl; [lia| |].
      * replace (0 <? n) with true by lia. replace (n <=? 255) with true by lia. simpl. lia.
      * intros _. done.
Qed.

