(* ===== verification/AudioPath.v ===== *)
(** * From the microphone to the server: the audio task and the drain task

    The two tasks share the ring and nothing else.  They run in any
    interleaving: the drain task ([Live.drain_step]) makes one call at a time,
    and whole iterations of the audio task happen between its calls.  An
    iteration of the audio task writes the ring once, in [ring_buffer_push],
    and nothing else it does is visible to the drain task, so the iteration
    stands at the instant of its push.  The ring answers each call of the
    drain task from its state at that moment; the facts DrainLive and
    DrainReplay assume of the answers are proved here. *)

From S2P Require Import Prelude Effects Interleave Config C6Packet RingBuffer ExecutorCore.
From S2P Require Import BleDrain DrainSpec DrainLive DrainReplay AudioTask.
Import C6 Live.

(** ** The interleaving *)

(** What the ring [r] and the outside answer a call.  A pointer into the slot
    the next push writes may read anything: that push can be in progress. *)
Definition ring_answer (r : ring) (e : ev drainE) : Prop :=
  match e with
  | Ev e x =>
      match e in drainE X return X -> Prop with
      | ring_buffer_write_index => fun w => w = RingBuffer.ring_buffer_write_index r
      | ring_buffer_get i => fun f => f = RingBuffer.ring_buffer_get r i
      | ring_buffer_get_copy i => fun f => f = RingBuffer.ring_buffer_get_copy r i
      | deref p n => fun bs =>
          match p with
          | InSlot s => s <> slot_of (s_write_index r) -> bs = ring_read r s n
          | InBuffer => True
          end
      | ble_link_att_mtu => fun m => is_u16 m
      | replay_receive => fun q =>
          match q with
          | Some s => REQ_BUFFER_MIN_SECONDS <= s <= REQ_BUFFER_MAX_SECONDS
          | None => True
          end
      | _ => fun _ => True
      end x
  end.

(** One event of the system: an iteration of the audio task with its calls,
    or a call of the drain task. *)
Inductive label : Type :=
| LAudio (t : list (ev audioE))
| LDrain (e : ev drainE).

Definition audio_of (x : label) : list (ev audioE) := match x with LAudio t => t | _ => [] end.
Definition drain_of (x : label) : list (ev drainE) := match x with LDrain e => [e] | _ => [] end.
Definition audios (l : list label) : list (ev audioE) := concat (map audio_of l).
Definition drains (l : list label) : list (ev drainE) := concat (map drain_of l).

Inductive weave {A} : audio_st -> prog drainE A -> list label -> audio_st -> A -> Prop :=
| weave_done a r : weave a (Ret r) [] a r
| weave_audio a t a1 p l a2 r :
    exec (audio_iteration a) t a1 -> weave a1 p l a2 r -> weave a p (LAudio t :: l) a2 r
| weave_drain a X (c : drainE X) k x l a2 r :
    ring_answer (s_ring a) (Ev c x) -> weave a (k x) l a2 r ->
    weave a (Call c k) (LDrain (Ev c x) :: l) a2 r.

(** The drain task keeps up: when a live step ends, the audio task has not
    come round to the frames it was reading; and no frame of a replay was
    overwritten before it was copied. *)
Definition keeps_up (st : drain_st) (l : list label) (a : audio_st) : Prop :=
  (Ev replay_receive None ∈ drains l ->
     s_write_index (s_ring a) < rewind_to (cursor st) + RING_FRAMES) /\
  Forall copied (drains l).

(** Any number of steps of the drain task, each with whatever the static
    [data_scratch] holds, woven with the audio task. *)
Inductive path_run (a0 : audio_st) (st0 : drain_st) : list label -> audio_st -> drain_st -> Prop :=
| path_start : path_run a0 st0 [] a0 st0
| path_step l a st sc l' a' st' :
    path_run a0 st0 l a st ->
    weave a (drain_step sc st) l' a' (Some st') -> keeps_up st l' a' ->
    path_run a0 st0 (l ++ l') a' st'.

Lemma audios_app l1 l2 : audios (l1 ++ l2) = audios l1 ++ audios l2.
Proof. unfold audios. by rewrite map_app, concat_app. Qed.

Lemma drains_app l1 l2 : drains (l1 ++ l2) = drains l1 ++ drains l2.
Proof. unfold drains. by rewrite map_app, concat_app. Qed.

Lemma weave_exec {A} a (p : prog drainE A) l a' r : weave a p l a' r -> exec p (drains l) r.
Proof. induction 1 as [| |a X c k x l a2 r _ _ IH]; [done|done|]. by exists x, (drains l). Qed.

(** ** Arguments of the ring's functions are uint32 *)

Definition u32_args (past : list (ev drainE)) (e : ev drainE) : Prop :=
  match e with
  | Ev (ring_buffer_get i) _ => is_u32 i
  | Ev (ring_buffer_get_copy i) _ => is_u32 i
  | _ => True
  end.

Ltac u32_args_tac :=
  repeat lazymatch goal with
    | |- always _ _ (Ret _) => exact I
    | |- always _ _ (bind _ _) => apply always_bind; [|intros ? ? _]
    | |- always _ _ (call _) => apply always_call; intros; cbn; by auto with cint
    | |- always _ _ (match _ with _ => _ end) => case_match
    | |- _ => solve [auto]
    end.

Lemma collect_u32 left start i budget l past :
  always u32_args past (Replay.collect left start i budget l).
Proof.
  revert i l past. induction left as [|left IH]; intros i l past; [done|]. cbn [Replay.collect].
  u32_args_tac.
Qed.

Lemma ship_u32 fuel budget lst sc fs seq pkt past :
  always u32_args past (Replay.ship fuel budget lst sc fs seq pkt).
Proof.
  revert fs seq pkt past. induction fuel as [|fuel IH]; intros fs seq pkt past; [by destruct fs|].
  destruct fs as [|f fs]; [done|]. cbn [Replay.ship]. u32_args_tac.
Qed.

Lemma outer_u32 fuel left start N budget sc seq pkt past :
  always u32_args past (Replay.outer fuel left start N budget sc seq pkt).
Proof.
  revert left sc seq pkt past. induction fuel as [|fuel IH]; intros left sc seq pkt past;
    [by destruct left|].
  destruct left as [|left]; [done|]. cbn [Replay.outer].
  apply always_bind; [apply collect_u32|]. intros t c _. destruct c as [l left'|]; [|done].
  apply always_bind; [|intros t1 [q pk] _; apply IH].
  destruct (Replay.frames l); [unfold Replay.ship_empty; u32_args_tac|apply ship_u32].
Qed.

Lemma drain_replay_u32 seconds seq pkt sc past :
  always u32_args past (Replay.drain_replay seconds seq pkt sc).
Proof.
  unfold Replay.drain_replay. u32_args_tac; [|apply outer_u32].
  unfold Replay.ship_empty. u32_args_tac.
Qed.

Lemma live_collect_u32 n i cur pre base fs first past :
  always u32_args past (collect n i cur pre base fs first).
Proof.
  revert i fs first past. induction n as [|n IH]; intros i fs first past; [done|]. cbn [collect].
  u32_args_tac.
Qed.

Lemma load_u32 fs past : always u32_args past (load fs).
Proof. revert past. induction fs as [|f fs IH]; intros past; [done|]. cbn [load]. u32_args_tac. Qed.

Lemma retry_u32 n p past : always u32_args past (retry n p).
Proof. revert past. induction n as [|n IH]; intros past; [done|]. cbn [retry]. u32_args_tac. Qed.

Lemma send_u32 p past : always u32_args past (send p).
Proof. unfold send. u32_args_tac; apply retry_u32. Qed.

Lemma pack_u32 fuel budget fs nc seq p past : always u32_args past (pack fuel budget fs nc seq p).
Proof.
  revert fs nc seq p past. induction fuel as [|fuel IH]; intros fs nc seq p past; [by destruct fs|].
  destruct fs as [|f fs]; [done|]. cbn [pack].
  destruct (take_fit _ _ _ _) as [[|s seg] rest]; [apply IH|].
  apply always_bind; [apply load_u32|intros t1 cs _].
  destruct (c6_write_packet _ _ _ _ _ _ _ _) as [p' n]. u32_args_tac; apply send_u32.
Qed.

Lemma preroll_u32 st w past : is_u32 (cursor st) -> always u32_args past (preroll st w).
Proof.
  intros Hc. unfold preroll. case_match; [done|]. cbv zeta.
  apply always_bind; [u32_args_tac|]. intros t1 head _. u32_args_tac.
  apply always_call. intros x. cbn. case_match; [apply u32_range|clia].
Qed.

Lemma drain_step_u32 sc st past : is_u32 (cursor st) -> always u32_args past (drain_step sc st).
Proof.
  intros Hc. unfold drain_step. apply always_bind; [u32_args_tac|]. intros t1 [s|] _.
  { apply always_bind; [apply drain_replay_u32|]. intros t2 r _. u32_args_tac. }
  apply always_bind; [|intros; done]. unfold live.
  apply always_bind; [u32_args_tac|]. intros t2 w _. case_match; [u32_args_tac|].
  apply always_bind; [by apply preroll_u32|]. intros t3 [[cur pre]|] _; [|u32_args_tac].
  apply always_bind; [apply live_collect_u32|]. intros t4 [fs first] _.
  apply always_bind; [u32_args_tac|]. intros t5 mtu _.
  apply always_bind; [destruct fs; [|apply pack_u32]; u32_args_tac|].
  intros t6 [seq p] _. done.
Qed.

(** ** The answers *)

(** Reading the ring after its write index was seen at [n] (or later), with
    at most [n'] frames pushed by the end. *)
Fixpoint fresh (n n' : Z) (t : list (ev drainE)) : Prop :=
  match t with
  | [] => True
  | Ev e x :: t =>
      match e in drainE X return X -> Prop with
      | ring_buffer_write_index => fun w => n <= w /\ fresh w n' t
      | ring_buffer_get i => fun r =>
          (0 <= i < n -> n' <= i + RING_FRAMES -> r <> None) /\ fresh n n' t
      | _ => fun _ => fresh n n' t
      end x
  end.

Lemma fresh_weaken n n' m t : fresh n n' t -> m <= n -> fresh m n' t.
Proof.
  revert n m. induction t as [|[X e x] t IH]; intros n m Hf Hm; [done|].
  destruct e; simpl in *; try (by eapply IH); destruct Hf as [H1 H2].
  - split; [lia|done].
  - split; [|by eapply IH]. intros Hi. apply H1. lia.
Qed.

Lemma fresh_not_behind n n' c t : fresh n n' t -> c <= n -> Forall (not_behind c) t.
Proof.
  revert n. induction t as [|[X e x] t IH]; intros n Hf Hc; constructor.
  - destruct e; try done. simpl in *. lia.
  - destruct e; simpl in Hf; try (by eapply IH); destruct Hf as [H1 H2]; eapply IH; try done; lia.
Qed.

(** The index of a read that failed. *)
Definition missed (e : ev drainE) : option Z :=
  match e with
  | Ev e x => match e in drainE X return X -> option Z with
              | ring_buffer_get i => fun r => match r with None => Some i | Some _ => None end
              | _ => fun _ => None
              end x
  end.

Lemma fresh_miss n n' t i :
  fresh n n' t -> Ev (ring_buffer_get i) None ∈ t -> 0 <= i -> n <= i \/ i + RING_FRAMES < n'.
Proof.
  intros Hf Hin. revert n Hf. induction t as [|[X e x] t IH]; intros n Hf Hi;
    [by apply not_elem_of_nil in Hin|].
  apply elem_of_cons in Hin as [Heq|Hin].
  - assert (missed (Ev e x) = Some i) as Hm by by rewrite <-Heq.
    destruct e as [| |j| | | | |]; try done. simpl in Hm. destruct x; simplify_eq.
    destruct Hf as [Hf _]. destruct (Z.lt_ge_cases i n); [|by left]. right.
    destruct (Z.lt_ge_cases (i + RING_FRAMES) n'); [done|]. by destruct Hf.
  - specialize (IH Hin).
    destruct e; simpl in Hf; try (by apply IH); destruct Hf as [H1 H2].
    + destruct (IH _ H2 Hi); [left; lia|by right].
    + by apply IH.
Qed.

(** The first write index seen (after [n]) is at least [hi] before anything
    is read through a pointer. *)
Fixpoint loads_after (hi n : Z) (t : list (ev drainE)) : Prop :=
  match t with
  | [] => True
  | Ev e x :: t =>
      match e in drainE X return X -> Prop with
      | ring_buffer_write_index => fun w => loads_after hi (Z.max n w) t
      | deref _ _ => fun _ => hi <= n /\ loads_after hi n t
      | _ => fun _ => loads_after hi n t
      end x
  end.

Lemma loads_after_mono hi n m t : loads_after hi n t -> n <= m -> loads_after hi m t.
Proof.
  revert n m. induction t as [|[X e x] t IH]; intros n m Hl Hm; [done|].
  destruct e; simpl in *; try (by eapply IH).
  - eapply IH; [exact Hl|lia].
  - destruct Hl as [H1 H2]. split; [lia|by eapply IH].
Qed.

Lemma loads_after_reached hi n t : hi <= n -> loads_after hi n t.
Proof.
  revert n. induction t as [|[X e x] t IH]; intros n Hn; [done|].
  destruct e; simpl; try (by apply IH); [apply IH; lia|split; [done|by apply IH]].
Qed.

(** One call, answered by a ring that presents [h] while [h ++ k] will have
    been pushed by the end. *)
Lemma answer_consistent r h k lo hi e :
  ring_ok r h -> ring_answer r e -> u32_args [] e -> 0 <= lo ->
  loads_after hi (Z.of_nat (length h)) [e] ->
  Z.of_nat (length (h ++ k)) < lo + RING_FRAMES -> consistent (h ++ k) lo hi e.
Proof.
  intros Hr Ha Hu Hlo Hhi Hlen. rewrite length_app in Hlen.
  destruct e as [X c x]. destruct c; try done.
  - rewrite Ha. by apply (ring_answers_consistent r h k lo hi 0).
  - rewrite Ha. apply (ring_answers_consistent r h k lo hi); [done|apply Hu].
  - rewrite Ha. apply (ring_answers_consistent r h k lo hi); [done|apply Hu].
  - destruct p as [s|]; [|done]. destruct Hhi as [Hhi _].
    intros i f Hi Hi0 Hf Hp Hn. simplify_eq.
    assert (slot_of i <> slot_of (s_write_index r)) as Hs.
    { rewrite (ring_ok_count _ _ Hr). intros E. apply slot_of_inj in E; lia. }
    specialize (Ha Hs). subst x.
    apply (ring_deref_consistent r h k lo hi (slot_of i) (fr_len f) Hr) with (i := i);
      try done; lia.
Qed.

Lemma answer_fresh r h n n' X (c : drainE X) x t :
  ring_ok r h -> ring_answer r (Ev c x) -> n <= Z.of_nat (length h) <= n' ->
  fresh (Z.of_nat (length h)) n' t -> fresh n n' (Ev c x :: t).
Proof.
  intros Hr Ha Hn Hf. destruct c; simpl; try (by eapply fresh_weaken; [exact Hf|lia]).
  - simpl in Ha. subst x. unfold RingBuffer.ring_buffer_write_index.
    rewrite (ring_ok_count _ _ Hr). split; [lia|done].
  - split; [|by eapply fresh_weaken; [exact Hf|lia]]. intros Hi Hw Hx. simpl in Ha.
    subst x. destruct (window_lookup h index) as [f Hlk]; [unfold in_window; lia|].
    destruct (ring_get_in r h index f Hr) as (Hg & _); [unfold in_window; lia|done|].
    by rewrite Hg in Hx.
Qed.

Lemma weave_spec {A} a (p : prog drainE A) l a' r K errs H ks :
  weave a p l a' r -> dsp_ok a -> history_ok a K errs H ks -> 0 <= errs -> 0 <= K ->
  K + Z.of_nat (length l) < 4294967296 ->
  Forall audio_honest (audios l) -> Forall (u32_args []) (drains l) ->
  exists Hn ks',
    history_ok a' (K + count is_frame (audios l)) (errs + count encode_fails (audios l))
      (H ++ Hn) ks' /\
    dsp_ok a' /\ voice Hn = encoded (audios l) /\
    count is_frame (audios l) <= Z.of_nat (length l) /\
    (forall lo hi, 0 <= lo -> loads_after hi (Z.of_nat (length H)) (drains l) ->
       Z.of_nat (length (H ++ Hn)) < lo + RING_FRAMES ->
       Forall (consistent (H ++ Hn) lo hi) (drains l)) /\
    fresh (Z.of_nat (length H)) (Z.of_nat (length (H ++ Hn))) (drains l).
Proof.
  intros Hw. revert K errs H ks.
  induction Hw as [a r|a t a1 p l a2 r He _ IH|a X c k x l a2 r Ha _ IH];
    intros K errs H ks Hd Hh He0 HK Hl Hau Hu.
  - exists [], ks. rewrite app_nil_r. unfold count. simpl. rewrite !Z.add_0_r.
    split_and!; try done.
  - simpl length in Hl. change (audios (LAudio t :: l)) with (t ++ audios l) in *.
    change (drains (LAudio t :: l)) with (drains l) in *.
    apply Forall_app in Hau as [Hau1 Hau2].
    assert (exec (audio_task 1 a) t a1) as He1.
    { cbn [audio_task]. apply exec_bind. exists t, [], a1. by rewrite app_nil_r. }
    destruct (audio_task_history 1 _ _ _ _ _ _ _ He1 Hau1 Hd Hh) as (Hn1 & ks1 & Hh1 & Hv1 & Hd1 & _);
      [lia..|].
    assert (0 <= count encode_fails t) by (unfold count; lia).
    assert (0 <= count is_frame t) by (unfold count; lia).
    assert (count is_frame t <= 1) as Hone.
    { destruct (iteration_cases _ _ _ Hd Hau1 He)
        as [(y & -> & _)|(y & b & u1 & u2 & s1 & o & -> & Hs & _ & Ht & _)]; [done|].
      destruct (tail_counts _ _ _ Ht) as (C1 & _).
      rewrite !count_cons, count_app, C1, (frame_step_counts _ _ _ _ Hs). done. }
    destruct (IH _ _ _ _ Hd1 Hh1) as (Hn2 & ks2 & Hh2 & Hd2 & Hv2 & Hn2' & Hc2 & Hf2); try done; [lia..|].
    exists (Hn1 ++ Hn2), ks2. rewrite app_assoc, !count_app, !Z.add_assoc, voice_app, encoded_app.
    split_and!; [done|done|by rewrite Hv1, Hv2|simpl; lia| |].
    + intros lo hi Hlo Hhi Hlen. apply Hc2; [done| |done].
      eapply loads_after_mono; [exact Hhi|]. rewrite length_app. lia.
    + eapply fresh_weaken; [exact Hf2|]. rewrite length_app. lia.
  - simpl length in Hl. change (audios (LDrain (Ev c x) :: l)) with (audios l) in *.
    change (drains (LDrain (Ev c x) :: l)) with (Ev c x :: drains l) in *.
    apply Forall_cons in Hu as [Hu1 Hu2].
    destruct (IH _ _ _ _ Hd Hh) as (Hn & ks2 & Hh2 & Hd2 & Hv2 & Hn2' & Hc2 & Hf2); try done; [lia..|].
    exists Hn, ks2. split_and!; try done; [simpl; lia| |].
    + intros lo hi Hlo Hhi Hlen. pose proof (ho_ring _ _ _ _ _ Hh) as Hr.
      assert (loads_after hi (Z.of_nat (length H)) [Ev c x] /\
              loads_after hi (Z.of_nat (length H)) (drains l)) as [H1 H2].
      { destruct c; simpl in Hhi |- *; try done; [|by destruct Hhi].
        simpl in Ha. subst x. unfold RingBuffer.ring_buffer_write_index in Hhi.
        rewrite (ring_ok_count _ _ Hr), Z.max_id in Hhi. done. }
      constructor; [|by apply Hc2]. by eapply answer_consistent.
    + eapply answer_fresh; [apply (ho_ring _ _ _ _ _ Hh)|done| |done]. rewrite length_app. lia.
Qed.

(** ** What went on the air *)

(** The frames of a history with their indices. *)
Definition numbered (H : list frame) : list (nat * frame) := zip (seq 0 (length H)) H.

Definition bytes_of (nl : list (nat * frame)) : list (list Z) := map (fun x => fr_bytes (snd x)) nl.

(** The packet's body is those frames; a live packet is stamped with the
    first of them. *)
Definition says (p : Server.AudioPacket) (nl : list (nat * frame)) : Prop :=
  Server.frames p = bytes_of nl /\
  (Server.ptype p = Server.LIVE ->
   forall x tl, nl = x :: tl -> Server.rel_ts_ms p = fr_ts (snd x)).

(** One or more attempts to send [raw]. *)
Definition tries (raw : list Z) (l : list (list Z * Z)) : Prop :=
  exists rcs, rcs <> [] /\ l = map (pair raw) rcs.

(** The packet fits one notification at an MTU the task has read. *)
Definition sized (t : list (ev drainE)) (raw : list Z) : Prop :=
  exists m, Ev ble_link_att_mtu m ∈ t /\ Z.of_nat (length raw) <= max_payload m.

(** The notifications [log] are packets that fit the MTU, each tried until
    done with, numbered consecutively from [seq]; the server parses each of
    them, and reads the frames [nl] of the history. *)
Definition on_air (H : list frame) (t : list (ev drainE)) (seq : Z) (log : list (list Z * Z))
    (nls : list (list (nat * frame))) (seq' : Z) : Prop :=
  exists raws pkts groups,
    log = concat groups /\ Forall2 tries raws groups /\ Forall2 carries raws pkts /\
    Forall (sized t) raws /\ Forall2 says pkts nls /\ Forall (fun nl => nl `sublist_of` numbered H) nls /\
    map Server.chunk_seq pkts = seqs seq (length pkts) /\
    seq' = u32 (seq + Z.of_nat (length pkts)).

Lemma numbered_snd H : map snd (numbered H) = H.
Proof. unfold numbered. apply snd_zip. by rewrite length_seq. Qed.

Lemma numbered_app H K : numbered H `prefix_of` numbered (H ++ K).
Proof.
  unfold numbered. rewrite length_app, seq_app, zip_with_app by by rewrite length_seq.
  by eexists.
Qed.

Lemma numbered_lookup H i f : H !! i = Some f -> numbered H !! i = Some (i, f).
Proof.
  intros Hf. apply lookup_zip_with_Some. exists i, f. split_and!; [done| |done].
  apply lookup_seq. split; [lia|]. by apply lookup_lt_Some in Hf.
Qed.

Lemma filter_map {A B} (g : A -> B) (b : B -> bool) l :
  List.filter b (map g l) = map g (List.filter (fun x => b (g x)) l).
Proof. induction l as [|x l IH]; [done|]. simpl. rewrite IH. by case_match. Qed.

Lemma filter_sublist {A} (b : A -> bool) l : List.filter b l `sublist_of` l.
Proof. induction l as [|x l IH]; [done|]. simpl. case_match; by constructor. Qed.

Lemma concat_map_inv {A B} (g : A -> B) segs l :
  concat segs = map g l -> exists ls, segs = map (map g) ls /\ concat ls = l.
Proof.
  revert l. induction segs as [|s segs IH]; intros l E; simpl in E.
  { symmetry in E. apply map_eq_nil in E as ->. by exists []. }
  symmetry in E. apply map_eq_app in E as (l1 & l2 & -> & E1 & E2).
  destruct (IH l2 (eq_sym E2)) as (ls & -> & <-). exists (l1 :: ls). simpl. by rewrite E1.
Qed.

Lemma concat_sublist {A} (ls : list (list A)) l :
  concat ls `sublist_of` l -> Forall (fun x => x `sublist_of` l) ls.
Proof.
  intros Hs. apply Forall_forall. intros x Hx. etrans; [|exact Hs].
  apply list_elem_of_split in Hx as (l1 & l2 & ->). rewrite concat_app. simpl.
  by apply sublist_inserts_l, sublist_inserts_r.
Qed.

Lemma on_air_nil H t seq : is_u32 seq -> on_air H t seq [] [] seq.
Proof.
  intros. exists [], [], []. split_and!; try constructor. simpl. by rewrite Z.add_0_r, u32_small.
Qed.

Lemma on_air_app H t seq log nls seq1 log' nls' seq' :
  is_u32 seq -> on_air H t seq log nls seq1 -> on_air H t seq1 log' nls' seq' ->
  on_air H t seq (log ++ log') (nls ++ nls') seq'.
Proof.
  intros Hu (r1 & p1 & g1 & -> & A1 & B1 & S1 & C1 & D1 & E1 & ->)
    (r2 & p2 & g2 & -> & A2 & B2 & S2 & C2 & D2 & E2 & ->).
  exists (r1 ++ r2), (p1 ++ p2), (g1 ++ g2). rewrite concat_app, map_app, length_app, seqs_app by done.
  split_and!; [done|by apply Forall2_app|by apply Forall2_app|by apply Forall_app
    |by apply Forall2_app|by apply Forall_app|by rewrite E1, E2|].
  autorewrite with cint. f_equal. lia.
Qed.

(** Later on: more history, more calls. *)
Lemma on_air_later H K t t' seq log nls seq' :
  on_air H t seq log nls seq' -> t ⊆ t' -> on_air (H ++ K) t' seq log nls seq'.
Proof.
  intros (r & p & g & A & B & C & S & D & Hs & E) Ht. exists r, p, g. split_and!; try done.
  - eapply Forall_impl; [exact S|]. intros raw (m & Hm & Hl). exists m. auto.
  - eapply Forall_impl; [exact Hs|]. intros nl Hnl. simpl. etrans; [exact Hnl|].
    destruct (numbered_app H K) as [l ->]. by apply sublist_inserts_r.
  - apply E.
  - apply E.
Qed.

(** What was sent is what was tried. *)
Lemma sent_tries raws log : sent raws log -> exists groups, log = concat groups /\ Forall2 tries raws groups.
Proof.
  induction 1 as [|p ps l l' Ha _ (gs & -> & IH)]; [by exists []|]. exists (l :: gs). split; [done|].
  constructor; [|done]. destruct Ha as (n & rc & _ & -> & _). exists (replicate n (-1) ++ [rc]).
  split; [by destruct n|]. rewrite map_app. f_equal. clear. induction n as [|n IH]; [done|].
  simpl. by rewrite IH.
Qed.

Lemma shipped_on_air H t mtu pre seq nh log seq' :
  shipped pre (budget_of mtu) seq (map snd nh) log seq' ->
  Ev ble_link_att_mtu mtu ∈ t -> is_u16 mtu -> nh `sublist_of` numbered H ->
  exists nls, on_air H t seq log nls seq' /\
    concat nls = List.filter (fun x => fits (budget_of mtu) (snd x)) nh.
Proof.
  intros (raws & pkts & segs & Hs & Hc & Hp & Hseg & Hl & Hq & Hq') Hm H16 Hsub.
  destruct (budget_of_range mtu H16) as [_ Hb].
  destruct (sent_tries _ _ Hs) as (gs & Hlog & Hgs). rewrite filter_map in Hseg.
  apply concat_map_inv in Hseg as (nls & -> & Hnl). exists nls. split; [|done].
  exists raws, pkts, gs. split_and!; try done.
  - eapply Forall_impl; [exact Hl|]. intros raw Hr. exists mtu. split; [done|]. simpl in Hr. lia.
  - apply (Forall2_fmap_r (map snd)) in Hp. eapply Forall2_impl; [exact Hp|].
    intros p nl (_ & _ & _ & s & tl & Es & Hf & Ht & _). split.
    + by rewrite Hf, map_map.
    + intros _ x tl' ->. simpl in Es. congruence.
  - apply concat_sublist. rewrite Hnl. etrans; [apply filter_sublist|done].
Qed.

Lemma replayed_on_air H t mtu seq nw log seq' :
  replayed (budget_of mtu) seq (map snd nw) log seq' ->
  Ev ble_link_att_mtu mtu ∈ t -> is_u16 mtu -> nw `sublist_of` numbered H ->
  exists nls, on_air H t seq log nls seq'.
Proof.
  intros (pkts & Hc & Hty & Hb & Hl & Hq & Hq' & _) Hm H16 Hsub.
  destruct (budget_of_range mtu H16) as [_ Hmax].
  unfold delivered in Hb. rewrite !filter_map, map_map in Hb.
  set (nh := List.filter _ (List.filter _ nw)) in Hb.
  apply concat_map_inv in Hb as (nls & Hf & Hnl). exists nls.
  exists (map fst log), pkts, (map (fun x => [x]) log). split_and!; try done.
  - clear. by induction log as [|x log IH]; [|simpl; rewrite <-IH].
  - clear. induction log as [|[p rc] log IH]; constructor; [|done]. by exists [rc].
  - apply Forall_fmap. eapply Forall_impl; [exact Hl|]. intros x Hx. exists mtu.
    split; [done|]. simpl in Hx. lia.
  - clear -Hf Hty. revert nls Hf. induction Hty as [|p ps [_ Ht] _ IH]; intros [|nl nls] Hf;
      try done. simpl in Hf. injection Hf as Hp Hf. constructor; [|by apply IH].
    split; [done|]. by rewrite Ht.
  - apply concat_sublist. rewrite Hnl. etrans; [apply filter_sublist|].
    etrans; [apply filter_sublist|done].
Qed.

(** One packet without frames. *)
Lemma empty_on_air H t mtu seq raw rc p :
  Ev ble_link_att_mtu mtu ∈ t -> is_u16 mtu -> Z.of_nat (length raw) = C6_HEADER_LEN ->
  is_u32 seq -> carries raw p -> Server.frames p = [] -> Server.chunk_seq p = seq ->
  on_air H t seq [(raw, rc)] [[]] (u32 (seq + 1)).
Proof.
  intros Hm H16 Hl Hu Hc Hf Hq. destruct (budget_of_range mtu H16) as [H0 Hb]. exists [raw], [p], [[(raw, rc)]]. split_and!; try done.
  - constructor; [|constructor]. by exists [rc].
  - by constructor.
  - constructor; [|constructor]. exists mtu. split; [done|lia].
  - constructor; [|constructor]. by split.
  - constructor; [apply sublist_nil_l|constructor].
  - by rewrite <-Hq.
Qed.

(** ** One step of the drain task *)

(** The frames from [c] to [c'] went out, up to those too large for a packet. *)
Definition covers (H : list frame) (c c' : Z) (t : list (ev drainE))
    (nls : list (list (nat * frame))) : Prop :=
  forall i f, H !! i = Some f -> c <= Z.of_nat i < c' -> audible f = true ->
    (forall m, Ev ble_link_att_mtu m ∈ t -> fits (budget_of m) f = true) ->
    exists nl, nl ∈ nls /\ (i, f) ∈ nl.

Lemma batch_numbered H m c :
  map snd (take m (drop c (numbered H))) = take m (drop c H) /\
  take m (drop c (numbered H)) `sublist_of` numbered H.
Proof.
  split; [by rewrite <-firstn_map, <-skipn_map, numbered_snd|].
  etrans; [apply sublist_take|apply sublist_drop].
Qed.

Lemma replay_on_air H lo hi seconds sc st t seq' pkt' :
  drain_ok H st ->
  exec (Replay.drain_replay seconds (chunk_seq st) (pkt st) sc) t (Some (seq', pkt')) ->
  Forall copied t -> REQ_BUFFER_MIN_SECONDS <= seconds <= REQ_BUFFER_MAX_SECONDS ->
  Forall (consistent H lo hi) t ->
  drain_ok H (DrainSt (cursor st) seq' (in_speech st) pkt') /\
  exists nls, on_air H t (chunk_seq st) (notifies t) nls seq'.
Proof.
  intros [HH Hcount Hcur Hseq Hpk] He Hcp Hs Hc.
  destruct (drain_replay_result H lo hi HH ltac:(lia) _ _ _ _ _ _ He Hc Hcp Hs Hseq Hpk)
    as (w & mtu & _ & Hm & H16 & Hr & Hpk' & _).
  unfold window in Hr. destruct (replay_window seconds w) as [s k].
  destruct (batch_numbered H (Z.to_nat k) (Z.to_nat s)) as [Hb Hsub]. rewrite <-Hb in Hr.
  split; [|by eapply replayed_on_air].
  split; try done. destruct Hr as (pkts & _ & _ & _ & _ & _ & -> & _). apply u32_range.
Qed.

(** A live iteration that processed a batch. *)
Lemma chunk_on_air H st st' t w :
  drain_ok H st -> chunk_done H st st' t ->
  cursor st' <= w -> fresh w (Z.of_nat (length H)) t ->
  Z.of_nat (length H) < rewind_to (cursor st) + RING_FRAMES ->
  exists nls, on_air H t (chunk_seq st) (notifies t) nls (chunk_seq st') /\
    covers H (cursor st) (cursor st') t nls.
Proof.
  intros [HH Hcount Hcur Hseq _] (cur & pre & m & k & Hpo & Hcs & Hmtu & H16 & Hk & Hmiss & Hout)
    Hw Hf Hlen. cbv zeta in Hout.
  assert (rewind_to (cursor st) <= cur <= cursor st /\ 0 <= cur) as [Hcr Hcur0]
    by (eapply preroll_range; [exact Hpo|lia]).
  assert (k = 10%nat) as ->.
  { destruct (decide (k < 10)%nat) as [Hlt|]; [|lia].
    destruct (fresh_miss _ _ _ _ Hf (Hmiss Hlt)); lia. }
  destruct (batch_numbered H 10 (Z.to_nat cur)) as [Hb Hsub].
  set (nb := take 10 (drop (Z.to_nat cur) (numbered H))) in *.
  set (nh := List.filter (fun x => audible (snd x)) nb).
  assert (List.filter audible (take 10 (drop (Z.to_nat cur) H)) = map snd nh) as Hnh
    by by rewrite <-Hb, filter_map.
  assert (forall nls, concat nls = List.filter (fun x => fits (budget_of m) (snd x)) nh ->
    covers H (cursor st) (cursor st') t nls) as Hcov.
  { intros nls Hnls i f Hi Hr Ha Hfit.
    assert ((i, f) ∈ concat nls) as Hin.
    { rewrite Hnls. apply list_elem_of_In, filter_In. split; [|by apply Hfit].
      apply filter_In. split; [|done]. apply list_elem_of_In, list_elem_of_lookup.
      exists (i - Z.to_nat cur)%nat. unfold nb. rewrite lookup_take_lt, lookup_drop by lia.
      rewrite <-(numbered_lookup H i f Hi). f_equal. lia. }
    apply list_elem_of_In, in_concat in Hin as (nl & H1 & H2).
    exists nl. by rewrite !list_elem_of_In. }
  rewrite Hnh in Hout. destruct (map snd nh) as [|h hs] eqn:Emap.
  - apply map_eq_nil in Emap. destruct Hout as (raw & rc & p & -> & Hcar & _ & _ & Hfr & Hq & Hl & -> & _).
    exists [[]]. split; [by eapply empty_on_air|]. apply Hcov. by rewrite Emap.
  - destruct Hout as [Hs _]. rewrite <-Emap in Hs.
    destruct (shipped_on_air H t m pre _ nh _ _ Hs Hmtu H16) as (nls & Hair & Hnls).
    { etrans; [apply filter_sublist|done]. }
    exists nls. split; [done|]. by apply Hcov.
Qed.

(** The write index an event saw. *)
Definition seen (e : ev drainE) : option Z :=
  match e with
  | Ev e x => match e in drainE X return X -> option Z with
              | ring_buffer_write_index => fun w => Some w
              | _ => fun _ => None
              end x
  end.

(** One live iteration, against the history at its end. *)
Lemma live_on_air H st w t st' :
  drain_ok H st -> Forall pushed_ok H ->
  fresh w (Z.of_nat (length H)) t -> Z.of_nat (length H) < rewind_to (cursor st) + RING_FRAMES ->
  exec (live st) (Ev ring_buffer_write_index w :: t) st' ->
  answers H st (Ev ring_buffer_write_index w :: t) ->
  drain_ok H st' /\
  exists nls, on_air H (Ev ring_buffer_write_index w :: t) (chunk_seq st)
      (notifies (Ev ring_buffer_write_index w :: t)) nls (chunk_seq st') /\
    covers H (cursor st) (cursor st') (Ev ring_buffer_write_index w :: t) nls.
Proof.
  intros Hok HP Hf Hkeep He Ha. pose proof (ok_seq _ _ Hok) as Hseq.
  assert (Forall (fun f => fr_vad f <> C6_PREROLL) H) as Hnp
    by (eapply Forall_impl; [exact HP|apply pushed_not_preroll]).
  destruct (live_spec _ _ _ _ Hok Hnp He Ha) as [[Hnn ->]|(Hd & Hpk & w' & Hw' & Hwc)].
  { split; [done|]. exists []. rewrite Hnn.
    split; [by apply on_air_nil|]. intros i f _ Hi. lia. }
  apply (f_equal (option_map seen)) in Hw'. simpl in Hw'.
  assert (w' = w) as -> by congruence. clear Hw'.
  split; [eapply chunk_done_ok; try done; lia|].
  destruct (chunk_on_air _ _ _ _ w Hok Hd) as (nls & Hair & Hcov); [lia| |done|by exists nls].
  simpl. split; [lia|done].
Qed.

(** A step of the drain task, against the history at its end. *)
Lemma step_on_air H n sc st t st' :
  drain_ok H st -> Forall pushed_ok H -> 0 <= cursor st <= n ->
  exec (drain_step sc st) t (Some st') -> Forall copied t ->
  (Ev replay_receive None ∈ t -> Z.of_nat (length H) < rewind_to (cursor st) + RING_FRAMES) ->
  fresh n (Z.of_nat (length H)) t ->
  (forall lo hi, 0 <= lo -> loads_after hi n t ->
     Z.of_nat (length H) < lo + RING_FRAMES -> Forall (consistent H lo hi) t) ->
  drain_ok H st' /\
  exists nls, on_air H t (chunk_seq st) (notifies t) nls (chunk_seq st') /\
    covers H (cursor st) (cursor st') t nls.
Proof.
  intros Hok HP Hn He Hcp Hkeep Hf Hc. pose proof (ok_seq _ _ Hok) as Hseq.
  destruct He as (rr & t1 & -> & He). cbn [bind] in He. apply Forall_cons in Hcp as [_ Hcp].
  destruct rr as [seconds|].
  - apply exec_bind in He as (t2 & t3 & r & -> & He & Hr).
    destruct r as [[seq' pkt']|]; [|by destruct Hr]. destruct Hr as [-> Hst].
    injection Hst as ->. rewrite app_nil_r in *.
    assert (Forall (consistent H (Z.of_nat (length H)) 0) (Ev replay_receive (Some seconds) :: t2))
      as Hcons by (apply Hc; [lia|apply loads_after_reached; lia|rewrite RING_FRAMES_val; lia]).
    apply Forall_cons in Hcons as [Hs Hcons].
    destruct (replay_on_air _ _ _ _ _ _ _ _ _ Hok He Hcp Hs Hcons) as (Hok' & nls & Hair).
    split; [done|]. exists nls. split; [|intros i f _ Hi; simpl in Hi; lia].
    rewrite <-(app_nil_r H). eapply on_air_later; [exact Hair|]. by apply list_subseteq_cons.
  - specialize (Hkeep ltac:(left)). simpl in Hf.
    apply exec_bind in He as (t2 & t3 & st1 & -> & He & [-> Hst]). injection Hst as <-.
    rewrite app_nil_r in *.
    pose proof He as (w & t4 & -> & He4). cbn [bind] in He4. simpl in Hf.
    destruct Hf as [Hw Hf].
    destruct (Z.ltb_spec (u32 (w - cursor st)) C6_FRAMES_PER_CHUNK) as [Hlt|Hge].
    { destruct He4 as ([] & t5 & -> & -> & ->). split; [done|]. exists [].
      split; [by apply on_air_nil|]. intros i f _ Hi. lia. }
    assert (0 <= rewind_to (cursor st)) as Hlo by (unfold rewind_to; lia).
    assert (cursor st + 10 <= Z.max n w) as Hhi.
    { unfold C6_FRAMES_PER_CHUNK in Hge. pose proof (ok_count _ _ Hok).
      specialize (Hc (Z.of_nat (length H)) 0 ltac:(lia)
        ltac:(apply loads_after_reached; lia) ltac:(rewrite RING_FRAMES_val; lia)).
      apply Forall_cons in Hc as [_ Hc]. apply Forall_cons in Hc as [Hwr _]. simpl in Hwr.
      rewrite u32_small in Hge by clia. lia. }
    specialize (Hc (rewind_to (cursor st)) (cursor st + 10) Hlo
      (loads_after_reached _ _ t4 Hhi) Hkeep).
    apply Forall_cons in Hc as [_ Hc].
    assert (answers H st (Ev ring_buffer_write_index w :: t4)) as Ha.
    { split; [exact Hc|]. constructor; [simpl; lia|]. eapply fresh_not_behind; [exact Hf|lia]. }
    destruct (live_on_air _ _ _ _ _ Hok HP Hf Hkeep He Ha) as (Hok' & nls & Hair & Hcov).
    split; [done|]. exists nls. split.
    { rewrite <-(app_nil_r H). eapply on_air_later; [exact Hair|]. by apply list_subseteq_cons. }
    intros i f Hi Hr Hau Hfit. apply (Hcov i f); try done. intros m Hm. apply Hfit. by right.
Qed.

(** ** The invariant of the two tasks *)

Record path_ok (l : list label) (a : audio_st) (st : drain_st) (H : list frame) (ks : list Z)
    (nls : list (list (nat * frame))) : Prop := {
  po_history : history_ok a (count is_frame (audios l)) (count encode_fails (audios l)) H ks;
  po_dsp : dsp_ok a;
  po_voice : voice H = encoded (audios l);
  po_frames : count is_frame (audios l) <= Z.of_nat (length l);
  po_drain : drain_ok H st;
  po_air : on_air H (drains l) 0 (notifies (drains l)) nls (chunk_seq st);
  po_covers : covers H 0 (cursor st) (drains l) nls;
}.

Lemma path_init :
  path_ok [] (audio_init zero_ring) drain_init [] [] [].
Proof.
  split.
  - by apply history_init, ring_init_ok.
  - apply dsp_init_ok.
  - done.
  - done.
  - split; [apply Forall_nil_2|simpl; lia|simpl; lia|simpl; clia|by vm_compute].
  - apply (on_air_nil [] [] 0). clia.
  - intros i f _ Hi. simpl in Hi. lia.
Qed.

Lemma covers_step H K c c' t t' nls nls' :
  c <= Z.of_nat (length H) -> covers H 0 c t nls -> covers (H ++ K) c c' t' nls' ->
  covers (H ++ K) 0 c' (t ++ t') (nls ++ nls').
Proof.
  intros Hc H1 H2 i f Hi Hr Ha Hfit. destruct (Z.lt_ge_cases (Z.of_nat i) c).
  - rewrite lookup_app_l in Hi by lia. destruct (H1 i f Hi) as (nl & ? & ?); [lia|done| |].
    { intros m Hm. apply Hfit, elem_of_app. by left. }
    exists nl. rewrite elem_of_app. auto.
  - destruct (H2 i f Hi) as (nl & ? & ?); [lia|done| |].
    { intros m Hm. apply Hfit, elem_of_app. by right. }
    exists nl. rewrite elem_of_app. auto.
Qed.

Lemma path_extends l a st H ks nls sc l' a' st' :
  path_ok l a st H ks nls -> weave a (drain_step sc st) l' a' (Some st') -> keeps_up st l' a' ->
  Forall audio_honest (audios l') -> Z.of_nat (length (l ++ l')) + 10 < 4294967296 ->
  exists Hn ks' nls', path_ok (l ++ l') a' st' (H ++ Hn) ks' (nls ++ nls').
Proof.
  intros [Hh Hd Hv Hfr Hok Hair Hcov] Hw [Hkeep Hcp] Hau Hlen. rewrite length_app in Hlen.
  pose proof (weave_exec _ _ _ _ _ Hw) as He. pose proof (ok_cursor _ _ Hok) as Hcur.
  pose proof (ok_count _ _ Hok) as Hcount.
  assert (Forall (u32_args []) (drains l')) as Hu.
  { eapply (always_exec (u32_args []) []); [|exact He]. apply drain_step_u32. clia. }
  assert (0 <= count encode_fails (audios l)) by (unfold count; lia).
  assert (0 <= count is_frame (audios l)) by (unfold count; lia).
  destruct (weave_spec _ _ _ _ _ _ _ _ _ Hw Hd Hh) as (Hn & ks' & Hh' & Hd' & Hv' & Hf' & Hc & Hfresh);
    try done; [lia|].
  assert (0 <= count encode_fails (audios l')) by (unfold count; lia).
  pose proof (ho_len _ _ _ _ _ Hh') as Hlen'.
  assert (drain_ok (H ++ Hn) st) as Hok1.
  { destruct Hok. split; try done; [apply (ho_frames _ _ _ _ _ Hh')|lia|].
    rewrite length_app. lia. }
  destruct (step_on_air (H ++ Hn) (Z.of_nat (length H)) sc st (drains l') st' Hok1)
    as (Hok' & nls' & Hair' & Hcov'); try done.
  { apply (ho_pushed _ _ _ _ _ Hh'). }
  { intros Hlive. specialize (Hkeep Hlive).
    by rewrite (ring_ok_count _ _ (ho_ring _ _ _ _ _ Hh')) in Hkeep. }
  exists Hn, ks', nls'. split; rewrite ?audios_app, ?drains_app, ?count_app, ?notifies_app; try done.
  - by rewrite voice_app, encoded_app, Hv, Hv'.
  - rewrite length_app. lia.
  - eapply on_air_app; [clia|eapply on_air_later; [exact Hair|]|].
    + by apply list_subseteq_app_l.
    + rewrite <-(app_nil_r (H ++ Hn)). eapply on_air_later; [exact Hair'|].
      by apply list_subseteq_app_r.
  - eapply covers_step; [|done|done]. lia.
Qed.

Lemma path_invariant l a st :
  path_run (audio_init zero_ring) drain_init l a st ->
  Forall audio_honest (audios l) -> Z.of_nat (length l) + 10 < 4294967296 ->
  exists H ks nls, path_ok l a st H ks nls.
Proof.
  induction 1 as [|l a st sc l' a' st' _ IH Hw Hk]; intros Hh Hl.
  { exists [], [], []. apply path_init. }
  rewrite audios_app in Hh. apply Forall_app in Hh as [Hh1 Hh2].
  destruct IH as (H & ks & nls & Hok); [done|rewrite length_app in Hl; lia|].
  destruct (path_extends _ _ _ _ _ _ _ _ _ _ Hok Hw Hk Hh2 Hl) as (Hn & ks' & nls' & Hok').
  by exists (H ++ Hn), ks', (nls ++ nls').
Qed.

(** A schedule: how many iterations of the audio task come before each call
    of the drain task; the radio takes everything. *)
Definition demo_answer (r : ring) (X : Type) (c : drainE X) : X :=
  match c in drainE X return X with
  | replay_receive => None
  | ring_buffer_write_index => RingBuffer.ring_buffer_write_index r
  | ring_buffer_get i => RingBuffer.ring_buffer_get r i
  | ring_buffer_get_copy i => RingBuffer.ring_buffer_get_copy r i
  | deref p n => match p with InSlot s => ring_read r s n | InBuffer => [] end
  | ble_link_att_mtu => 247
  | ble_link_notify_audio _ => 0
  | vTaskDelay _ => tt
  end.

Definition audio_once (a : audio_st) : list (ev audioE) * audio_st :=
  fst (run (demo_audio false 3) (audio_iteration a) tt).

Lemma audio_once_exec a : exec (audio_iteration a) (fst (audio_once a)) (snd (audio_once a)).
Proof. apply run_exec_fst. Qed.

#[local] Opaque audio_once.

Fixpoint audio_sim (n : nat) (a : audio_st) : list label * audio_st :=
  match n with
  | O => ([], a)
  | S n =>
      let '(l, a2) := audio_sim n (snd (audio_once a)) in (LAudio (fst (audio_once a)) :: l, a2)
  end.

Fixpoint weave_sim {A} (sched : list nat) (a : audio_st) (p : prog drainE A)
    : list label * audio_st * A :=
  match p with
  | Ret r => ([], a, r)
  | Call c k =>
      let '(l1, a1) := audio_sim (hd O sched) a in
      let x := demo_answer (s_ring a1) _ c in
      let '(l2, a2, r) := weave_sim (tl sched) a1 (k x) in
      (l1 ++ LDrain (Ev c x) :: l2, a2, r)
  end.

Lemma weave_after_audio {A} n a l a1 (p : prog drainE A) l2 a2 r :
  audio_sim n a = (l, a1) -> weave a1 p l2 a2 r -> weave a p (l ++ l2) a2 r.
Proof.
  revert a l. induction n as [|n IH]; intros a l E Hw; simpl in E; [by injection E as <- <-|].
  destruct (audio_sim n _) as [l' a3] eqn:En. injection E as <- <-. cbn [app].
  eapply weave_audio; [apply audio_once_exec|]. by eapply IH.
Qed.

Lemma weave_sim_weave {A} sched a (p : prog drainE A) :
  weave a p (fst (fst (weave_sim sched a p))) (snd (fst (weave_sim sched a p)))
    (snd (weave_sim sched a p)).
Proof.
  revert sched a. induction p as [r|X c k IH]; intros sched a; simpl; [constructor|].
  destruct (audio_sim (hd O sched) a) as [l1 a1] eqn:E1.
  specialize (IH (demo_answer (s_ring a1) X c) (tl sched) a1).
  destruct (weave_sim (tl sched) a1 _) as [[l2 a2] r] eqn:E2. simpl in *.
  eapply weave_after_audio; [exact E1|]. constructor; [|exact IH].
  destruct c; simpl; try done; try clia; by destruct p.
Qed.

#[local] Transparent audio_once.

(** Two steps of the drain task: the first finds eight frames and sleeps; six
    more are pushed while the second reads the ring. *)
Definition demo_step1 := weave_sim [8]%nat (audio_init zero_ring) (drain_step [] drain_init).
Definition demo_st1 : drain_st := default drain_init (snd demo_step1).
Definition demo_sched : list nat := [0; 3; 1; 0; 0; 0; 1; 0; 0; 0; 0; 0; 0; 0; 0; 1]%nat.
Definition demo_step2 := weave_sim demo_sched (snd (fst demo_step1)) (drain_step [] demo_st1).
Definition demo_st2 : drain_st := default drain_init (snd demo_step2).
Definition demo_labels : list label := fst (fst demo_step1) ++ fst (fst demo_step2).

Definition finishes (x : list label * audio_st * option drain_st) : bool :=
  match snd x with Some _ => true | None => false end.

Lemma demo_weave sched a p :
  finishes (weave_sim sched a p) = true ->
  weave a p (fst (fst (weave_sim sched a p))) (snd (fst (weave_sim sched a p)))
    (Some (default drain_init (snd (weave_sim sched a p)))).
Proof.
  intros H. pose proof (weave_sim_weave sched a p) as Hw. unfold finishes in H.
  by destruct (snd (weave_sim sched a p)).
Qed.

Definition copied_b (e : ev drainE) : bool :=
  match e with
  | Ev e x => match e in drainE X return X -> bool with
              | ring_buffer_get_copy _ => fun r => match r with Some _ => true | None => false end
              | _ => fun _ => true
              end x
  end.

Lemma demo_keeps_up st l a :
  (s_write_index (s_ring a) <? rewind_to (cursor st) + RING_FRAMES) &&
    forallb copied_b (drains l) = true ->
  keeps_up st l a.
Proof.
  intros H. apply andb_true_iff in H as [H1 H2]. split; [lia|].
  rewrite forallb_forall in H2. apply Forall_forall. intros e He.
  apply list_elem_of_In, H2 in He. destruct e as [X e x]. destruct e; try done.
  by destruct x.
Qed.

Lemma path_one a st sc l a' st' :
  weave a (drain_step sc st) l a' (Some st') -> keeps_up st l a' -> path_run a st l a' st'.
Proof. intros Hw Hk. apply (path_step a st [] a st sc l a' st'); [constructor|done..]. Qed.

Lemma demo_weave1 :
  weave (audio_init zero_ring) (drain_step [] drain_init) (fst (fst demo_step1))
    (snd (fst demo_step1)) (Some demo_st1).
Proof. unfold demo_st1, demo_step1. apply demo_weave. by vm_compute. Qed.

Lemma demo_weave2 :
  weave (snd (fst demo_step1)) (drain_step [] demo_st1) (fst (fst demo_step2))
    (snd (fst demo_step2)) (Some demo_st2).
Proof. unfold demo_st2, demo_step2. apply demo_weave. by vm_compute. Qed.

Lemma demo_path_run :
  path_run (audio_init zero_ring) drain_init demo_labels (snd (fst demo_step2)) demo_st2.
Proof.
  apply (path_step _ _ (fst (fst demo_step1)) (snd (fst demo_step1)) demo_st1 []).
  - apply (path_one _ _ [] _ _ _ demo_weave1), demo_keeps_up. by vm_compute.
  - exact demo_weave2.
  - apply demo_keeps_up. by vm_compute.
Qed.

(** ** Theorem *)

(** C1. From the microphone to the server.  Take any run of the audio task and
    the drain task from boot, in any interleaving, whatever the microphone,
    the encoder, the pause flag and the radio answer, in which the drain task
    keeps up.  What the ring presents is a history [H] of frames stamped with
    their 20 ms periods, whose audible frames carry, in order, exactly the
    bytes the encoder produced.  Everything handed to the radio is a sequence
    of packets, each fitting one notification at an MTU the task has read,
    tried until done with, and numbered consecutively from 0; the server parses each of them and reads frames of [H], in order, and nothing
    else, a live packet being stamped with its first frame.  And every audible
    frame the cursor has passed is in one of the packets, unless some MTU read
    on the way had no room for it. *)
Theorem microphone_to_server l a st :
  path_run (audio_init zero_ring) drain_init l a st ->
  Forall audio_honest (audios l) -> Z.of_nat (length l) + 10 < 4294967296 ->
  exists H ks nls,
    history_ok a (count is_frame (audios l)) (count encode_fails (audios l)) H ks /\
    map fr_bytes (List.filter audible H) = encoded (audios l) /\
    on_air H (drains l) 0 (notifies (drains l)) nls (chunk_seq st) /\
    0 <= cursor st <= Z.of_nat (length H) /\
    covers H 0 (cursor st) (drains l) nls.
Proof.
  intros Hr Hh Hl. destruct (path_invariant _ _ _ Hr Hh Hl) as (H & ks & nls & Hok).
  destruct Hok as [? ? ? ? Hd ? ?]. exists H, ks, nls. split_and!; try done; apply Hd.
Qed.

Lemma microphone_to_server_witness :
  cursor demo_st2 = 10 /\ length (notifies (drains demo_labels)) = 1%nat /\
  exists H ks nls,
    history_ok (snd (fst demo_step2)) 14 0 H ks /\
    on_air H (drains demo_labels) 0 (notifies (drains demo_labels)) nls 1 /\
    covers H 0 10 (drains demo_labels) nls.
Proof.
  split; [by vm_compute|]. split; [by vm_compute|].
  assert (count is_frame (audios demo_labels) = 14) as E1 by by vm_compute.
  assert (count encode_fails (audios demo_labels) = 0) as E2 by by vm_compute.
  assert (cursor demo_st2 = 10) as E3 by by vm_compute.
  assert (chunk_seq demo_st2 = 1) as E4 by by vm_compute.
  destruct (microphone_to_server demo_labels (snd (fst demo_step2)) demo_st2)
    as (H & ks & nls & H1 & _ & H2 & _ & H3).
  - apply demo_path_run.
  - apply audio_honest_b_ok. by vm_compute.
  - by vm_compute.
  - rewrite E1, E2 in H1. rewrite E4 in H2. rewrite E3 in H3.
    exists H, ks, nls. exact (conj H1 (conj H2 H3)).
Defined.
