(* ===== verification/ReplayPath.v ===== *)
(** * From a request_buffer command to the packets that answer it

    The whole device behind the command characteristic: the BLE host task
    handles writes (commands.c), the button task queues its own requests, the
    executor task takes requests off the command queue and makes their calls
    one at a time, the drain task receives replay requests from the queue of
    ble_drain.c and serves them from the ring that the audio task is filling.
    The tasks run in any interleaving.  CommandPath treats a dispatch as one
    step; here the executor's receive and each of its calls are steps of their
    own, so the two queues are touched at different instants, as in the code.
    The range of the seconds and the readings of the ring that BleDrain,
    DrainReplay and AudioPath assume are proved of the system. *)

From stdpp Require Import strings.
From S2P Require Import Prelude Effects Interleave Config C6Packet RingBuffer CJson Freertos.
From S2P Require Import ExecutorCore Executor Button ButtonTask Commands CommandPath.
From S2P Require Import BleDrain DrainSpec DrainLive DrainReplay AudioTask AudioPath.
Import C6 Live Json ListQueue.
Open Scope list_scope.
Open Scope Z_scope.

(** ** The system *)

(** The requests of the button task. *)
Definition button_requests : list cmd_request_t :=
  [CmdRequest CMD_REQUEST_BUFFER EXEC_OK 60 0 0; local_req CMD_START_AUDIO;
   local_req CMD_STOP_AUDIO; local_req CMD_CAPTURE_PHOTO].

(** A step: a write of the command characteristic with what it put in the
    queue, a new key, a request of the button task, the executor's receive,
    one of its calls, an iteration of the audio task, a call of the drain
    task. *)
Inductive wlabel : Type :=
| WWrite (data : list Z) (took : list cmd_request_t)
| WKey (key : list Z)
| WButton (req : cmd_request_t) (ok : bool)
| WTake (req : cmd_request_t)
| WExec (e : ev execE)
| WAudio (t : list (ev audioE))
| WDrain (e : ev drainE).

Section System.
Context {node : Type} `{CJson node}.
Context (verify : list Z -> list Z -> list Z -> bool) (parse : list Z -> option node).
Context {Q : Type} {HQ : FQueue cmd_request_t Q} {RQ : Type} {HRQ : FQueue Z RQ}.

(** The state of commands.c, [s_queue], what the executor task has left to do
    for the request it took, [s_replay_queue], and the audio task. *)
Record world : Type := World {
  w_cmd : cmd_state; w_q : Q; w_exec : prog execE unit; w_rq : RQ; w_audio : audio_st;
}.

(** A call of the executor task: the replay queue answers a send; the handle
    is NULL until ble_drain_start has run; the other modules are not here. *)
Definition exec_answer (rq : RQ) (e : ev execE) (rq' : RQ) : Prop :=
  match e with
  | Ev e x =>
      match e in execE X return X -> Prop with
      | replay_send s => fun ok => xQueueSend rq s = (ok, rq')
      | _ => fun _ => rq' = rq
      end x
  end.

Inductive wstep : world -> wlabel -> world -> Prop :=
| ws_write cs q p rq a data t cs' q' :
    exec (commands_handle verify parse cs data) t cs' -> answered q t q' ->
    wstep (World cs q p rq a) (WWrite data (takes t)) (World cs' q' p rq a)
| ws_key cs q p rq a key :
    wstep (World cs q p rq a) (WKey key) (World (commands_set_pubkey cs key) q p rq a)
| ws_button cs q p rq a req ok q' :
    req ∈ button_requests -> Executor.executor_dispatch_local q (Some req) = (ok, q') ->
    wstep (World cs q p rq a) (WButton req ok) (World cs q' p rq a)
| ws_take cs q rq a req q' :
    xQueueReceive q = Some (req, q') ->
    wstep (World cs q (Ret tt) rq a) (WTake req) (World cs q' (executor_dispatch req) rq a)
| ws_exec cs q rq a X (c : execE X) k x rq' :
    exec_answer rq (Ev c x) rq' ->
    wstep (World cs q (Call c k) rq a) (WExec (Ev c x)) (World cs q (k x) rq' a)
| ws_audio cs q p rq a t a' :
    exec (audio_iteration a) t a' ->
    wstep (World cs q p rq a) (WAudio t) (World cs q p rq a').

(** A call of the drain task: the replay queue answers a receive, the ring
    everything about frames, the radio the rest. *)
Definition drain_answer (w : world) (e : ev drainE) (w' : world) : Prop :=
  match e with
  | Ev replay_receive x =>
      match xQueueReceive (w_rq w) with
      | Some (s, rq') =>
          x = Some s /\ w' = World (w_cmd w) (w_q w) (w_exec w) rq' (w_audio w)
      | None => x = None /\ w' = w
      end
  | _ => ring_answer (s_ring (w_audio w)) e /\ w' = w
  end.

(** A program of the drain task among the steps of the others. *)
Inductive wweave {A} : world -> prog drainE A -> list wlabel -> world -> A -> Prop :=
| ww_done w r : wweave w (Ret r) [] w r
| ww_step w x w1 p l w2 r : wstep w x w1 -> wweave w1 p l w2 r -> wweave w p (x :: l) w2 r
| ww_drain w X (c : drainE X) k x w1 l w2 r :
    drain_answer w (Ev c x) w1 -> wweave w1 (k x) l w2 r ->
    wweave w (Call c k) (WDrain (Ev c x) :: l) w2 r.

(** What AudioPath sees of the system. *)
Definition path_label (x : wlabel) : option label :=
  match x with
  | WAudio t => Some (LAudio t)
  | WDrain e => Some (LDrain e)
  | _ => None
  end.
Definition path_of (l : list wlabel) : list label := omap path_label l.

(** Any number of steps of the drain task that keep up. *)
Inductive device_run (w0 : world) (st0 : drain_st) : list wlabel -> world -> drain_st -> Prop :=
| device_start : device_run w0 st0 [] w0 st0
| device_step l w st sc l' w' st' :
    device_run w0 st0 l w st -> wweave w (drain_step sc st) l' w' (Some st') ->
    keeps_up st (path_of l') (w_audio w') -> device_run w0 st0 (l ++ l') w' st'.

(** At boot: both queues empty, nothing recorded. *)
Definition device_boot (cs : cmd_state) : world :=
  World cs (xQueueCreate EXECUTOR_QUEUE_DEPTH) (Ret tt) (xQueueCreate DRAIN_REPLAY_QUEUE_DEPTH)
    (audio_init zero_ring).
End System.
Arguments world : clear implicits.

(** ** What the trace says *)

(** The requests that entered the command queue, those the executor took, the
    seconds a request asks to replay, the seconds put in the replay queue and
    those the drain task received. *)
Definition accepted1 (x : wlabel) : list cmd_request_t :=
  match x with WWrite _ took => took | WButton r true => [r] | _ => [] end.
Definition taken1 (x : wlabel) : list cmd_request_t :=
  match x with WTake r => [r] | _ => [] end.
Definition asks (r : cmd_request_t) : list Z :=
  match status r, type r with EXEC_OK, CMD_REQUEST_BUFFER => [seconds r] | _, _ => [] end.
Definition sent1 (x : wlabel) : list Z :=
  match x with
  | WExec (Ev e y) =>
      match e in execE X return X -> list Z with
      | replay_send s => fun ok => if ok : bool then [s] else []
      | _ => fun _ => []
      end y
  | _ => []
  end.
Definition received (e : ev drainE) : list Z :=
  match e with
  | Ev e y =>
      match e in drainE X return X -> list Z with
      | replay_receive => fun r => match r with Some s => [s] | None => [] end
      | _ => fun _ => []
      end y
  end.
Definition served1 (x : wlabel) : list Z := match x with WDrain e => received e | _ => [] end.

Definition accepted (l : list wlabel) : list cmd_request_t := l ≫= accepted1.
Definition taken (l : list wlabel) : list cmd_request_t := l ≫= taken1.
Definition sent (l : list wlabel) : list Z := l ≫= sent1.
Definition served (l : list wlabel) : list Z := l ≫= served1.

Definition replayable (s : Z) : Prop := REQ_BUFFER_MIN_SECONDS <= s <= REQ_BUFFER_MAX_SECONDS.

(** ** The executor's sends *)

Definition send_of {X} (c : execE X) : option Z :=
  match c with replay_send s => Some s | _ => None end.

(** The program sends at most the seconds [owed], in order. *)
Fixpoint sends_within {A} (p : prog execE A) (owed : list Z) : Prop :=
  match p with
  | Ret _ => True
  | Call c k => forall x,
      match send_of c with
      | Some s => exists o1 o2, owed = o1 ++ s :: o2 /\ sends_within (k x) o2
      | None => sends_within (k x) owed
      end
  end.

Lemma dispatch_sends req : sends_within (executor_dispatch req) (asks req).
Proof.
  unfold executor_dispatch, asks. destruct (status req), (type req); try done; simpl.
  intros [|]; [|done]. intros _. by exists [], [].
Qed.

Lemma asks_replayable req s :
  (status req = EXEC_OK -> type req = CMD_REQUEST_BUFFER -> replayable (seconds req)) ->
  s ∈ asks req -> replayable s.
Proof.
  unfold asks. intros Hr. destruct (status req), (type req);
    try (by intros ?%not_elem_of_nil). intros ->%list_elem_of_singleton. by apply Hr.
Qed.

(** ** The drain task receives once per step *)

Definition receives (past : list (ev drainE)) (e : ev drainE) : Prop := received e = [].

Create HintDb quiet.
Ltac quiet_tac :=
  repeat first
    [ exact I
    | solve [auto with quiet]
    | apply always_bind; [|intros ? ? _]
    | apply always_call; intros; reflexivity
    | match goal with IH : forall _, _ |- always receives _ _ => apply IH end
    | case_match ].

Lemma replay_collect_quiet left start i budget l past :
  always receives past (Replay.collect left start i budget l).
Proof. revert i l past. induction left as [|left IH]; intros; cbn [Replay.collect]; quiet_tac. Qed.

Lemma ship_quiet fuel budget last sc fs seq p past :
  always receives past (Replay.ship fuel budget last sc fs seq p).
Proof. revert fs seq p past. induction fuel as [|fuel IH]; intros; cbn [Replay.ship]; quiet_tac. Qed.

Lemma ship_empty_quiet flags ts seq p past : always receives past (Replay.ship_empty flags ts seq p).
Proof. unfold Replay.ship_empty. quiet_tac. Qed.
#[local] Hint Resolve replay_collect_quiet ship_quiet ship_empty_quiet : quiet.

Lemma outer_quiet fuel left start N budget sc seq p past :
  always receives past (Replay.outer fuel left start N budget sc seq p).
Proof. revert left sc seq p past. induction fuel as [|fuel IH]; intros; cbn [Replay.outer]; quiet_tac. Qed.

Lemma live_collect_quiet n i cur pre base fs ts past :
  always receives past (Live.collect n i cur pre base fs ts).
Proof. revert i fs ts past. induction n as [|n IH]; intros; cbn [Live.collect]; quiet_tac. Qed.

Lemma load_quiet fs past : always receives past (load fs).
Proof. revert past. induction fs as [|f fs IH]; intros; cbn [load]; quiet_tac. Qed.

Lemma retry_quiet n p past : always receives past (retry n p).
Proof. revert past. induction n as [|n IH]; intros; cbn [retry]; quiet_tac. Qed.
#[local] Hint Resolve outer_quiet live_collect_quiet load_quiet retry_quiet : quiet.

Lemma send_quiet p past : always receives past (send p).
Proof. unfold send. quiet_tac. Qed.
#[local] Hint Resolve send_quiet : quiet.

Lemma pack_quiet fuel budget fs k seq p past : always receives past (pack fuel budget fs k seq p).
Proof. revert fs k seq p past. induction fuel as [|fuel IH]; intros; cbn [pack]; quiet_tac. Qed.

Lemma preroll_quiet st w past : always receives past (preroll st w).
Proof. unfold preroll. quiet_tac. Qed.
#[local] Hint Resolve pack_quiet preroll_quiet : quiet.

Lemma drain_replay_quiet seconds seq p sc past :
  always receives past (Replay.drain_replay seconds seq p sc).
Proof. unfold Replay.drain_replay. quiet_tac. Qed.

Lemma live_quiet st past : always receives past (live st).
Proof. unfold live. quiet_tac. Qed.

(** A step looks into the replay queue first, and only then. *)
Lemma drain_step_receives sc st t r :
  exec (drain_step sc st) t r ->
  exists q t', t = Ev replay_receive q :: t' /\ Forall (receives []) t'.
Proof.
  intros (q & t' & -> & H). exists q, t'. split; [done|]. cbn [bind] in H. destruct q as [s|].
  - apply exec_bind in H as (t1 & t2 & x & -> & H1 & H2). apply Forall_app. split.
    + eapply (always_exec (receives []) []); [apply drain_replay_quiet|exact H1].
    + destruct x as [[? ?]|]; destruct H2 as [-> _]; constructor.
  - apply exec_bind in H as (t1 & t2 & x & -> & H1 & [-> _]). rewrite app_nil_r.
    eapply (always_exec (receives []) []); [apply live_quiet|exact H1].
Qed.

(** ** The queues in between *)

Lemma Forall_sublist {A} (P : A -> Prop) l k : l `sublist_of` k -> Forall P k -> Forall P l.
Proof. induction 1; rewrite ?Forall_cons; tauto. Qed.

(** A request that asks for a replay asks for 1 to 60 seconds. *)
Definition sane (r : cmd_request_t) : Prop := Forall replayable (asks r).

Lemma parsed_sane {node} `{CJsonLaws node} ty (params : option node) :
  sane (executor_parse_and_validate ty params).
Proof.
  destruct (validated_request_bounds ty params) as [_ Hb]. unfold sane, asks.
  destruct (status _); [|constructor..]. destruct (Hb eq_refl) as (_ & Hs & _).
  destruct (type _); try constructor; [exact Hs|constructor].
Qed.

Lemma button_sane r : r ∈ button_requests -> sane r.
Proof.
  apply Forall_forall. repeat constructor; by vm_compute.
Qed.

(** The button task queues nothing else. *)
Lemma button_task_requests n :
  always (fun _ e => match e with
                     | Ev (executor_dispatch_local r) _ => r ∈ button_requests
                     | _ => True
                     end) [] (button_task n).
Proof.
  assert (forall n cls past, always (fun _ e => match e with
    | Ev (executor_dispatch_local r) _ => r ∈ button_requests | _ => True end) past
    (button_polls n cls)) as Hp.
  { clear. induction n as [|n IH]; intros; cbn [button_polls]; [done|].
    apply always_bind; [|intros; apply IH]. unfold button_poll, dispatch_gesture, now_ms.
    repeat first [exact I | apply always_bind; [|intros ? ? _] | case_match
      | apply always_call; intros; first [exact I
          | repeat case_match; apply list_elem_of_In; cbn; tauto]]. }
  unfold button_task, now_ms.
  repeat first [exact I | apply Hp | apply always_bind; [|intros ? ? _] | case_match
    | apply always_call; intros; exact I].
Qed.

Section Accounts.
Context {node : Type} `{CJsonLaws node}.
Context (verify : list Z -> list Z -> list Z -> bool) (parse : list Z -> option node).
Context {Q : Type} {HQ : FQueue cmd_request_t Q} {LQ : FQueueLaws cmd_request_t Q}.
Context {RQ : Type} {HRQ : FQueue Z RQ} {LRQ : FQueueLaws Z RQ}.
Abbreviation world := (world Q RQ).

(** Every request is accounted for: those accepted are those taken and those
    in the command queue; the replays put in the replay queue are asked for by
    requests taken, in order; they are those served and those in the queue. *)
Record accounts (l : list wlabel) (w : world) : Prop := {
  ac_commands : accepted l = taken l ++ queue_items (w_q w);
  ac_sent : exists paid owed, taken l ≫= asks = paid ++ owed /\ sent l `sublist_of` paid /\
    sends_within (w_exec w) owed;
  ac_served : sent l = served l ++ queue_items (w_rq w);
  ac_sane : Forall sane (accepted l);
  ac_room : Z.of_nat (length (queue_items (w_q w))) <= EXECUTOR_QUEUE_DEPTH /\
    Z.of_nat (length (queue_items (w_rq w))) <= DRAIN_REPLAY_QUEUE_DEPTH;
  ac_depth : queue_depth (w_q w) = EXECUTOR_QUEUE_DEPTH /\
    queue_depth (w_rq w) = DRAIN_REPLAY_QUEUE_DEPTH;
}.

Lemma accounts_boot cs : accounts [] (device_boot cs).
Proof.
  split; simpl; rewrite ?create_items, ?create_depth; try done.
  exists [], []. split_and!; [done|constructor|exact I].
Qed.

(** The replays in the queue are for 1 to 60 seconds. *)
Lemma accounts_range l w : accounts l w -> Forall replayable (sent l).
Proof.
  intros [Hc (paid & owed & Ht & Hs & _) _ Hsane _ _]. rewrite Hc in Hsane.
  apply Forall_app in Hsane as [Hsane _].
  assert (Forall replayable (paid ++ owed)) as Hp
    by (rewrite <-Ht; apply Forall_bind; exact Hsane).
  apply Forall_app in Hp as [Hp _]. by eapply Forall_sublist.
Qed.

Lemma answered_takes (q : Q) t q' :
  answered (node := node) q t q' ->
  queue_items q' = queue_items q ++ takes t /\ queue_depth q' = queue_depth q /\
  (Z.of_nat (length (queue_items q)) <= queue_depth q ->
   Z.of_nat (length (queue_items q')) <= queue_depth q') /\
  Forall sane (takes t).
Proof.
  revert q. induction t as [|[X e x] t IH]; intros q Ha.
  { simpl in Ha. subst. rewrite app_nil_r. by split_and!; [..|constructor]. }
  destruct e; simpl in Ha; [by apply IH|].
  destruct Ha as (q1 & Hs & Ha). rewrite submit_send in Hs.
  apply send_spec in Hs as (Hd & Hi & Hr). destruct (IH _ Ha) as (Hi' & Hd' & Hl & Hsane).
  change (takes (Ev (Commands.executor_submit ty params) x :: t)) with
    ((if x : bool then [executor_parse_and_validate ty params] else []) ++ takes t).
  split_and!.
  - by rewrite Hi', Hi, app_assoc.
  - congruence.
  - intros Hq. apply Hl. rewrite Hi, Hd, length_app. destruct x; simpl; [|lia].
    apply proj1 in Hr. specialize (Hr eq_refl). lia.
  - apply Forall_app. split; [|done]. destruct x; repeat constructor. apply parsed_sane.
Qed.

(** What a step of the trace adds. *)
Lemma accepted_snoc l x : accepted (l ++ [x]) = accepted l ++ accepted1 x.
Proof. unfold accepted. by rewrite bind_app, bind_singleton. Qed.
Lemma taken_snoc l x : taken (l ++ [x]) = taken l ++ taken1 x.
Proof. unfold taken. by rewrite bind_app, bind_singleton. Qed.
Lemma sent_snoc l x : sent (l ++ [x]) = sent l ++ sent1 x.
Proof. unfold sent. by rewrite bind_app, bind_singleton. Qed.
Lemma served_snoc l x : served (l ++ [x]) = served l ++ served1 x.
Proof. unfold served. by rewrite bind_app, bind_singleton. Qed.

(** Requests enter the command queue. *)
Lemma accounts_accept l x cs q p rq a cs' q' a' :
  accounts l (World cs q p rq a) ->
  taken1 x = [] -> sent1 x = [] -> served1 x = [] -> Forall sane (accepted1 x) ->
  queue_items q' = queue_items q ++ accepted1 x -> queue_depth q' = queue_depth q ->
  Z.of_nat (length (queue_items q')) <= EXECUTOR_QUEUE_DEPTH ->
  accounts (l ++ [x]) (World cs' q' p rq a').
Proof.
  intros [Hc (paid & owed & Ho) Hs Hsn [? ?] [? ?]] Et Es Ev Hsx Hi Hd Hr. simpl in *.
  split; rewrite ?accepted_snoc, ?taken_snoc, ?sent_snoc, ?served_snoc, ?Et, ?Es, ?Ev, ?app_nil_r;
    simpl; try done.
  - by rewrite Hc, Hi, app_assoc.
  - by exists paid, owed.
  - by apply Forall_app.
  - split; congruence.
Qed.

Lemma accounts_take l cs q rq a req q' :
  accounts l (World cs q (Ret tt) rq a) -> xQueueReceive q = Some (req, q') ->
  accounts (l ++ [WTake req]) (World cs q' (executor_dispatch req) rq a).
Proof.
  intros [Hc (paid & owed & Ht & Hsub & _) Hs Hsn [Hr ?] [? ?]] Hq.
  apply receive_spec in Hq as [Hq Hd]. simpl in *. rewrite Hq in Hc, Hr. simpl in Hr.
  split; rewrite ?accepted_snoc, ?taken_snoc, ?sent_snoc, ?served_snoc; simpl; rewrite ?app_nil_r;
    try done.
  - by rewrite Hc, <-app_assoc.
  - exists (paid ++ owed), (asks req). rewrite bind_app, bind_singleton, Ht.
    split_and!; [done| |apply dispatch_sends]. by apply sublist_inserts_r.
  - split; [lia|done].
  - split; congruence.
Qed.

Lemma accounts_exec l cs q rq a X (c : execE X) k x rq' :
  accounts l (World cs q (Call c k) rq a) -> exec_answer rq (Ev c x) rq' ->
  accounts (l ++ [WExec (Ev c x)]) (World cs q (k x) rq' a).
Proof.
  intros [Hc (paid & owed & Ht & Hsub & Hsd) Hs Hsn [Hrq Hr] [Hdq Hd]] Ha. simpl in *.
  specialize (Hsd x).
  assert (sent1 (WExec (Ev c x)) = [] -> rq' = rq -> send_of c = None ->
    accounts (l ++ [WExec (Ev c x)]) (World cs q (k x) rq' a)) as Hother.
  { intros E -> Ec. rewrite Ec in Hsd.
    split; rewrite ?accepted_snoc, ?taken_snoc, ?sent_snoc, ?served_snoc, ?E; simpl;
      rewrite ?app_nil_r; try done. by exists paid, owed. }
  destruct c; try (by apply Hother). simpl in *. destruct Hsd as (o1 & o2 & -> & Hsd).
  apply send_spec in Ha as (Hd' & Hi' & Hroom).
  split; rewrite ?accepted_snoc, ?taken_snoc, ?sent_snoc, ?served_snoc; simpl; rewrite ?app_nil_r;
    try done.
  - exists (paid ++ o1 ++ [seconds]), o2. rewrite Ht, <-!app_assoc. split_and!; [done| |done].
    apply sublist_app; [done|]. apply sublist_inserts_l. by destruct x; repeat constructor.
  - by rewrite Hi', Hs, <-app_assoc.
  - split; [done|]. rewrite Hi', length_app. destruct x; simpl; [|lia].
    apply proj1 in Hroom. specialize (Hroom eq_refl). lia.
  - split; congruence.
Qed.

Lemma accounts_step l w x w' :
  accounts l w -> wstep verify parse w x w' -> accounts (l ++ [x]) w'.
Proof.
  intros Hok Hst. pose proof (ac_room _ _ Hok) as Hr. pose proof (ac_depth _ _ Hok) as Hd.
  destruct Hst as [cs q p rq a data t cs' q' _ Hq|cs q p rq a key|cs q p rq a req ok q' Hin Hl
    |cs q rq a req q' Hq|cs q rq a X c k y rq' Ha|cs q p rq a t a' _]; simpl in *.
  - apply answered_takes in Hq as (Hi & Hdq & Hroom & Hsane).
    eapply accounts_accept; try done. simpl. lia.
  - apply (accounts_accept _ _ cs q p rq a); simpl; rewrite ?app_nil_r; try done; lia.
  - assert (xQueueSend q req = (ok, q')) as Hs.
    { revert Hl. unfold Executor.executor_dispatch_local.
      assert (status req = EXEC_OK) as ->; [|by destruct (xQueueSend q req) as [[]]].
      revert Hin. generalize req. apply Forall_forall. by repeat constructor. }
    apply send_spec in Hs as (Hdq & Hi & Hroom).
    eapply accounts_accept; try done; simpl.
    + destruct ok; repeat constructor. by apply button_sane.
    + rewrite Hi, length_app. destruct ok; simpl; [|lia].
      apply proj1 in Hroom. specialize (Hroom eq_refl). lia.
  - by eapply accounts_take.
  - by eapply accounts_exec.
  - apply (accounts_accept _ _ cs q p rq a); simpl; rewrite ?app_nil_r; try done; lia.
Qed.

(** A call of the drain task is answered by the ring as AudioPath has it. *)
Lemma accounts_drain l w e w' :
  accounts l w -> drain_answer w e w' ->
  accounts (l ++ [WDrain e]) w' /\ ring_answer (s_ring (w_audio w)) e /\ w_audio w' = w_audio w.
Proof.
  intros Hok Ha. pose proof (accounts_range _ _ Hok) as Hrange.
  assert (served1 (WDrain e) = [] -> w' = w -> accounts (l ++ [WDrain e]) w') as Hother.
  { intros E ->. destruct Hok as [Hc Ho Hs Hsn Hr Hd].
    split; rewrite ?accepted_snoc, ?taken_snoc, ?sent_snoc, ?served_snoc, ?E; simpl;
      rewrite ?app_nil_r; done. }
  destruct e as [X c x]. destruct c; try (destruct Ha as [Ha ->]; split_and!; [by apply Hother|done..]).
  simpl in Ha. destruct (xQueueReceive (w_rq w)) as [[s rq']|] eqn:Hq; destruct Ha as [-> ->];
    [|split_and!; [by apply Hother|done..]].
  apply receive_spec in Hq as [Hq Hdq]. destruct Hok as [Hc Ho Hs Hsn [? Hr] [? ?]].
  rewrite Hq in Hs, Hr. simpl in Hr. split_and!; [|simpl|done].
  - split; rewrite ?accepted_snoc, ?taken_snoc, ?sent_snoc, ?served_snoc; simpl; rewrite ?app_nil_r;
      try done; [by rewrite Hs, <-app_assoc|split; [done|lia]|split; congruence].
  - rewrite Hs in Hrange. apply Forall_app in Hrange as [_ Hrange].
    by apply Forall_cons in Hrange as [? _].
Qed.

(** The system projects to the two tasks of AudioPath. *)
Lemma wweave_weave {A} l0 w (p : prog drainE A) l w' r :
  wweave verify parse w p l w' r -> accounts l0 w ->
  weave (w_audio w) p (path_of l) (w_audio w') r /\ accounts (l0 ++ l) w'.
Proof.
  intros Hw. revert l0. induction Hw as [w r|w x w1 p l w2 r Hst _ IH|w X c k x w1 l w2 r Ha _ IH];
    intros l0 Hok.
  - rewrite app_nil_r. split; [constructor|done].
  - destruct (IH (l0 ++ [x])) as [Hwv Hok']; [by eapply accounts_step|].
    rewrite <-app_assoc in Hok'. split; [|done].
    destruct Hst; try exact Hwv. by eapply weave_audio.
  - destruct (accounts_drain _ _ _ _ Hok Ha) as (Hok1 & Hring & Hau).
    destruct (IH _ Hok1) as [Hwv Hok']. rewrite <-app_assoc in Hok'. split; [|done].
    rewrite Hau in Hwv. by apply weave_drain.
Qed.

Lemma path_of_app l l' : path_of (l ++ l') = path_of l ++ path_of l'.
Proof. apply omap_app. Qed.

Lemma device_path cs l w st :
  device_run verify parse (device_boot cs) drain_init l w st ->
  path_run (audio_init zero_ring) drain_init (path_of l) (w_audio w) st /\ accounts l w.
Proof.
  induction 1 as [|l w st sc l' w' st' _ [IH Hok] Hw Hk].
  { split; [constructor|apply accounts_boot]. }
  destruct (wweave_weave _ _ _ _ _ _ Hw Hok) as [Hwv Hok']. split; [|done].
  rewrite path_of_app. by eapply path_step.
Qed.
End Accounts.

(** ** A served replay *)

Lemma fresh_index n n' t e w : fresh n n' t -> e ∈ t -> seen e = Some w -> n <= w.
Proof.
  revert n. induction t as [|[X c x] t IH]; intros n Hf He Hs; [by apply elem_of_nil in He|].
  apply elem_of_cons in He as [->|He].
  - destruct c; try done. simpl in *. injection Hs as ->. by destruct Hf.
  - destruct c; simpl in Hf; try (by eapply IH); try (by destruct Hf; eapply IH).
    destruct Hf as [Hn Hf]. specialize (IH _ Hf He Hs). lia.
Qed.

(** A drain step that received [s], against the history at its end. *)
Lemma replay_served H sc st t st' s :
  drain_ok H st -> exec (drain_step sc st) (Ev replay_receive (Some s) :: t) (Some st') ->
  Forall copied t -> replayable s -> Forall (consistent H (Z.of_nat (length H)) 0) t ->
  exists w mtu, Ev ring_buffer_write_index w ∈ t /\ Ev ble_link_att_mtu mtu ∈ t /\
    w <= Z.of_nat (length H) /\
    replayed (budget_of mtu) (chunk_seq st) (window H s w) (notifies t) (chunk_seq st').
Proof.
  intros Hok (q & t' & Et & He) Hcp Hs Hc.
  pose proof (f_equal (fun l => head l ≫= fun e => Some (received e)) Et) as Eq.
  apply (f_equal tail) in Et. simpl in Et, Eq. subst t'.
  assert (q = Some s) as -> by (destruct q; congruence). clear Eq. cbn [bind] in He.
  apply exec_bind in He as (t2 & t3 & r & -> & He & Hr).
  destruct r as [[seq' pkt']|]; [|by destruct Hr]. destruct Hr as [-> [= ->]].
  rewrite app_nil_r in *. pose proof Hok as [HH Hcount _ Hseq Hpk].
  destruct (drain_replay_result H _ _ HH ltac:(lia) _ _ _ _ _ _ He Hc Hcp Hs Hseq Hpk)
    as (w & mtu & Hw & Hm & _ & Hr & _).
  exists w, mtu. split_and!; try done. exact (proj2 (proj1 (Forall_forall _ _) Hc _ Hw)).
Qed.

(** What a step of the drain task between [l1] and the end of [l2] served. *)
Definition replay_answered (l1 l2 : list wlabel) (a1 a2 : audio_st) (s seq seq' : Z) : Prop :=
  exists H1 Hn ks1 ks w mtu,
    let K l := count is_frame (audios (path_of l)) in
    let errs l := count encode_fails (audios (path_of l)) in
    history_ok a1 (K l1) (errs l1) H1 ks1 /\ history_ok a2 (K (l1 ++ l2)) (errs (l1 ++ l2)) (H1 ++ Hn) ks /\
    Z.of_nat (length H1) <= w <= Z.of_nat (length (H1 ++ Hn)) /\
    Ev ble_link_att_mtu mtu ∈ drains (path_of l2) /\
    replayed (budget_of mtu) seq (window (H1 ++ Hn) s w) (notifies (drains (path_of l2))) seq'.

Lemma served_path l : served l = drains (path_of l) ≫= received.
Proof.
  induction l as [|x l IH]; [done|]. unfold served in *. cbn [mbind list_bind]. 
  rewrite IH. destruct x; done.
Qed.

Lemma path_of_length l : (length (path_of l) <= length l)%nat.
Proof. induction l as [|x l IH]; [done|]. unfold path_of in *. cbn. destruct (path_label x); simpl; lia. Qed.

Lemma step_answers l1 a1 st1 sc l2 a2 st2 s :
  path_run (audio_init zero_ring) drain_init (path_of l1) a1 st1 ->
  weave a1 (drain_step sc st1) (path_of l2) a2 (Some st2) -> Forall copied (drains (path_of l2)) ->
  Forall audio_honest (audios (path_of (l1 ++ l2))) ->
  Z.of_nat (length (l1 ++ l2)) + 10 < 4294967296 -> replayable s ->
  head (drains (path_of l2)) = Some (Ev replay_receive (Some s)) ->
  replay_answered l1 l2 a1 a2 s (chunk_seq st1) (chunk_seq st2).
Proof.
  intros Hrun Hw Hcp Hau Hlen Hs Hhd. rewrite length_app in Hlen.
  pose proof (path_of_length l1). pose proof (path_of_length l2).
  rewrite path_of_app, audios_app in Hau. apply Forall_app in Hau as [Hau1 Hau2].
  destruct (path_invariant _ _ _ Hrun Hau1) as (H1 & ks1 & nls & [Hh Hd _ Hfr Hok _ _]); [lia|].
  pose proof (weave_exec _ _ _ _ _ Hw) as He. pose proof (ok_cursor _ _ Hok).
  assert (Forall (u32_args []) (drains (path_of l2))) as Hu.
  { pose proof (ok_count _ _ Hok).
    eapply (always_exec (u32_args []) []); [|exact He]. apply drain_step_u32. clia. }
  destruct (weave_spec _ _ _ _ _ _ _ _ _ Hw Hd Hh) as (Hn & ks & Hh' & _ & _ & Hfr' & Hc & Hfresh);
    try done; [unfold count; lia..|lia|].
  rewrite <-!count_app, <-!audios_app, <-!path_of_app in Hh'.
  pose proof (ho_len _ _ _ _ _ Hh') as Hl'.
  assert (drain_ok (H1 ++ Hn) st1) as Hok1.
  { destruct Hok. split; try done; [apply (ho_frames _ _ _ _ _ Hh')| |rewrite length_app; lia].
    rewrite !path_of_app, !audios_app, !count_app in Hl'. unfold count in *. lia. }
  specialize (Hc (Z.of_nat (length (H1 ++ Hn))) 0 ltac:(lia)
    ltac:(apply loads_after_reached; lia) ltac:(rewrite RING_FRAMES_val; lia)).
  destruct (drains (path_of l2)) as [|e t] eqn:Et; [done|]. injection Hhd as ->.
  apply Forall_cons in Hcp as [_ Hcp]. apply Forall_cons in Hc as [_ Hc].
  destruct (replay_served _ _ _ _ _ _ Hok1 He Hcp Hs Hc) as (w & mtu & Hwi & Hm & Hwl & Hr).
  exists H1, Hn, ks1, ks, w, mtu. rewrite Et. split_and!; try done; [|by right].
  apply (fresh_index _ _ _ (Ev ring_buffer_write_index w) w Hfresh); [by right|done].
Qed.

(** ** Theorem *)

(** C4. A request_buffer is answered.  From boot, in every interleaving of
    command writes, key changes, button presses, the executor task one call at
    a time, the audio task and the drain task, after any number of steps of
    the drain task that keep up: the requests accepted are, in order, those
    the executor took and those still queued, at most eight; the replays it
    queued are asked for by requests it took, in their order, each for 1 to 60
    seconds; they are, in order, those the drain task received and those still
    queued, at most four; and a step of the drain task receives at most one,
    which it answers completely: the last [min(50 s, 3000, written)] frames of
    the history, up to a write index not before what was recorded when the
    step began, go out as memory-chunk packets that continue the sequence
    numbers, every audible frame of them that fits the MTU exactly once and in
    order, and exactly the last packet flagged. *)
Theorem requests_are_replayed {node} `{CJsonLaws node} verify (parse : list Z -> option node)
    {Q} {HQ : FQueue cmd_request_t Q} {LQ : FQueueLaws cmd_request_t Q}
    {RQ} {HRQ : FQueue Z RQ} {LRQ : FQueueLaws Z RQ} cs l1 (w1 w2 : world Q RQ) st1 sc l2 st2 :
  device_run verify parse (device_boot cs) drain_init l1 w1 st1 ->
  wweave verify parse w1 (drain_step sc st1) l2 w2 (Some st2) ->
  keeps_up st1 (path_of l2) (w_audio w2) ->
  Forall audio_honest (audios (path_of (l1 ++ l2))) ->
  Z.of_nat (length (l1 ++ l2)) + 10 < 4294967296 ->
  let l := l1 ++ l2 in
  accepted l = taken l ++ queue_items (w_q w2) /\
  Z.of_nat (length (queue_items (w_q w2))) <= EXECUTOR_QUEUE_DEPTH /\
  sent l `sublist_of` (taken l ≫= asks) /\ Forall replayable (sent l) /\
  sent l = served l ++ queue_items (w_rq w2) /\
  Z.of_nat (length (queue_items (w_rq w2))) <= DRAIN_REPLAY_QUEUE_DEPTH /\
  (served l2 = [] \/
   exists s, served l2 = [s] /\
     replay_answered l1 l2 (w_audio w1) (w_audio w2) s (chunk_seq st1) (chunk_seq st2)).
Proof.
  intros Hrun Hw [_ Hcp] Hau Hlen l. destruct (device_path _ _ _ _ _ _ Hrun) as [Hp Hok1].
  destruct (wweave_weave _ _ _ _ _ _ _ _ Hw Hok1) as [Hwv Hok].
  pose proof (accounts_range _ _ Hok) as Hrange. fold l in Hok, Hrange.
  pose proof Hok as [Hc (paid & owed & Ht & Hsub & _) Hs _ [Hr1 Hr2] _].
  split_and!; try done.
  { rewrite Ht. by apply sublist_inserts_r. }
  rewrite served_path.
  destruct (drain_step_receives _ _ _ _ (weave_exec _ _ _ _ _ Hwv)) as (q & t & Et & Hq).
  assert (t ≫= received = []) as Htn.
  { clear -Hq. induction Hq as [|e t He _ IH]; [done|]. cbn. rewrite IH, app_nil_r. exact He. }
  rewrite Et. cbn [mbind list_bind received]. rewrite Htn, app_nil_r.
  destruct q as [s|]; [right|by left]. exists s. split; [done|].
  eapply step_answers; try done; [|by rewrite Et].
  rewrite Hs in Hrange. apply Forall_app in Hrange as [Hrange _].
  unfold l, served in Hrange. rewrite bind_app in Hrange. apply Forall_app in Hrange as [_ Hrange].
  change (Forall replayable (served l2)) in Hrange. rewrite served_path, Et in Hrange.
  by apply Forall_cons in Hrange as [? _].
Qed.

(** ** Witness *)

(** The device with list queues; no one writes commands. *)
Abbreviation demo_world := (world (lqueue cmd_request_t) (lqueue Z)).
Definition no_verify (_ _ _ : list Z) : bool := false.
Definition no_parse (_ : list Z) : option Json.json := None.
Abbreviation demo_weave := (wweave no_verify no_parse).

#[local] Opaque audio_once.

(** [n] iterations of the audio task. *)
Fixpoint record (n : nat) (w : demo_world) : list wlabel * demo_world :=
  match n with
  | O => ([], w)
  | S n =>
      let '(t, a) := audio_once (w_audio w) in
      let '(l, w') := record n (World (w_cmd w) (w_q w) (w_exec w) (w_rq w) a) in (WAudio t :: l, w')
  end.

(** The drain task undisturbed. *)
Definition demo_reply (w : demo_world) (X : Type) (c : drainE X) : X * demo_world :=
  match c in drainE X return X * demo_world with
  | replay_receive =>
      match xQueueReceive (w_rq w) with
      | Some (s, rq') => (Some s, World (w_cmd w) (w_q w) (w_exec w) rq' (w_audio w))
      | None => (None, w)
      end
  | c => (demo_answer (s_ring (w_audio w)) _ c, w)
  end.

Fixpoint drain_sim {A} (w : demo_world) (p : prog drainE A) : list wlabel * demo_world * A :=
  match p with
  | Ret r => ([], w, r)
  | Call c k =>
      let '(x, w1) := demo_reply w _ c in
      let '(l, w2, r) := drain_sim w1 (k x) in (WDrain (Ev c x) :: l, w2, r)
  end.

Lemma record_weave {A} n w l w1 (p : prog drainE A) l2 w2 r :
  record n w = (l, w1) -> demo_weave w1 p l2 w2 r -> demo_weave w p (l ++ l2) w2 r.
Proof.
  revert w l. induction n as [|n IH]; intros w l E Hw; cbn [record] in E; [by injection E as <- <-|].
  pose proof (audio_once_exec (w_audio w)) as He. destruct (audio_once (w_audio w)) as [t a].
  destruct (record n _) as [l' w3] eqn:Er. injection E as <- <-. cbn [app].
  eapply ww_step; [|by eapply IH]. destruct w. by apply ws_audio.
Qed.

Lemma drain_sim_weave {A} w (p : prog drainE A) l w' r :
  drain_sim w p = (l, w', r) -> demo_weave w p l w' r.
Proof.
  revert w l. induction p as [a|X c k IH]; intros w l E; cbn [drain_sim] in E.
  { injection E as <- <- <-. constructor. }
  destruct (demo_reply w X c) as [x w1] eqn:Er. destruct (drain_sim w1 (k x)) as [[l2 w2] r2] eqn:Es.
  injection E as <- <- <-. apply ww_drain with w1; [|by apply IH].
  destruct c; simpl in Er |- *; try (injection Er as <- <-; split; [|done]; simpl; try done; try clia;
    by destruct p).
  by destruct (lq_items (w_rq w)); injection Er as <- <-.
Qed.

(** Neither touches the queues. *)
Lemma record_world n w :
  snd (record n w) = World (w_cmd w) (w_q w) (w_exec w) (w_rq w) (w_audio (snd (record n w))).
Proof.
  revert w. induction n as [|n IH]; intros w; cbn [record]; [by destruct w|].
  destruct (audio_once (w_audio w)) as [t a].
  specialize (IH (World (w_cmd w) (w_q w) (w_exec w) (w_rq w) a)). by destruct (record n _) as [l' w3].
Qed.

Lemma drain_sim_idle {A} w (p : prog drainE A) :
  lq_items (w_rq w) = [] -> snd (fst (drain_sim w p)) = w.
Proof.
  intros Hq. induction p as [a|X c k IH]; cbn [drain_sim]; [done|].
  assert (snd (demo_reply w X c) = w) as E by (destruct c; simpl; try done; by rewrite Hq).
  destruct (demo_reply w X c) as [x w1]. simpl in E. subst w1.
  specialize (IH x). by destruct (drain_sim w (k x)) as [[l2 w2] r2].
Qed.

#[local] Transparent audio_once.

(** An idle step while eight frames are recorded; then the button asks for a
    replay, the executor passes it on, and the next step serves it. *)
Definition demo_cmd : cmd_state := CmdState [] true [] 0.
Definition demo_boot : demo_world := device_boot demo_cmd.
Definition demo_w1 : demo_world := snd (record 8 demo_boot).
Definition demo_idle := drain_sim demo_w1 (drain_step [] drain_init).
Definition demo_l1 : list wlabel := fst (record 8 demo_boot) ++ fst (fst demo_idle).
Definition demo_press : cmd_request_t := CmdRequest CMD_REQUEST_BUFFER EXEC_OK 60 0 0.
Definition demo_asked (a : audio_st) : demo_world :=
  World demo_cmd (LQueue EXECUTOR_QUEUE_DEPTH []) (Ret tt) (LQueue DRAIN_REPLAY_QUEUE_DEPTH [60]) a.
Definition demo_asking : list wlabel :=
  [WButton demo_press true; WTake demo_press; WExec (Ev ble_drain_replay_queue true);
   WExec (Ev (replay_send 60) true)].
Definition demo_scratch : list Z := repeat 0 (Z.to_nat Replay.SCRATCH_CAP).
Definition demo_st1 : drain_st := default drain_init (snd demo_idle).
Definition demo_serving := drain_sim (demo_asked (w_audio demo_w1)) (drain_step demo_scratch demo_st1).
Definition demo_l2 : list wlabel := demo_asking ++ fst (fst demo_serving).
Definition demo_w2 : demo_world := snd (fst demo_serving).
Definition demo_st2 : drain_st := default drain_init (snd demo_serving).

Lemma drain_sim_step w st sc :
  (match snd (drain_sim w (drain_step sc st)) with Some _ => true | None => false end) = true ->
  demo_weave w (drain_step sc st) (fst (fst (drain_sim w (drain_step sc st))))
    (snd (fst (drain_sim w (drain_step sc st))))
    (Some (default drain_init (snd (drain_sim w (drain_step sc st))))).
Proof.
  intros H. destruct (drain_sim w (drain_step sc st)) as [[l w'] r] eqn:E.
  apply drain_sim_weave in E. simpl in *. by destruct r.
Qed.

Lemma asking_weave1 : demo_weave demo_boot (drain_step [] drain_init) demo_l1 (snd (fst demo_idle))
  (Some demo_st1).
Proof.
  apply (record_weave 8 demo_boot _ demo_w1); [unfold demo_w1; by destruct (record 8 demo_boot)|].
  apply drain_sim_step. by vm_compute.
Qed.

Lemma demo_w1_queues :
  demo_w1 = World demo_cmd (LQueue EXECUTOR_QUEUE_DEPTH []) (Ret tt)
    (LQueue DRAIN_REPLAY_QUEUE_DEPTH []) (w_audio demo_w1).
Proof. exact (record_world 8 demo_boot). Qed.

Lemma asking_weave2 : demo_weave (snd (fst demo_idle)) (drain_step demo_scratch demo_st1) demo_l2 demo_w2
  (Some demo_st2).
Proof.
  unfold demo_idle. rewrite drain_sim_idle by by (unfold demo_w1; rewrite record_world).
  unfold demo_l2, demo_asking. cbn [app].
  rewrite demo_w1_queues at 1.
  eapply ww_step; [by apply ws_button; [left|]|].
  eapply ww_step; [by apply ws_take|].
  eapply ww_step; [by apply ws_exec|]. cbn [bind].
  eapply ww_step; [by apply ws_exec|]. 
  apply drain_sim_step. by vm_compute.
Qed.

Lemma demo_run1 :
  device_run no_verify no_parse demo_boot drain_init demo_l1 (snd (fst demo_idle)) demo_st1.
Proof.
  rewrite <-(app_nil_l demo_l1).
  apply (device_step _ _ _ _ [] demo_boot drain_init []); [constructor|exact asking_weave1|].
  apply demo_keeps_up. by vm_compute.
Qed.

Lemma requests_are_replayed_witness :
  served demo_l2 = [60] /\ length (notifies (drains (path_of demo_l2))) = 1%nat /\
  replay_answered demo_l1 demo_l2 (w_audio (snd (fst demo_idle))) (w_audio demo_w2) 60 0 1.
Proof.
  assert (served demo_l2 = [60]) as E by by vm_compute.
  assert (chunk_seq demo_st1 = 0) as E1 by by vm_compute.
  assert (chunk_seq demo_st2 = 1) as E2 by by vm_compute.
  split; [done|]. split; [by vm_compute|].
  destruct (requests_are_replayed no_verify no_parse demo_cmd demo_l1
    (snd (fst demo_idle)) demo_w2 demo_st1 demo_scratch demo_l2 demo_st2)
    as (_ & _ & _ & _ & _ & _ & [Hno|(s & Hs & Hr)]).
  - exact demo_run1.
  - exact asking_weave2.
  - apply demo_keeps_up. by vm_compute.
  - apply audio_honest_b_ok. by vm_compute.
  - by vm_compute.
  - rewrite Hno in E. discriminate E.
  - rewrite E1, E2 in Hr. rewrite E in Hs. injection Hs as <-. exact Hr.
Defined.
