(* ===== verification/GatePath.v ===== *)
(** * From stop_audio to a silent microphone

    audio_gate.c is one bool: the executor task writes it, the audio task and
    the button task read it.  Here the four tasks around it are interleaved
    call by call ([Interleave.v]): the BLE host task (commands.c), the button
    task (button_task.c), the executor task (executor.c) and the audio task
    (openrecall_sensor.c), with the command queue and the bool as the memory
    they share. *)

From stdpp Require Import strings.
From S2P Require Import Prelude Effects Interleave Platform Config CJson Freertos RingBuffer DcBlocker Hpf Vad.
From S2P Require Import ExecutorCore Executor Button ButtonTask Commands AudioTask.
Import Json ListQueue.
Open Scope list_scope.
Open Scope Z_scope.

(** ** The system *)

(** What the host task is handed: a write of the command characteristic, or
    the key of a provisioning write. *)
Inductive access : Type := HWrite (data : list Z) | HKey (key : list Z).

Inductive gateE (node : Type) : Type -> Type :=
| next_access : gateE node access
| GCmd {X} (e : cmdE node X) : gateE node X
| GBtn {X} (e : btnE X) : gateE node X
| receive_command : gateE node cmd_request_t  (** xQueueReceive(s_queue, .., portMAX_DELAY) *)
| GExec {X} (e : execE X) : gateE node X
| GAudio {X} (e : audioE X) : gateE node X.
Arguments next_access {node}.
Arguments GCmd {node X}.
Arguments GBtn {node X}.
Arguments receive_command {node}.
Arguments GExec {node X}.
Arguments GAudio {node X}.

Definition HOST : nat := 0.
Definition BUTTON : nat := 1.
Definition EXEC : nat := 2.
Definition AUDIO : nat := 3.

Section System.
Context {node : Type} `{CJson node}.
Context (verify : list Z -> list Z -> list Z -> bool) (parse : list Z -> option node).
Context {Q : Type} {HQ : FQueue cmd_request_t Q}.
#[local] Abbreviation call := (Effects.call (E := gateE node)).

(** At most [n] accesses; commands.c keeps its state between them. *)
Fixpoint host_task (n : nat) (st : cmd_state) : prog (gateE node) unit :=
  match n with
  | O => Ret tt
  | S n =>
      let* a := call next_access in
      match a with
      | HWrite data =>
          let* st := translate (fun X => @GCmd node X) (commands_handle verify parse st data) in
          host_task n st
      | HKey key => host_task n (commands_set_pubkey st key)
      end
  end%prog.

Definition press_task (n : nat) : prog (gateE node) unit :=
  (let* _ := translate (fun X => @GBtn node X) (button_task n) in Ret tt)%prog.

(** [executor_task]: at most [n] requests. *)
Fixpoint executor_task (n : nat) : prog (gateE node) unit :=
  match n with
  | O => Ret tt
  | S n =>
      let* req := call receive_command in
      translate (fun X => @GExec node X) (executor_dispatch req) ;;; executor_task n
  end%prog.

Definition mic_task (n : nat) (st : audio_st) : prog (gateE node) unit :=
  (let* _ := translate (fun X => @GAudio node X) (audio_task n st) in Ret tt)%prog.

(** [s_paused] of audio_gate.c and [s_queue] of executor.c. *)
Record gate_mem : Type := GateMem { m_paused : bool; m_queue : Q }.

(** The outcome of a queue operation that answered [r], when the caller saw
    [ok]. *)
Definition queued (m : gate_mem) (r : bool * Q) (ok : bool) : option gate_mem :=
  expect ok (fst r) (GateMem (m_paused m) (snd r)).

Definition gate_do (self new : nat) (X : Type) (c : gateE node X) : X -> gate_mem -> option gate_mem :=
  match c in gateE _ X return X -> gate_mem -> option gate_mem with
  | GCmd e =>
      match e in cmdE _ X return X -> gate_mem -> option gate_mem with
      | Commands.executor_submit ty params => fun ok m =>
          queued m (Executor.executor_submit (m_queue m) ty params) ok
      | _ => fun _ m => Some m
      end
  | GBtn e =>
      match e in btnE X return X -> gate_mem -> option gate_mem with
      | ButtonTask.audio_gate_paused => fun b m =>
          expect b (AudioGate.audio_gate_paused (m_paused m)) m
      | ButtonTask.executor_dispatch_local req => fun ok m =>
          queued m (Executor.executor_dispatch_local (m_queue m) (Some req)) ok
      | _ => fun _ m => Some m
      end
  | receive_command => fun req m =>
      match xQueueReceive (m_queue m) with
      | Some (r, q) => expect req r (GateMem (m_paused m) q)
      | None => None
      end
  | GExec e =>
      match e in execE X return X -> gate_mem -> option gate_mem with
      | audio_gate_set b => fun _ m =>
          Some (GateMem (AudioGate.audio_gate_set (m_paused m) b) (m_queue m))
      | _ => fun _ m => Some m
      end
  | GAudio e =>
      match e in audioE X return X -> gate_mem -> option gate_mem with
      | AudioTask.audio_gate_paused => fun b m =>
          expect b (AudioGate.audio_gate_paused (m_paused m)) m
      | _ => fun _ m => Some m
      end
  | next_access => fun _ m => Some m
  end.

(** The four tasks are created at boot. *)
Definition gate_spawned (e : ev (gateE node)) (new : list (prog (gateE node) unit)) : Prop := new = [].

(** At boot, for [n] rounds of each task. *)
Definition gate_boot (n : nat) (st : cmd_state) (r : ring) : sys (E := gateE node) (M := gate_mem) :=
  Sys (GateMem AudioGate.s_paused_init (xQueueCreate EXECUTOR_QUEUE_DEPTH))
    [host_task n st; press_task n; executor_task n; mic_task n (audio_init r)].

(** ** What the trace says *)

(** The task whose call it is. *)
Definition owner (e : ev (gateE node)) : nat :=
  match e with
  | Ev next_access _ | Ev (GCmd _) _ => HOST
  | Ev (GBtn _) _ => BUTTON
  | Ev receive_command _ | Ev (GExec _) _ => EXEC
  | Ev (GAudio _) _ => AUDIO
  end.

(** What a request would write to the gate. *)
Definition gate_of (r : cmd_request_t) : list bool :=
  match status r, type r with
  | EXEC_OK, CMD_START_AUDIO => [false]
  | EXEC_OK, CMD_STOP_AUDIO => [true]
  | _, _ => []
  end.

(** Requests refused or accepted by the queue, and by whom they are made. *)
Definition submitted (e : ev (gateE node)) : option (string * option node * bool) :=
  match e with
  | Ev c x =>
      match c in gateE _ X return X -> _ with
      | GCmd e =>
          match e in cmdE _ X return X -> _ with
          | Commands.executor_submit ty params => fun ok => Some (ty, params, ok)
          | _ => fun _ => None
          end
      | _ => fun _ => None
      end x
  end.
Definition pressed (e : ev (gateE node)) : option (cmd_request_t * bool) :=
  match e with
  | Ev c x =>
      match c in gateE _ X return X -> _ with
      | GBtn e =>
          match e in btnE X return X -> _ with
          | ButtonTask.executor_dispatch_local req => fun ok => Some (req, ok)
          | _ => fun _ => None
          end
      | _ => fun _ => None
      end x
  end.

(** The gate writes asked for by accepted requests, those of requests the
    executor took, and those made. *)
Definition asked1 (e : ev (gateE node)) : list bool :=
  match submitted e, pressed e with
  | Some (ty, params, true), _ => gate_of (executor_parse_and_validate ty params)
  | _, Some (req, true) => gate_of req
  | _, _ => []
  end.
Definition taken1 (e : ev (gateE node)) : list bool :=
  match e with
  | Ev c x =>
      match c in gateE _ X return X -> _ with receive_command => gate_of | _ => fun _ => [] end x
  end.
Definition made1 (e : ev (gateE node)) : list bool :=
  match e with Ev (GExec (audio_gate_set b)) _ => [b] | _ => [] end.

Definition gate_asked (t : list (ev (gateE node))) : list bool := t ≫= asked1.
Definition gate_taken (t : list (ev (gateE node))) : list bool := t ≫= taken1.
Definition gate_made (t : list (ev (gateE node))) : list bool := t ≫= made1.

(** The key in force after the host task's calls [t]. *)
Definition new_key (key : list Z) (e : ev (gateE node)) : list Z :=
  match e with
  | Ev c x =>
      match c in gateE _ X return X -> _ with
      | next_access => fun a => match a with HKey k => k | HWrite _ => key end
      | _ => fun _ => key
      end x
  end.
Definition key_of (key0 : list Z) (t : list (ev (gateE node))) : list Z := fold_left new_key t key0.

(** A sample frame goes to the encoder; the gate is opened; the audio task
    reads it open. *)
Definition encodes (e : ev (gateE node)) : bool :=
  match e with Ev (GAudio (opus_encode _ _ _)) _ => true | _ => false end.
Definition opens (e : ev (gateE node)) : bool :=
  match e with Ev (GExec (audio_gate_set false)) _ => true | _ => false end.
Definition reads_open (e : ev (gateE node)) : bool :=
  match e with
  | Ev c x =>
      match c in gateE _ X return X -> bool with
      | GAudio e =>
          match e in audioE X return X -> bool with
          | AudioTask.audio_gate_paused => negb
          | _ => fun _ => false
          end
      | _ => fun _ => false
      end x
  end.
End System.

(** ** What each task does, on its own *)

Section Tasks.
Context {node : Type} `{CJson node}.
Context (verify : list Z -> list Z -> list Z -> bool) (parse : list Z -> option node).
Abbreviation event := (ev (gateE node)).

(** A submission comes first after the write that carries the command. *)
Definition submits (key : list Z) (data : list Z) (past : list (ev (cmdE node))) (e : ev (cmdE node))
  : Prop :=
  match e with
  | Ev (Commands.executor_submit ty params) _ =>
      past = [] /\ exists id root, decode verify parse key data = Some (id, ty, root) /\
        params = cJSON_GetObjectItemCaseSensitive root "params"
  | _ => True
  end.

Lemma ack_submits key data past st id : always (submits key data) past (ack st id).
Proof. unfold ack. destruct (s_ack st); [|done]. by apply always_call. Qed.

Lemma handle_submits st data :
  always (submits (s_pubkey st) data) [] (commands_handle verify parse st data).
Proof.
  unfold commands_handle. assert (forall key data past st id (st' : cmd_state),
    always (submits key data) past (ack st id ;;; Ret st')%prog) as Hack.
  { intros. apply always_bind; [apply ack_submits|done]. }
  destruct (_ <=? _)%nat eqn:El; [done|]. destruct (negb _) eqn:Ev; [done|].
  destruct (parse _) as [root|] eqn:Ep; [|done].
  destruct (cJSON_GetObjectItemCaseSensitive root "command_id") as [id|] eqn:Ei; [|done].
  destruct (cJSON_GetObjectItemCaseSensitive root "type") as [ty|] eqn:Et; [|done].
  destruct (negb (cJSON_IsString id) || negb (cJSON_IsString ty)) eqn:Es; [done|].
  destruct (already_seen _ _); [apply Hack|].
  apply always_bind; [|intros t ok _; destruct ok; [apply Hack|done]].
  apply always_call. intros x. split; [done|]. exists (valuestring id), root. split; [|done].
  unfold decode. rewrite El, Ev, Ep. cbn. rewrite Ei, Et. cbn.
  by destruct (cJSON_IsString id), (cJSON_IsString ty).
Qed.

Lemma handle_key st data t st' :
  exec (commands_handle verify parse st data) t st' -> s_pubkey st' = s_pubkey st.
Proof.
  intros Ht. apply handle_handles in Ht. unfold handles in Ht. repeat case_match; naive_solver.
Qed.

Lemma key_of_cmds key t u : key_of (node := node) key (t ++ map (lift_ev (fun X => @GCmd node X)) u) = key_of key t.
Proof.
  unfold key_of. rewrite fold_left_app. generalize (fold_left new_key t key). clear.
  induction u as [|[X c x] u IH]; intros k; [done|]. apply IH.
Qed.

(** The host task submits what a verified write carries. *)
Definition host_call (key0 : list Z) (past : list event) (e : event) : Prop :=
  owner e = HOST /\
  forall ty params ok, submitted e = Some (ty, params, ok) ->
    exists past' data id root, past = past' ++ [Ev next_access (HWrite data)] /\
      decode verify parse (key_of key0 past') data = Some (id, ty, root) /\
      params = cJSON_GetObjectItemCaseSensitive root "params".

Lemma host_task_calls key0 n st past :
  s_pubkey st = key_of key0 past -> always (host_call key0) past (host_task verify parse n st).
Proof.
  revert st past. induction n as [|n IH]; intros st past Hk; [done|]. cbn [host_task].
  apply always_bind; [by apply always_call|]. intros t a Ht. apply exec_one in Ht as ->.
  destruct a as [data|key]; [|apply IH; unfold key_of; by rewrite fold_left_app].
  apply always_bind.
  - rewrite <-(app_nil_r (past ++ _)).
    refine (always_shift (host_call key0)
      (fun h e => owner e = HOST /\ forall ty params ok, submitted e = Some (ty, params, ok) ->
         h = [] /\ exists id root, decode verify parse (s_pubkey st) data = Some (id, ty, root) /\
           params = cJSON_GetObjectItemCaseSensitive root "params") _ [] _ _ _).
    + intros h e [Ho Hs]. split; [done|]. intros ty params ok He.
      destruct (Hs _ _ _ He) as (-> & id & root & Hd & Hp). rewrite app_nil_r.
      exists past, data, id, root. by rewrite <-Hk.
    + refine (always_lift (fun X => @GCmd node X) _ _ [] _ _ (handle_submits st data)).
      intros h [X c x] Hc. split; [done|]. intros ty params ok He.
      destruct c as [|ty' params']; cbn in He; [done|]. injection He as -> -> _.
      by destruct Hc as [-> Hc].
  - intros t st' Ht. apply exec_translate in Ht as (u & -> & Hu). apply IH.
    rewrite key_of_cmds. unfold key_of. rewrite fold_left_app. cbn. by rewrite (handle_key _ _ _ _ Hu).
Qed.

(** The button asks to open a closed gate and to close an open one. *)
Definition toggles (past : list (ev btnE)) (e : ev btnE) : Prop :=
  match e with
  | Ev (ButtonTask.executor_dispatch_local req) _ =>
      forall b, gate_of req = [b] -> exists past', past = past' ++ [Ev ButtonTask.audio_gate_paused (negb b)]
  | _ => True
  end.

Lemma dispatch_toggles g past : always toggles past (dispatch_gesture g).
Proof.
  destruct g; cbn; try done.
  intros b. split; [done|]. intros ok. split; [|done]. cbn. destruct b; cbn; intros b' [= <-]; by exists past.
Qed.

Lemma polls_toggle n cls past : always toggles past (button_polls n cls).
Proof.
  revert cls past. induction n as [|n IH]; intros cls past; [done|]. cbn [button_polls].
  apply always_bind; [|intros t c _; apply IH]. unfold button_poll.
  apply always_bind; [by apply always_call|]. intros t1 l _.
  apply always_bind; [by cbn|]. intros t2 ms _. destruct (button_classifier_event _ _ _) as [c g].
  apply always_bind; [case_decide; [done|apply dispatch_toggles]|]. intros t3 _ _. by cbn.
Qed.

Definition press_call (past : list event) (e : event) : Prop :=
  owner e = BUTTON /\
  forall req ok b, pressed e = Some (req, ok) -> gate_of req = [b] ->
    exists past', past = past' ++ [Ev (GBtn ButtonTask.audio_gate_paused) (negb b)].

Lemma press_calls n : always press_call [] (press_task n).
Proof.
  unfold press_task. apply always_bind; [|done].
  refine (always_lift (fun X => @GBtn node X) press_call toggles [] _ _ _).
  - intros h [X c x] Hc. split; [done|]. intros req ok b He Hb.
    destruct c; cbn in He; try done. injection He as -> _.
    destruct (Hc b Hb) as [past' ->]. exists (map (lift_ev (fun X => @GBtn node X)) past').
    by rewrite map_app.
  - unfold button_task. apply always_bind; [by apply always_call|]. intros t ok _.
    destruct ok; cbn [negb]; [|by cbn].
    apply always_bind; [by cbn|]. intros t1 ms _. apply always_bind; [by apply always_call|].
    intros t2 l _. apply always_bind; [apply polls_toggle|done].
Qed.

(** The dispatch of a request starts with the gate write it asks for. *)
Definition sets_gate (req : cmd_request_t) (past : list (ev execE)) (e : ev execE) : Prop :=
  match e with Ev (audio_gate_set b) _ => past = [] /\ gate_of req = [b] | _ => True end.

Lemma dispatch_sets req : always (sets_gate req) [] (executor_dispatch req).
Proof.
  destruct req as [ty st s d i]. destruct st, ty; cbn; try done. intros x. by destruct x.
Qed.

(** The executor makes the gate writes of the requests it takes, in order. *)
Definition exec_call (past : list event) (e : event) : Prop :=
  owner e = EXEC /\
  (taken1 e <> [] -> gate_taken past = gate_made past) /\
  (made1 e <> [] -> gate_taken past = gate_made past ++ made1 e).

Lemma gate_taken_app (t1 t2 : list event) : gate_taken (t1 ++ t2) = gate_taken t1 ++ gate_taken t2.
Proof. apply bind_app. Qed.
Lemma gate_made_app (t1 t2 : list event) : gate_made (t1 ++ t2) = gate_made t1 ++ gate_made t2.
Proof. apply bind_app. Qed.
Lemma gate_asked_app (t1 t2 : list event) : gate_asked (t1 ++ t2) = gate_asked t1 ++ gate_asked t2.
Proof. apply bind_app. Qed.

Lemma gate_taken_one (e : event) : gate_taken [e] = taken1 e.
Proof. apply app_nil_r. Qed.
Lemma gate_made_one (e : event) : gate_made [e] = made1 e.
Proof. apply app_nil_r. Qed.
Lemma gate_asked_one (e : event) : gate_asked [e] = asked1 e.
Proof. apply app_nil_r. Qed.

(** A dispatch makes the write its request asks for, and nothing else. *)
Lemma dispatch_made req u :
  exec (executor_dispatch req) u tt ->
  gate_taken (node := node) (map (lift_ev (fun X => @GExec node X)) u) = [] /\
  gate_made (map (lift_ev (fun X => @GExec node X)) u) = gate_of req.
Proof.
  destruct req as [ty st s d i]; destruct st, ty; intros Hu; by exec_all Hu.
Qed.

Lemma executor_calls n past :
  gate_taken past = gate_made past -> always exec_call past (executor_task n).
Proof.
  revert past. induction n as [|n IH]; intros past Hp; [done|]. cbn [executor_task].
  apply always_bind; [apply always_call; intros x; by split_and!|].
  intros t req Ht. apply exec_one in Ht as ->.
  assert (gate_taken (past ++ [Ev receive_command req]) = gate_made past ++ gate_of req) as Htk
    by by rewrite gate_taken_app, gate_taken_one, Hp.
  assert (gate_made (past ++ [Ev receive_command req]) = gate_made past) as Hmd
    by (rewrite gate_made_app, gate_made_one; apply app_nil_r).
  apply always_bind.
  - rewrite <-(app_nil_r (past ++ _)).
    refine (always_shift exec_call
      (fun h e => owner e = EXEC /\ taken1 e = [] /\ (made1 e <> [] -> h = [] /\ gate_of req = made1 e))
      _ [] _ _ _).
    + intros h e (Ho & Ht & Hm). split_and!; [done|by rewrite Ht|]. intros He.
      destruct (Hm He) as [-> <-]. by rewrite app_nil_r, Htk, Hmd.
    + refine (always_lift (fun X => @GExec node X) _ _ [] _ _ (dispatch_sets req)).
      intros h [X c x] Hc. split_and!; [done..|]. destruct c; cbn; try done. by destruct Hc as [-> ->].
  - intros t [] Ht. apply IH. apply exec_translate in Ht as (u & -> & Hu).
    apply dispatch_made in Hu as [H1 H2].
    by rewrite gate_taken_app, gate_made_app, H1, H2, Htk, Hmd, app_nil_r.
Qed.

(** The audio task encodes right after it has read the gate open. *)
Definition listens (past : list (ev audioE)) (e : ev audioE) : Prop :=
  match e with
  | Ev (opus_encode _ _ _) _ => exists past', past = past' ++ [Ev AudioTask.audio_gate_paused false]
  | _ => True
  end.

Lemma tail_listens st past : always listens past (frame_tail st).
Proof. unfold frame_tail. by destruct (_ =? _). Qed.

Lemma iteration_listens st past : always listens past (audio_iteration st).
Proof.
  unfold audio_iteration. apply always_bind.
  { unfold audio_capture_read_stereo. cbn. intros [[err buf] n]. split; [done|].
    destruct (esp_ok err), (n =? _); done. }
  intros t [|[pri ref]] _; [done|]. apply always_bind; [by apply always_call|].
  intros t' paused Ht. apply exec_one in Ht as ->.
  apply always_bind; [|intros; apply tail_listens]. destruct paused; [done|].
  unfold capture_frame. destruct (dc_blocker_process _ _) as [dc p1], (hpf_process _ p1) as [h p2].
  destruct (vad_process_single_adaptive _ p2) as [v state]. destruct (_ || _); [|done].
  apply always_bind.
  - unfold opus_stream_encode. cbn. intros [n out]. split; [by eexists|]. by destruct (n <? 0).
  - intros u [n out] _. by destruct (_ && _).
Qed.

Definition mic_call (past : list event) (e : event) : Prop :=
  owner e = AUDIO /\
  (encodes e = true -> exists past', past = past' ++ [Ev (GAudio AudioTask.audio_gate_paused) false]).

Lemma mic_calls n st : always mic_call [] (mic_task n st).
Proof.
  unfold mic_task. apply always_bind; [|done].
  refine (always_lift (fun X => @GAudio node X) mic_call listens [] _ _ _).
  - intros h [X c x] Hc. split; [done|]. intros He. destruct c; try done.
    destruct Hc as [past' ->]. exists (map (lift_ev (fun X => @GAudio node X)) past').
    by rewrite map_app.
  - generalize (@nil (ev audioE)). revert st. induction n as [|n IH]; intros st past; [done|].
    apply always_bind; [apply iteration_listens|]. intros. apply IH.
Qed.
End Tasks.

(** ** The system *)

Section Gate.
Context {node : Type} `{CJson node}.
Context (verify : list Z -> list Z -> list Z -> bool) (parse : list Z -> option node).
Context {Q : Type} {HQ : FQueue cmd_request_t Q} {LQ : FQueueLaws cmd_request_t Q}.
Context (n : nat) (st : cmd_state) (r : ring).
Abbreviation event := (ev (gateE node)).
Abbreviation gate_steps := (steps (E := gateE node) (M := gate_mem (Q := Q)) gate_do gate_spawned).
Abbreviation boot := (gate_boot (HQ := HQ) verify parse n st r).

(** Each task's calls are its own, and as it makes them alone. *)
Definition task_call (i : nat) (past : list event) (e : event) : Prop :=
  owner e = i /\
  match i with
  | 0 => host_call verify parse (s_pubkey st) past e
  | 1 => press_call past e
  | 2 => exec_call past e
  | _ => mic_call past e
  end%nat.

Lemma gate_own_call t1 i e t2 s : gate_steps boot (t1 ++ (i, e) :: t2) s -> task_call i (proj i t1) e.
Proof.
  intros Hr. apply (steps_always gate_do gate_spawned (task_call i) _ _ _ _ _ _ (fun _ _ H => H)) in Hr
    as [_ Hc]; [done|].
  intros p. destruct i as [|[|[|[|i]]]]; cbn; intros Hi; [..|done]; injection Hi as <-.
  - refine (always_weaken _ _ _ _ _ (host_task_calls verify parse (s_pubkey st) n st [] eq_refl)).
    intros past e' Hc. split; [apply Hc|done].
  - refine (always_weaken _ _ _ _ _ (press_calls n)). intros past e' Hc. split; [apply Hc|done].
  - refine (always_weaken _ _ _ _ _ (executor_calls n [] eq_refl)).
    intros past e' Hc. split; [apply Hc|done].
  - refine (always_weaken _ _ _ _ _ (mic_calls n _)). intros past e' Hc. split; [apply Hc|done].
Qed.

(** What the other tasks do adds nothing to a reading of one task's calls. *)
Lemma proj_bind (f : event -> list bool) i (tr : list (nat * event)) s :
  (forall e, owner e <> i -> f e = []) -> gate_steps boot tr s ->
  (map snd tr : list event) ≫= f = (proj i tr : list event) ≫= f.
Proof.
  intros Hf. revert s. induction tr as [|[j e] tr IH] using rev_ind; intros s Hr; [done|].
  pose proof (gate_own_call _ _ _ [] _ Hr) as [Ho _].
  apply steps_app_inv in Hr as (s1 & Hr & _).
  rewrite map_app, bind_app, (IH _ Hr), proj_app, proj_one, bind_app. f_equal. cbn.
  destruct (Nat.eqb_spec j i) as [->|Hne]; [done|]. by rewrite Hf by congruence.
Qed.

(** The queue holds what was asked for and not yet taken. *)
Lemma queued_spec (m m' : gate_mem (Q := Q)) (q : bool * Q) ok :
  queued m q ok = Some m' -> ok = fst q /\ m' = GateMem (m_paused m) (snd q).
Proof. apply expect_Some. Qed.

Definition pending (q : Q) : list bool := queue_items q ≫= gate_of.

Lemma send_pending (q q' : Q) req ok :
  xQueueSend q req = (ok, q') -> pending q' = pending q ++ (if ok then gate_of req else []).
Proof.
  intros (_ & Hi & _)%send_spec. unfold pending. rewrite Hi, bind_app.
  destruct ok; cbn; by rewrite ?app_nil_r.
Qed.

Lemma asked_pending i k X (c : gateE node X) x (m m' : gate_mem (Q := Q)) :
  gate_do i k X c x m = Some m' ->
  pending (m_queue m) ++ asked1 (Ev c x) = taken1 (Ev c x) ++ pending (m_queue m').
Proof.
  intros Hd. destruct c as [|X c|X c| |X c|X c]; cbn in Hd.
  - injection Hd as <-. apply app_nil_r.
  - destruct c as [|ty params]; [injection Hd as <-; apply app_nil_r|].
    apply queued_spec in Hd as [-> ->]. unfold Executor.executor_submit.
    destruct (xQueueSend _ _) as [ok q'] eqn:E. apply send_pending in E.
    destruct ok; cbn; by rewrite E.
  - destruct c; try (injection Hd as <-; apply app_nil_r).
    + apply expect_Some in Hd as [_ ->]. apply app_nil_r.
    + apply queued_spec in Hd as [-> ->]. unfold Executor.executor_dispatch_local.
      destruct (status req) eqn:Es; [|apply app_nil_r..].
      destruct (xQueueSend _ _) as [ok q'] eqn:E. apply send_pending in E. destruct ok; cbn; by rewrite E.
  - destruct (xQueueReceive _) as [[req q']|] eqn:E; [|done]. apply expect_Some in Hd as [-> ->].
    apply receive_spec in E as [E _]. unfold pending. rewrite E. cbn. by rewrite app_nil_r.
  - destruct c; injection Hd as <-; apply app_nil_r.
  - destruct c; try (injection Hd as <-; apply app_nil_r). apply expect_Some in Hd as [_ ->].
    apply app_nil_r.
Qed.

Lemma asked_taken (tr : list (nat * event)) s :
  gate_steps boot tr s -> gate_asked (map snd tr) = gate_taken (map snd tr) ++ pending (m_queue (mem s)).
Proof.
  remember boot as s0 eqn:Hs0.
  induction 1 as [s|s tr s1 [i e] s2 _ IH Hstep]; subst.
  { cbn. unfold pending. by rewrite create_items. }
  apply sstep_pool in Hstep as (X & c & k & x & new & -> & _ & Hm & _ & _).
  apply asked_pending in Hm. rewrite map_app, gate_asked_app, gate_taken_app, (IH eq_refl).
  cbn [map snd]. rewrite gate_asked_one, gate_taken_one, <-!app_assoc. f_equal. by rewrite Hm.
Qed.

(** The writes made are a prefix of those of the requests taken. *)
Lemma made_taken tr s :
  gate_steps boot tr s -> gate_made (proj EXEC tr) `prefix_of` gate_taken (proj EXEC tr).
Proof.
  revert s. induction tr as [|[i e] tr IH] using rev_ind; intros s Hr; [done|].
  pose proof (gate_own_call _ _ _ [] _ Hr) as [_ Hc]. apply steps_app_inv in Hr as (s1 & Hr & _).
  specialize (IH _ Hr). rewrite proj_app, proj_one.
  destruct (Nat.eqb_spec i EXEC) as [->|]; [|by rewrite app_nil_r].
  destruct Hc as (_ & _ & Hm). rewrite gate_made_app, gate_taken_app, gate_made_one, gate_taken_one.
  destruct (made1 e) as [|b l] eqn:E.
  - rewrite app_nil_r. by apply prefix_app_r.
  - rewrite Hm by done. rewrite <-app_assoc. apply prefix_app, prefix_app_r. done.
Qed.

(** Closed, the gate stays closed and is read closed until it is opened. *)
Lemma gate_closed s (tr : list (nat * event)) s' :
  gate_steps s tr s' -> m_paused (mem s) = true -> existsb opens (map snd tr) = false ->
  m_paused (mem s') = true /\ existsb reads_open (map snd tr) = false.
Proof.
  induction 1 as [s|s tr s1 [i e] s2 _ IH Hstep]; [done|]. intros Hs Ho.
  rewrite map_app, existsb_app in *. apply orb_false_iff in Ho as [Ho He].
  destruct (IH Hs Ho) as [Hs1 ->]. clear IH Hs Ho.
  apply sstep_pool in Hstep as (X & c & k & x & new & -> & _ & Hm & _ & _).
  cbn in He. rewrite orb_false_r in He. cbn. rewrite orb_false_r.
  destruct c as [|X c|X c| |X c|X c]; cbn in Hm.
  - injection Hm as Hm. by rewrite <-Hm.
  - destruct c; [injection Hm as Hm; by rewrite <-Hm|]. by apply queued_spec in Hm as [_ ->].
  - destruct c; try (injection Hm as Hm; by rewrite <-Hm).
    + by apply expect_Some in Hm as [_ ->].
    + by apply queued_spec in Hm as [_ ->].
  - destruct (xQueueReceive _) as [[req q']|]; [|done]. by apply expect_Some in Hm as [_ ->].
  - destruct c as [b| | | | | | | | |]; injection Hm as Hm; rewrite <-Hm; try done. by destruct b.
  - destruct c; try (injection Hm as Hm; by rewrite <-Hm).
    apply expect_Some in Hm as [-> ->]. by rewrite Hs1.
Qed.

(** Only "start_audio" asks for the gate to be opened. *)
Lemma start_audio_opens ty (params : option node) :
  gate_of (executor_parse_and_validate ty params) = [false] -> ty = "start_audio"%string.
Proof.
  unfold executor_parse_and_validate, parse_bare.
  repeat match goal with
  | |- context [if String.eqb ?a ?b then _ else _] => destruct (String.eqb_spec a b); [try done|]
  end; try done; case_match; done.
Qed.

Lemma proj_last i (tr : list (nat * event)) past x :
  proj i tr = past ++ [x] -> exists a b, tr = a ++ (i, x) :: b.
Proof.
  induction tr as [|[j e] tr IH] using rev_ind; [by destruct past|].
  rewrite proj_app, proj_one. destruct (Nat.eqb_spec j i) as [->|].
  - intros [_ ->]%app_inj_tail. by exists tr, [].
  - rewrite app_nil_r. intros (a & b & ->)%IH. exists a, (b ++ [(j, e)]). by rewrite <-app_assoc.
Qed.

(** After a close, only a frame read before it is encoded. *)
Lemma closed_quiet t1 i m1 j e m2 s :
  gate_steps boot (t1 ++ (i, Ev (GExec (audio_gate_set true)) tt) :: m1 ++ (j, e) :: m2) s ->
  existsb opens (map snd m1) = false -> encodes e = true -> j = AUDIO /\ proj AUDIO m1 = [].
Proof.
  intros Hr Ho He. pose proof (gate_own_call _ _ _ _ _ Hr) as [Hi _]. cbn in Hi.
  rewrite app_comm_cons, app_assoc in Hr. pose proof (gate_own_call _ _ _ _ _ Hr) as [Hj Hc].
  assert (j = AUDIO) as ->.
  { rewrite <-Hj. destruct e as [X [|? c|? c| |? c|? c] x]; try done. }
  split; [done|]. destruct Hc as [_ Hc]. destruct (Hc He) as [past Hp]. clear Hc He Hj.
  rewrite proj_app in Hp. cbn in Hp. rewrite <-Hi in Hp. cbn in Hp.
  change (omap _ m1) with (proj AUDIO m1) in Hp.
  destruct (proj AUDIO m1) as [|x l _] eqn:E using rev_ind; [done|exfalso].
  rewrite app_assoc in Hp. apply app_inj_tail in Hp as [_ ->].
  apply proj_last in E as (a & b & ->).
  apply steps_app_inv in Hr as (s2 & Hr & _).
  change (t1 ++ ?x :: a ++ ?y) with (t1 ++ [x] ++ a ++ y) in Hr. rewrite app_assoc in Hr.
  apply steps_app_inv in Hr as (s1 & H1 & H2).
  assert (m_paused (mem s1) = true) as Hs1.
  { destruct (steps_last _ _ _ _ _ _ _ H1) as (s0 & q & _ & Hstep & _).
    apply sstep_pool in Hstep as (X & c & k & x & new & Ec & _ & Hm & _ & _).
    apply (f_equal made1) in Ec. destruct c as [| | | |X c|]; try done.
    destruct c; try done. injection Ec as <-. injection Hm as <-. done. }
  destruct (gate_closed _ _ _ H2 Hs1 Ho) as [_ Hn].
  rewrite map_app, existsb_app in Hn. apply orb_false_iff in Hn as [_ Hn]. done.
Qed.

Lemma one_encode (mid : list (nat * event)) :
  (forall m1 j e m2, mid = m1 ++ (j, e) :: m2 -> encodes e = true -> j = AUDIO /\ proj AUDIO m1 = []) ->
  (length (List.filter encodes (map snd mid)) <= 1)%nat.
Proof.
  induction mid as [|[j e] mid IH]; intros Hm; [cbn; lia|]. cbn [map snd List.filter].
  destruct (encodes e) eqn:He.
  - destruct (Hm [] j e mid eq_refl He) as [-> _].
    destruct (List.filter encodes (map snd mid)) as [|e' l] eqn:E; [done|exfalso].
    assert (In e' (List.filter encodes (map snd mid))) as Hin by (rewrite E; by left).
    apply filter_In in Hin as [Hin He'].
    apply in_map_iff in Hin as ([j' x] & Hx & Hin). cbn in Hx. subst x.
    apply in_split in Hin as (m1 & m2 & ->).
    by destruct (Hm ((AUDIO, e) :: m1) j' e' m2 eq_refl He') as [_ Hp].
  - apply IH. intros m1 j' e' m2 -> He'. destruct (Hm ((j, e) :: m1) j' e' m2 eq_refl He') as [-> Hp].
    split; [done|]. cbn in Hp. by destruct (j =? AUDIO)%nat.
Qed.

(** C8. A stopped microphone stays silent.  In every interleaving of the
    command characteristic, the button, the executor task and the audio task,
    one call at a time, from boot on: the writes of the audio gate are, in
    order, those of the start and stop requests accepted so far, except the
    pending ones; an accepted request that opens the gate is a "start_audio"
    the host task was handed in a write that verifies against the key then in
    force, or a double tap of the button that read the gate closed; and from
    the moment the gate is closed until it is opened again, at most one frame
    goes to the encoder, whose sample was taken before: nothing is encoded
    once the audio task has made another call. *)
Theorem stopped_audio_stays_off tr s :
  gate_steps boot tr s ->
  gate_made (map snd tr) `prefix_of` gate_asked (map snd tr) /\
  (forall t1 i e t2, tr = t1 ++ (i, e) :: t2 -> asked1 e = [false] ->
     (i = HOST /\ exists past data id root,
        proj HOST t1 = past ++ [Ev next_access (HWrite data)] /\
        decode verify parse (key_of (s_pubkey st) past) data = Some (id, "start_audio"%string, root)) \/
     (i = BUTTON /\ exists past,
        proj BUTTON t1 = past ++ [Ev (GBtn ButtonTask.audio_gate_paused) true])) /\
  (forall t1 i mid t2, tr = t1 ++ (i, Ev (GExec (audio_gate_set true)) tt) :: mid ++ t2 ->
     existsb opens (map snd mid) = false ->
     (length (List.filter encodes (map snd mid)) <= 1)%nat /\
     forall m1 j e m2, mid = m1 ++ (j, e) :: m2 -> encodes e = true -> j = AUDIO /\ proj AUDIO m1 = []).
Proof.
  intros Hr. split_and!.
  - rewrite (asked_taken _ _ Hr). apply prefix_app_r. unfold gate_made, gate_taken.
    rewrite (proj_bind made1 EXEC _ _ ltac:(by intros [X [|? c|? c| |? c|? c] x]) Hr).
    rewrite (proj_bind taken1 EXEC _ _ ltac:(by intros [X [|? c|? c| |? c|? c] x]) Hr).
    exact (made_taken _ _ Hr).
  - intros t1 i e t2 -> Ha. pose proof (gate_own_call _ _ _ _ _ Hr) as [Hi Hc].
    unfold asked1 in Ha. destruct (submitted e) as [[[ty params] ok]|] eqn:Es.
    + left. assert (i = HOST) as ->.
      { rewrite <-Hi. destruct e as [X [|? c|? c| |? c|? c] x]; done. }
      destruct ok; [|by destruct (pressed e) as [[req []]|] eqn:Ep;
        destruct e as [X [|? c|? c| |? c|? c] x]].
      apply start_audio_opens in Ha as ->. destruct Hc as [_ Hc].
      destruct (Hc _ _ _ Es) as (past & data & id & root & Hp & Hd & _).
      split; [done|]. by exists past, data, id, root.
    + right. destruct (pressed e) as [[req ok]|] eqn:Ep; [|done].
      assert (i = BUTTON) as ->.
      { rewrite <-Hi. destruct e as [X [|? c|? c| |? c|? c] x]; done. }
      destruct ok; [|done]. destruct Hc as [_ Hc]. split; [done|]. exact (Hc _ _ _ Ep Ha).
  - intros t1 i mid t2 -> Ho.
    assert (forall m1 j e m2, mid = m1 ++ (j, e) :: m2 -> encodes e = true ->
              j = AUDIO /\ proj AUDIO m1 = []) as Hm; [|split; [by apply one_encode|exact Hm]].
    intros m1 j e m2 -> He. rewrite <-(app_assoc m1) in Hr.
    apply (closed_quiet _ _ _ _ _ _ _ Hr); [|done]. rewrite map_app, existsb_app in Ho. by apply orb_false_iff in Ho as [Ho _].
Qed.
End Gate.

(** ** Witness *)

(** One server key, and two signed payloads. *)
Definition demo_verify (sig payload key : list Z) : bool := bool_decide (key = [7]).
Definition demo_parse (payload : list Z) : option Json.json :=
  match payload with
  | [1] => Some (demo_command "a" "stop_audio")
  | [2] => Some (demo_command "b" "start_audio")
  | _ => None
  end.
Definition demo_write (k : Z) : access := HWrite (repeat 0 ED25519_SIG_LEN ++ [k]).

(** The server stops the microphone when it runs and starts it when it does
    not; the microphone hears a tone. *)
Definition gate_answer (self new : nat) (m : gate_mem (Q := lqueue cmd_request_t)) (X : Type)
    (c : gateE Json.json X) : option X :=
  match c in gateE _ X return option X with
  | next_access => Some (demo_write (if m_paused m then 2 else 1))
  | GCmd e =>
      match e in cmdE _ X return option X with
      | s_ack_fn _ => Some tt
      | Commands.executor_submit _ _ => Some true
      end
  | GBtn _ => None
  | receive_command =>
      match xQueueReceive (m_queue m) with Some (r, _) => Some r | None => None end
  | GExec e =>
      match e in execE X return option X with audio_gate_set _ => Some tt | _ => None end
  | GAudio e =>
      match e in audioE X return option X with
      | AudioTask.audio_gate_paused => Some (m_paused m)
      | e => Some (fst (demo_audio false 3 _ e tt))
      end
  end.

Definition gate_demo : sys (E := gateE Json.json) (M := gate_mem (Q := lqueue cmd_request_t)) :=
  gate_boot demo_verify demo_parse 3 (CmdState [7] true (replicate CMD_DEDUPE_N EmptyString) 0) zero_ring.

(** A frame is read; a stop is received, queued and executed; the frame is
    encoded; the next one is not; a start; the one after is. *)
Definition gate_sched : list nat := [3; 3; 0; 0; 0; 2; 2; 3; 3; 3; 0; 0; 0; 2; 2; 3; 3; 3]%nat.

Definition gate_trace : list (nat * ev (gateE Json.json)) :=
  match run_sched gate_do gate_answer (fun _ => []) gate_sched gate_demo with
  | Some (tr, _) => tr
  | None => []
  end.

Lemma gate_runs : exists s, steps gate_do gate_spawned gate_demo gate_trace s.
Proof.
  unfold gate_trace. destruct (run_sched _ _ _ _ _) as [[tr s]|] eqn:E.
  - exists s. by apply (run_sched_steps gate_do gate_spawned gate_answer (fun _ => [])) in E.
  - exists gate_demo. constructor.
Qed.

Definition gate_closing : list (nat * ev (gateE Json.json)) := take 7 (drop 7 gate_trace).

Lemma gate_demo_closed :
  existsb opens (map snd gate_closing) = false /\
  map (fun e => (owner e, encodes e)) (map snd gate_closing) =
    [(3, true); (3, false); (3, false); (0, false); (0, false); (0, false); (2, false)]%nat.
Proof. by vm_compute. Qed.

Lemma gate_trace_split :
  gate_trace = take 6 gate_trace ++ (EXEC, Ev (GExec (audio_gate_set true)) tt) ::
    gate_closing ++ drop 14 gate_trace.
Proof. vm_compute. reflexivity. Qed.

Lemma stopped_audio_stays_off_witness :
  exists s, steps gate_do gate_spawned gate_demo gate_trace s /\
    [true; false] `prefix_of` gate_asked (map snd gate_trace) /\
    (length (List.filter encodes (map snd gate_closing)) <= 1)%nat /\
    length (List.filter encodes (map snd gate_closing)) = 1%nat.
Proof.
  destruct gate_runs as [s Hr]. exists s. split; [exact Hr|].
  destruct (stopped_audio_stays_off demo_verify demo_parse 3
    (CmdState [7] true (replicate CMD_DEDUPE_N EmptyString) 0) zero_ring gate_trace s Hr)
    as (Hp & _ & Hq).
  split_and!; [exact Hp| |vm_compute; reflexivity].
  apply (Hq _ _ _ _ gate_trace_split). apply gate_demo_closed.
Defined.
