(* ===== verification/MediaIndex.v ===== *)
(** * media_index.c: capture paths, manifest lines, the consumed list

    C strings are lists of bytes without a terminating zero; [snprintf]
    keeps the first [cap - 1] bytes.  The conversions of [snprintf] and
    [sscanf] the file uses are written out. *)

From stdpp Require Import strings.
From S2P Require Import Prelude.
Open Scope string_scope.
Open Scope list_scope.
Open Scope Z_scope.

Definition NAME_MAX_LEN : Z := 80.

(** A string literal. *)
Definition lit (s : string) : list Z :=
  map (fun a => Z.of_N (Ascii.N_of_ascii a)) (String.list_ascii_of_string s).

Definition NL : Z := 10.
Definition BAR : Z := 124.
Definition KIND_SNAP : Z := 115.
Definition KIND_VIDEO : Z := 118.

(** [snprintf]'s truncation. *)
Definition snprintf (cap : Z) (s : list Z) : list Z := take (Z.to_nat (cap - 1)) s.

(** ["%u"]: the decimal digits of a uint32_t (at most ten). *)
Fixpoint dec_digits (fuel : nat) (n : Z) (acc : list Z) : list Z :=
  match fuel with
  | O => acc
  | S fuel =>
      let acc := (48 + n mod 10) :: acc in
      if n <? 10 then acc else dec_digits fuel (n / 10) acc
  end.
Definition dec (n : Z) : list Z := dec_digits 10 n [].

(** ["%010u"]: padded with zeros on the left to ten digits. *)
Fixpoint dec_pad (width : nat) (n : Z) (acc : list Z) : list Z :=
  match width with
  | O => acc
  | S width => dec_pad width (n / 10) ((48 + n mod 10) :: acc)
  end.
Definition dec010 (n : Z) : list Z := dec_pad 10 n [].

Definition snapshot_path (cap boot_id rel_ts_ms seq : Z) : list Z :=
  snprintf cap (lit "/sdcard/snapshots/" ++ dec boot_id ++ lit "/" ++ dec010 rel_ts_ms ++ lit "_" ++
                dec seq ++ lit ".jpg").

Definition video_path (cap boot_id rel_ts_ms seq : Z) : list Z :=
  snprintf cap (lit "/sdcard/video/" ++ dec boot_id ++ lit "/" ++ dec010 rel_ts_ms ++ lit "_" ++
                dec seq ++ lit ".mjpeg").

Definition manifest_line (cap : Z) (path : list Z) (rel_ts_ms boot_id kind : Z) : list Z :=
  snprintf cap (path ++ [BAR] ++ dec rel_ts_ms ++ [BAR] ++ dec boot_id ++ [BAR; kind; NL]).

(** ** sscanf *)

(** ["%79[^|]"]: the longest prefix without a bar, of 1 to 79 bytes. *)
Fixpoint span_not_bar (n : nat) (s : list Z) : list Z * list Z :=
  match n, s with
  | S n, c :: s' =>
      if c =? BAR then ([], s) else let '(a, b) := span_not_bar n s' in (c :: a, b)
  | _, _ => ([], s)
  end.

Definition isspace (c : Z) : bool := (c =? 32) || ((9 <=? c) && (c <=? 13)).
Definition isdigit (c : Z) : bool := (48 <=? c) && (c <=? 57).

Fixpoint skip_space (s : list Z) : list Z :=
  match s with c :: s' => if isspace c then skip_space s' else s | [] => [] end.

(** The digits at the head of [s], accumulated with strtoul's saturation. *)
Fixpoint scan_digits (s : list Z) (acc : Z) : Z * list Z :=
  match s with
  | c :: s' => if isdigit c then scan_digits s' (Z.min 4294967296 (acc * 10 + (c - 48))) else (acc, s)
  | [] => (acc, [])
  end.

(** ["%" SCNu32]: blanks, a sign, at least one digit. *)
Definition scan_u32 (s : list Z) : option (Z * list Z) :=
  let s := skip_space s in
  let '(neg, s) :=
    match s with
    | c :: s' => if c =? 45 then (true, s') else if c =? 43 then (false, s') else (false, s)
    | [] => (false, [])
    end in
  match s with
  | c :: _ =>
      if isdigit c then
        let '(v, s) := scan_digits s 0 in
        Some (if 4294967295 <? v then 4294967295 else if neg then u32 (- v) else v, s)
      else None
  | [] => None
  end.

(** A literal bar of the format. *)
Definition scan_bar (s : list Z) : option (list Z) :=
  match s with c :: s' => if c =? BAR then Some s' else None | [] => None end.

(** [manifest_parse]: [None] is -1. *)
Definition manifest_parse (line : list Z) : option (list Z * Z * Z * Z) :=
  let '(path, s) := span_not_bar 79 line in
  if (length path =? 0)%nat then None else
  match scan_bar s with None => None | Some s =>
  match scan_u32 s with None => None | Some (ts, s) =>
  match scan_bar s with None => None | Some s =>
  match scan_u32 s with None => None | Some (boot, s) =>
  match scan_bar s with None => None | Some s =>
  match s with
  | [] => None
  | kind_c :: _ =>
      if negb (kind_c =? KIND_SNAP) && negb (kind_c =? KIND_VIDEO) then None
      else Some (path, ts, boot, kind_c)
  end end end end end end.

(** ** The consumed list *)

(** [strchr(p, '\n')]: the bytes before the newline, and those after it. *)
Fixpoint break_nl (p : list Z) : list Z * option (list Z) :=
  match p with
  | [] => ([], None)
  | c :: p =>
      if c =? NL then ([], Some p) else let '(a, r) := break_nl p in (c :: a, r)
  end.

(** The loop of [consumed_parse]; [None] is -1. *)
Fixpoint consumed_loop (fuel : nat) (p : list Z) (names : list (list Z)) (max : Z)
  : option (list (list Z)) :=
  match fuel, p with
  | _, [] => Some names
  | O, _ => None
  | S fuel, _ =>
      let '(line, nl) := break_nl p in
      let len := Z.of_nat (length line) in
      if len =? 0 then
        match nl with None => Some names | Some p => consumed_loop fuel p names max end
      else if NAME_MAX_LEN <=? len then None
      else if max <=? Z.of_nat (length names) then None
      else
        let names := names ++ [line] in
        match nl with None => Some names | Some p => consumed_loop fuel p names max end
  end.

Definition consumed_parse (body : list Z) (max : Z) : option (list (list Z)) :=
  consumed_loop (length body) body [] max.

(** ** The format, as a specification *)

(** The lines of a text: what stands between newlines. *)
Fixpoint lines (p : list Z) : list (list Z) :=
  match p with
  | [] => [[]]
  | c :: p =>
      if c =? NL then [] :: lines p
      else match lines p with l :: ls => (c :: l) :: ls | [] => [[c]] end
  end.

Definition nonempty_lines (p : list Z) : list (list Z) :=
  List.filter (fun l => negb (length l =? 0)%nat) (lines p).

(** A path a manifest line can carry. *)
Definition path_ok (path : list Z) : Prop :=
  path <> [] /\ (length path <= 79)%nat /\ Forall (fun c => c <> BAR /\ c <> NL) path.

(** ** Decimal numbers *)

Definition digit (c : Z) : Prop := 48 <= c <= 57.
Definition digits_val (ds : list Z) (acc : Z) : Z := fold_left (fun a c => a * 10 + (c - 48)) ds acc.

Lemma digits_val_app ds es acc : digits_val (ds ++ es) acc = digits_val es (digits_val ds acc).
Proof. apply fold_left_app. Qed.

Lemma dec_digits_spec fuel n acc :
  (0 < fuel)%nat -> 0 <= n < 10 ^ Z.of_nat fuel ->
  exists ds, dec_digits fuel n acc = ds ++ acc /\ Forall digit ds /\ ds <> [] /\
    (length ds <= fuel)%nat /\ digits_val ds 0 = n.
Proof.
  revert n acc. induction fuel as [|fuel IH]; intros n acc Hf Hn; [lia|].
  cbn [dec_digits]. destruct (Z.ltb_spec n 10) as [Hlt|Hge].
  - exists [48 + n mod 10]. rewrite Z.mod_small by lia.
    split_and!; [done|repeat constructor; unfold digit; lia|done|simpl; lia|].
    unfold digits_val. simpl. lia.
  - rewrite Nat2Z.inj_succ, Z.pow_succ_r in Hn by lia.
    destruct fuel as [|fuel']; [simpl in Hn; lia|].
    destruct (IH (n / 10) ((48 + n mod 10) :: acc)) as (ds & -> & Hd & Hne & Hl & Hv);
      [lia|split; [apply Z.div_pos; lia|apply Z.div_lt_upper_bound; lia]|].
    exists (ds ++ [48 + n mod 10]). rewrite <-app_assoc. split_and!; [done| | | |].
    + apply Forall_app. split; [done|]. repeat constructor; unfold digit; clia.
    + by destruct ds.
    + rewrite length_app. simpl. lia.
    + rewrite digits_val_app, Hv. unfold digits_val. simpl. clia.
Qed.

Lemma dec_spec n :
  is_u32 n -> Forall digit (dec n) /\ dec n <> [] /\ (length (dec n) <= 10)%nat /\
    digits_val (dec n) 0 = n.
Proof.
  intros Hn. unfold dec.
  destruct (dec_digits_spec 10 n []) as (ds & -> & H); [lia|clia|]. by rewrite app_nil_r.
Qed.

Lemma dec_pad_spec w n acc :
  0 <= n < 10 ^ Z.of_nat w ->
  exists ds, dec_pad w n acc = ds ++ acc /\ Forall digit ds /\ length ds = w /\
    digits_val ds 0 = n.
Proof.
  revert n acc. induction w as [|w IH]; intros n acc Hn; [exists []; simpl in *; split_and!; done || lia|].
  cbn [dec_pad]. rewrite Nat2Z.inj_succ, Z.pow_succ_r in Hn by lia.
  destruct (IH (n / 10) ((48 + n mod 10) :: acc)) as (ds & -> & Hd & Hl & Hv);
    [split; [apply Z.div_pos; lia|apply Z.div_lt_upper_bound; lia]|].
  exists (ds ++ [48 + n mod 10]). rewrite <-app_assoc. split_and!; [done| | |].
  - apply Forall_app. split; [done|]. repeat constructor; unfold digit; clia.
  - rewrite length_app. simpl. lia.
  - rewrite digits_val_app, Hv. unfold digits_val. simpl. clia.
Qed.

Lemma dec010_spec n :
  is_u32 n -> Forall digit (dec010 n) /\ length (dec010 n) = 10%nat /\
    digits_val (dec010 n) 0 = n.
Proof.
  intros Hn. unfold dec010.
  destruct (dec_pad_spec 10 n []) as (ds & -> & H); [clia|]. by rewrite app_nil_r.
Qed.

(** Text that starts with digits and goes on with something else splits in
    one way. *)
Lemma digits_app_inj ds es c d xs ys :
  Forall digit ds -> Forall digit es -> ~ digit c -> ~ digit d ->
  ds ++ c :: xs = es ++ d :: ys -> ds = es /\ c :: xs = d :: ys.
Proof.
  intros Hds. revert es. induction Hds as [|a ds Ha _ IH]; intros es Hes Hc Hd H.
  - destruct es as [|e es]; [done|]. simpl in H. simplify_eq.
    by apply Forall_cons_1 in Hes as [? _].
  - destruct es as [|e es]; simpl in H; simplify_eq; [done|].
    apply Forall_cons_1 in Hes as [_ Hes]. by destruct (IH es) as [-> ?].
Qed.

Lemma digits_val_mono ds acc : Forall digit ds -> 0 <= acc -> acc <= digits_val ds acc.
Proof.
  intros Hds. revert acc. induction Hds as [|d ds Hd _ IH]; intros acc Ha; [done|].
  unfold digits_val. cbn [fold_left]. unfold digit in Hd.
  specialize (IH (acc * 10 + (d - 48))). unfold digits_val in IH. lia.
Qed.

Lemma scan_digits_app ds acc rest :
  Forall digit ds -> 0 <= acc -> digits_val ds acc <= 4294967295 ->
  match rest with c :: _ => ~ digit c | [] => True end ->
  scan_digits (ds ++ rest) acc = (digits_val ds acc, rest).
Proof.
  intros Hds. revert acc. induction Hds as [|d ds Hd Hds IH]; intros acc Ha Hv Hr.
  - destruct rest as [|c rest]; [done|]. simpl. replace (isdigit c) with false; [done|].
    unfold isdigit, digit in *. lia.
  - cbn [app scan_digits]. replace (isdigit d) with true by (unfold isdigit, digit in *; lia).
    pose proof (digits_val_mono ds (acc * 10 + (d - 48)) Hds) as Hm.
    unfold digits_val in Hv. cbn [fold_left] in Hv. fold (digits_val ds (acc * 10 + (d - 48))) in Hv.
    unfold digit in Hd. rewrite Z.min_r by lia. rewrite IH by (done || lia). done.
Qed.

(** Scanning back what ["%u"] printed. *)
Lemma scan_dec n rest :
  is_u32 n -> match rest with c :: _ => ~ digit c | [] => True end ->
  scan_u32 (dec n ++ rest) = Some (n, rest).
Proof.
  intros Hn Hr. destruct (dec_spec n Hn) as (Hd & Hne & _ & Hv). unfold scan_u32.
  destruct (dec n) as [|d ds] eqn:E; [done|].
  pose proof (Forall_inv Hd) as Hd0. unfold digit in Hd0. cbn [app skip_space].
  replace (isspace d) with false by (unfold isspace; lia).
  replace (d =? 45) with false by lia. replace (d =? 43) with false by lia.
  replace (isdigit d) with true by (unfold isdigit; lia).
  change (d :: ds ++ rest) with ((d :: ds) ++ rest).
  rewrite scan_digits_app; [|done|lia|rewrite Hv; unfold is_u32 in Hn; lia|done].
  rewrite Hv. unfold is_u32 in Hn. replace (4294967295 <? n) with false by lia. done.
Qed.

Lemma span_path path rest n :
  Forall (fun c => c <> BAR /\ c <> NL) path -> (length path <= n)%nat ->
  span_not_bar n (path ++ BAR :: rest) = (path, BAR :: rest).
Proof.
  intros Hp. revert n. induction Hp as [|c path [Hc _] _ IH]; intros n Hn; simpl in Hn.
  - destruct n; [done|]. simpl. done.
  - destruct n as [|n]; [lia|]. simpl. destruct (Z.eqb_spec c BAR); [done|].
    by rewrite IH by lia.
Qed.

Lemma digits_plain ds : Forall digit ds -> Forall (fun c => c <> BAR /\ c <> NL) ds.
Proof. intros Hd. eapply Forall_impl; [exact Hd|]. unfold digit, BAR, NL. simpl. lia. Qed.

(** A line the device writes is not cut by [snprintf]. *)
Lemma manifest_line_full path ts boot kind :
  path_ok path -> is_u32 ts -> is_u32 boot ->
  manifest_line 112 path ts boot kind =
  (path ++ [BAR] ++ dec ts ++ [BAR] ++ dec boot ++ [BAR; kind]) ++ [NL] /\
  (length (path ++ [BAR] ++ dec ts ++ [BAR] ++ dec boot ++ [BAR; kind]) <= 103)%nat.
Proof.
  intros (_ & Hl & _) Hts Hb.
  destruct (dec_spec ts Hts) as (_ & _ & Hlt & _), (dec_spec boot Hb) as (_ & _ & Hlb & _).
  split.
  - unfold manifest_line, snprintf. rewrite take_ge; [by rewrite <-!app_assoc|].
    rewrite !length_app. simpl. lia.
  - rewrite !length_app. simpl. lia.
Qed.

Lemma parse_written path ts boot kind rest :
  path_ok path -> is_u32 ts -> is_u32 boot -> kind = KIND_SNAP \/ kind = KIND_VIDEO ->
  manifest_parse ((path ++ [BAR] ++ dec ts ++ [BAR] ++ dec boot ++ [BAR; kind]) ++ rest) =
  Some (path, ts, boot, kind).
Proof.
  intros (Hne & Hl & Hc) Hts Hb Hk. unfold manifest_parse. rewrite <-!app_assoc. cbn [app].
  rewrite span_path by done. destruct path as [|p path]; [done|]. cbn [length Nat.eqb scan_bar].
  assert (~ digit BAR) as Hbar by (unfold digit, BAR; lia).
  rewrite Z.eqb_refl, scan_dec by done. cbn [scan_bar].
  rewrite Z.eqb_refl, scan_dec by done. cbn [scan_bar].
  rewrite Z.eqb_refl.
  by destruct Hk as [-> | ->].
Qed.

(** The capture paths are not cut either. *)
Lemma snapshot_path_full b t s :
  is_u32 b -> is_u32 t -> is_u32 s ->
  snapshot_path NAME_MAX_LEN b t s =
    lit "/sdcard/snapshots/" ++ dec b ++ lit "/" ++ dec010 t ++ lit "_" ++ dec s ++ lit ".jpg" /\
  path_ok (snapshot_path NAME_MAX_LEN b t s).
Proof.
  intros Hb Ht Hs.
  destruct (dec_spec b Hb) as (Hd1 & _ & Hl1 & _), (dec010_spec t Ht) as (Hd2 & Hl2 & _),
    (dec_spec s Hs) as (Hd3 & _ & Hl3 & _).
  assert (snapshot_path NAME_MAX_LEN b t s =
    lit "/sdcard/snapshots/" ++ dec b ++ lit "/" ++ dec010 t ++ lit "_" ++ dec s ++ lit ".jpg") as ->.
  { unfold snapshot_path, snprintf. apply take_ge. rewrite !length_app.
    change (Z.to_nat (NAME_MAX_LEN - 1)) with 79%nat. simpl. lia. }
  split; [done|]. split_and!; [done|rewrite !length_app; simpl; lia|].
  rewrite !Forall_app. split_and!; try by apply digits_plain.
  all: repeat constructor; unfold BAR, NL; simpl; lia.
Qed.

Lemma video_path_full b t s :
  is_u32 b -> is_u32 t -> is_u32 s ->
  video_path NAME_MAX_LEN b t s =
    lit "/sdcard/video/" ++ dec b ++ lit "/" ++ dec010 t ++ lit "_" ++ dec s ++ lit ".mjpeg" /\
  path_ok (video_path NAME_MAX_LEN b t s).
Proof.
  intros Hb Ht Hs.
  destruct (dec_spec b Hb) as (Hd1 & _ & Hl1 & _), (dec010_spec t Ht) as (Hd2 & Hl2 & _),
    (dec_spec s Hs) as (Hd3 & _ & Hl3 & _).
  assert (video_path NAME_MAX_LEN b t s =
    lit "/sdcard/video/" ++ dec b ++ lit "/" ++ dec010 t ++ lit "_" ++ dec s ++ lit ".mjpeg") as ->.
  { unfold video_path, snprintf. apply take_ge. rewrite !length_app.
    change (Z.to_nat (NAME_MAX_LEN - 1)) with 79%nat. simpl. lia. }
  split; [done|]. split_and!; [done|rewrite !length_app; simpl; lia|].
  rewrite !Forall_app. split_and!; try by apply digits_plain.
  all: repeat constructor; unfold BAR, NL; simpl; lia.
Qed.

Lemma dec_inj n m : is_u32 n -> is_u32 m -> dec n = dec m -> n = m.
Proof.
  intros Hn Hm H. destruct (dec_spec n Hn) as (_ & _ & _ & <-), (dec_spec m Hm) as (_ & _ & _ & <-).
  by rewrite H.
Qed.

(** The part of a capture path after its directory. *)
Lemma capture_name_inj b t s b' t' s' ext :
  is_u32 b -> is_u32 t -> is_u32 s -> is_u32 b' -> is_u32 t' -> is_u32 s' ->
  dec b ++ lit "/" ++ dec010 t ++ lit "_" ++ dec s ++ 46 :: ext =
  dec b' ++ lit "/" ++ dec010 t' ++ lit "_" ++ dec s' ++ 46 :: ext -> b = b' /\ t = t' /\ s = s'.
Proof.
  intros Hb Ht Hs Hb' Ht' Hs' H.
  destruct (dec_spec b Hb) as (Hd1 & _), (dec_spec b' Hb') as (Hd1' & _),
    (dec_spec s Hs) as (Hd3 & _), (dec_spec s' Hs') as (Hd3' & _),
    (dec010_spec t Ht) as (_ & Hl2 & Hv2), (dec010_spec t' Ht') as (_ & Hl2' & Hv2').
  change (lit "/") with [47] in H. change (lit "_") with [95] in H. cbn [app] in H.
  apply digits_app_inj in H as [Hbb H]; [|done|done|unfold digit; lia..].
  assert (dec010 t ++ 95 :: dec s ++ 46 :: ext =
          dec010 t' ++ 95 :: dec s' ++ 46 :: ext) as H2 by congruence.
  apply app_inj_1 in H2 as [Htt H2]; [|congruence].
  assert (dec s ++ 46 :: ext = dec s' ++ 46 :: ext) as H3 by congruence.
  apply digits_app_inj in H3 as [Hss _]; [|done|done|unfold digit; lia..].
  split_and!; [by apply dec_inj|congruence|by apply dec_inj].
Qed.

(** ** The consumed list *)

Lemma break_nl_lines p :
  let '(line, rest) := break_nl p in
  lines p = line :: match rest with Some r => lines r | None => [] end /\
  match rest with Some r => (length r < length p)%nat | None => True end.
Proof.
  induction p as [|c p IH]; [done|]. simpl. destruct (c =? NL); [split; [done|lia]|].
  destruct (break_nl p) as [line rest]. destruct IH as [-> Hr]. split; [done|].
  destruct rest; [lia|done].
Qed.

Lemma consumed_loop_spec fuel p names max :
  (length p <= fuel)%nat -> Z.of_nat (length names) <= max ->
  consumed_loop fuel p names max =
  if forallb (fun l => Z.of_nat (length l) <? NAME_MAX_LEN) (nonempty_lines p) &&
     (Z.of_nat (length (names ++ nonempty_lines p)) <=? max)
  then Some (names ++ nonempty_lines p) else None.
Proof.
  revert p names. induction fuel as [|fuel IH]; intros p names Hf Hm.
  all: destruct p as [|c p].
  1, 3: simpl; rewrite app_nil_r; by replace (Z.of_nat (length names) <=? max) with true by lia.
  { simpl in Hf. lia. }
  cbn [consumed_loop]. pose proof (break_nl_lines (c :: p)) as Hb.
  unfold nonempty_lines. destruct (break_nl (c :: p)) as [line rest]. destruct Hb as [-> Hr].
  cbn [List.filter]. set (L := Z.of_nat (length line)).
  assert (L = Z.of_nat (length line)) as HL by done. clearbody L.
  destruct (Z.eqb_spec L 0) as [H0|H0].
  - replace (length line =? 0)%nat with true by (symmetry; apply Nat.eqb_eq; lia). cbn [negb].
    destruct rest as [r|]; [apply IH; simpl in *; lia|]. simpl. rewrite app_nil_r.
    by replace (Z.of_nat (length names) <=? max) with true by lia.
  - replace (length line =? 0)%nat with false by (symmetry; apply Nat.eqb_neq; lia). cbn [negb forallb]. rewrite <-HL.
    destruct (Z.leb_spec NAME_MAX_LEN L); [by replace (L <? NAME_MAX_LEN) with false by lia|].
    replace (L <? NAME_MAX_LEN) with true by lia. cbn [andb].
    destruct (Z.leb_spec max (Z.of_nat (length names))).
    { rewrite length_app. cbn [length]. generalize (List.filter (fun l => negb (length l =? 0)%nat)
        match rest with Some r => lines r | None => [] end) as ls. intros ls.
      rewrite (proj2 (Z.leb_gt (Z.of_nat (length names + S (length ls))) max)) by lia.
      by rewrite andb_false_r. }
    destruct rest as [r|].
    + rewrite IH; [|simpl in *; lia|rewrite length_app; simpl; lia].
      unfold nonempty_lines. by rewrite <-!app_assoc.
    + cbn [List.filter forallb]. rewrite andb_true_l, length_app. simpl.
      by rewrite (proj2 (Z.leb_le (Z.of_nat (length names + 1)) max)) by lia.
Qed.

(** [consumed_parse] returns the non-empty lines of the body, or fails when
    one of them has 80 bytes or more or when there are more than [max]. *)
Lemma consumed_parse_spec body max :
  0 <= max ->
  consumed_parse body max =
  if forallb (fun l => Z.of_nat (length l) <? NAME_MAX_LEN) (nonempty_lines body) &&
     (Z.of_nat (length (nonempty_lines body)) <=? max)
  then Some (nonempty_lines body) else None.
Proof. intros Hm. unfold consumed_parse. by rewrite consumed_loop_spec by (simpl; lia). Qed.

(** ** Theorems *)

(** C27. A manifest line reads back.  For every path without bars or newlines
    of at most 79 bytes, every 32-bit time and boot id and either kind, the
    line the device appends is not cut by its 112-byte buffer, is one line
    (a single newline, at its end) of fewer than [LINE_BUF_CAP] = 128 bytes,
    and parses, with or without the newline, to exactly what was written. *)
Theorem manifest_roundtrip path ts boot kind :
  path_ok path -> is_u32 ts -> is_u32 boot -> kind = KIND_SNAP \/ kind = KIND_VIDEO ->
  exists l, manifest_line 112 path ts boot kind = l ++ [NL] /\
    Forall (fun c => c <> NL) l /\ (length l < 128)%nat /\
    manifest_parse l = Some (path, ts, boot, kind) /\
    manifest_parse (l ++ [NL]) = Some (path, ts, boot, kind).
Proof.
  intros Hp Hts Hb Hk. destruct (manifest_line_full path ts boot kind Hp Hts Hb) as [-> Hl].
  eexists. split; [done|].
  pose proof (parse_written path ts boot kind [] Hp Hts Hb Hk) as H0. rewrite app_nil_r in H0.
  split_and!; [|lia|exact H0|by apply parse_written].
  destruct Hp as (_ & _ & Hc). destruct (dec_spec ts Hts) as (Hd1 & _), (dec_spec boot Hb) as (Hd2 & _).
  rewrite !Forall_app. split_and!.
  - eapply Forall_impl; [exact Hc|]. by intros ? [].
  - repeat constructor; done.
  - eapply Forall_impl; [by apply digits_plain|]. by intros ? [].
  - repeat constructor; done.
  - eapply Forall_impl; [by apply digits_plain|]. by intros ? [].
  - repeat constructor; try done. by destruct Hk as [-> | ->].
Qed.

Lemma manifest_roundtrip_witness :
  exists l, manifest_line 112 (snapshot_path NAME_MAX_LEN 7 5000 0) 5000 7 KIND_SNAP = l ++ [NL] /\
    manifest_parse l = Some (snapshot_path NAME_MAX_LEN 7 5000 0, 5000, 7, KIND_SNAP).
Proof.
  destruct (manifest_roundtrip (snapshot_path NAME_MAX_LEN 7 5000 0) 5000 7 KIND_SNAP)
    as (l & H1 & _ & _ & H2 & _).
  - apply snapshot_path_full; unfold is_u32; lia.
  - unfold is_u32; lia.
  - unfold is_u32; lia.
  - by left.
  - by exists l.
Defined.

(** Captures never share a file.  The paths of two captures are equal
    only if they are captures of the same kind with the same boot id, time
    and sequence number; every capture path fits its 80-byte buffer and can
    be carried by a manifest line. *)
Lemma capture_paths_distinct b t s b' t' s' :
  is_u32 b -> is_u32 t -> is_u32 s -> is_u32 b' -> is_u32 t' -> is_u32 s' ->
  let snap := snapshot_path NAME_MAX_LEN in
  let video := video_path NAME_MAX_LEN in
  (snap b t s = snap b' t' s' -> b = b' /\ t = t' /\ s = s') /\
  (video b t s = video b' t' s' -> b = b' /\ t = t' /\ s = s') /\
  snap b t s <> video b' t' s' /\ path_ok (snap b t s) /\ path_ok (video b t s).
Proof.
  intros Hb Ht Hs Hb' Ht' Hs' snap video. subst snap video.
  destruct (snapshot_path_full b t s) as [E1 P1]; [done..|].
  destruct (snapshot_path_full b' t' s') as [E2 _]; [done..|].
  destruct (video_path_full b t s) as [E3 P3]; [done..|].
  destruct (video_path_full b' t' s') as [E4 _]; [done..|].
  split_and!; try done.
  - rewrite E1, E2. intros H. apply app_inv_head in H. by eapply capture_name_inj in H.
  - rewrite E3, E4. intros H. apply app_inv_head in H. by eapply capture_name_inj in H.
Qed.

