(* ===== verification/SdStore.v ===== *)
(** * sd_store.c: whole-file operations on the SD card *)

From stdpp Require Import gmap strings.
From S2P Require Import Prelude Effects Platform Fs MediaIndex.
Open Scope string_scope.
Open Scope list_scope.
Open Scope Z_scope.

Definition SD_MOUNT_POINT : bytes := lit "/sdcard".
Definition SD_SNAPSHOT_DIR : bytes := lit "/sdcard/snapshots".
Definition SD_VIDEO_DIR : bytes := lit "/sdcard/video".
Definition SD_MANIFEST : bytes := lit "/sdcard/manifest.txt".

#[local] Abbreviation call := (Effects.call (E := sdE)).

Definition sd_ensure_dir (path : bytes) : prog sdE esp_err_t :=
  (let* r := call (mkdir path) in
   match r with
   | MKDIR_OK => Ret ESP_OK
   | MKDIR_EEXIST => Ret ESP_OK
   | MKDIR_ERR => Ret ESP_FAIL
   end)%prog.

(** The result and the new value of [s_mounted]. *)
Definition sd_store_mount (s_mounted : bool) : prog sdE (esp_err_t * bool) :=
  (if s_mounted then Ret (ESP_OK, s_mounted) else
   let* err := call spi_bus_initialize in
   if negb (esp_ok err) then Ret (err, s_mounted) else
   let* err := call (esp_vfs_fat_sdspi_mount SD_MOUNT_POINT) in
   if negb (esp_ok err) then call spi_bus_free ;;; Ret (err, s_mounted) else
   let* _ := sd_ensure_dir SD_SNAPSHOT_DIR in
   let* _ := sd_ensure_dir SD_VIDEO_DIR in
   Ret (ESP_OK, true))%prog.

Definition sd_store_write (path data : bytes) : prog sdE esp_err_t :=
  (let* f := call (fopen path MODE_WB) in
   match f with
   | None => Ret ESP_FAIL
   | Some f =>
       let* n := call (fwrite f data) in
       let* _ := call (fclose f) in
       if negb (n =? Z.of_nat (length data)) then Ret ESP_FAIL else Ret ESP_OK
   end)%prog.

Definition sd_store_append (path line : bytes) : prog sdE esp_err_t :=
  (let* f := call (fopen path MODE_A) in
   match f with
   | None => Ret ESP_FAIL
   | Some f =>
       let* rc := call (fputs f line) in
       let* _ := call (fclose f) in
       if negb rc then Ret ESP_FAIL else Ret ESP_OK
   end)%prog.

(** The result, and the bytes read ([*out_len] is their number). *)
Definition sd_store_read (path : bytes) (cap : Z) : prog sdE (esp_err_t * bytes) :=
  (let* f := call (fopen path MODE_RB) in
   match f with
   | None => Ret (ESP_FAIL, [])
   | Some f =>
       let* d := call (fread f cap) in
       let* _ := call (fclose f) in
       Ret (ESP_OK, d)
   end)%prog.

Definition sd_store_read_manifest (cap : Z) : prog sdE (esp_err_t * bytes) :=
  (let* f := call (fopen SD_MANIFEST MODE_RB) in
   match f with
   | None => Ret (ESP_OK, [])
   | Some f =>
       let* d := call (fread f cap) in
       let* _ := call (fclose f) in
       Ret (ESP_OK, d)
   end)%prog.

Definition sd_store_delete (path : bytes) : prog sdE esp_err_t :=
  (let* r := call (unlink path) in
   match r with
   | UNLINK_OK => Ret ESP_OK
   | UNLINK_ENOENT => Ret ESP_OK
   | UNLINK_ERR => Ret ESP_FAIL
   end)%prog.

(** ** Lemmas *)

(** What [sd_store_write] does to the card. *)
Lemma write_effect path data t err k k' :
  exec (sd_store_write path data) t err -> fs_trace k t k' ->
  streams k' = streams k /\ same_but path k k' /\
  (err = ESP_OK -> Forall closed_ok t -> files k' !! path = Some data) /\
  (err = ESP_OK -> exists d, d `prefix_of` data /\ files k' !! path = Some d) /\
  (err = ESP_OK \/ err = ESP_FAIL).
Proof.
  unfold sd_store_write. intros H Hf. exec_all H; [| |by fs_inv; split_and!; auto].
  all: destruct Hf as (k1 & [Hfr Hk1] & k2 & [Hn Hw] & k3 & Hc & Hk); cbn in Hk; subst k3; rewrite Hk1 in Hw;
    destruct (stream_written _ _ _ _ _ _ _ _ _ Hfr eq_refl (Hw _ _ _ (lookup_insert_eq _ _ _)) Hc)
      as (Hs & Hb & d & Hp & Hok & Hd); split_and!; auto; try done.
  all: apply negb_false_iff, Z.eqb_eq in Heqb; subst x0; rewrite Nat2Z.id, take_ge in * by lia;
    cbn [app] in *.
  - intros _ Hcl. do 2 apply Forall_cons_1 in Hcl as [_ Hcl]. apply Forall_cons_1 in Hcl as [Hx _].
    cbn in Hx. by rewrite Hd, Hok.
  - intros _. by exists d.
Qed.

(** What [sd_store_append] does: the old contents stay; a failure may still
    have left a part of the line. *)
Lemma append_effect path line t err k k' :
  exec (sd_store_append path line) t err -> fs_trace k t k' ->
  streams k' = streams k /\ same_but path k k' /\
  (err = ESP_OK -> Forall closed_ok t -> files k' !! path = Some (default [] (files k !! path) ++ line)) /\
  (files k' = files k \/
   exists d, d `prefix_of` line /\ files k' !! path = Some (default [] (files k !! path) ++ d)) /\
  (err = ESP_OK \/ err = ESP_FAIL).
Proof.
  unfold sd_store_append. intros H Hf. exec_all H; [| |by fs_inv; split_and!; auto].
  all: destruct Hf as (k1 & [Hfr Hk1] & k2 & Hw & k3 & Hc & Hk); cbn in Hk; subst k3; rewrite Hk1 in Hw;
    destruct (Hw _ _ _ (lookup_insert_eq _ _ _)) as (n & Hn & Ha);
    destruct (stream_written _ _ _ _ _ _ _ _ _ Hfr eq_refl Ha Hc)
      as (Hs & Hb & d & Hp & Hok & Hd); split_and!; auto; try done.
  1, 3: right; exists d; split; [|done]; rewrite Hp; cbn [app]; apply prefix_take.
  intros _ Hcl. do 2 apply Forall_cons_1 in Hcl as [_ Hcl]. apply Forall_cons_1 in Hcl as [Hx _].
  cbn in Hx. apply negb_false_iff in Heqb. by rewrite Hd, (Hok Hx), (Hn Heqb), take_ge by lia.
Qed.

(** Reading changes nothing and returns the head of the file. *)
Lemma read_manifest_effect cap t err d k k' :
  exec (sd_store_read_manifest cap) t (err, d) -> fs_trace k t k' ->
  files k' = files k /\ streams k' = streams k /\ err = ESP_OK /\
  (d = [] \/ exists c, files k !! SD_MANIFEST = Some c /\ d `prefix_of` take (Z.to_nat cap) c).
Proof.
  unfold sd_store_read_manifest. intros H Hf. exec_all H; simplify_eq; [|by fs_inv; auto].
  destruct Hf as (k1 & (Hfr & c & Hk & ->) & k2 & Hr & k3 & Hc & ->).
  destruct (stream_read _ _ _ _ _ _ _ _ Hfr Hr Hc) as (Hfi & Hst & Hp). fs_inv. split_and!; eauto.
Qed.

(** Deleting is idempotent and touches no other file. *)
Lemma delete_effect path t err k k' :
  exec (sd_store_delete path) t err -> fs_trace k t k' ->
  streams k' = streams k /\ same_but path k k' /\
  (err = ESP_OK -> files k' !! path = None) /\ (err <> ESP_OK -> k' = k).
Proof.
  unfold sd_store_delete. intros H Hf. exec_all H; fs_inv; try done.
  cbn. split_and!; [done| |by simplify_map_eq|done].
  intros p Hp. by simplify_map_eq.
Qed.

Lemma mount_effect m t err m' k k' :
  exec (sd_store_mount m) t (err, m') -> fs_trace k t k' -> k' = k.
Proof.
  unfold sd_store_mount, sd_ensure_dir. intros H Hf. exec_all H; by fs_inv.
Qed.

Lemma ensure_dir_effect path t err k k' :
  exec (sd_ensure_dir path) t err -> fs_trace k t k' -> k' = k.
Proof. unfold sd_ensure_dir. intros H Hf. exec_all H; by fs_inv. Qed.

(** The card does what it is asked to: files open, writes and closes succeed,
    and no unlink fails. *)
Definition works (e : ev sdE) : Prop :=
  match e with
  | Ev e x =>
      match e in sdE X return X -> Prop with
      | fopen _ _ => fun r => r <> None
      | fwrite _ data => fun n => n = Z.of_nat (length data)
      | fputs _ _ | fclose _ => fun ok => ok = true
      | unlink _ => fun r => r <> UNLINK_ERR
      | _ => fun _ => True
      end x
  end.

Lemma write_works path data t err :
  exec (sd_store_write path data) t err -> Forall works t -> err = ESP_OK /\ Forall closed_ok t.
Proof.
  unfold sd_store_write. intros H Hok. exec_all H; [| |by apply Forall_cons_1 in Hok as [? _]].
  all: do 2 apply Forall_cons_1 in Hok as [? Hok]; apply Forall_cons_1 in Hok as [? _]; cbn in *; subst.
  - by rewrite Z.eqb_refl in Heqb.
  - split; [done|]. by repeat constructor.
Qed.

Lemma append_works path line t err :
  exec (sd_store_append path line) t err -> Forall works t -> err = ESP_OK /\ Forall closed_ok t.
Proof.
  unfold sd_store_append. intros H Hok. exec_all H; [| |by apply Forall_cons_1 in Hok as [? _]].
  all: do 2 apply Forall_cons_1 in Hok as [? Hok]; apply Forall_cons_1 in Hok as [? _]; cbn in *; subst.
  - done.
  - split; [done|]. by repeat constructor.
Qed.

Lemma delete_works path t err :
  exec (sd_store_delete path) t err -> Forall works t -> err = ESP_OK.
Proof.
  unfold sd_store_delete. intros H Hok. exec_all H; try done. by apply Forall_cons_1 in Hok as [? _].
Qed.
