(* ===== verification/Camera.v ===== *)
(** * camera.c: one JPEG from the frame buffer

    The driver has one frame buffer; what it hands out must be returned. *)

From S2P Require Import Prelude Effects Platform Fs.
Open Scope Z_scope.

Inductive camE : Type -> Type :=
| esp_camera_init : camE esp_err_t
| esp_camera_fb_get : camE (option (bool * bytes))
    (** NULL, or whether the format is JPEG and the data *)
| esp_camera_fb_return : camE unit
| malloc (n : Z) : camE bool.

#[local] Abbreviation call := (Effects.call (E := camE)).

Definition camera_init : prog camE esp_err_t := call esp_camera_init.

(** The copy of the frame; [None] is ESP_FAIL. *)
Definition camera_capture_jpeg : prog camE (option bytes) :=
  (let* fb := call esp_camera_fb_get in
   match fb with
   | None => Ret None
   | Some (jpeg, buf) =>
       if negb jpeg then call esp_camera_fb_return ;;; Ret None else
       let* copy := call (malloc (Z.of_nat (length buf))) in
       if negb copy then call esp_camera_fb_return ;;; Ret None else
       call esp_camera_fb_return ;;; Ret (Some buf)
   end)%prog.

Definition camera_flush_stale : prog camE unit :=
  (let* fb := call esp_camera_fb_get in
   match fb with
   | Some _ => call esp_camera_fb_return
   | None => Ret tt
   end)%prog.

(** How many frame buffers a trace leaves with the program. *)
Definition fb_delta (e : ev camE) : Z :=
  match e with
  | Ev e x =>
      match e in camE X return X -> Z with
      | esp_camera_fb_get => fun r => match r with Some _ => 1 | None => 0 end
      | esp_camera_fb_return => fun _ => -1
      | _ => fun _ => 0
      end x
  end.

Definition fb_held (t : list (ev camE)) : Z := foldr (fun e n => fb_delta e + n) 0 t.

Lemma fb_held_app t1 t2 : fb_held (t1 ++ t2) = fb_held t1 + fb_held t2.
Proof.
  induction t1 as [|e t1 IH]; [done|]. cbn [app]. unfold fb_held in *. cbn [foldr]. lia.
Qed.

(** The frame the last capture of a trace was given. *)
Definition fb_jpeg (e : ev camE) : option bytes :=
  match e with
  | Ev e x =>
      match e in camE X return X -> option bytes with
      | esp_camera_fb_get => fun r =>
          match r with Some (true, b) => Some b | _ => None end
      | _ => fun _ => None
      end x
  end.

(** Every path of the capture returns the buffer it was given; a successful
    one returns the bytes of a JPEG frame. *)
Lemma capture_cases t r :
  exec camera_capture_jpeg t r ->
  fb_held t = 0 /\ forall jpg, r = Some jpg -> jpg ∈ omap fb_jpeg t.
Proof.
  unfold camera_capture_jpeg. intros H. exec_all H; split; try done; try lia; simplify_eq.
  all: intros jpg Hj; simplify_eq; try done. 
  destruct b; [|done]. by left.
Qed.

Lemma flush_cases t r : exec camera_flush_stale t r -> fb_held t = 0.
Proof. unfold camera_flush_stale. intros H. exec_all H; done. Qed.
