(* ===== verification/Snapshot.v ===== *)
(** * snapshot.c: one JPEG to the card, and the ambient timer

    [snapshot_capture_one] is the body of the worker task: mount, drain the
    stale frame, capture, write the file, append the manifest line.  The
    timer and the executor only notify the worker. *)

From stdpp Require Import gmap strings.
From S2P Require Import Prelude Effects Platform Config Fs MediaIndex SdStore Camera.
Open Scope string_scope.
Open Scope list_scope.
Open Scope Z_scope.

Inductive snapE : Type -> Type :=
| SnSd {X} (e : sdE X) : snapE X
| SnCam {X} (e : camE X) : snapE X
| ulTaskNotifyTake : snapE Z
| rel_ts_ms_now : snapE Z
| xTaskNotifyGive_worker : snapE unit
| xTaskCreate_worker : snapE bool  (** pdPASS *)
| xTimerCreate (period_ms : Z) : snapE bool  (** non-NULL *)
| xTimerStart : snapE bool
| xTimerStop : snapE unit
| xTimerChangePeriod (period_ms : Z) : snapE unit.

#[local] Abbreviation call := (Effects.call (E := snapE)).
#[local] Abbreviation sd := (translate (fun X => @SnSd X)).
#[local] Abbreviation cam := (translate (fun X => @SnCam X)).

(** The statics of snapshot.c ([s_timer] and [s_worker] as non-NULL flags)
    and [s_mounted] of sd_store.c. *)
Record snap_st : Type := SnapSt { s_timer : bool; s_worker : bool; s_seq : Z; s_mounted : bool }.

Definition snapshot_capture_async (st : snap_st) : prog snapE unit :=
  (if s_worker st then call xTaskNotifyGive_worker else Ret tt)%prog.

(** ["/sdcard/snapshots/%u"] *)
Definition snapshot_dir (boot : Z) : bytes :=
  snprintf NAME_MAX_LEN (lit "/sdcard/snapshots/" ++ dec boot).

Definition snapshot_capture_one (boot : Z) (st : snap_st) (rel_ts_ms : Z)
  : prog snapE (esp_err_t * snap_st) :=
  (let* m := sd (sd_store_mount (s_mounted st)) in
   let '(err, mounted) := m in
   let st := SnapSt (s_timer st) (s_worker st) (s_seq st) mounted in
   if negb (esp_ok err) then Ret (err, st) else
   cam camera_flush_stale ;;;
   let* jpg := cam camera_capture_jpeg in
   match jpg with
   | None => Ret (ESP_FAIL, st)
   | Some jpg =>
       let seq := s_seq st in
       let st := SnapSt (s_timer st) (s_worker st) (u32 (seq + 1)) mounted in
       let path := snapshot_path NAME_MAX_LEN boot rel_ts_ms seq in
       let* _ := sd (sd_ensure_dir (snapshot_dir boot)) in
       let* err := sd (sd_store_write path jpg) in
       if negb (esp_ok err) then Ret (err, st) else
       let line := manifest_line (NAME_MAX_LEN + 32) path rel_ts_ms boot KIND_SNAP in
       let* _ := sd (sd_store_append SD_MANIFEST line) in
       Ret (ESP_OK, st)
   end)%prog.

(** One iteration of the worker task. *)
Definition snapshot_worker_step (boot : Z) (st : snap_st) : prog snapE snap_st :=
  (let* _ := call ulTaskNotifyTake in
   let* ts := call rel_ts_ms_now in
   let* r := snapshot_capture_one boot st ts in
   Ret (snd r))%prog.

Fixpoint snapshot_worker_task (n : nat) (boot : Z) (st : snap_st) : prog snapE snap_st :=
  match n with
  | O => Ret st
  | S n => let* st := snapshot_worker_step boot st in snapshot_worker_task n boot st
  end%prog.

Definition snapshot_timer_cb (st : snap_st) : prog snapE unit := snapshot_capture_async st.

Definition snapshot_init (st : snap_st) : prog snapE (esp_err_t * snap_st) :=
  (if s_timer st then
     (if 0 <? SNAPSHOT_INTERVAL_S then call (xTimerChangePeriod (SNAPSHOT_INTERVAL_S * 1000))
      else call xTimerStop) ;;;
     Ret (ESP_OK, st)
   else
   let* ok := call xTaskCreate_worker in
   if negb ok then Ret (ESP_FAIL, st) else
   let st := SnapSt (s_timer st) true (s_seq st) (s_mounted st) in
   let init_period := SNAPSHOT_INTERVAL_S * 1000 in
   let init_period := if init_period =? 0 then 1000 else init_period in
   let* t := call (xTimerCreate init_period) in
   if negb t then Ret (ESP_FAIL, st) else
   let st := SnapSt true (s_worker st) (s_seq st) (s_mounted st) in
   if 0 <? SNAPSHOT_INTERVAL_S then
     let* ok := call xTimerStart in
     if negb ok then Ret (ESP_FAIL, st) else Ret (ESP_OK, st)
   else Ret (ESP_OK, st))%prog.

Definition snapshot_set_interval (st : snap_st) (seconds : Z) : prog snapE unit :=
  (if negb (s_timer st) then Ret tt else
   if seconds =? 0 then call xTimerStop
   else call (xTimerChangePeriod (u32 (seconds * 1000))))%prog.

(** ** Traces *)

Definition sd_ev (e : ev snapE) : option (ev sdE) :=
  match e with
  | Ev e x =>
      match e in snapE X return X -> option (ev sdE) with
      | SnSd e => fun x => Some (Ev e x)
      | _ => fun _ => None
      end x
  end.

Definition cam_ev (e : ev snapE) : option (ev camE) :=
  match e with
  | Ev e x =>
      match e in snapE X return X -> option (ev camE) with
      | SnCam e => fun x => Some (Ev e x)
      | _ => fun _ => None
      end x
  end.

Definition sd_of : list (ev snapE) -> list (ev sdE) := project sd_ev.
Definition cam_of : list (ev snapE) -> list (ev camE) := project cam_ev.

Lemma sd_of_sd u : sd_of (map (lift_ev (fun X => @SnSd X)) u) = u.
Proof. apply project_lift. by intros [X e x]. Qed.
Lemma sd_of_cam u : sd_of (map (lift_ev (fun X => @SnCam X)) u) = [].
Proof. apply project_other. by intros [X e x]. Qed.
Lemma cam_of_sd u : cam_of (map (lift_ev (fun X => @SnSd X)) u) = [].
Proof. apply project_other. by intros [X e x]. Qed.
Lemma cam_of_cam u : cam_of (map (lift_ev (fun X => @SnCam X)) u) = u.
Proof. apply project_lift. by intros [X e x]. Qed.
Lemma sd_of_app t1 t2 : sd_of (t1 ++ t2) = sd_of t1 ++ sd_of t2.
Proof. apply project_app. Qed.
Lemma cam_of_app t1 t2 : cam_of (t1 ++ t2) = cam_of t1 ++ cam_of t2.
Proof. apply project_app. Qed.

(** ** One capture *)

Lemma manifest_not_snapshot b t s :
  is_u32 b -> is_u32 t -> is_u32 s -> snapshot_path NAME_MAX_LEN b t s <> SD_MANIFEST.
Proof.
  intros Hb Ht Hs. destruct (snapshot_path_full b t s) as [-> _]; [done..|].
  intros H. apply (f_equal (fun l => nth 8 l 0)) in H. by vm_compute in H.
Qed.

(** What one capture does to the card: nothing, or the frame is stored (the
    write may have failed), or it is stored and listed.  [W]: the card worked
    throughout, so that a frame is stored and the whole line is listed. *)
Inductive capture_outcome (W : Prop) (k k' : card) (path line : bytes) (jpgs : list bytes) (seq : Z)
  : esp_err_t -> Z -> Prop :=
| co_none err : err <> ESP_OK -> files k' = files k -> capture_outcome W k k' path line jpgs seq err seq
| co_failed :
    (W -> False) -> same_but path k k' ->
    capture_outcome W k k' path line jpgs seq ESP_FAIL (u32 (seq + 1))
| co_stored jpg d :
    jpg ∈ jpgs -> files k' !! path = Some jpg ->
    (forall p, p <> path -> p <> SD_MANIFEST -> files k' !! p = files k !! p) ->
    (files k' !! SD_MANIFEST = files k !! SD_MANIFEST \/
     d `prefix_of` line /\
     files k' !! SD_MANIFEST = Some (default [] (files k !! SD_MANIFEST) ++ d)) ->
    (W -> files k' !! SD_MANIFEST = Some (default [] (files k !! SD_MANIFEST) ++ line)) ->
    capture_outcome W k k' path line jpgs seq ESP_OK (u32 (seq + 1)).

(** A stored frame, and the append that lists it. *)
Lemma saved_outcome (W : Prop) k k1 k' path line jpg jpgs seq u e :
  path <> SD_MANIFEST -> jpg ∈ jpgs -> same_but path k k1 -> files k1 !! path = Some jpg ->
  exec (sd_store_append SD_MANIFEST line) u e -> fs_trace k1 u k' -> (W -> Forall works u) ->
  capture_outcome W k k' path line jpgs seq ESP_OK (u32 (seq + 1)).
Proof.
  intros Hne Hj Hsame Hst He Hf HW.
  destruct (append_effect _ _ _ _ _ _ He Hf) as (_ & Hsame' & Happ & Hm & _).
  assert (files k1 !! SD_MANIFEST = files k !! SD_MANIFEST) as Hmk by (apply Hsame; congruence).
  assert (exists d, (files k' !! SD_MANIFEST = files k !! SD_MANIFEST \/
     d `prefix_of` line /\
     files k' !! SD_MANIFEST = Some (default [] (files k !! SD_MANIFEST) ++ d))) as [d Hd].
  { rewrite <-Hmk. destruct Hm as [Hm|(d & Hd & Hm)]; [exists []; left; by rewrite Hm|eauto]. }
  apply (co_stored _ _ _ _ _ _ _ jpg d); [done| | |done|].
  - by rewrite (Hsame' path Hne).
  - intros p Hp1 Hp2. by rewrite (Hsame' p Hp2), (Hsame p Hp1).
  - intros Hwk. destruct (append_works _ _ _ _ He (HW Hwk)) as [-> Hcl].
    rewrite <-Hmk. by apply Happ.
Qed.

Lemma capture_one_outcome boot st ts t err st' k k' :
  exec (snapshot_capture_one boot st ts) t (err, st') -> fs_trace k (sd_of t) k' ->
  Forall closed_ok (sd_of t) -> is_u32 boot -> is_u32 ts -> is_u32 (s_seq st) ->
  let path := snapshot_path NAME_MAX_LEN boot ts (s_seq st) in
  capture_outcome (Forall works (sd_of t)) k k' path (manifest_line 112 path ts boot KIND_SNAP)
    (omap fb_jpeg (cam_of t)) (s_seq st) err (s_seq st') /\
  fb_held (cam_of t) = 0.
Proof.
  intros H Hf Hc Hb Ht Hs path. unfold snapshot_capture_one in H.
  apply exec_bind in H as (t1 & t2 & [e1 m] & -> & H1 & H).
  apply exec_translate in H1 as (u1 & -> & H1).
  rewrite sd_of_app, sd_of_sd in *. rewrite cam_of_app, cam_of_sd. cbn [app].
  apply fs_trace_app in Hf as (k1 & Hf1 & Hf).
  apply (mount_effect _ _ _ _ _ _ H1) in Hf1 as ->.
  apply Forall_app in Hc as [_ Hc].
  destruct (esp_ok e1) eqn:He1; cbn [negb] in H.
  2: { destruct H as [-> [= -> ->]]. cbn in Hf. subst. split; [|done].
       apply co_none; [by apply esp_ok_false|done]. }
  apply exec_bind in H as (t3 & t4 & [] & -> & H3 & H).
  apply exec_translate in H3 as (u3 & -> & H3).
  apply exec_bind in H as (t5 & t6 & jpg & -> & H5 & H).
  apply exec_translate in H5 as (u5 & -> & H5).
  rewrite !sd_of_app, !sd_of_cam in *. cbn [app] in *.
  rewrite !cam_of_app, !cam_of_cam, !fb_held_app, !omap_app, (flush_cases _ _ H3).
  destruct (capture_cases _ _ H5) as [-> Hj].
  destruct jpg as [jpg|].
  2: { destruct H as [-> [= -> ->]]. cbn in Hf. subst. split; [|done]. by apply co_none. }
  specialize (Hj jpg eq_refl). cbn [s_seq] in H. fold path in H.
  apply exec_bind in H as (t7 & t8 & e7 & -> & H7 & H).
  apply exec_translate in H7 as (u7 & -> & H7).
  apply exec_bind in H as (t9 & t10 & e9 & -> & H9 & H).
  apply exec_translate in H9 as (u9 & -> & H9).
  rewrite !sd_of_app, !sd_of_sd in *. rewrite !cam_of_app, !cam_of_sd. cbn [app] in *.
  apply fs_trace_app in Hf as (k7 & Hf7 & Hf).
  apply (ensure_dir_effect _ _ _ _ _ H7) in Hf7 as ->.
  apply fs_trace_app in Hf as (k9 & Hf9 & Hf).
  apply Forall_app in Hc as [_ Hc]. apply Forall_app in Hc as [Hc9 Hc].
  destruct (write_effect _ _ _ _ _ _ H9 Hf9) as (_ & Hsame & Hw & _ & He9).
  destruct (esp_ok e9) eqn:Ho9; cbn [negb] in H.
  2: { destruct H as [-> [= -> ->]]. cbn in Hf. subst. split; [|done].
       apply esp_ok_false in Ho9. destruct He9 as [->| ->]; [done|]. apply co_failed; [|done].
       rewrite !Forall_app. intros (_ & _ & Hwk & _). by destruct (write_works _ _ _ _ H9 Hwk). }
  apply esp_ok_true in Ho9. subst e9.
  apply exec_bind in H as (t11 & t12 & e11 & -> & H11 & [-> [= -> ->]]).
  apply exec_translate in H11 as (u11 & -> & H11).
  rewrite app_nil_r, sd_of_sd in *. rewrite cam_of_sd. split; [|done].
  eapply (saved_outcome _ k k9 k' path _ jpg); [| |done|by apply Hw|exact H11|exact Hf|].
  - by apply manifest_not_snapshot.
  - set_solver.
  - rewrite !Forall_app. tauto.
Qed.

(** ** The worker *)

(** The clock the worker reads is a uint32_t. *)
Definition clock_ok (e : ev snapE) : Prop :=
  match e with
  | Ev e x =>
      match e in snapE X return X -> Prop with
      | rel_ts_ms_now => fun ts => is_u32 ts
      | _ => fun _ => True
      end x
  end.

(** A stored capture: time, sequence number, frame, and what was added to
    the manifest for it. *)
Record stored : Type := Stored { c_ts : Z; c_seq : Z; c_jpg : bytes; c_piece : bytes }.

Definition stored_ok (boot : Z) (k : card) (c : stored) : Prop :=
  let path := snapshot_path NAME_MAX_LEN boot (c_ts c) (c_seq c) in
  files k !! path = Some (c_jpg c) /\
  c_piece c `prefix_of` manifest_line 112 path (c_ts c) boot KIND_SNAP /\
  is_u32 (c_ts c).

(** From [k] to [k'] the worker stored [caps], with sequence numbers from
    [s] up to [s']. *)
Record stored_between (boot : Z) (k k' : card) (s s' : Z) (caps : list stored) : Prop := {
  sb_seq : s <= s';
  sb_caps : Forall (stored_ok boot k') caps;
  sb_range : Forall (fun c => s <= c_seq c < s') caps;
  sb_manifest : default [] (files k' !! SD_MANIFEST) =
    default [] (files k !! SD_MANIFEST) ++ concat (map c_piece caps);
  sb_other : forall p, p <> SD_MANIFEST ->
    (forall ts i, is_u32 ts -> s <= i < s' -> p <> snapshot_path NAME_MAX_LEN boot ts i) ->
    files k' !! p = files k !! p;
}.

Lemma snapshot_path_seq b t s t' s' :
  is_u32 b -> is_u32 t -> is_u32 s -> is_u32 t' -> is_u32 s' ->
  snapshot_path NAME_MAX_LEN b t s = snapshot_path NAME_MAX_LEN b t' s' -> s = s'.
Proof.
  intros Hb Ht Hs Ht' Hs' H.
  destruct (snapshot_path_full b t s) as [E _]; [done..|].
  destruct (snapshot_path_full b t' s') as [E' _]; [done..|].
  rewrite E, E' in H. apply app_inv_head in H.
  by eapply capture_name_inj in H as (_ & _ & ->).
Qed.

Lemma outcome_between W boot k k' ts s err s' jpgs :
  capture_outcome W k k' (snapshot_path NAME_MAX_LEN boot ts s)
    (manifest_line 112 (snapshot_path NAME_MAX_LEN boot ts s) ts boot KIND_SNAP) jpgs s err s' ->
  is_u32 boot -> is_u32 ts -> 0 <= s < 4294967295 ->
  s' <= s + 1 /\ exists caps, stored_between boot k k' s s' caps.
Proof.
  intros Ho Hb Ht Hs. assert (is_u32 s) as Hsu by clia. assert (u32 (s + 1) = s + 1) as Hs1 by clia.
  pose proof (manifest_not_snapshot boot ts s Hb Ht Hsu) as Hne.
  inversion Ho as [e He Hfi|_ Hsame|jpg d Hj Hst Hoth Hm _]; subst; rewrite ?Hs1; split; try lia.
  - exists []. split; try done; simpl; [by rewrite Hfi, app_nil_r|by rewrite Hfi].
  - exists []. split; try done; simpl; [lia|by rewrite app_nil_r, (Hsame SD_MANIFEST) by congruence|].
    intros p _ Hp. apply Hsame. apply Hp; [done|lia].
  - destruct Hm as [Hm|[Hd Hm]].
    + exists [Stored ts s jpg []]. split; [lia| | | |].
      * constructor; [|constructor]. split_and!; [done|apply prefix_nil|done].
      * constructor; [simpl; lia|constructor].
      * simpl. by rewrite Hm, app_nil_r.
      * intros p Hp1 Hp2. apply Hoth; [apply Hp2; [done|lia]|done].
    + exists [Stored ts s jpg d]. split; [lia| | | |].
      * constructor; [|constructor]. by split_and!.
      * constructor; [simpl; lia|constructor].
      * rewrite Hm. simpl. by rewrite app_nil_r.
      * intros p Hp1 Hp2. apply Hoth; [apply Hp2; [done|lia]|done].
Qed.

Lemma between_trans boot k k1 k' s s1 s' caps1 caps2 :
  is_u32 boot -> 0 <= s -> s' < 4294967296 ->
  stored_between boot k k1 s s1 caps1 -> stored_between boot k1 k' s1 s' caps2 ->
  stored_between boot k k' s s' (caps1 ++ caps2).
Proof.
  intros Hb H0 Hmax [Hs Hc Hr Hm Ho] [Hs' Hc' Hr' Hm' Ho']. split.
  - lia.
  - apply Forall_app. split; [|done]. rewrite Forall_forall in *. intros c Hin.
    destruct (Hc c Hin) as (Hf & Hp & Ht). pose proof (Hr c Hin) as Hrc. simpl in Hrc.
    split_and!; try done. rewrite <-Hf. apply Ho'.
    + apply manifest_not_snapshot; [done|done|clia].
    + intros ts i Hts Hi Heq. apply snapshot_path_seq in Heq; [lia|done|done|clia|done|clia].
  - apply Forall_app. split; (eapply Forall_impl; [eassumption|]; simpl; lia).
  - rewrite Hm', Hm, map_app, concat_app. by rewrite app_assoc.
  - intros p Hp1 Hp2. rewrite Ho', Ho; try done; intros ts i Ht Hi; apply Hp2; done || lia.
Qed.

Lemma worker_between n boot st t st' k k' :
  exec (snapshot_worker_task n boot st) t st' -> fs_trace k (sd_of t) k' ->
  Forall closed_ok (sd_of t) -> Forall clock_ok t -> is_u32 boot ->
  0 <= s_seq st -> s_seq st + Z.of_nat n < 4294967296 ->
  s_seq st' <= s_seq st + Z.of_nat n /\ fb_held (cam_of t) = 0 /\
  exists caps, stored_between boot k k' (s_seq st) (s_seq st') caps.
Proof.
  intros H. revert st t k H. induction n as [|n IH]; intros st t k H Hf Hc Hk Hb Hs Hn.
  { destruct H as [-> ->]. cbn in Hf. subst. split_and!; [lia|done|].
    exists []. split; try done; simpl. by rewrite app_nil_r. }
  cbn [snapshot_worker_task] in H. apply exec_bind in H as (t1 & t2 & st1 & -> & H1 & H2).
  unfold snapshot_worker_step in H1.
  apply exec_bind in H1 as (ta & tb & x & -> & Ha & H1). apply exec_one in Ha as ->.
  apply exec_bind in H1 as (tc & td & ts & -> & Hcl & H1). apply exec_one in Hcl as ->.
  apply exec_bind in H1 as (te & tf & [err st2] & -> & H1 & [-> ->]).
  rewrite app_nil_r in *. cbn [app snd] in *.
  apply Forall_cons_1 in Hk as [_ Hk]. apply Forall_cons_1 in Hk as [Hts Hk]. cbn in Hts.
  apply Forall_app in Hk as [_ Hk].
  change (sd_of (?a :: ?b :: ?l)) with (sd_of l) in *. change (cam_of (?a :: ?b :: ?l)) with (cam_of l).
  rewrite sd_of_app in *. apply fs_trace_app in Hf as (k1 & Hf1 & Hf2).
  apply Forall_app in Hc as [Hc1 Hc2].
  assert (is_u32 (s_seq st)) as Hsu by clia.
  destruct (capture_one_outcome _ _ _ _ _ _ _ _ H1 Hf1 Hc1 Hb Hts Hsu) as [Ho Hfb].
  destruct (outcome_between _ _ _ _ _ _ _ _ _ Ho Hb Hts) as (Hs2 & caps1 & Hb1); [lia|].
  pose proof (sb_seq _ _ _ _ _ _ Hb1).
  destruct (IH st2 t2 k1 H2 Hf2 Hc2 Hk Hb) as (Hs' & Hfb' & caps2 & Hb2); [lia|lia|].
  split_and!; [lia|rewrite cam_of_app, fb_held_app; lia|].
  exists (caps1 ++ caps2). eapply between_trans; try done. lia.
Qed.

(** ** Theorems *)


(** A card, a camera and a clock on which every call succeeds. *)
Definition demo_jpg : bytes := [255; 216; 1; 2; 255; 217].

Definition sd_answers (X : Type) (e : sdE X) : X :=
  match e in sdE X return X with
  | spi_bus_initialize | esp_vfs_fat_sdspi_mount _ => ESP_OK
  | spi_bus_free => tt
  | mkdir _ => MKDIR_OK
  | fopen _ _ => Some 1
  | fwrite _ data => Z.of_nat (length data)
  | fputs _ _ => true
  | fread _ _ => []
  | ferror _ => false
  | fflush _ | fclose _ => true
  | unlink _ => UNLINK_OK
  end.

Definition snap_answers (X : Type) (e : snapE X) (s : unit) : X * unit :=
  (match e in snapE X return X with
   | SnSd e => sd_answers _ e
   | SnCam e =>
       match e in camE X return X with
       | esp_camera_init => ESP_OK
       | esp_camera_fb_get => Some (true, demo_jpg)
       | esp_camera_fb_return => tt
       | malloc _ => true
       end
   | ulTaskNotifyTake => 1
   | rel_ts_ms_now => 5000
   | xTaskNotifyGive_worker | xTimerStop | xTimerChangePeriod _ => tt
   | xTaskCreate_worker | xTimerCreate _ | xTimerStart => true
   end, s).

Definition demo_snap : prog snapE snap_st :=
  snapshot_worker_task 1 7 (SnapSt true true 0 true).
Definition demo_path : bytes := snapshot_path NAME_MAX_LEN 7 5000 0.
Definition demo_line : bytes := manifest_line 112 demo_path 5000 7 KIND_SNAP.
Definition demo_card (fs : gmap bytes bytes) : card :=
  Card (<[SD_MANIFEST := demo_line]> (<[SD_MANIFEST := demo_line]> (<[SD_MANIFEST := []]>
    (<[demo_path := demo_jpg]> (<[demo_path := demo_jpg]> (<[demo_path := []]> fs))))))
    (delete 1 (<[1 := SWrite SD_MANIFEST [] demo_line]> (<[1 := SWrite SD_MANIFEST [] []]>
      (delete 1 (<[1 := SWrite demo_path [] demo_jpg]> (<[1 := SWrite demo_path [] []]> ∅)))))).

Lemma demo_snap_card :
  fs_trace (Card ∅ ∅) (sd_of (fst (fst (run snap_answers demo_snap tt)))) (demo_card ∅).
Proof.
  eexists. split; [reflexivity|]. eexists. split; [split; reflexivity|].
  eexists. split; [by apply fwrite_all|]. eexists. split; [by apply fclose_write|].
  eexists. split; [split; [done|reflexivity]|].
  eexists. split; [by apply fputs_all|]. eexists. split; [by apply fclose_write|].
  reflexivity.
Qed.

