(* ===== verification/Video.v ===== *)
(** * video_capture.c: continuous video clips

    [video_start], [video_stop], [video_record] and the tasks they create,
    with every access to the module's statics as a call, so that the tasks
    interleave ([Interleave.v]) the way FreeRTOS may schedule them.  The
    camera and the card are called through camera.c and sd_store.c; reading
    the frame or the clip through a NULL [FILE *] is [fault], a call that
    never returns. *)

From stdpp Require Import gmap strings.
From S2P Require Import Prelude Effects Platform Config Fs MediaIndex SdStore Camera Interleave.
Open Scope string_scope.
Open Scope list_scope.
Open Scope Z_scope.


(** A task handle is the number of the task. *)
Abbreviation task := nat.

Inductive vidE : Type -> Type :=
| VSd {X} (e : sdE X) : vidE X
| VCam {X} (e : camE X) : vidE X
| get_recording : vidE bool
| set_recording (b : bool) : vidE unit
| get_task : vidE (option task)
| set_task (t : option task) : vidE unit
| get_stop_waiter : vidE (option task)
| set_stop_waiter (t : option task) : vidE unit
| get_file : vidE (option Z)
| set_file (f : option Z) : vidE unit
| get_path : vidE bytes
| set_path (p : bytes) : vidE unit
| get_seq : vidE Z
| set_seq (n : Z) : vidE unit
| get_start_rel_ts_ms : vidE Z
| set_start_rel_ts_ms (n : Z) : vidE unit
| get_mounted : vidE bool
| set_mounted (b : bool) : vidE unit
| boot_id_get : vidE Z
| xTaskGetCurrentTaskHandle : vidE task
| xTaskCreate_video : vidE (option task)  (** pdPASS: the new task, already in [s_task] *)
| xTaskCreate_record (duration_s rel_ts_ms : Z) : vidE (option task)
| xTaskCreate_stop : vidE (option task)
| xTaskNotifyGive (t : task) : vidE unit
| ulTaskNotifyTake (ms : Z) : vidE Z
| vTaskDelay (ms : Z) : vidE unit
| malloc_record_arg : vidE bool
| fault : vidE Empty_set.

#[local] Abbreviation call := (Effects.call (E := vidE)).
#[local] Abbreviation sd := (translate (fun X => @VSd X)).
#[local] Abbreviation cam := (translate (fun X => @VCam X)).

Definition ensure_dir (path : bytes) : prog vidE esp_err_t :=
  (let* r := call (VSd (mkdir path)) in
   match r with
   | MKDIR_OK => Ret ESP_OK
   | MKDIR_EEXIST => Ret ESP_OK
   | MKDIR_ERR => Ret ESP_FAIL
   end)%prog.

(** The stream in [s_file], where the code uses it without a check. *)
Definition stream_of (f : option Z) : prog vidE Z :=
  match f with
  | Some f => Ret f
  | None => let* x := call fault in match x : Empty_set with end
  end%prog.

(** ** The capture loop *)

Definition frame_period_ms : Z := 1000 / VIDEO_FPS.

(** At most [n] rounds of [while (s_recording)]; the result is false when
    the loop goes on. *)
Fixpoint video_loop (n : nat) (frame : Z) : prog vidE bool :=
  match n with
  | O => Ret false
  | S n =>
      let* rec := call get_recording in
      if negb rec then Ret true else
      let* jpg := cam camera_capture_jpeg in
      match jpg with
      | None | Some [] =>
          call (vTaskDelay frame_period_ms) ;;; video_loop n frame
      | Some jpg =>
          let* f := call get_file in
          let* f := stream_of f in
          let* _ := call (VSd (fwrite f jpg)) in
          let frame := u32 (frame + 1) in
          (if frame mod VIDEO_FPS =? 0 then
             let* f := call get_file in
             let* f := stream_of f in
             let* _ := call (VSd (fflush f)) in Ret tt
           else Ret tt) ;;;
          call (vTaskDelay frame_period_ms) ;;; video_loop n frame
      end
  end%prog.

(** Close the clip. *)
Definition video_finalize : prog vidE unit :=
  (let* f := call get_file in
   match f with
   | Some f =>
       let* _ := call (VSd (fflush f)) in
       let* _ := call (VSd (fclose f)) in
       call (set_file None)
   | None => Ret tt
   end)%prog.

(** List the clip. *)
Definition video_list : prog vidE unit :=
  (let* path := call get_path in
   let* ts := call get_start_rel_ts_ms in
   let* boot := call boot_id_get in
   let line := manifest_line (NAME_MAX_LEN + 32) path ts boot KIND_VIDEO in
   let* _ := sd (sd_store_append SD_MANIFEST line) in
   Ret tt)%prog.

(** Release the recorder and the stopper. *)
Definition video_release : prog vidE unit :=
  (let* waiter := call get_stop_waiter in
   let* owner := call get_task in
   let* me := call xTaskGetCurrentTaskHandle in
   (if bool_decide (owner = Some me) then call (set_task None) else Ret tt) ;;;
   call (set_recording false) ;;;
   match waiter with Some w => call (xTaskNotifyGive w) | None => Ret tt end)%prog.

Definition video_task (n : nat) : prog vidE unit :=
  (let* done := video_loop n 0 in
   if negb done then Ret tt else
   video_finalize ;;; video_list ;;; video_release)%prog.

(** ** Start and stop *)

(** ["/sdcard/video/%u"] *)
Definition video_dir (boot : Z) : bytes :=
  snprintf NAME_MAX_LEN (lit "/sdcard/video/" ++ dec boot).

(** The names of the clip: path, start time, and the next number. *)
Definition video_name (rel_ts_ms : Z) : prog vidE bytes :=
  (let* boot := call boot_id_get in
   let* seq := call get_seq in
   call (set_seq (u32 (seq + 1))) ;;;
   let path := video_path NAME_MAX_LEN boot rel_ts_ms seq in
   call (set_path path) ;;;
   call (set_start_rel_ts_ms rel_ts_ms) ;;;
   let* _ := ensure_dir (video_dir boot) in
   Ret path)%prog.

Definition video_start (rel_ts_ms : Z) : prog vidE esp_err_t :=
  (let* rec := call get_recording in
   if rec : bool then Ret ESP_OK else
   let* t := call get_task in
   match t with
   | Some _ => Ret ESP_FAIL
   | None =>
       let* m := call get_mounted in
       let* r := sd (sd_store_mount m) in
       call (set_mounted (snd r)) ;;;
       if negb (esp_ok (fst r)) then Ret (fst r) else
       let* path := video_name rel_ts_ms in
       let* f := call (VSd (fopen path MODE_WB)) in
       call (set_file f) ;;;
       match f with
       | None => Ret ESP_FAIL
       | Some _ =>
           call (set_recording true) ;;;
           call (set_stop_waiter None) ;;;
           let* ok := call xTaskCreate_video in
           match ok with
           | Some _ => Ret ESP_OK
           | None =>
               let* f := call get_file in
               let* f := stream_of f in
               let* _ := call (VSd (fclose f)) in
               call (set_file None) ;;;
               call (set_recording false) ;;;
               Ret ESP_FAIL
           end
       end
   end)%prog.

(** True when the clip was finalised within the five seconds. *)
Definition video_stop : prog vidE bool :=
  (let* rec := call get_recording in
   if negb rec then Ret false else
   let* me := call xTaskGetCurrentTaskHandle in
   call (set_stop_waiter (Some me)) ;;;
   call (set_recording false) ;;;
   let* _ := call (ulTaskNotifyTake 0) in
   let* got := call (ulTaskNotifyTake 5000) in
   call (set_stop_waiter None) ;;;
   Ret (0 <? got))%prog.

Definition record_task (duration_s rel_ts_ms : Z) : prog vidE unit :=
  (let* err := video_start rel_ts_ms in
   if negb (esp_ok err) then Ret tt else
   call (vTaskDelay (u32 (duration_s * 1000))) ;;;
   let* _ := video_stop in Ret tt)%prog.

Definition stop_task : prog vidE unit := (let* _ := video_stop in Ret tt)%prog.

Definition video_stop_async : prog vidE unit :=
  (let* _ := call xTaskCreate_stop in Ret tt)%prog.

Definition MAX_DURATION_S : Z := 120.

Definition video_record (duration_s rel_ts_ms : Z) : prog vidE esp_err_t :=
  (if duration_s =? 0 then Ret ESP_ERR_INVALID_ARG else
   let duration_s := if MAX_DURATION_S <? duration_s then MAX_DURATION_S else duration_s in
   let* arg := call malloc_record_arg in
   if negb arg then Ret ESP_ERR_NO_MEM else
   let* ok := call (xTaskCreate_record duration_s rel_ts_ms) in
   match ok with Some _ => Ret ESP_OK | None => Ret ESP_FAIL end)%prog.

Definition video_is_recording : prog vidE bool := call get_recording.

(** ** The system *)

(** A client of the module: a task that makes any sequence of its calls. *)
Inductive vid_cmd : Type :=
| CStart (rel_ts_ms : Z) | CStop | CStopAsync | CRecord (duration_s rel_ts_ms : Z) | CIsRecording.

Definition vid_do (c : vid_cmd) : prog vidE unit :=
  match c with
  | CStart ts => let* _ := video_start ts in Ret tt
  | CStop => let* _ := video_stop in Ret tt
  | CStopAsync => video_stop_async
  | CRecord d ts => let* _ := video_record d ts in Ret tt
  | CIsRecording => let* _ := video_is_recording in Ret tt
  end%prog.

Fixpoint client (cs : list vid_cmd) : prog vidE unit :=
  match cs with [] => Ret tt | c :: cs => vid_do c ;;; client cs end%prog.

(** The statics of video_capture.c, [s_mounted] of sd_store.c, and the
    notification counts of the tasks. *)
Record vid_mem : Type := VidMem {
  s_recording : bool; s_task : option task; s_stop_waiter : option task; s_file : option Z;
  s_path : bytes; s_seq : Z; s_start_rel_ts_ms : Z; s_mounted : bool; notif : task -> Z }.

Definition set_notif (m : vid_mem) (t : task) (n : Z) : vid_mem :=
  VidMem (s_recording m) (s_task m) (s_stop_waiter m) (s_file m) (s_path m) (s_seq m)
    (s_start_rel_ts_ms m) (s_mounted m) (fun u => if (u =? t)%nat then n else notif m u).

(** The memory after a call; a created task is [new], and FreeRTOS stores
    the handle before the task runs.  The other platform calls answer what
    they please. *)
Definition vid_mem_do (self new : task) (X : Type) (c : vidE X) : X -> vid_mem -> option vid_mem :=
  match c in vidE X return X -> vid_mem -> option vid_mem with
  | get_recording => fun x m => expect x (s_recording m) m
  | set_recording b => fun _ m => Some (VidMem b (s_task m) (s_stop_waiter m) (s_file m)
      (s_path m) (s_seq m) (s_start_rel_ts_ms m) (s_mounted m) (notif m))
  | get_task => fun x m => expect x (s_task m) m
  | set_task t => fun _ m => Some (VidMem (s_recording m) t (s_stop_waiter m) (s_file m)
      (s_path m) (s_seq m) (s_start_rel_ts_ms m) (s_mounted m) (notif m))
  | get_stop_waiter => fun x m => expect x (s_stop_waiter m) m
  | set_stop_waiter w => fun _ m => Some (VidMem (s_recording m) (s_task m) w (s_file m)
      (s_path m) (s_seq m) (s_start_rel_ts_ms m) (s_mounted m) (notif m))
  | get_file => fun x m => expect x (s_file m) m
  | set_file f => fun _ m => Some (VidMem (s_recording m) (s_task m) (s_stop_waiter m) f
      (s_path m) (s_seq m) (s_start_rel_ts_ms m) (s_mounted m) (notif m))
  | get_path => fun x m => expect x (s_path m) m
  | set_path p => fun _ m => Some (VidMem (s_recording m) (s_task m) (s_stop_waiter m) (s_file m)
      p (s_seq m) (s_start_rel_ts_ms m) (s_mounted m) (notif m))
  | get_seq => fun x m => expect x (s_seq m) m
  | set_seq n => fun _ m => Some (VidMem (s_recording m) (s_task m) (s_stop_waiter m) (s_file m)
      (s_path m) n (s_start_rel_ts_ms m) (s_mounted m) (notif m))
  | get_start_rel_ts_ms => fun x m => expect x (s_start_rel_ts_ms m) m
  | set_start_rel_ts_ms n => fun _ m => Some (VidMem (s_recording m) (s_task m) (s_stop_waiter m)
      (s_file m) (s_path m) (s_seq m) n (s_mounted m) (notif m))
  | get_mounted => fun x m => expect x (s_mounted m) m
  | set_mounted b => fun _ m => Some (VidMem (s_recording m) (s_task m) (s_stop_waiter m) (s_file m)
      (s_path m) (s_seq m) (s_start_rel_ts_ms m) b (notif m))
  | xTaskGetCurrentTaskHandle => fun x m => expect x self m
  | xTaskCreate_video => fun x m =>
      match x with
      | Some t => expect t new (VidMem (s_recording m) (Some new) (s_stop_waiter m) (s_file m)
          (s_path m) (s_seq m) (s_start_rel_ts_ms m) (s_mounted m) (notif m))
      | None => Some m
      end
  | xTaskCreate_record _ _ => fun x m => match x with Some t => expect t new m | None => Some m end
  | xTaskCreate_stop => fun x m => match x with Some t => expect t new m | None => Some m end
  | xTaskNotifyGive t => fun _ m => Some (set_notif m t (notif m t + 1))
  | ulTaskNotifyTake _ => fun x m => expect x (notif m self) (set_notif m self 0)
  | _ => fun _ m => Some m
  end.

(** The tasks a call creates; the bound on the rounds of a video task is
    arbitrary. *)
Definition vid_spawned (e : ev vidE) (new : list (prog vidE unit)) : Prop :=
  match e with
  | Ev c x =>
      match c in vidE X return X -> Prop with
      | xTaskCreate_video => fun x =>
          match x with Some _ => exists n, new = [video_task n] | None => new = [] end
      | xTaskCreate_record d ts => fun x =>
          match x with Some _ => new = [record_task d ts] | None => new = [] end
      | xTaskCreate_stop => fun x =>
          match x with Some _ => new = [stop_task] | None => new = [] end
      | _ => fun _ => new = []
      end x
  end.

Abbreviation vid_sys := (sys (E := vidE) (M := vid_mem)).
Abbreviation vid_steps := (steps vid_mem_do vid_spawned).

(** At boot: nothing recorded, and [clients] running. *)
Definition vid_boot (clients : list (list vid_cmd)) : vid_sys :=
  Sys (VidMem false None None None [] 0 0 false (fun _ => 0)) (map client clients).

(** ** What each task does, on its own *)

Definition is_give (e : ev vidE) : bool :=
  match e with Ev (xTaskNotifyGive _) _ => true | _ => false end.
Definition is_set_task (e : ev vidE) : bool :=
  match e with Ev (set_task _) _ => true | _ => false end.
Definition creates (e : ev vidE) : bool :=
  match e with
  | Ev c x =>
      match c in vidE X return X -> bool with
      | xTaskCreate_video => fun x => match x with Some _ => true | None => false end
      | _ => fun _ => false
      end x
  end.
Definition creates_record (e : ev vidE) : bool :=
  match e with Ev (xTaskCreate_record _ _) _ => true | _ => false end.

(** The calls by which the tasks act on each other's existence. *)
Definition special (e : ev vidE) : bool :=
  is_give e || is_set_task e || creates e || creates_record e.

Lemma video_loop_plain n frame past : always (never special) past (video_loop n frame).
Proof.
  revert frame past. induction n as [|n IH]; intros frame past; [exact I|]. cbn [video_loop].
  unfold stream_of. never_tac; try apply IH.
Qed.
Lemma video_finalize_plain past : always (never special) past video_finalize.
Proof. unfold video_finalize. never_tac. Qed.
Lemma video_list_plain past : always (never special) past video_list.
Proof. unfold video_list. never_tac. Qed.
Lemma video_stop_plain past : always (never special) past video_stop.
Proof. unfold video_stop. never_tac. Qed.
Lemma video_name_plain ts past : always (never special) past (video_name ts).
Proof. unfold video_name, ensure_dir. never_tac. Qed.

(** A plain program, followed by another: nothing it did matters. *)
Lemma plain_false {A} (p : prog vidE A) past b :
  (forall e, special e = false -> b e = false) ->
  always (never special) past p -> always (never b) past p.
Proof. intros Hb. apply always_weaken. intros past' e. apply Hb. Qed.

Lemma special_false e :
  special e = false -> is_give e = false /\ is_set_task e = false /\ creates e = false /\ creates_record e = false.
Proof. unfold special. rewrite !orb_false_iff. tauto. Qed.

Lemma plain_trace {A} (p : prog vidE A) t r :
  always (never special) [] p -> exec p t r -> Forall (fun e => special e = false) t.
Proof. intros Ha H. by eapply (always_exec (fun e => special e = false)). Qed.

(** A clip is finalised in the calls [t] of a task: it closed its stream (or
    found none) and then appended a manifest line. *)
Definition finalized (t : list (ev vidE)) : Prop :=
  exists ta tb tc path ts boot r,
    t = ta ++ map (lift_ev (fun X => @VSd X)) tb ++ tc /\
    exec (sd_store_append SD_MANIFEST (manifest_line (NAME_MAX_LEN + 32) path ts boot KIND_VIDEO)) tb r /\
    ((exists f ok, Ev (VSd (fclose f)) ok ∈ ta) \/ Ev get_file None ∈ ta).

Lemma video_finalize_closes t :
  exec video_finalize t tt -> (exists f ok, Ev (VSd (fclose f)) ok ∈ t) \/ Ev get_file None ∈ t.
Proof.
  unfold video_finalize. intros H. exec_all H; [|by right; left]. left. do 2 eexists.
  right. right. by left.
Qed.

Lemma video_list_lists t :
  exec video_list t tt ->
  exists t0 tb path ts boot r, t = t0 ++ map (lift_ev (fun X => @VSd X)) tb /\
    exec (sd_store_append SD_MANIFEST (manifest_line (NAME_MAX_LEN + 32) path ts boot KIND_VIDEO)) tb r.
Proof.
  unfold video_list. intros H.
  apply exec_bind in H as (t1 & t2 & path & -> & _ & H).
  apply exec_bind in H as (t3 & t4 & ts & -> & _ & H).
  apply exec_bind in H as (t5 & t6 & boot & -> & _ & H).
  apply exec_bind in H as (t7 & t8 & r & -> & Hs & H). destruct H as [-> _].
  apply exec_translate in Hs as (tb & -> & Hs).
  exists (t1 ++ t3 ++ t5), tb, path, ts, boot, r. by rewrite app_nil_r, <-!app_assoc.
Qed.

Lemma finalized_app t t' : finalized t -> finalized (t ++ t').
Proof.
  intros (ta & tb & tc & path & ts & boot & r & -> & H).
  exists ta, tb, (tc ++ t'), path, ts, boot, r. by rewrite <-!app_assoc.
Qed.

(** The video task notifies only after the clip is closed and listed, and
    clears [s_task] at most once. *)
Definition video_task_ok (past : list (ev vidE)) (e : ev vidE) : Prop :=
  (is_give e = true -> finalized past) /\
  (is_set_task e = true -> e = Ev (set_task None) tt /\ Forall (fun e => is_set_task e = false) past) /\
  creates e = false /\ creates_record e = false.

Lemma plain_ok {A} past (p : prog vidE A) :
  always (never special) past p -> always video_task_ok past p.
Proof.
  apply always_weaken. intros past' e He. apply special_false in He as (H1 & H2 & H3 & H4).
  split_and!; try done; by rewrite ?H1, ?H2.
Qed.

Lemma video_release_ok past :
  finalized past -> Forall (fun e => is_set_task e = false) past ->
  always video_task_ok past video_release.
Proof.
  intros Hf Hp. unfold video_release.
  assert (forall X (c : vidE X) past', (forall x, special (Ev c x) = false) ->
    always video_task_ok past' (call c)) as Hc.
  { intros X c past' Hs. apply plain_ok. by apply always_call. }
  apply always_bind; [by apply Hc|]. intros t1 w H1.
  apply always_bind; [by apply Hc|]. intros t2 o H2.
  apply always_bind; [by apply Hc|]. intros t3 me H3.
  apply exec_one in H1 as ->. apply exec_one in H2 as ->. apply exec_one in H3 as ->.
  assert (Forall (fun e => is_set_task e = false)
    (((past ++ [Ev get_stop_waiter w]) ++ [Ev get_task o]) ++ [Ev xTaskGetCurrentTaskHandle me])) as Hp'.
  { rewrite !Forall_app. split_and!; try done; by repeat constructor. }
  assert (finalized (((past ++ [Ev get_stop_waiter w]) ++ [Ev get_task o]) ++
    [Ev xTaskGetCurrentTaskHandle me])) as Hf' by by repeat apply finalized_app.
  apply always_bind.
  { case_bool_decide; [|exact I]. apply always_call. intros []. by split_and!. }
  intros t4 [] _. apply always_bind; [by apply Hc|]. intros t5 [] _.
  destruct w as [w|]; [|exact I]. apply always_call. intros []. split_and!; try done.
  intros _. by do 2 apply finalized_app.
Qed.

Lemma video_task_spec n : always video_task_ok [] (video_task n).
Proof.
  unfold video_task. apply always_bind; [apply plain_ok, video_loop_plain|]. intros t1 done H1.
  pose proof (plain_trace _ _ _ (video_loop_plain _ _ _) H1) as P1.
  destruct done; cbn [negb]; [|exact I].
  apply always_bind; [apply plain_ok, video_finalize_plain|]. intros t2 [] H2.
  pose proof (plain_trace _ _ _ (video_finalize_plain _) H2) as P2.
  apply always_bind; [apply plain_ok, video_list_plain|]. intros t3 [] H3.
  pose proof (plain_trace _ _ _ (video_list_plain _) H3) as P3.
  apply video_release_ok.
  - apply video_finalize_closes in H2. apply video_list_lists in H3 as (t0 & tb & path & ts & boot & r & -> & H3).
    exists (t1 ++ t2 ++ t0), tb, [], path, ts, boot, r. rewrite app_nil_r, <-!app_assoc. split_and!; [done..|].
    destruct H2 as [(f & ok & H2)|H2]; [left; exists f, ok|right];
      apply elem_of_app; right; by apply elem_of_app; left.
  - assert (forall t, Forall (fun e => special e = false) t -> Forall (fun e => is_set_task e = false) t) as Hs.
    { intros t Ht. eapply Forall_impl; [exact Ht|]. intros e He. by apply special_false in He as (_ & ? & _). }
    rewrite !Forall_app. split_and!; try done; by apply Hs.
Qed.

(** [video_start] creates a task only after it found [s_task] NULL, with no
    task created in between; it never clears [s_task] and notifies no one. *)
Definition start_ok (past : list (ev vidE)) (e : ev vidE) : Prop :=
  is_give e = false /\ is_set_task e = false /\ creates_record e = false /\
  (creates e = true -> exists t1 t2, past = t1 ++ Ev get_task None :: t2 /\
     Forall (fun e => creates e = false) t2).

Lemma plain_start_ok {A} past (p : prog vidE A) :
  always (never special) past p -> always start_ok past p.
Proof.
  apply always_weaken. intros past' e He. apply special_false in He as (H1 & H2 & H3 & H4).
  split_and!; try done. by rewrite H3.
Qed.

(** The tail of a past in which a plain program ran. *)
Definition checked (past : list (ev vidE)) : Prop :=
  exists t1 t2, past = t1 ++ Ev get_task None :: t2 /\ Forall (fun e => creates e = false) t2.

Lemma checked_app past t :
  checked past -> Forall (fun e => special e = false) t -> checked (past ++ t).
Proof.
  intros (t1 & t2 & -> & H) Ht. exists t1, (t2 ++ t). rewrite <-app_assoc. split; [done|].
  apply Forall_app. split; [done|]. eapply Forall_impl; [exact Ht|]. intros e He.
  by apply special_false in He as (_ & _ & ? & _).
Qed.

(** A plain step of a program that has checked [s_task]. *)
Lemma checked_bind {A B} past (p : prog vidE A) (f : A -> prog vidE B) :
  checked past -> always (never special) [] p ->
  (forall a past', checked past' -> always start_ok past' (f a)) ->
  always start_ok past (bind p f).
Proof.
  intros Hc Hp Hf. apply always_bind.
  - apply plain_start_ok. by eapply (always_const (fun e => special e = false)).
  - intros t a H. apply Hf. apply checked_app; [done|]. by eapply plain_trace.
Qed.

Lemma video_start_ok ts past : always start_ok past (video_start ts).
Proof.
  unfold video_start.
  apply always_bind; [apply plain_start_ok; never_tac|]. intros t0 rec _. destruct rec; [exact I|].
  apply always_bind; [apply plain_start_ok; never_tac|]. intros t1 o H1.
  apply exec_one in H1 as ->. destruct o as [o|]; [exact I|].
  assert (checked ((past ++ t0) ++ [Ev get_task None])) as Hc by (exists (past ++ t0), []; by split).
  revert Hc. generalize ((past ++ t0) ++ [Ev get_task None]). clear. intros past Hc.
  apply checked_bind; [done|never_tac|]. clear past Hc. intros m past Hc.
  apply checked_bind; [done|never_tac|]. clear past Hc. intros r past Hc.
  apply checked_bind; [done|never_tac|]. clear past Hc. intros _ past Hc.
  destruct (negb (esp_ok (fst r))); [exact I|].
  apply checked_bind; [done|apply video_name_plain|]. clear past Hc. intros path past Hc.
  apply checked_bind; [done|never_tac|]. clear past Hc. intros f past Hc.
  apply checked_bind; [done|never_tac|]. clear past Hc. intros _ past Hc.
  destruct f as [f|]; [|exact I].
  apply checked_bind; [done|never_tac|]. clear past Hc. intros _ past Hc.
  apply checked_bind; [done|never_tac|]. clear past Hc. intros _ past Hc.
  apply always_bind; [apply always_call; intros x; by split_and!|]. intros t [o|] _; [exact I|].
  apply plain_start_ok. unfold stream_of. never_tac.
Qed.

Lemma record_task_ok d ts : always start_ok [] (record_task d ts).
Proof.
  unfold record_task. apply always_bind; [apply video_start_ok|]. intros t err _.
  apply plain_start_ok. never_tac.
Qed.

Lemma stop_task_plain : always (never special) [] stop_task.
Proof. unfold stop_task. never_tac. Qed.

(** What a client may ask for. *)
Definition records (c : vid_cmd) : bool := match c with CRecord _ _ => true | _ => false end.
Definition starts_video (c : vid_cmd) : bool := match c with CStart _ => true | _ => false end.

Lemma client_always (P : list (ev vidE) -> ev vidE -> Prop) cs past :
  (forall c past, c ∈ cs -> always P past (vid_do c)) -> always P past (client cs).
Proof.
  revert past. induction cs as [|c cs IH]; intros past H; [exact I|]. cbn [client].
  apply always_bind; [apply H; by left|]. intros t [] _. apply IH. intros c' past' Hc. apply H. by right.
Qed.

Lemma vid_do_plain c past :
  records c = false -> starts_video c = false -> always (never special) past (vid_do c).
Proof.
  destruct c; try done; intros _ _; cbn [vid_do]; unfold video_stop_async, video_is_recording;
    never_tac.
Qed.

Lemma client_ok cs past :
  Forall (fun c => records c = false) cs -> always start_ok past (client cs).
Proof.
  intros Hr. apply client_always. intros c past' Hc. rewrite Forall_forall in Hr.
  specialize (Hr c Hc). destruct (starts_video c) eqn:Hs.
  - destruct c; try done. cbn [vid_do]. apply always_bind; [apply video_start_ok|]. by intros.
  - by apply plain_start_ok, vid_do_plain.
Qed.

Lemma client_plain cs past :
  Forall (fun c => records c = false /\ starts_video c = false) cs ->
  always (never special) past (client cs).
Proof.
  intros Hr. apply client_always. intros c past' Hc. rewrite Forall_forall in Hr.
  destruct (Hr c Hc). by apply vid_do_plain.
Qed.

(** No client notifies a task. *)
Lemma client_never_gives cs past : always (never is_give) past (client cs).
Proof.
  apply client_always. clear. intros c past _. destruct (starts_video c) eqn:Hs; [|destruct (records c) eqn:Hr].
  - destruct c; try done. cbn [vid_do]. apply always_bind; [|by intros].
    eapply always_weaken; [|apply video_start_ok]. by intros ? ? [].
  - destruct c; try done. cbn [vid_do]. unfold video_record. never_tac.
  - apply plain_false; [|by apply vid_do_plain]. intros e He. by apply special_false in He as [].
Qed.

(** ** The system *)

(** What a task runs. *)
Definition role (css : list (list vid_cmd)) (tr : list (task * ev vidE)) (i : task)
    (p : prog vidE unit) : Prop :=
  (exists cs, css !! i = Some cs /\ p = client cs) \/
  (exists n j, p = video_task n /\ (j, Ev xTaskCreate_video (Some i)) ∈ tr) \/
  (exists d ts j x, p = record_task d ts /\ (j, Ev (xTaskCreate_record d ts) x) ∈ tr) \/
  p = stop_task.

(** A created task. *)
Lemma spawned_role css tr1 j X (c : vidE X) x tr2 m m' len new i p :
  vid_mem_do j len X c x m = Some m' -> vid_spawned (Ev c x) new ->
  (len <= i)%nat -> new !! (i - len)%nat = Some p ->
  role css (tr1 ++ (j, Ev c x) :: tr2) i p.
Proof.
  intros Hm Hsp Hle Hp. unfold role.
  assert (forall q, new = [q] -> i = len /\ p = q) as Hone.
  { intros q ->. destruct (i - len)%nat eqn:E; [|done]. simpl in Hp. split; [lia|congruence]. }
  destruct c; cbn in Hsp; try (by subst new); destruct x as [t|]; try (by subst new).
  - destruct Hsp as (n & Hn). destruct (Hone _ Hn) as [-> ->]. cbn in Hm.
    apply expect_Some in Hm as [-> _]. right. left. exists n, j. split; [done|].
    apply elem_of_app. right. by left.
  - destruct (Hone _ Hsp) as [-> ->]. right. right. left. do 4 eexists. split; [done|].
    apply elem_of_app. right. by left.
  - destruct (Hone _ Hsp) as [_ ->]. by do 3 right.
Qed.

Lemma vid_origin css tr s' i q :
  vid_steps (vid_boot css) tr s' -> pool s' !! i = Some q ->
  exists p, pexec p (proj i tr) q /\ role css tr i p.
Proof.
  intros Hs Hi.
  destruct (steps_origin _ _ _ _ _ _ _ Hs Hi)
    as (p & Hpe & [Ho|(tr1 & j & X & c & x & tr2 & s1 & m' & new & -> & _ & Hm & Hsp & Hle & Hn)]);
    exists p; (split; [done|]).
  - left. cbn in Ho. apply list_lookup_fmap_Some in Ho as (cs & -> & Hcs). by exists cs.
  - by eapply spawned_role.
Qed.

(** A call of a task is one of the calls of the program it runs. *)
Lemma vid_event css tr i e s' :
  vid_steps (vid_boot css) (tr ++ [(i, e)]) s' ->
  exists p q, pexec p (proj i tr ++ [e]) q /\ role css (tr ++ [(i, e)]) i p.
Proof.
  intros H. destruct (steps_last _ _ _ _ _ _ _ H) as (s1 & q & _ & _ & Hq).
  destruct (vid_origin _ _ _ _ _ H Hq) as (p & Hpe & Hr). exists p, q. split; [|done].
  by rewrite proj_app, proj_one, Nat.eqb_refl in Hpe.
Qed.

Lemma event_ok {A} P (p q : prog vidE A) t e :
  always P [] p -> pexec p (t ++ [e]) q -> P t e.
Proof. intros Ha H. by apply (always_event P [] p q t e [] Ha). Qed.

(** Only a video task that has finalised its clip notifies. *)
Lemma give_finalized css tr i t x s' :
  vid_steps (vid_boot css) (tr ++ [(i, Ev (xTaskNotifyGive t) x)]) s' -> finalized (proj i tr).
Proof.
  intros H. destruct (vid_event _ _ _ _ _ H) as (p & q & Hpe & Hr).
  destruct Hr as [(cs & _ & ->)|[(n & j & -> & _)|[(d & ts & j & y & -> & _)| ->]]].
  - pose proof (event_ok _ _ _ _ _ (client_never_gives cs []) Hpe). done.
  - by apply (event_ok _ _ _ _ _ (video_task_spec n) Hpe).
  - by destruct (event_ok _ _ _ _ _ (record_task_ok d ts) Hpe) as [? _].
  - pose proof (event_ok _ _ _ _ _ stop_task_plain Hpe) as He. done.
Qed.

(** A pending notification was given. *)
Lemma notif_given css tr s' i :
  vid_steps (vid_boot css) tr s' -> 0 < notif (mem s') i ->
  exists tr1 v tr2, tr = tr1 ++ (v, Ev (xTaskNotifyGive i) tt) :: tr2.
Proof.
  intros H. remember (vid_boot css) as s eqn:Hs. induction H as [s|s tr s1 [j e] s2 Hst IH Hstep].
  { subst. simpl. lia. }
  intros Hn. apply sstep_pool in Hstep as (X & c & k & x & new & -> & _ & Hm & _ & _).
  assert (0 < notif (mem s1) i -> exists tr1 v tr2,
    tr ++ [(j, Ev c x)] = tr1 ++ (v, Ev (xTaskNotifyGive i) tt) :: tr2) as Hold.
  { intros Hn'. destruct (IH Hs Hn') as (tr1 & v & tr2 & ->).
    exists tr1, v, (tr2 ++ [(j, Ev c x)]). by rewrite <-app_assoc. }
  clear IH. destruct (mem s1) as [r1 r2 r3 r4 r5 r6 r7 r8 n1] eqn:Em.
  destruct c; cbn in Hm; try (apply expect_Some in Hm as [_ Hm]); try (injection Hm as Hm);
    try (destruct x; [apply expect_Some in Hm as [_ Hm]|injection Hm as Hm]);
    try (apply Hold; first [by rewrite Hm in Hn | by rewrite <-Hm in Hn]).
  - rewrite <-Hm in Hn. cbn in Hn. destruct (Nat.eqb_spec i t) as [->|]; [|by apply Hold].
    exists tr, j, []. by destruct x.
  - rewrite Hm in Hn. cbn in Hn. destruct (Nat.eqb_spec i j) as [->|]; [lia|by apply Hold].
Qed.

(** ** Who owns the recorder *)

(** The video tasks created that have not cleared [s_task]. *)
Definition owner_step (l : list task) (ie : task * ev vidE) : list task :=
  match ie.2 with
  | Ev c x =>
      match c in vidE X return X -> list task with
      | xTaskCreate_video => fun x => match x with Some v => v :: l | None => l end
      | set_task _ => fun _ => List.filter (fun v => negb (v =? ie.1)%nat) l
      | _ => fun _ => l
      end x
  end.
Definition owners (tr : list (task * ev vidE)) : list task := foldl owner_step [] tr.

Lemma owners_snoc tr ie : owners (tr ++ [ie]) = owner_step (owners tr) ie.
Proof. unfold owners. by rewrite foldl_app. Qed.

Definition opt_list {A} (o : option A) : list A := match o with Some a => [a] | None => [] end.

(** Calls that change neither [s_task] nor the owners. *)
Definition neutral (e : ev vidE) : bool := negb (creates e) && negb (is_set_task e).

(** The value of [s_task] a call read. *)
Definition read_task (e : ev vidE) : option (option task) :=
  match e with
  | Ev c x =>
      match c in vidE X return X -> option (option task) with
      | get_task => Some
      | _ => fun _ => None
      end x
  end.

Lemma neutral_mem i len X (c : vidE X) x m m' l :
  vid_mem_do i len X c x m = Some m' -> neutral (Ev c x) = true ->
  s_task m' = s_task m /\ owner_step l (i, Ev c x) = l /\
  (Ev c x = Ev get_task None -> s_task m = None).
Proof.
  intros Hm Hn. destruct c; cbn in Hm, Hn; try done;
    try (apply expect_Some in Hm as [? Hm]); try (injection Hm as Hm);
    try (destruct x; [try done; apply expect_Some in Hm as [_ Hm]|injection Hm as Hm]); subst;
    split_and!; try done; intros Hy; apply (f_equal read_task) in Hy; cbn in Hy; by simplify_eq.
Qed.

(** The invariant, when task 0 alone starts videos. *)
Record recorder_inv (tr : list (task * ev vidE)) (s : vid_sys) : Prop := {
  inv_owners : owners tr = opt_list (s_task (mem s));
  inv_created : forall v j, (j, Ev xTaskCreate_video (Some v)) ∈ tr ->
    Forall (fun e => is_set_task e = false) (proj v tr) -> v ∈ owners tr;
  inv_checked : checked (proj 0 tr) -> s_task (mem s) = None }.

Lemma checked_snoc past e :
  checked (past ++ [e]) -> creates e = false /\ (e = Ev get_task None \/ checked past).
Proof.
  intros (t1 & t2 & Heq & Ht2). destruct t2 as [|e' t2 _] using rev_ind.
  - apply app_inj_tail in Heq as [_ ->]. split; [done|by left].
  - rewrite (app_comm_cons t2), app_assoc in Heq. apply app_inj_tail in Heq as [-> ->].
    apply Forall_app in Ht2 as [Ht2 He]. apply Forall_cons_1 in He as [He _].
    split; [done|]. right. by exists t1, t2.
Qed.

Lemma inv_neutral tr s i X (c : vidE X) x s' :
  recorder_inv tr s -> vid_mem_do i (length (pool s)) X c x (mem s) = Some (mem s') ->
  neutral (Ev c x) = true -> recorder_inv (tr ++ [(i, Ev c x)]) s'.
Proof.
  intros [Ho Hc Hk] Hm Hn. destruct (neutral_mem _ _ _ _ _ _ _ (owners tr) Hm Hn) as (Ht & Hl & Hg).
  split.
  - by rewrite owners_snoc, Hl, Ho, Ht.
  - intros v j Hin Hs. rewrite owners_snoc, Hl. apply (Hc v j).
    + apply elem_of_app in Hin as [Hin|Hin]; [done|]. apply list_elem_of_singleton in Hin.
      apply (f_equal snd) in Hin as He; cbn in He. by rewrite <-He in Hn.
    + rewrite proj_app in Hs. by apply Forall_app in Hs as [? _].
  - intros Hch. rewrite Ht, proj_app, proj_one in *. destruct (i =? 0)%nat.
    + apply checked_snoc in Hch as [_ [Hch|Hch]]; [by apply Hg|by apply Hk].
    + rewrite app_nil_r in Hch. by apply Hk.
Qed.

Lemma inv_create tr s i v x s' :
  recorder_inv tr s -> checked (proj 0 tr) -> x = Some v ->
  vid_mem_do i (length (pool s)) _ xTaskCreate_video x (mem s) = Some (mem s') ->
  i = 0%nat -> recorder_inv (tr ++ [(i, Ev xTaskCreate_video x)]) s'.
Proof.
  intros [Ho Hc Hk] Hch -> Hm ->. cbn in Hm. apply expect_Some in Hm as [-> Hm].
  rewrite (Hk Hch) in Ho. cbn in Ho. split.
  - rewrite owners_snoc, Ho, Hm. done.
  - intros w j Hin Hs. rewrite owners_snoc, Ho. apply elem_of_app in Hin as [Hin|Hin].
    + rewrite proj_app in Hs. apply Forall_app in Hs as [Hs _].
      pose proof (Hc w j Hin Hs) as Hw. rewrite Ho in Hw. by apply elem_of_nil in Hw.
    + apply list_elem_of_singleton in Hin. apply (f_equal snd) in Hin as He; cbn in He.
      assert (w = length (pool s)) as ->.
      { apply (f_equal (fun e : ev vidE => match e with
          | Ev c x => match c in vidE X return X -> option task with
                      | xTaskCreate_video => fun x => x | _ => fun _ => None end x end)) in He.
        cbn in He. congruence. }
      by left.
  - intros Hch'. rewrite proj_app, proj_one in Hch'. cbn in Hch'. by apply checked_snoc in Hch' as [? _].
Qed.

Lemma inv_clear tr s i j s' :
  recorder_inv tr s -> (j, Ev xTaskCreate_video (Some i)) ∈ tr ->
  Forall (fun e => is_set_task e = false) (proj i tr) ->
  vid_mem_do i (length (pool s)) _ (set_task None) tt (mem s) = Some (mem s') ->
  recorder_inv (tr ++ [(i, Ev (set_task None) tt)]) s'.
Proof.
  intros [Ho Hc Hk] Hin Hs Hm. cbn in Hm. injection Hm as Hm.
  pose proof (Hc i j Hin Hs) as Hi. rewrite Ho in Hi.
  destruct (s_task (mem s)) as [o|] eqn:Et; [|by apply elem_of_nil in Hi].
  apply list_elem_of_singleton in Hi as <-. split.
  - rewrite owners_snoc, Ho, <-Hm. cbn. by rewrite Nat.eqb_refl.
  - intros w j' Hin' Hs'. rewrite proj_app, proj_one in Hs'. apply elem_of_app in Hin' as [Hin'|Hin'].
    2: { apply list_elem_of_singleton in Hin'. apply (f_equal snd) in Hin' as He; cbn in He.
         by apply (f_equal creates) in He. }
    apply Forall_app in Hs' as [Hs1 Hs2]. pose proof (Hc w j' Hin' Hs1) as Hw.
    rewrite Ho in Hw. apply list_elem_of_singleton in Hw as ->.
    rewrite Nat.eqb_refl in Hs2. by apply Forall_cons_1 in Hs2 as [? _].
  - intros _. by rewrite <-Hm.
Qed.

(** Clients of which only the first starts videos, and none records. *)
Definition single_starter (css : list (list vid_cmd)) : Prop :=
  Forall (Forall (fun c => records c = false)) css /\
  Forall (Forall (fun c => starts_video c = false)) (tail css).

(** What an event of such a run can be. *)
Lemma recorder_event css tr i {X} (c : vidE X) (x : X) s' :
  single_starter css -> vid_steps (vid_boot css) (tr ++ [(i, Ev c x)]) s' ->
  Forall (fun ie => creates_record ie.2 = false) tr ->
  creates_record (Ev c x) = false /\
  (neutral (Ev c x) = true \/
   (creates (Ev c x) = true /\ i = 0%nat /\ checked (proj 0 tr)) \/
   (Ev c x = Ev (set_task None) tt /\ Forall (fun e => is_set_task e = false) (proj i tr) /\
    exists j, (j, Ev xTaskCreate_video (Some i)) ∈ tr)).
Proof.
  intros [Hrec Hst] Hall Hnr. destruct (vid_event _ _ _ _ _ Hall) as (p & q & Hpe & Hr).
  assert (special (Ev c x) = false -> neutral (Ev c x) = true) as Hsp.
  { intros He. apply special_false in He as (_ & He1 & He2 & _). unfold neutral. by rewrite He1, He2. }
  assert (forall (j : task) e, (j, e) ∈ tr ++ [(i, Ev c x)] -> creates_record e = true -> e = Ev c x) as Hlast.
  { intros j e Hin He. apply elem_of_app in Hin as [Hin|Hin].
    - rewrite Forall_forall in Hnr. specialize (Hnr _ Hin). cbn in Hnr. congruence.
    - apply list_elem_of_singleton in Hin. by apply (f_equal snd) in Hin. }
  destruct Hr as [(cs & Hcs & ->)|[(n & j & -> & Hin)|[(d & ts & j & y & -> & Hin)| ->]]].
  - destruct i as [|i].
    + apply (list_elem_of_lookup_2) in Hcs as Hel. rewrite Forall_forall in Hrec.
      destruct (event_ok _ _ _ _ _ (client_ok cs [] (Hrec _ Hel)) Hpe) as (He1 & He2 & He3 & He4).
      split; [done|]. destruct (creates (Ev c x)) eqn:Ec; [right; left; split_and!; [done|done|exact (He4 eq_refl)]|].
      left. unfold neutral. by rewrite Ec, He2.
    + assert (cs ∈ tail css) as Ht.
      { destruct css as [|cs0 css]; [done|]. by eapply list_elem_of_lookup_2. }
      apply (list_elem_of_lookup_2) in Hcs as Hel. rewrite Forall_forall in Hrec, Hst.
      assert (Forall (fun c => records c = false /\ starts_video c = false) cs) as Hp.
      { apply Forall_and. split; [by apply Hrec|by apply Hst]. }
      pose proof (event_ok _ _ _ _ _ (client_plain cs [] Hp) Hpe) as He. unfold never in He.
      split; [by apply special_false in He as (_ & _ & _ & ?)|left; by apply Hsp].
  - destruct (event_ok _ _ _ _ _ (video_task_spec n) Hpe) as (_ & He2 & He3 & He4).
    split; [done|]. destruct (is_set_task (Ev c x)) eqn:Es.
    + right. right. destruct (He2 eq_refl) as [He Hf]. split_and!; [done|done|]. exists j.
      apply elem_of_app in Hin as [Hin|Hin]; [done|]. apply list_elem_of_singleton in Hin.
      apply (f_equal (fun ie : task * ev vidE => creates ie.2)) in Hin.
      change (true = creates (Ev c x)) in Hin. congruence.
    + left. unfold neutral. by rewrite He3, Es.
  - exfalso. pose proof (Hlast j _ Hin eq_refl) as Hl.
    destruct (event_ok _ _ _ _ _ (record_task_ok d ts) Hpe) as (_ & _ & He & _).
    by rewrite <-Hl in He.
  - pose proof (event_ok _ _ _ _ _ stop_task_plain Hpe) as He. unfold never in He.
    split; [by apply special_false in He as (_ & _ & _ & ?)|left; by apply Hsp].
Qed.

Lemma recorder_inv_steps css tr s' :
  single_starter css -> vid_steps (vid_boot css) tr s' ->
  recorder_inv tr s' /\ Forall (fun ie => creates_record ie.2 = false) tr.
Proof.
  intros Hcss H. remember (vid_boot css) as s eqn:Hs.
  induction H as [s|s tr s1 [i e] s2 Hsteps IH Hstep]; [subst|].
  { split; [split|]; try done. intros v j Hin. by apply elem_of_nil in Hin. }
  specialize (IH Hs) as [IH Hnr]. subst s.
  assert (vid_steps (vid_boot css) (tr ++ [(i, e)]) s2) as Hall by by econstructor.
  apply sstep_pool in Hstep as (X & c & k & x & new & -> & _ & Hm & _ & _).
  destruct (recorder_event _ _ _ _ _ _ Hcss Hall Hnr) as [Hnr' Hcase].
  split; [|apply Forall_app; split; [done|by repeat constructor]].
  destruct Hcase as [Hn|[(Hcr & Hi & Hch)|(He & Hf & j & Hin)]].
  - by eapply inv_neutral.
  - destruct c; try done. destruct x as [v|]; [|done]. by eapply inv_create.
  - destruct c; try (by apply (f_equal is_set_task) in He).
    assert (t = None /\ x = tt) as [-> ->].
    { destruct x. split; [|done].
      apply (f_equal (fun e => match e with Ev (set_task t) _ => t | _ => None end)) in He. exact He. }
    by eapply inv_clear.
Qed.

(** ** The contents of a clip *)

Definition vsd_ev (e : ev vidE) : option (ev sdE) :=
  match e with
  | Ev e x =>
      match e in vidE X return X -> option (ev sdE) with
      | VSd e => fun x => Some (Ev e x)
      | _ => fun _ => None
      end x
  end.
Definition vcam_ev (e : ev vidE) : option (ev camE) :=
  match e with
  | Ev e x =>
      match e in vidE X return X -> option (ev camE) with
      | VCam e => fun x => Some (Ev e x)
      | _ => fun _ => None
      end x
  end.
Definition vsd_of : list (ev vidE) -> list (ev sdE) := project vsd_ev.
Definition vcam_of : list (ev vidE) -> list (ev camE) := project vcam_ev.

Lemma vsd_of_app t1 t2 : vsd_of (t1 ++ t2) = vsd_of t1 ++ vsd_of t2.
Proof. apply project_app. Qed.
Lemma vcam_of_app t1 t2 : vcam_of (t1 ++ t2) = vcam_of t1 ++ vcam_of t2.
Proof. apply project_app. Qed.
Lemma vsd_of_sd u : vsd_of (map (lift_ev (fun X => @VSd X)) u) = u.
Proof. apply project_lift. by intros [X e x]. Qed.
Lemma vsd_of_cam u : vsd_of (map (lift_ev (fun X => @VCam X)) u) = [].
Proof. apply project_other. by intros [X e x]. Qed.
Lemma vcam_of_sd u : vcam_of (map (lift_ev (fun X => @VSd X)) u) = [].
Proof. apply project_other. by intros [X e x]. Qed.
Lemma vcam_of_cam u : vcam_of (map (lift_ev (fun X => @VCam X)) u) = u.
Proof. apply project_lift. by intros [X e x]. Qed.

(** The data of a write, and the part of it the stream accepted. *)
Definition write_of (e : ev sdE) : option (bytes * bytes) :=
  match e with
  | Ev e x =>
      match e in sdE X return X -> option (bytes * bytes) with
      | fwrite _ data => fun n => Some (data, take (Z.to_nat n) data)
      | _ => fun _ => None
      end x
  end.
Definition writes (t : list (ev vidE)) : list (bytes * bytes) := omap write_of (vsd_of t).
(** The frames the camera delivered, in order. *)
Definition captured (t : list (ev vidE)) : list bytes := omap fb_jpeg (vcam_of t).

Lemma writes_app t1 t2 : writes (t1 ++ t2) = writes t1 ++ writes t2.
Proof. unfold writes. by rewrite vsd_of_app, omap_app. Qed.
Lemma captured_app t1 t2 : captured (t1 ++ t2) = captured t1 ++ captured t2.
Proof. unfold captured. by rewrite vcam_of_app, omap_app. Qed.

(** The task's clip is the stream [f] for [p]: no other task changed it. *)
Definition clip_is (f : Z) (p : bytes) (e : ev vidE) : Prop :=
  match e with
  | Ev e x =>
      match e in vidE X return X -> Prop with
      | get_file => fun x => x = Some f
      | get_path => fun x => x = p
      | _ => fun _ => True
      end x
  end.

(** The stream [f] has accepted [c] since the card was [k]. *)
Definition clip_at (f : Z) (p c : bytes) (k : card) : Prop :=
  streams k !! f = Some (SWrite p [] c).

Definition grows (f : Z) (p c : bytes) (k : card) (c' : bytes) (k' : card) : Prop :=
  streams k' = <[f := SWrite p [] c']> (streams k) /\ same_but p k k'.

Lemma grows_refl f p c k : clip_at f p c k -> grows f p c k c k.
Proof. intros H. split; [by rewrite insert_id|done]. Qed.
Lemma grows_clip f p c k c' k' : grows f p c k c' k' -> clip_at f p c' k'.
Proof. intros [H _]. unfold clip_at. rewrite H. by simplify_map_eq. Qed.
Lemma grows_trans f p c k c1 k1 c2 k2 :
  grows f p c k c1 k1 -> grows f p c1 k1 c2 k2 -> grows f p c k c2 k2.
Proof.
  intros [H1 H2] [H3 H4]. split; [|by eapply same_but_trans]. by rewrite H3, H1, insert_insert_eq.
Qed.
Lemma grows_accepted f p c k c' k' : accepted k f p [] c' k' -> grows f p c k c' k'.
Proof. intros [H (d & _ & Hd)]. split; [done|]. by eapply same_but_insert. Qed.

Lemma grows_write f p c k d n k' :
  clip_at f p c k -> fs_step k (Ev (fwrite f d) n) k' ->
  grows f p c k (c ++ take (Z.to_nat n) d) k'.
Proof. intros H [_ Hw]. eapply grows_accepted. by apply Hw. Qed.
Lemma grows_flush f p c k r k' :
  clip_at f p c k -> fs_step k (Ev (fflush f) r) k' -> grows f p c k c k'.
Proof. intros H Hw. eapply grows_accepted. by apply Hw. Qed.

(** The flush of every tenth frame. *)
Lemma flush_spec (b : bool) f p c t r k k' :
  exec (if b then let* f := call get_file in let* f := stream_of f in
                  let* _ := call (VSd (fflush f)) in Ret tt else Ret tt)%prog t r ->
  Forall (clip_is f p) t -> fs_trace k (vsd_of t) k' -> clip_at f p c k ->
  grows f p c k c k' /\ writes t = [] /\ captured t = [].
Proof.
  intros H Hc Hf Hk. destruct b.
  2: { destruct H as [-> _]. cbn in Hf. subst. split; [by apply grows_refl|done]. }
  apply exec_bind in H as (t1 & t2 & fo & -> & H1 & H). apply exec_one in H1 as ->.
  apply Forall_app in Hc as [Hx _]. apply Forall_cons_1 in Hx as [-> _].
  exec_all H. cbn in Hf. destruct Hf as (k1 & Hs & ->). split; [exact (grows_flush _ _ _ _ x _ Hk Hs)|done].
Qed.

Lemma capture_captured t jpg : exec camera_capture_jpeg t (Some jpg) -> jpg ∈ omap fb_jpeg t.
Proof. intros H. apply capture_cases in H as [_ H]. by apply H. Qed.

Lemma loop_spec n frame f p c t d k k' :
  exec (video_loop n frame) t d -> Forall (clip_is f p) t -> fs_trace k (vsd_of t) k' ->
  clip_at f p c k ->
  grows f p c k (c ++ concat (map snd (writes t))) k' /\ map fst (writes t) `sublist_of` captured t.
Proof.
  revert frame t c k. induction n as [|n IH]; intros frame t c k H Hc Hf Hk.
  { destruct H as [-> ->]. cbn in Hf. subst. cbn. rewrite app_nil_r.
    split; [by apply grows_refl|constructor]. }
  cbn [video_loop] in H. apply exec_bind in H as (t1 & t2 & rec & -> & H1 & H).
  apply exec_one in H1 as ->. cbn [app] in *. apply Forall_cons_1 in Hc as [_ Hc].
  change (vsd_of (Ev get_recording rec :: t2)) with (vsd_of t2) in *.
  change (writes (Ev get_recording rec :: t2)) with (writes t2).
  change (captured (Ev get_recording rec :: t2)) with (captured t2).
  destruct rec; cbn [negb] in H.
  2: { destruct H as [-> ->]. cbn in Hf. subst. cbn. rewrite app_nil_r.
       split; [by apply grows_refl|constructor]. }
  apply exec_bind in H as (t3 & t4 & jpg & -> & H3 & H).
  apply exec_translate in H3 as (u & -> & Hcap). apply Forall_app in Hc as [_ Hc].
  rewrite vsd_of_app, vsd_of_cam in Hf. cbn [app] in Hf.
  rewrite writes_app, captured_app. unfold writes at 1 3, captured at 1.
  rewrite vsd_of_cam, vcam_of_cam. cbn [omap list_omap map app].
  assert (forall fr k1 c1 t5, exec (call (vTaskDelay frame_period_ms) ;;; video_loop n fr)%prog t5 d ->
    Forall (clip_is f p) t5 -> fs_trace k1 (vsd_of t5) k' -> clip_at f p c1 k1 ->
    grows f p c1 k1 (c1 ++ concat (map snd (writes t5))) k' /\
    map fst (writes t5) `sublist_of` captured t5) as Hskip.
  { intros fr k1 c1 t5 H5 Hc5 Hf5 Hk5. apply exec_bind in H5 as (t6 & t7 & x & -> & H6 & H5).
    apply exec_one in H6 as ->. cbn [app] in *. apply Forall_cons_1 in Hc5 as [_ Hc5].
    by apply (IH _ _ c1 k1 H5). }
  destruct jpg as [[|b jpg]|]; 
    [destruct (Hskip _ _ _ _ H Hc Hf Hk) as [Hg Hs]; split; [exact Hg|by apply sublist_inserts_l]
    | |destruct (Hskip _ _ _ _ H Hc Hf Hk) as [Hg Hs]; split; [exact Hg|by apply sublist_inserts_l]].
  apply capture_captured, list_elem_of_split in Hcap as (l1 & l2 & ->).
  apply exec_bind in H as (t5 & t6 & fo & -> & H5 & H). apply exec_one in H5 as ->. cbn [app] in *.
  apply Forall_cons_1 in Hc as [-> Hc]. cbn [stream_of bind] in H.
  apply exec_bind in H as (t7 & t8 & w & -> & H7 & H). apply exec_one in H7 as ->. cbn [app] in *.
  apply Forall_cons_1 in Hc as [_ Hc].
  apply exec_bind in H as (t9 & t10 & r & -> & H9 & H). apply Forall_app in Hc as [Hc9 Hc10].
  change (vsd_of (Ev get_file (Some f) :: Ev (VSd (fwrite f (b :: jpg))) w :: t9 ++ t10))
    with (Ev (fwrite f (b :: jpg)) w :: vsd_of (t9 ++ t10)) in Hf.
  change (writes (Ev get_file (Some f) :: Ev (VSd (fwrite f (b :: jpg))) w :: t9 ++ t10))
    with ((b :: jpg, take (Z.to_nat w) (b :: jpg)) :: writes (t9 ++ t10)).
  change (captured (Ev get_file (Some f) :: Ev (VSd (fwrite f (b :: jpg))) w :: t9 ++ t10))
    with (captured (t9 ++ t10)).
  rewrite vsd_of_app in Hf. destruct Hf as (k1 & Hw & Hf). apply fs_trace_app in Hf as (k2 & Hf9 & Hf10).
  pose proof (grows_write _ _ _ _ _ _ _ Hk Hw) as Hg1. pose proof (grows_clip _ _ _ _ _ _ Hg1) as Hk1.
  destruct (flush_spec _ _ _ _ _ _ _ _ H9 Hc9 Hf9 Hk1) as (Hg2 & Hw9 & Hca9).
  destruct (Hskip _ _ _ _ H Hc10 Hf10 (grows_clip _ _ _ _ _ _ Hg2)) as [Hg3 Hs].
  rewrite writes_app, captured_app, Hw9, Hca9. cbn [app map fst snd concat]. split.
  - rewrite (app_assoc c). eapply grows_trans; [|exact Hg3]. eapply grows_trans; [exact Hg1|exact Hg2].
  - rewrite <-app_assoc. apply sublist_inserts_l. cbn [app]. apply sublist_skip.
    by apply sublist_inserts_l.
Qed.

(** ** The end of a clip *)

Definition sets_recording (e : ev vidE) : bool :=
  match e with Ev (set_recording _) _ => true | _ => false end.

Lemma loop_keeps_recording n frame past : always (never sets_recording) past (video_loop n frame).
Proof.
  revert frame past. induction n as [|n IH]; intros frame past; [exact I|]. cbn [video_loop].
  unfold stream_of. never_tac; try apply IH.
Qed.

Lemma finalize_spec f p c t k k' :
  exec video_finalize t tt -> Forall (clip_is f p) t -> fs_trace k (vsd_of t) k' -> clip_at f p c k ->
  streams k' = delete f (streams k) /\ same_but p k k' /\ writes t = [] /\
  (Forall closed_ok (vsd_of t) -> files k' !! p = Some c).
Proof.
  unfold video_finalize. intros H Hc Hf Hk.
  apply exec_bind in H as (t1 & t2 & fo & -> & H1 & H). apply exec_one in H1 as ->.
  apply Forall_app in Hc as [Hx _]. apply Forall_cons_1 in Hx as [-> _].
  apply exec_bind in H as (t3 & t4 & r & -> & H3 & H). apply exec_one in H3 as ->.
  apply exec_bind in H as (t5 & t6 & ok & -> & H5 & H). apply exec_one in H5 as ->.
  apply exec_one in H as ->. cbn [app] in *.
  change (vsd_of _) with [Ev (fflush f) r; Ev (fclose f) ok] in *.
  destruct Hf as (k1 & Hfl & k2 & Hcl & Hk2). cbn in Hk2. subst k2.
  destruct (grows_flush _ _ _ _ _ _ Hk Hfl) as [Hs Hb]. destruct Hcl as (Hs2 & Hw & _).
  destruct (Hw p [] c) as (d & _ & Hd & Hfi). { rewrite Hs. by simplify_map_eq. }
  split_and!; [by rewrite Hs2, Hs, delete_insert_eq| |done|].
  - eapply same_but_trans; [exact Hb|]. by eapply same_but_insert.
  - intros Hok. apply Forall_cons_1 in Hok as [_ Hok]. apply Forall_cons_1 in Hok as [Hok _].
    rewrite Hfi, (Hd Hok). by simplify_map_eq.
Qed.

Lemma list_spec f p t k k' :
  exec video_list t tt -> Forall (clip_is f p) t -> fs_trace k (vsd_of t) k' ->
  streams k' = streams k /\ same_but SD_MANIFEST k k' /\ writes t = [] /\ captured t = [] /\
  exists ts boot d, d `prefix_of` manifest_line (NAME_MAX_LEN + 32) p ts boot KIND_VIDEO /\
    (files k' = files k \/ files k' !! SD_MANIFEST = Some (default [] (files k !! SD_MANIFEST) ++ d)).
Proof.
  unfold video_list. intros H Hc Hf.
  apply exec_bind in H as (t1 & t2 & path & -> & H1 & H). apply exec_one in H1 as ->.
  apply Forall_app in Hc as [Hx _]. apply Forall_cons_1 in Hx as [Hx _]. cbn in Hx. subst path.
  apply exec_bind in H as (t3 & t4 & ts & -> & H3 & H). apply exec_one in H3 as ->.
  apply exec_bind in H as (t5 & t6 & boot & -> & H5 & H). apply exec_one in H5 as ->.
  apply exec_bind in H as (t7 & t8 & r & -> & H7 & [-> _]). apply exec_translate in H7 as (u & -> & H7).
  cbn [app] in *. rewrite app_nil_r in *.
  change (vsd_of (_ :: _ :: _ :: map _ u)) with (vsd_of (map (lift_ev (fun X => @VSd X)) u)) in Hf.
  change (writes (_ :: _ :: _ :: map _ u)) with (writes (map (lift_ev (fun X => @VSd X)) u)).
  change (captured (_ :: _ :: _ :: map _ u)) with (captured (map (lift_ev (fun X => @VSd X)) u)).
  unfold writes, captured. rewrite vcam_of_sd. rewrite vsd_of_sd in *.
  destruct (append_effect _ _ _ _ _ _ H7 Hf) as (Hs & Hb & _ & Hd & _).
  split_and!; [done|done| |done|].
  - unfold sd_store_append in H7. exec_all H7; done.
  - exists ts, boot. destruct Hd as [Hd|(d & Hp & Hd)].
    + exists []. split; [apply prefix_nil|by left].
    + exists d. split; [exact Hp|by right].
Qed.

Lemma release_sd t : exec video_release t tt -> vsd_of t = [] /\ captured t = [].
Proof. unfold video_release. intros H. exec_all H; done. Qed.

Lemma vsd_of_finalize_cam t : exec video_finalize t tt -> captured t = [].
Proof. unfold video_finalize. intros H. exec_all H; done. Qed.

(** ** Theorems *)

(** C29. A clip is its frames.  When a video task has run to its end on its
    own stream (no other task changed [s_file] or [s_path]) and the closes
    succeeded, the clip file holds, in order, what the stream accepted of the
    frames; these are frames the camera delivered, in the order it delivered
    them.  The stream is closed; besides the clip only the manifest changed,
    by (a prefix of) the line of this clip. *)
Theorem clip_is_frames n f p t k k' :
  exec (video_task n) t tt -> Ev (set_recording false) tt ∈ t ->
  Forall (clip_is f p) t -> p <> SD_MANIFEST -> clip_at f p [] k ->
  fs_trace k (vsd_of t) k' -> Forall closed_ok (vsd_of t) ->
  files k' !! p = Some (concat (map snd (writes t))) /\
  map fst (writes t) `sublist_of` captured t /\
  streams k' = delete f (streams k) /\
  (forall q, q <> p -> q <> SD_MANIFEST -> files k' !! q = files k !! q) /\
  exists ts boot d, d `prefix_of` manifest_line (NAME_MAX_LEN + 32) p ts boot KIND_VIDEO /\
    (files k' !! SD_MANIFEST = files k !! SD_MANIFEST \/
     files k' !! SD_MANIFEST = Some (default [] (files k !! SD_MANIFEST) ++ d)).
Proof.
  unfold video_task. intros H Hend Hc Hpm Hk Hf Hcl.
  apply exec_bind in H as (t1 & t2 & d & -> & H1 & H). destruct d; cbn [negb] in H.
  2: { destruct H as [-> _]. rewrite app_nil_r in Hend. exfalso.
       pose proof (always_exec (fun e => sets_recording e = false) [] _ _ _ (loop_keeps_recording _ _ []) H1) as Ha.
       rewrite Forall_forall in Ha. by specialize (Ha _ Hend). }
  apply exec_bind in H as (t3 & t4 & [] & -> & H3 & H).
  apply exec_bind in H as (t5 & t6 & [] & -> & H5 & H6).
  rewrite !vsd_of_app in Hf, Hcl. rewrite !Forall_app in Hc. rewrite !Forall_app in Hcl.
  destruct Hc as (Hc1 & Hc3 & Hc5 & _), Hcl as (_ & Hcl3 & _).
  apply fs_trace_app in Hf as (k1 & Hf1 & Hf). apply fs_trace_app in Hf as (k2 & Hf3 & Hf).
  apply fs_trace_app in Hf as (k3 & Hf5 & Hf).
  destruct (release_sd _ H6) as [Hr Hr']. unfold writes at 1 2. rewrite Hr in Hf. cbn in Hf. subst k3.
  destruct (loop_spec _ _ _ _ _ _ _ _ _ H1 Hc1 Hf1 Hk) as [Hg Hsub].
  destruct (finalize_spec _ _ _ _ _ _ H3 Hc3 Hf3 (grows_clip _ _ _ _ _ _ Hg)) as (Hs3 & Hb3 & Hw3 & Hok3).
  destruct (list_spec _ _ _ _ _ H5 Hc5 Hf5) as (Hs5 & Hb5 & Hw5 & Hca5 & ts & boot & dd & Hp & Hd).
  destruct Hg as [Hs1 Hb1].
  fold (writes (t1 ++ t3 ++ t5 ++ t6)). rewrite !writes_app, !captured_app, Hw3, Hw5, Hca5, Hr'.
  rewrite (vsd_of_finalize_cam _ H3). unfold writes at 2 4. rewrite Hr. cbn [omap list_omap app]. rewrite !app_nil_r.
  split_and!.
  - by rewrite Hb5, Hok3.
  - done.
  - by rewrite Hs5, Hs3, Hs1, delete_insert_eq.
  - intros q Hq1 Hq2. by rewrite Hb5, Hb3, Hb1.
  - exists ts, boot, dd. split; [done|]. rewrite <-(Hb1 SD_MANIFEST), <-(Hb3 SD_MANIFEST) by done.
    destruct Hd as [-> | ->]; auto.
Qed.

(** The notifications a wait returned. *)
Definition taken (e : ev vidE) : option Z :=
  match e with
  | Ev c x =>
      match c in vidE X return X -> option Z with
      | ulTaskNotifyTake _ => Some
      | _ => fun _ => None
      end x
  end.

Lemma taken_notif i len X (c : vidE X) x m m' n :
  vid_mem_do i len X c x m = Some m' -> taken (Ev c x) = Some n -> n = notif m i.
Proof.
  intros Hm Ht. destruct c; try done. cbn in Hm, Ht. apply expect_Some in Hm as [? _]. congruence.
Qed.

(** C30. A stop that was answered has a finished clip behind it.  In every
    interleaving of any number of clients with the tasks they create: when
    the wait of a task returns a notification, a video task gave it, and that
    task had by then closed its stream (or found it closed) and appended the
    manifest line. *)
Theorem stop_answered_means_finalized css tr1 i ms n tr2 s' :
  vid_steps (vid_boot css) (tr1 ++ (i, Ev (ulTaskNotifyTake ms) n) :: tr2) s' -> 0 < n ->
  exists t0 v t1, tr1 = t0 ++ (v, Ev (xTaskNotifyGive i) tt) :: t1 /\ finalized (proj v t0).
Proof.
  intros H Hn. rewrite (cons_middle (i, _)), app_assoc in H.
  apply steps_app_inv in H as (s2 & H & _). apply steps_last in H as (s1 & q & H1 & Hstep & _).
  assert (n = notif (mem s1) i) as ->.
  { apply sstep_pool in Hstep as (X & c & k & x & new & He & _ & Hm & _ & _).
    eapply taken_notif; [exact Hm|]. by rewrite <-He. }
  destruct (notif_given _ _ _ _ H1 Hn) as (t0 & v & t1 & ->). exists t0, v, t1. split; [done|].
  rewrite (cons_middle (v, _)), app_assoc in H1. apply steps_app_inv in H1 as (s3 & H1 & _).
  by eapply give_finalized.
Qed.

(** C31. One recorder at a time.  When a single task starts videos and none
    records (any other tasks may stop them, and late video tasks run on), in
    every interleaving the video tasks that have not let go of the recorder
    are exactly the one [s_task] names: never two, and none when it is NULL. *)
Theorem single_recorder css tr s' :
  single_starter css -> vid_steps (vid_boot css) tr s' ->
  owners tr = opt_list (s_task (mem s')).
Proof. intros Hs H. apply (inv_owners _ _ (proj1 (recorder_inv_steps _ _ _ Hs H))). Qed.

(** ** Concrete runs *)

(** Answers of a platform on which everything succeeds; a stream is named
    after the task that opened it. *)
Definition vid_answer (self new : task) (m : vid_mem) (X : Type) (c : vidE X) : option X :=
  match c in vidE X return option X with
  | get_recording => Some (s_recording m)
  | get_task => Some (s_task m)
  | get_stop_waiter => Some (s_stop_waiter m)
  | get_file => Some (s_file m)
  | get_path => Some (s_path m)
  | get_seq => Some (s_seq m)
  | get_start_rel_ts_ms => Some (s_start_rel_ts_ms m)
  | get_mounted => Some (s_mounted m)
  | boot_id_get => Some 7
  | xTaskGetCurrentTaskHandle => Some self
  | xTaskCreate_video => Some (Some new)
  | xTaskCreate_record _ _ => Some (Some new)
  | xTaskCreate_stop => Some (Some new)
  | ulTaskNotifyTake _ => Some (notif m self)
  | malloc_record_arg => Some true
  | fault => None
  | set_recording _ | set_task _ | set_stop_waiter _ | set_file _ | set_path _ | set_seq _
  | set_start_rel_ts_ms _ | set_mounted _ | xTaskNotifyGive _ | vTaskDelay _ => Some tt
  | VCam c =>
      match c in camE X return option X with
      | esp_camera_init => Some ESP_OK
      | esp_camera_fb_get => Some (Some (true, [255; 216; 255]))
      | esp_camera_fb_return => Some tt
      | malloc _ => Some true
      end
  | VSd c =>
      match c in sdE X return option X with
      | spi_bus_initialize => Some ESP_OK
      | esp_vfs_fat_sdspi_mount _ => Some ESP_OK
      | spi_bus_free => Some tt
      | mkdir _ => Some MKDIR_OK
      | fopen _ _ => Some (Some (Z.of_nat self))
      | fwrite _ data => Some (Z.of_nat (length data))
      | fputs _ _ => Some true
      | fread _ _ => Some []
      | ferror _ => Some false
      | fflush _ | fclose _ => Some true
      | unlink _ => Some UNLINK_OK
      end
  end.

Definition vid_spawn (e : ev vidE) : list (prog vidE unit) :=
  match e with
  | Ev c x =>
      match c in vidE X return X -> list (prog vidE unit) with
      | xTaskCreate_video => fun x => match x with Some _ => [video_task 3] | None => [] end
      | xTaskCreate_record d ts => fun x => match x with Some _ => [record_task d ts] | None => [] end
      | xTaskCreate_stop => fun x => match x with Some _ => [stop_task] | None => [] end
      | _ => fun _ => []
      end x
  end.

Lemma vid_spawn_ok e : vid_spawned e (vid_spawn e).
Proof. destruct e as [X c x]. destruct c; try done; destruct x; try done; by exists 3%nat. Qed.

Abbreviation vid_run := (run_sched vid_mem_do vid_answer vid_spawn).

Lemma vid_run_steps sched s tr s' : vid_run sched s = Some (tr, s') -> vid_steps s tr s'.
Proof. apply run_sched_steps, vid_spawn_ok. Qed.

(** Task [i] is about to use a NULL stream. *)
Definition at_fault (s : vid_sys) (i : task) : bool :=
  match (pool s !! i : option (prog vidE unit)) with
  | Some (Call c _) => match c with fault => true | _ => false end
  | _ => false
  end.

(** Where a schedule leads. *)
Definition reaches (sched : list task) (s : vid_sys)
    (check : list (task * ev vidE) -> vid_sys -> bool) : bool :=
  match vid_run sched s with Some (tr, s') => check tr s' | None => false end.

Lemma reaches_steps sched s check :
  reaches sched s check = true -> exists tr s', vid_steps s tr s' /\ check tr s' = true.
Proof.
  unfold reaches. destruct (vid_run sched s) as [[tr s']|] eqn:E; [|done].
  intros H. exists tr, s'. split; [by eapply vid_run_steps|done].
Qed.

Definition race_clients : list (list vid_cmd) := [[CRecord 5 0; CStart 7; CStop]].

(** The helper of [record_video] has checked the statics when the client
    starts a video of its own; both then go on. *)
Definition race_sched : list task :=
  ([0; 0; 1; 1] ++ replicate 19 0 ++ replicate 13 1 ++ replicate 4 3 ++ replicate 5 1 ++
   replicate 5 2 ++ [3])%nat.


Definition late_clients : list (list vid_cmd) := [[CStart 1; CStopAsync; CStart 2]].
Definition late_sched : list task :=
  (replicate 20 0 ++ replicate 5 2 ++ replicate 15 1 ++ replicate 15 0 ++ [1])%nat.

(** Task [i] has ended. *)
Definition ended (s : vid_sys) (i : task) : bool :=
  match (pool s !! i : option (prog vidE unit)) with Some (Ret _) => true | _ => false end.

(** A start right after a stop can be undone by the task that stopped: it
    clears [s_recording] after it has let go of [s_task], when a new task
    already owns the recorder. *)
Lemma late_clear_stops_new_clip :
  single_starter late_clients /\
  exists tr s', vid_steps (vid_boot late_clients) tr s' /\
    ended s' 0 = true /\ owners tr = [3%nat] /\ s_recording (mem s') = false /\
    List.last (map fst tr) 9%nat = 1%nat.
Proof.
  split; [split; by repeat constructor|].
  destruct (reaches_steps late_sched (vid_boot late_clients) (fun tr s' =>
    ended s' 0 && bool_decide (owners tr = [3%nat]) && negb (s_recording (mem s')) &&
    bool_decide (List.last (map fst tr) 9%nat = 1%nat)))
    as (tr & s' & Hs & H); [by vm_compute|].
  apply andb_true_iff in H as [H H4]. apply andb_true_iff in H as [H H3].
  apply andb_true_iff in H as [H1 H2].
  exists tr, s'. apply bool_decide_eq_true in H2, H4. apply negb_true_iff in H3. by split_and!.
Qed.

(** ** Witnesses *)

Definition stop_clients : list (list vid_cmd) := [[CStart 1; CStop]].
Definition stop_sched : list task := (replicate 24 0 ++ replicate 17 1 ++ [0])%nat.

Lemma taken_event e n : taken e = Some n -> exists ms, e = Ev (ulTaskNotifyTake ms) n.
Proof. destruct e as [X c x]. destruct c; try done. cbn. intros [= ->]. by eexists. Qed.

Lemma stop_answered_means_finalized_witness :
  exists tr1 i ms n tr2 s', vid_steps (vid_boot stop_clients) (tr1 ++ (i, Ev (ulTaskNotifyTake ms) n) :: tr2) s' /\
    0 < n /\ exists t0 v t1, tr1 = t0 ++ (v, Ev (xTaskNotifyGive i) tt) :: t1 /\ finalized (proj v t0).
Proof.
  destruct (reaches_steps stop_sched (vid_boot stop_clients) (fun tr s' =>
    match last tr with Some (i, e) => bool_decide (taken e = Some 1) | None => false end))
    as (tr & s' & Hs & H); [by vm_compute|].
  destruct (last tr) as [[i e]|] eqn:El; [|done]. apply bool_decide_eq_true in H.
  apply taken_event in H as (ms & ->). apply last_Some in El as (tr1 & ->).
  exists tr1, i, ms, 1, [], s'. split; [exact Hs|]. split; [lia|].
  by apply (stop_answered_means_finalized stop_clients tr1 i ms 1 [] s' Hs).
Defined.

Lemma single_recorder_witness :
  exists tr s', vid_steps (vid_boot late_clients) tr s' /\ s_task (mem s') = Some 3%nat /\ owners tr = [3%nat].
Proof.
  destruct (reaches_steps late_sched (vid_boot late_clients) (fun tr s' =>
    bool_decide (s_task (mem s') = Some 3%nat))) as (tr & s' & Hs & H); [by vm_compute|].
  apply bool_decide_eq_true in H. exists tr, s'. split; [exact Hs|]. split; [exact H|].
  rewrite (single_recorder late_clients tr s'); [by rewrite H|split; by repeat constructor|exact Hs].
Defined.

(** One frame, then the flag is dropped. *)
Definition demo_clip : bytes := video_path NAME_MAX_LEN 7 1 0.
Definition demo_clip_line : bytes := manifest_line (NAME_MAX_LEN + 32) demo_clip 1 7 KIND_VIDEO.
Definition demo_frame : bytes := [255; 216; 255].
Definition demo_clip_trace : list (ev vidE) :=
  [Ev get_recording true; Ev (VCam esp_camera_fb_get) (Some (true, demo_frame));
   Ev (VCam (malloc 3)) true; Ev (VCam esp_camera_fb_return) tt;
   Ev get_file (Some 1); Ev (VSd (fwrite 1 demo_frame)) 3; Ev (vTaskDelay 100) tt;
   Ev get_recording false;
   Ev get_file (Some 1); Ev (VSd (fflush 1)) true; Ev (VSd (fclose 1)) true; Ev (set_file None) tt;
   Ev get_path demo_clip; Ev get_start_rel_ts_ms 1; Ev boot_id_get 7;
   Ev (VSd (fopen SD_MANIFEST MODE_A)) (Some 2); Ev (VSd (fputs 2 demo_clip_line)) true;
   Ev (VSd (fclose 2)) true;
   Ev get_stop_waiter None; Ev get_task (Some 1%nat); Ev xTaskGetCurrentTaskHandle 1%nat;
   Ev (set_task None) tt; Ev (set_recording false) tt].

Lemma demo_clip_exec : exec (video_task 2) demo_clip_trace tt.
Proof. repeat (eexists; eexists; split; [reflexivity|]). by split. Qed.

Definition demo_clip_before : card := Card {[demo_clip := []]} {[1 := SWrite demo_clip [] []]}.

Lemma fflush_all fs ss f path base c :
  ss !! f = Some (SWrite path base c) ->
  fs_step (Card fs ss) (Ev (fflush f) true)
    (Card (<[path := base ++ c]> fs) (<[f := SWrite path base c]> ss)).
Proof.
  intros Hf p b c' Hc. cbn in Hc. rewrite Hf in Hc. injection Hc as <- <- <-.
  split; [done|]. by exists c.
Qed.

Lemma demo_clip_card : exists k', fs_trace demo_clip_before (vsd_of demo_clip_trace) k'.
Proof.
  change (vsd_of demo_clip_trace) with
    [Ev (fwrite 1 demo_frame) 3; Ev (fflush 1) true; Ev (fclose 1) true;
     Ev (fopen SD_MANIFEST MODE_A) (Some 2); Ev (fputs 2 demo_clip_line) true; Ev (fclose 2) true].
  eexists. eexists. split; [by apply (fwrite_all _ _ 1 demo_clip [] [] demo_frame)|].
  eexists. split; [by apply (fflush_all _ _ 1 demo_clip [] demo_frame)|].
  eexists. split; [by apply (fclose_write _ _ 1 demo_clip [] demo_frame)|].
  eexists. split; [split; [done|reflexivity]|].
  eexists. split; [by apply fputs_all|]. eexists. split; [by apply fclose_write|]. reflexivity.
Qed.

Lemma clip_is_frames_witness :
  exists k', fs_trace demo_clip_before (vsd_of demo_clip_trace) k' /\ files k' !! demo_clip = Some demo_frame.
Proof.
  destruct demo_clip_card as (k' & Hk). exists k'. split; [exact Hk|].
  apply (clip_is_frames 2 1 demo_clip demo_clip_trace demo_clip_before k' demo_clip_exec).
  - do 22 right. left.
  - repeat constructor.
  - by vm_compute.
  - reflexivity.
  - exact Hk.
  - repeat constructor.
Defined.
