(* ===== verification/Transfer.v ===== *)
(** * transfer.c: the bounded WiFi transfer window

    The three HTTP handlers over the SD card, and the task that opens the
    window, waits, and tears it down.  Requests and responses are calls; the
    BLE link and the snapshot timer are called through their functions'
    names, the card through the file system interface. *)

From stdpp Require Import gmap strings.
From S2P Require Import Prelude Effects Platform Config Fs MediaIndex SdStore.
Open Scope string_scope.
Open Scope list_scope.
Open Scope Z_scope.

Definition MANIFEST_BUF_CAP : Z := 8192.
Definition CONSUMED_BODY_CAP : Z := 4096.
Definition CONSUMED_MAX_NAMES : Z := 32.
Definition ITEM_CHUNK_SIZE : Z := 4096.
Definition LINE_BUF_CAP : Z := 128.

Inductive http_err : Type := HTTPD_400 | HTTPD_403 | HTTPD_404 | HTTPD_500.
Inductive http_type : Type := TEXT_PLAIN | IMAGE_JPEG | VIDEO_MJPEG | OCTET_STREAM.

Inductive xferE : Type -> Type :=
| XSd {X} (e : sdE X) : xferE X
| malloc (n : Z) : xferE bool
| httpd_resp_send_err (code : http_err) : xferE unit
| httpd_resp_set_type (t : http_type) : xferE unit
| httpd_resp_send (data : bytes) : xferE unit
| httpd_resp_send_chunk (data : bytes) : xferE bool  (** == ESP_OK *)
| httpd_req_recv (cap : Z) : xferE (Z * bytes)  (** the result and the bytes received *)
| xTaskNotifyGive_transfer : xferE unit
| snapshot_set_interval (seconds : Z) : xferE unit
| ble_link_suspend : xferE unit
| ble_link_resume : xferE unit
| esp_wifi_init : xferE esp_err_t
| esp_netif_create_default_wifi_ap : xferE bool  (** non-NULL *)
| esp_wifi_deinit : xferE unit
| esp_wifi_set_mode : xferE esp_err_t
| esp_wifi_set_config (ssid : bytes) : xferE esp_err_t
| esp_wifi_start : xferE esp_err_t
| esp_wifi_stop : xferE esp_err_t
| httpd_start : xferE esp_err_t
| httpd_register_uri_handlers : xferE unit
| httpd_stop : xferE esp_err_t
| ulTaskNotifyTake (ms : Z) : xferE Z
| xTaskCreate_transfer : xferE bool.

#[local] Abbreviation call := (Effects.call (E := xferE)).
#[local] Abbreviation sd := (translate (fun X => @XSd X)).

(** A C string: the bytes before the first zero. *)
Fixpoint cstr (s : bytes) : bytes :=
  match s with c :: s => if c =? 0 then [] else c :: cstr s | [] => [] end.

(** ** GET /manifest *)

Definition manifest_handler : prog xferE unit :=
  (let* buf := call (malloc MANIFEST_BUF_CAP) in
   if negb buf then call (httpd_resp_send_err HTTPD_500) else
   let* r := sd (sd_store_read_manifest MANIFEST_BUF_CAP) in
   let '(err, data) := r in
   if negb (esp_ok err) then call (httpd_resp_send_err HTTPD_500) else
   call (httpd_resp_set_type TEXT_PLAIN) ;;;
   call (httpd_resp_send data))%prog.

(** ** GET /item/{name} *)

(** [strncmp(s, p, strlen(p)) == 0]. *)
Fixpoint has_prefix (p s : bytes) : bool :=
  match p, s with
  | [], _ => true
  | a :: p, b :: s => (a =? b) && has_prefix p s
  | _, [] => false
  end.

(** [strstr(s, "..") != NULL]. *)
Fixpoint has_dotdot (s : bytes) : bool :=
  match s with
  | a :: ((b :: _) as s') => (a =? 46) && (b =? 46) || has_dotdot s'
  | _ => false
  end.

(** The bytes before the first [c] ([strchr]). *)
Fixpoint until (c : Z) (s : bytes) : bytes :=
  match s with a :: s => if a =? c then [] else a :: until c s | [] => [] end.

(** [strrchr(s, '.')]: the suffix from the last dot. *)
Fixpoint last_dot (s : bytes) : option bytes :=
  match s with
  | [] => None
  | a :: s' => match last_dot s' with
               | Some e => Some e
               | None => if a =? 46 then Some s else None
               end
  end.

Definition content_type (path : bytes) : http_type :=
  match last_dot path with
  | Some ext =>
      if bool_decide (ext = lit ".jpg") || bool_decide (ext = lit ".jpeg") then IMAGE_JPEG
      else if bool_decide (ext = lit ".mjpeg") then VIDEO_MJPEG else OCTET_STREAM
  | None => OCTET_STREAM
  end.

(** The path a request names, or the error it is refused with. *)
Definition item_path (uri : bytes) : http_err + bytes :=
  if negb (has_prefix (lit "/item/") uri) then inl HTTPD_404 else
  let name := until 63 (drop 6 uri) in
  let name_len := Z.of_nat (length name) in
  if (name_len =? 0) || (NAME_MAX_LEN <=? name_len) then inl HTTPD_404 else
  let path := match name with c :: _ => if c =? 47 then name else 47 :: name | [] => [47] end in
  if has_dotdot path then inl HTTPD_403
  else if negb (has_prefix (lit "/sdcard/") path) then inl HTTPD_403
  else inr path.

(** The streaming loop; [None] is a loop cut short by the fuel. *)
Fixpoint item_stream (fuel : nat) (f : Z) : prog xferE bool :=
  match fuel with
  | O => Ret false
  | S fuel =>
      (let* chunk := call (XSd (fread f ITEM_CHUNK_SIZE)) in
       if (length chunk =? 0)%nat then Ret true else
       let* ok := call (httpd_resp_send_chunk chunk) in
       if negb ok then Ret true else item_stream fuel f)%prog
  end.

(** [item_handler]; the result is false only when the fuel ran out. *)
Definition item_handler (fuel : nat) (uri : bytes) : prog xferE bool :=
  match item_path uri with
  | inl code => call (httpd_resp_send_err code) ;;; Ret true
  | inr path =>
      let* chunk := call (malloc ITEM_CHUNK_SIZE) in
      if negb chunk then call (httpd_resp_send_err HTTPD_500) ;;; Ret true else
      let* f := call (XSd (fopen path MODE_RB)) in
      match f with
      | None => call (httpd_resp_send_err HTTPD_404) ;;; Ret true
      | Some f =>
          call (httpd_resp_set_type (content_type path)) ;;;
          let* done := item_stream fuel f in
          if negb done then Ret false else
          let* _ := call (XSd (ferror f)) in
          let* _ := call (XSd (fclose f)) in
          let* _ := call (httpd_resp_send_chunk []) in
          Ret true
      end
  end%prog.

(** ** POST /consumed *)

(** The receive loop: at most [CONSUMED_BODY_CAP - 1] rounds. *)
Fixpoint recv_body (fuel : nat) (body : bytes) : prog xferE bytes :=
  match fuel with
  | O => Ret body
  | S fuel =>
      if Z.of_nat (length body) <? CONSUMED_BODY_CAP - 1 then
        let* r := call (httpd_req_recv (CONSUMED_BODY_CAP - 1 - Z.of_nat (length body))) in
        let '(n, data) := r in
        if n <=? 0 then Ret body else recv_body fuel (body ++ take (Z.to_nat n) data)
      else Ret body
  end%prog.

Fixpoint delete_all (names : list bytes) : prog xferE unit :=
  match names with
  | [] => Ret tt
  | n :: names => let* _ := sd (sd_store_delete n) in delete_all names
  end%prog.

(** The line is kept: it is too long for the buffer, or does not parse, or
    its path was not consumed. *)
Definition keep_line (names : list bytes) (line : bytes) : bool :=
  if Z.of_nat (length line) <? LINE_BUF_CAP then
    match manifest_parse (cstr line) with
    | Some (path, _, _, _) => negb (existsb (fun n => bool_decide (path = n)) names)
    | None => true
    end
  else true.

(** The trimming loop over the manifest read. *)
Fixpoint trim_loop (fuel : nat) (names : list bytes) (p out : bytes) : bytes :=
  match fuel, p with
  | _, [] => out
  | O, _ => out
  | S fuel, _ =>
      let '(line, nl) := break_nl p in
      let out :=
        if (0 <? length line)%nat then
          if keep_line names line then out ++ line ++ [NL] else out
        else out in
      match nl with None => out | Some p => trim_loop fuel names p out end
  end.

Definition trim_manifest (names : list bytes) (manifest : bytes) : bytes :=
  trim_loop (length manifest) names manifest [].

Definition last_byte (s : bytes) : option Z := last s.

(** The second half of [consumed_handler]: read the manifest, filter it,
    rewrite it, and wake the task when nothing is left. *)
Definition consumed_trim (transfer_task_alive : bool) (names : list bytes) : prog xferE unit :=
  (let* m1 := call (malloc MANIFEST_BUF_CAP) in
   let* m2 := call (malloc MANIFEST_BUF_CAP) in
   if negb m1 || negb m2 then call (httpd_resp_send_err HTTPD_500) else
   let* r := sd (sd_store_read_manifest MANIFEST_BUF_CAP) in
   let manifest := snd r in
   let man_len := Z.of_nat (length manifest) in
   let truncated := (man_len =? MANIFEST_BUF_CAP) && (0 <? man_len) &&
                    negb (bool_decide (last_byte manifest = Some NL)) in
   let new_manifest := trim_manifest names manifest in
   let new_len := if truncated then man_len else Z.of_nat (length new_manifest) in
   let* err := (if truncated then Ret ESP_OK else sd (sd_store_write SD_MANIFEST new_manifest)) in
   if negb (esp_ok err) then call (httpd_resp_send_err HTTPD_500) else
   (if (new_len =? 0) && transfer_task_alive then call xTaskNotifyGive_transfer else Ret tt) ;;;
   call (httpd_resp_send (lit "OK")))%prog.

Definition consumed_handler (transfer_task_alive : bool) : prog xferE unit :=
  (let* body := call (malloc CONSUMED_BODY_CAP) in
   if negb body then call (httpd_resp_send_err HTTPD_500) else
   let* body := recv_body (Z.to_nat (CONSUMED_BODY_CAP - 1)) [] in
   match consumed_parse (cstr body) CONSUMED_MAX_NAMES with
   | None => call (httpd_resp_send_err HTTPD_400)
   | Some names => delete_all names ;;; consumed_trim transfer_task_alive names
   end)%prog.

(** ** The transfer task *)

(** At most [remaining] waits of a second. *)
Fixpoint hold_window (remaining : nat) : prog xferE unit :=
  match remaining with
  | O => Ret tt
  | S remaining =>
      let* n := call (ulTaskNotifyTake 1000) in
      if 0 <? n then Ret tt else hold_window remaining
  end%prog.

Definition s_resume_interval : Z := SNAPSHOT_INTERVAL_S.

Definition teardown (server wifi_started ble_suspended : bool) : prog xferE unit :=
  ((if server then let* _ := call httpd_stop in Ret tt else Ret tt) ;;;
   (if wifi_started then let* _ := call esp_wifi_stop in Ret tt else Ret tt) ;;;
   (if ble_suspended then call ble_link_resume else Ret tt) ;;;
   call (snapshot_set_interval s_resume_interval))%prog.

(** Step 4: the one-time WiFi initialisation; the new [s_wifi_inited], or a
    jump to the teardown. *)
Definition wifi_init_once (s_wifi_inited : bool) : prog xferE (bool * bool) :=
  (if s_wifi_inited then Ret (true, true) else
   let* err := call esp_wifi_init in
   if negb (esp_ok err) then Ret (false, false) else
   let* netif := call esp_netif_create_default_wifi_ap in
   if negb netif then call esp_wifi_deinit ;;; Ret (false, false) else Ret (true, true))%prog.

(** ["OpenRecall-%lu"] in a 32-byte buffer. *)
Definition softap_ssid (boot : Z) : bytes := snprintf 32 (lit "OpenRecall-" ++ dec boot).

(** [transfer_task]; the new values of [s_wifi_inited] and [s_mounted]
    ([s_transfer_task] is cleared at the end). *)
Definition transfer_task (boot : Z) (s_wifi_inited s_mounted : bool) : prog xferE (bool * bool) :=
  (call (snapshot_set_interval 0) ;;;
   call ble_link_suspend ;;;
   let* m := sd (sd_store_mount s_mounted) in
   let '(err, s_mounted) := m in
   if negb (esp_ok err) then teardown false false true ;;; Ret (s_wifi_inited, s_mounted) else
   let* w := wifi_init_once s_wifi_inited in
   let '(ok, s_wifi_inited) := w in
   if negb ok then teardown false false true ;;; Ret (s_wifi_inited, s_mounted) else
   let* err := call esp_wifi_set_mode in
   if negb (esp_ok err) then teardown false false true ;;; Ret (s_wifi_inited, s_mounted) else
   let* err := call (esp_wifi_set_config (softap_ssid boot)) in
   if negb (esp_ok err) then teardown false false true ;;; Ret (s_wifi_inited, s_mounted) else
   let* err := call esp_wifi_start in
   if negb (esp_ok err) then teardown false false true ;;; Ret (s_wifi_inited, s_mounted) else
   let* err := call httpd_start in
   if negb (esp_ok err) then teardown false true true ;;; Ret (s_wifi_inited, s_mounted) else
   call httpd_register_uri_handlers ;;;
   let* _ := call (ulTaskNotifyTake 0) in
   hold_window (Z.to_nat WIFI_TRANSFER_WINDOW_S) ;;;
   teardown true true true ;;;
   Ret (s_wifi_inited, s_mounted))%prog.

(** [transfer_flush]; the new value of [s_transfer_task] (non-NULL). *)
Definition transfer_flush (s_transfer_task : bool) : prog xferE (esp_err_t * bool) :=
  (if s_transfer_task then Ret (ESP_ERR_INVALID_STATE, s_transfer_task) else
   let* ok := call xTaskCreate_transfer in
   if negb ok then Ret (ESP_FAIL, false) else Ret (ESP_OK, true))%prog.

(** ** Traces *)

Definition sd_ev (e : ev xferE) : option (ev sdE) :=
  match e with
  | Ev e x =>
      match e in xferE X return X -> option (ev sdE) with
      | XSd e => fun x => Some (Ev e x)
      | _ => fun _ => None
      end x
  end.
Definition sd_of : list (ev xferE) -> list (ev sdE) := project sd_ev.

Lemma xsd_of_sd u : sd_of (map (lift_ev (fun X => @XSd X)) u) = u.
Proof. apply project_lift. by intros [X e x]. Qed.
Lemma xsd_of_app t1 t2 : sd_of (t1 ++ t2) = sd_of t1 ++ sd_of t2.
Proof. apply project_app. Qed.

(** The bytes of the chunks the client was sent. *)
Definition chunk_of (e : ev xferE) : bytes :=
  match e with
  | Ev e x =>
      match e in xferE X return X -> bytes with
      | httpd_resp_send_chunk d => fun ok => if ok : bool then d else []
      | _ => fun _ => []
      end x
  end.
Definition sent (t : list (ev xferE)) : bytes := concat (map chunk_of t).

(** A path under the mount point, without two consecutive dots. *)
Definition safe_path (path : bytes) : Prop :=
  (exists rest, path = lit "/sdcard/" ++ rest) /\
  (forall i, ~ (path !! i = Some 46 /\ path !! S i = Some 46)).

(** The only calls on the card are reads of files with safe paths that fit
    [path[NAME_MAX_LEN + 2]]. *)
Definition reads_only (e : ev sdE) : Prop :=
  match e with
  | Ev (fopen path mode) _ =>
      mode = MODE_RB /\ safe_path path /\ Z.of_nat (length path) < NAME_MAX_LEN + 2
  | Ev (fread _ _) _ | Ev (ferror _) _ | Ev (fclose _) _ => True
  | _ => False
  end.

(** ** Paths *)

Lemma has_prefix_spec p s : has_prefix p s = true <-> exists r, s = p ++ r.
Proof.
  revert s. induction p as [|a p IH]; intros [|b s]; simpl.
  - split; [by exists []|done].
  - split; [by exists (b :: s)|done].
  - split; [done|by intros (r & ?)].
  - rewrite andb_true_iff, Z.eqb_eq, IH. split.
    + intros [-> (r & ->)]. by exists r.
    + intros (r & [= -> ->]). split; [done|by exists r].
Qed.

Lemma has_dotdot_spec s :
  has_dotdot s = false -> forall i, ~ (s !! i = Some 46 /\ s !! S i = Some 46).
Proof.
  induction s as [|a [|b s] IH]; [by intros _ i [? _]|by intros _ [|i] [_ ?]|].
  cbn [has_dotdot]. intros H [|i].
  - intros [H1 H2]. cbn in H1, H2. by simplify_eq.
  - apply orb_false_iff in H as [_ H]. by apply (IH H i).
Qed.

Lemma until_length c s : (length (until c s) <= length s)%nat.
Proof. induction s as [|a s IH]; [done|]. simpl. case_match; simpl; lia. Qed.

Lemma item_path_safe uri path :
  item_path uri = inr path -> safe_path path /\ Z.of_nat (length path) < NAME_MAX_LEN + 2.
Proof.
  unfold item_path. intros H.
  destruct (has_prefix (lit "/item/") uri); [|done]. cbn [negb] in H.
  destruct ((Z.of_nat (length (until 63 (drop 6 uri))) =? 0) ||
            (NAME_MAX_LEN <=? Z.of_nat (length (until 63 (drop 6 uri))))) eqn:Hl; [done|].
  destruct (has_dotdot _) eqn:Hd; [done|].
  destruct (has_prefix (lit "/sdcard/") _) eqn:Hp; [|done]. cbn [negb] in H. simplify_eq.
  split; [split; [by apply has_prefix_spec|by apply has_dotdot_spec]|].
  unfold NAME_MAX_LEN in *. destruct (until 63 (drop 6 uri)) as [|c n]; [done|].
  apply orb_false_iff in Hl as [_ Hl]. apply Z.leb_gt in Hl. cbn [length] in Hl.
  destruct (c =? 47); cbn [length]; lia.
Qed.

(** Text without a question mark is its own name. *)
Lemma until_id c s : Forall (fun a => a <> c) s -> until c s = s.
Proof.
  induction 1 as [|a s Ha _ IH]; [done|]. simpl. destruct (Z.eqb_spec a c); [done|]. by rewrite IH.
Qed.

Lemma has_dotdot_app_digits ds s :
  Forall digit ds -> has_dotdot s = false -> has_dotdot (ds ++ s) = false.
Proof.
  intros Hd Hs. induction Hd as [|d ds Hd _ IH]; [done|]. cbn [app].
  destruct (ds ++ s) as [|b r] eqn:E; [done|]. cbn [has_dotdot] in *. unfold digit in Hd.
  replace (d =? 46) with false by lia. exact IH.
Qed.

Lemma digit_not_question ds : Forall digit ds -> Forall (fun a => a <> 63) ds.
Proof. intros H. eapply Forall_impl; [exact H|]. unfold digit. simpl. lia. Qed.

(** A capture path, under /item followed by it. *)
Lemma item_path_self p :
  path_ok p -> Forall (fun a => a <> 63) p -> has_dotdot p = false ->
  has_prefix (lit "/sdcard/") p = true -> item_path (lit "/item/" ++ p) = inr p.
Proof.
  intros (Hne & Hl & _) Hq Hd Hp. unfold item_path.
  assert (has_prefix (lit "/item/") (lit "/item/" ++ p) = true) as ->
    by (apply has_prefix_spec; by exists p).
  change (drop 6 (lit "/item/" ++ p)) with p. rewrite (until_id 63 p Hq). cbn [negb].
  assert (0 < length p)%nat by (destruct p; [done|simpl; lia]).
  replace (Z.of_nat (length p) =? 0) with false by lia.
  replace (NAME_MAX_LEN <=? Z.of_nat (length p)) with false by (unfold NAME_MAX_LEN; lia).
  cbn [orb]. pose proof Hp as Hp'. apply has_prefix_spec in Hp' as (r & Hr).
  assert (match p with c :: _ => if c =? 47 then p else 47 :: p | [] => [47] end = p) as ->
    by (rewrite Hr; reflexivity).
  by rewrite Hd, Hp.
Qed.

Lemma has_dotdot_tail a s : has_dotdot (a :: s) = false -> has_dotdot s = false.
Proof. destruct s as [|b s]; [done|]. cbn. intros H. by apply orb_false_iff in H as [_ H]. Qed.

(** Capture paths are served under their own name. *)
Lemma item_path_capture b t s :
  is_u32 b -> is_u32 t -> is_u32 s ->
  item_path (lit "/item/" ++ snapshot_path NAME_MAX_LEN b t s) =
    inr (snapshot_path NAME_MAX_LEN b t s) /\
  item_path (lit "/item/" ++ video_path NAME_MAX_LEN b t s) =
    inr (video_path NAME_MAX_LEN b t s).
Proof.
  intros Hb Ht Hs.
  destruct (dec_spec b Hb) as (Hd1 & _), (dec010_spec t Ht) as (Hd2 & _),
    (dec_spec s Hs) as (Hd3 & _).
  destruct (snapshot_path_full b t s) as [E1 P1]; [done..|].
  destruct (video_path_full b t s) as [E2 P2]; [done..|].
  assert (forall c xs, c <> 46 -> has_dotdot xs = false -> has_dotdot (c :: xs) = false) as Hcons.
  { intros c [|x xs] Hc Hxs; [done|]. cbn [has_dotdot].
    replace (c =? 46) with false by lia. exact Hxs. }
  split; apply item_path_self; try done; rewrite ?E1, ?E2.
  1, 3: rewrite !Forall_app; split_and!; try (by apply digit_not_question);
    repeat constructor; vm_compute; discriminate.
  all: repeat first
    [ apply has_dotdot_app_digits; [assumption|] | apply Hcons; [by vm_compute|] | reflexivity
    | progress cbn [lit String.list_ascii_of_string map app] ].
Qed.

(** ** Streaming a file *)

(** Every allocation, open and send of the trace succeeded. *)
Definition served (e : ev xferE) : Prop :=
  match e with
  | Ev e x =>
      match e in xferE X return X -> Prop with
      | malloc _ => fun ok => ok = true
      | httpd_resp_send_chunk _ => fun ok => ok = true
      | XSd e => fun x =>
          match e in sdE X return X -> Prop with
          | fopen _ _ => fun r => r <> None
          | ferror _ => fun r => r = false
          | _ => fun _ => True
          end x
      | _ => fun _ => True
      end x
  end.

Lemma chunks_app t1 t2 : sent (t1 ++ t2) = sent t1 ++ sent t2.
Proof. unfold sent. by rewrite map_app, concat_app. Qed.

Lemma chunks_cons e t : sent (e :: t) = chunk_of e ++ sent t.
Proof. done. Qed.

Lemma item_stream_spec fuel f t r k k' rest err :
  exec (item_stream fuel f) t r -> fs_trace k (sd_of t) k' ->
  streams k !! f = Some (SRead rest err) ->
  files k' = files k /\ Forall reads_only (sd_of t) /\
  exists rest' err', streams k' !! f = Some (SRead rest' err') /\ (err = true -> err' = true) /\
    sent t `prefix_of` rest /\ ((length rest < fuel)%nat -> r = true) /\
    (r = true -> Forall served t -> err' = false -> sent t = rest).
Proof.
  revert t k rest err. induction fuel as [|fuel IH]; intros t k rest err H Hf Hs.
  { destruct H as [-> ->]. cbn in Hf. subst. split_and!; try done. exists rest, err.
    split_and!; try done; [apply prefix_nil|lia]. }
  cbn [item_stream] in H. apply exec_bind in H as (t1 & t2 & d & -> & Hd & H).
  apply exec_one in Hd as ->. cbn [app] in *.
  change (sd_of (Ev (XSd (fread f ITEM_CHUNK_SIZE)) d :: t2))
    with (Ev (fread f ITEM_CHUNK_SIZE) d :: sd_of t2) in *.
  destruct Hf as (k1 & Hr & Hf). destruct (Hr rest err Hs) as (Hp & e1 & He1 & Hshort & ->).
  change (sent (Ev (XSd (fread f ITEM_CHUNK_SIZE)) d :: t2)) with (sent t2).
  destruct (Nat.eqb_spec (length d) 0) as [H0|H0].
  - apply nil_length_inv in H0 as ->. destruct H as [-> ->]. cbn in Hf. subst. cbn.
    split_and!; [done|by repeat constructor|]. exists rest, e1. simplify_map_eq.
    split_and!; try done; [apply prefix_nil|]. intros _ _ ->.
    destruct rest as [|c rest]; [done|]. exfalso. by discriminate Hshort.
  - apply exec_bind in H as (t3 & t4 & ok & -> & Ho & H). apply exec_one in Ho as ->.
    cbn [app] in *. change (sd_of (Ev (httpd_resp_send_chunk d) ok :: t4)) with (sd_of t4) in *.
    rewrite chunks_cons. destruct Hp as (more & Hmore).
    assert (rest = d ++ drop (length d) rest) as Hsplit.
    { rewrite <-(take_drop (Z.to_nat ITEM_CHUNK_SIZE) rest), Hmore.
      by rewrite <-app_assoc, drop_app_length. }
    destruct ok; cbn [negb chunk_of] in H |- *.
    + destruct (IH _ _ (drop (length d) rest) e1 H Hf) as (Hfi & Hro & rest' & e' & Hst & He & Hpre & Hfu & Hall);
        [by simplify_map_eq|].
      split_and!; [done|by constructor|]. exists rest', e'.
      split_and!; [done|by auto| | |].
      * rewrite Hsplit at 1. by apply prefix_app.
      * intros Hl. apply Hfu. pose proof (f_equal length Hsplit) as Hlen.
        rewrite length_app, length_drop in Hlen. rewrite length_drop. lia.
      * intros Hr' Hsv He'. do 2 apply Forall_cons_1 in Hsv as [_ Hsv].
        rewrite Hall by done. by rewrite <-Hsplit.
    + destruct H as [-> ->]. cbn in Hf. subst. cbn. split_and!; [done|by repeat constructor|].
      exists (drop (length d) rest), e1. simplify_map_eq.
      split_and!; try done; [apply prefix_nil|].
      intros _ Hsv. apply Forall_cons_1 in Hsv as [_ Hsv]. by apply Forall_cons_1 in Hsv as [? _].
Qed.

Lemma item_handler_spec fuel uri t r k k' :
  exec (item_handler fuel uri) t r -> fs_trace k (sd_of t) k' ->
  files k' = files k /\ Forall reads_only (sd_of t) /\
  (forall p, item_path uri = inr p -> forall c, files k !! p = Some c ->
     sent t `prefix_of` c /\ ((length c < fuel)%nat -> r = true) /\
     (r = true -> Forall served t -> sent t = c)) /\
  (forall code, item_path uri = inl code ->
     t = [Ev (httpd_resp_send_err code) tt] /\ r = true).
Proof.
  unfold item_handler. destruct (item_path uri) as [code|path] eqn:Hp.
  { intros H Hf. exec_all H. destruct x. cbn in Hf. subst. split_and!; try done.
    intros code' [= ->]. done. }
  intros H Hf. apply exec_bind in H as (t1 & t2 & ok & -> & H1 & H). apply exec_one in H1 as ->.
  cbn [app] in *. change (sd_of (Ev (malloc ITEM_CHUNK_SIZE) ok :: t2)) with (sd_of t2) in *.
  change (sent (Ev (malloc ITEM_CHUNK_SIZE) ok :: t2)) with (sent t2).
  assert (forall code, inr path = inl code -> Ev (malloc ITEM_CHUNK_SIZE) ok :: t2 =
    [Ev (httpd_resp_send_err code) tt] /\ r = true) as Hno by done.
  destruct ok; cbn [negb] in H.
  2: { exec_all H. cbn in Hf. subst. split_and!; try done. intros p [= <-] c Hc.
       split_and!; [apply prefix_nil|done|]. intros _ Hsv. by apply Forall_cons_1 in Hsv as [? _]. }
  apply exec_bind in H as (t3 & t4 & fo & -> & H3 & H). apply exec_one in H3 as ->. cbn [app] in *.
  change (sd_of (Ev (XSd (fopen path MODE_RB)) fo :: t4))
    with (Ev (fopen path MODE_RB) fo :: sd_of t4) in *.
  change (sent (Ev (XSd (fopen path MODE_RB)) fo :: t4)) with (sent t4).
  destruct (item_path_safe _ _ Hp) as [Hsafe Hlen].
  destruct Hf as (k1 & Ho & Hf). destruct fo as [f|].
  2: { cbn in Ho. subst. exec_all H. cbn in Hf. subst. split_and!; try done; [constructor; [by split_and!|by cbn]|].
       intros p [= <-] c Hc. split_and!; [apply prefix_nil|done|].
       intros _ Hsv. do 2 apply Forall_cons_1 in Hsv as [? Hsv]. by cbn in *. }
  destruct Ho as (Hfr & c0 & Hc0 & ->).
  apply exec_bind in H as (t5 & t6 & [] & -> & H5 & H). apply exec_one in H5 as ->. cbn [app] in *.
  change (sd_of (Ev (httpd_resp_set_type (content_type path)) tt :: t6)) with (sd_of t6) in *.
  change (sent (Ev (httpd_resp_set_type (content_type path)) tt :: t6)) with (sent t6).
  apply exec_bind in H as (t7 & t8 & dn & -> & H7 & H).
  rewrite xsd_of_app in *. apply fs_trace_app in Hf as (k2 & Hf7 & Hf).
  destruct (item_stream_spec _ _ _ _ _ _ c0 false H7 Hf7)
    as (Hfi & Hro & rest' & e' & Hst & _ & Hpre & Hfu & Hall); [by simplify_map_eq|].
  cbn [files] in Hfi. rewrite chunks_app.
  destruct dn; cbn [negb] in H.
  2: { destruct H as [-> ->]. cbn in Hf. subst. rewrite !app_nil_r.
       split_and!; [done|by constructor| |done].
       intros p [= <-] c Hc. simplify_eq. split_and!; [done|exact Hfu|done]. }
  exec_all H. cbn in Hf. destruct Hf as (k3 & [-> Hfe] & k4 & (_ & _ & Hcl) & ->).
  split_and!.
  - rewrite (Hcl _ _ Hst). exact Hfi.
  - constructor; [by split_and!|]. apply Forall_app. split; [done|]. by repeat constructor.
  - intros p [= <-] c Hc. rewrite Hc0 in Hc. injection Hc as <-.
    assert (sent [Ev (XSd (ferror f)) x; Ev (XSd (fclose f)) x0; Ev (httpd_resp_send_chunk []) x1] = [])
      as -> by by destruct x1. rewrite app_nil_r.
    split_and!; [done|done|]. intros _ Hsv.
    do 3 apply Forall_cons_1 in Hsv as [_ Hsv]. apply Forall_app in Hsv as [Hs7 Hsv].
    apply Forall_cons_1 in Hsv as [Hx _]. cbn in Hx. apply Hall; [done|done|].
    by rewrite <-(Hfe _ _ Hst).
  - done.
Qed.

(** ** Trimming the manifest *)

(** The lines [l] as a text. *)
Definition unlines (ls : list bytes) : bytes := concat (map (fun l => l ++ [NL]) ls).

Lemma trim_loop_spec fuel names p out :
  (length p <= fuel)%nat ->
  trim_loop fuel names p out = out ++ unlines (List.filter (keep_line names) (nonempty_lines p)).
Proof.
  revert p out. induction fuel as [|fuel IH]; intros p out Hf.
  all: destruct p as [|c p]; [by rewrite app_nil_r|].
  { simpl in Hf. lia. }
  cbn [trim_loop]. pose proof (break_nl_lines (c :: p)) as Hb. unfold nonempty_lines.
  destruct (break_nl (c :: p)) as [line rest]. destruct Hb as [-> Hr]. cbn [List.filter].
  assert (forall out', match rest with Some p0 => trim_loop fuel names p0 out' | None => out' end =
    out' ++ unlines (List.filter (keep_line names)
      (List.filter (fun l => negb (length l =? 0)%nat) match rest with Some r => lines r | None => [] end)))
    as Hrest.
  { intros out'. destruct rest as [r|]; [|by rewrite app_nil_r]. apply IH. simpl in *. lia. }
  destruct line as [|a line]; cbn [length Nat.ltb Nat.leb Nat.eqb negb].
  - destruct rest; apply Hrest.
  - destruct rest as [r|]; rewrite Hrest; cbn [List.filter]; destruct (keep_line names (a :: line));
      try done; unfold unlines; cbn [map concat]; by rewrite <-?app_assoc.
Qed.

Lemma trim_manifest_spec names m :
  trim_manifest names m = unlines (List.filter (keep_line names) (nonempty_lines m)).
Proof. apply trim_loop_spec. done. Qed.

Lemma unlines_app a b : unlines (a ++ b) = unlines a ++ unlines b.
Proof. unfold unlines. by rewrite map_app, concat_app. Qed.

Lemma unlines_filter_length f ls : (length (unlines (List.filter f ls)) <= length (unlines ls))%nat.
Proof.
  induction ls as [|l ls IH]; [done|]. cbn [List.filter]. destruct (f l);
    unfold unlines in *; cbn [map concat]; rewrite !length_app in *; lia.
Qed.

Lemma unlines_lines m : unlines (lines m) = m ++ [NL].
Proof.
  induction m as [|c m IH]; [done|]. cbn [lines]. destruct (Z.eqb_spec c NL) as [->|Hc].
  - unfold unlines in *. cbn [map concat app]. by rewrite IH.
  - destruct (lines m) as [|l ls]; [by destruct m|]. unfold unlines in *. cbn [map concat app] in *. by rewrite IH.
Qed.

Lemma lines_snoc m : lines (m ++ [NL]) = lines m ++ [[]].
Proof.
  induction m as [|c m IH]; [done|]. cbn [lines app]. rewrite IH. destruct (c =? NL); [done|].
  destruct (lines m) as [|l ls] eqn:E; [|done]. apply (f_equal unlines) in E. rewrite unlines_lines in E. by destruct m.
Qed.

(** The trimmed manifest fits the buffer the manifest was read into, unless
    the whole buffer was read and does not end with a newline. *)
Lemma trim_fits names m cap :
  (length m <= cap)%nat -> (length m = cap -> last m = Some NL) ->
  (length (trim_manifest names m) <= cap)%nat.
Proof.
  intros Hm Hl. rewrite trim_manifest_spec. unfold nonempty_lines.
  etransitivity; [apply unlines_filter_length|].
  destruct (decide (last m = Some NL)) as [Hn|Hn].
  - apply last_Some in Hn as (m' & ->). rewrite lines_snoc, List.filter_app. cbn [List.filter length Nat.eqb negb].
    rewrite app_nil_r. etransitivity; [apply unlines_filter_length|]. rewrite unlines_lines. exact Hm.
  - etransitivity; [apply unlines_filter_length|]. rewrite unlines_lines, length_app. cbn [length].
    assert (length m <> cap) by auto. lia.
Qed.

(** A capture's manifest entry: path, time, boot id and kind. *)
Definition entry : Type := bytes * Z * Z * Z.
Definition entry_ok (e : entry) : Prop :=
  let '(path, ts, boot, kind) := e in
  path_ok path /\ Forall (fun c => c <> 0) path /\ is_u32 ts /\ is_u32 boot /\
  (kind = KIND_SNAP \/ kind = KIND_VIDEO).
Definition entry_line (e : entry) : bytes :=
  let '(path, ts, boot, kind) := e in manifest_line 112 path ts boot kind.
Definition entry_path (e : entry) : bytes := let '(path, _, _, _) := e in path.

Lemma cstr_id s : Forall (fun c => c <> 0) s -> cstr s = s.
Proof.
  induction 1 as [|c s Hc _ IH]; [done|]. simpl. destruct (Z.eqb_spec c 0); [done|]. by rewrite IH.
Qed.

Lemma digits_nonzero ds : Forall digit ds -> Forall (fun c => c <> 0) ds.
Proof. intros Hd. eapply Forall_impl; [exact Hd|]. unfold digit. simpl. lia. Qed.

(** The line of an entry: what it is and whether the trim keeps it. *)
Lemma entry_line_spec names e :
  entry_ok e -> exists l, entry_line e = l ++ [NL] /\ l <> [] /\ Forall (fun c => c <> NL) l /\
    keep_line names l = negb (existsb (fun n => bool_decide (entry_path e = n)) names).
Proof.
  destruct e as [[[path ts] boot] kind]. cbn [entry_ok entry_line entry_path].
  intros (Hp & Hz & Hts & Hb & Hk).
  destruct (manifest_line_full path ts boot kind Hp Hts Hb) as [-> Hl]. eexists. split; [done|].
  destruct (dec_spec ts Hts) as (Hd1 & _), (dec_spec boot Hb) as (Hd2 & _).
  pose proof Hp as (Hne & _ & Hc).
  split_and!.
  - by destruct path.
  - rewrite !Forall_app. split_and!; try (by apply Forall_impl with (1 := digits_plain _ Hd1); intros ? []);
      try (by apply Forall_impl with (1 := digits_plain _ Hd2); intros ? []).
    + by apply Forall_impl with (1 := Hc); intros ? [].
    + by repeat constructor.
    + by repeat constructor.
    + repeat constructor; [done|]. by destruct Hk as [-> | ->].
  - unfold keep_line. rewrite (proj2 (Z.ltb_lt _ LINE_BUF_CAP)) by (unfold LINE_BUF_CAP; lia).
    rewrite cstr_id.
    + pose proof (parse_written path ts boot kind [] Hp Hts Hb Hk) as H0.
      rewrite app_nil_r in H0. by rewrite H0.
    + rewrite !Forall_app. split_and!; try done; try (by apply digits_nonzero); try (by repeat constructor).
      repeat constructor; [done|]. by destruct Hk as [-> | ->].
Qed.

Lemma lines_app_line l m : Forall (fun c => c <> NL) l -> lines (l ++ NL :: m) = l :: lines m.
Proof.
  induction 1 as [|c l Hc _ IH]; [done|]. cbn [app lines]. destruct (Z.eqb_spec c NL); [done|].
  by rewrite IH.
Qed.

(** On a manifest of written lines, the trim drops the entries named and
    keeps the others, in their order and byte for byte. *)
Lemma trim_entries names es :
  Forall entry_ok es ->
  trim_manifest names (concat (map entry_line es)) =
  concat (map entry_line
    (List.filter (fun e => negb (existsb (fun n => bool_decide (entry_path e = n)) names)) es)).
Proof.
  rewrite trim_manifest_spec. unfold nonempty_lines.
  induction 1 as [|e es He _ IH]; [done|]. cbn [map concat].
  destruct (entry_line_spec names e He) as (l & El & Hne & Hnl & Hk).
  rewrite El at 1. rewrite <-app_assoc. cbn [app]. rewrite lines_app_line by done. cbn [List.filter].
  destruct l as [|c l]; [done|]. cbn [length Nat.eqb negb List.filter]. rewrite Hk.
  destruct (existsb _ names); cbn [negb]; [exact IH|]. unfold unlines in *. cbn [map concat].
  by rewrite El, IH.
Qed.

(** ** The consumed handler *)

(** The bytes of the body received. *)
Definition body_of (e : ev xferE) : bytes :=
  match e with
  | Ev e x =>
      match e in xferE X return X -> bytes with
      | httpd_req_recv _ => fun r => take (Z.to_nat (fst r)) (snd r)
      | _ => fun _ => []
      end x
  end.
Definition received (t : list (ev xferE)) : bytes := concat (map body_of t).

(** The server never delivers more than it was asked for. *)
Definition recv_ok (e : ev xferE) : Prop :=
  match e with
  | Ev e x =>
      match e in xferE X return X -> Prop with
      | httpd_req_recv cap => fun r => fst r <= cap
      | _ => fun _ => True
      end x
  end.

(** The card works, and the reads return [m]. *)
Definition card_ok (m : bytes) (e : ev sdE) : Prop :=
  works e /\
  match e with
  | Ev e x =>
      match e in sdE X return X -> Prop with fread _ _ => fun d => d = m | _ => fun _ => True end x
  end.

Lemma card_ok_works m t : Forall (card_ok m) t -> Forall works t.
Proof. intros H. eapply Forall_impl; [exact H|]. by intros e [? _]. Qed.

(** Every allocation succeeded. *)
Definition malloc_ok (e : ev xferE) : Prop :=
  match e with
  | Ev e x =>
      match e in xferE X return X -> Prop with
      | malloc _ => fun ok => ok = true
      | _ => fun _ => True
      end x
  end.

Definition is_notify (e : ev xferE) : bool :=
  match e with Ev xTaskNotifyGive_transfer _ => true | _ => false end.
Definition notified (t : list (ev xferE)) : bool := existsb is_notify t.

(** The trace of calls on the card only. *)
Lemma sd_trace {A} (p : prog sdE A) t r :
  exec (translate (fun X => @XSd X) p) t r ->
  exec p (sd_of t) r /\ received t = [] /\ notified t = false.
Proof.
  intros H. apply exec_translate in H as (u & -> & H). rewrite xsd_of_sd. split; [done|].
  clear H. split; induction u as [|[X e x] u IH]; done.
Qed.

Lemma received_app t1 t2 : received (t1 ++ t2) = received t1 ++ received t2.
Proof. unfold received. by rewrite map_app, concat_app. Qed.
Lemma notified_app t1 t2 : notified (t1 ++ t2) = notified t1 || notified t2.
Proof. apply existsb_app. Qed.

Lemma recv_body_spec fuel body t r :
  exec (recv_body fuel body) t r ->
  r = body ++ received t /\ sd_of t = [] /\ notified t = false /\
  (Forall recv_ok t -> Z.of_nat (length body) <= CONSUMED_BODY_CAP - 1 ->
   Z.of_nat (length r) <= CONSUMED_BODY_CAP - 1).
Proof.
  revert body t. induction fuel as [|fuel IH]; intros body t H.
  { destruct H as [-> ->]. by rewrite app_nil_r. }
  cbn [recv_body] in H. destruct (Z.ltb_spec (Z.of_nat (length body)) (CONSUMED_BODY_CAP - 1)).
  2: { destruct H as [-> ->]. by rewrite app_nil_r. }
  apply exec_bind in H as (t1 & t2 & [n d] & -> & Hr & H1). apply exec_one in Hr as ->.
  cbn [app] in *. unfold received in *. cbn [map concat body_of fst snd].
  destruct (Z.leb_spec n 0).
  - destruct H1 as [-> ->]. replace (Z.to_nat n) with 0%nat by lia. by rewrite !app_nil_r.
  - apply IH in H1 as (-> & Hsd & Hn & Hb). rewrite <-app_assoc. split_and!; try done.
    intros Hok _. apply Forall_cons_1 in Hok as [Hd Hok]. cbn in Hd. rewrite app_assoc.
    apply Hb; [done|]. rewrite length_app, length_take. lia.
Qed.

Lemma delete_all_spec names t r k k' :
  exec (delete_all names) t r -> fs_trace k (sd_of t) k' ->
  received t = [] /\ notified t = false /\ streams k' = streams k /\
  (forall p, p ∉ names -> files k' !! p = files k !! p) /\
  (forall m p, Forall (card_ok m) (sd_of t) -> p ∈ names -> files k' !! p = None).
Proof.
  revert t k. induction names as [|n names IH]; intros t k H Hf.
  { destruct H as [-> ->]. cbn in Hf. subst. split_and!; try done. intros m p _ Hp. by apply elem_of_nil in Hp. }
  cbn [delete_all] in H. apply exec_bind in H as (t1 & t2 & e & -> & H1 & H2).
  apply sd_trace in H1 as (H1 & Hr1 & Hn1). rewrite xsd_of_app in *.
  apply fs_trace_app in Hf as (k1 & Hf1 & Hf2).
  destruct (delete_effect _ _ _ _ _ H1 Hf1) as (Hs1 & Hb1 & Hd1 & _).
  destruct (IH _ _ H2 Hf2) as (Hr2 & Hn2 & Hs2 & Ho2 & Hd2).
  rewrite received_app, notified_app, Hr1, Hn1. split_and!; [done|done|by rewrite Hs2| |].
  - intros p Hp. apply not_elem_of_cons in Hp as [? ?]. rewrite Ho2 by done. by apply Hb1.
  - intros m p Hok Hp. apply Forall_app in Hok as [Hok1 Hok2].
    destruct (decide (p ∈ names)) as [Hin|Hin]; [by eapply Hd2|].
    apply elem_of_cons in Hp as [->|?]; [|done]. rewrite Ho2 by done. apply Hd1.
    by apply (delete_works n (sd_of t1)), (card_ok_works m).
Qed.

Lemma read_manifest_card_ok m cap t err d :
  exec (sd_store_read_manifest cap) t (err, d) -> Forall (card_ok m) t -> d = m.
Proof.
  unfold sd_store_read_manifest. intros H Hok. exec_all H; simplify_eq;
    [|by apply Forall_cons_1 in Hok as [[? _] _]].
  apply Forall_cons_1 in Hok as [_ Hok]. by apply Forall_cons_1 in Hok as [[_ ?] _].
Qed.

(** The names a request consumes, from the bytes received. *)
Definition consumed_names (t : list (ev xferE)) : option (list bytes) :=
  consumed_parse (cstr (received t)) CONSUMED_MAX_NAMES.

(** What the second half does, to the card and to the task. *)
Lemma consumed_trim_spec alive names t k k' :
  exec (consumed_trim alive names) t tt -> fs_trace k (sd_of t) k' ->
  received t = [] /\ (forall p, p <> SD_MANIFEST -> files k' !! p = files k !! p) /\
  (forall m, Forall malloc_ok t -> Forall (card_ok m) (sd_of t) ->
     (Z.of_nat (length m) = MANIFEST_BUF_CAP -> last m = Some NL) ->
     files k' !! SD_MANIFEST = Some (trim_manifest names m) /\
     notified t = (length (trim_manifest names m) =? 0)%nat && alive).
Proof.
  unfold consumed_trim. intros H Hf.
  apply exec_bind in H as (t1 & t2 & m1 & -> & H1 & H). apply exec_one in H1 as ->. cbn [app] in *.
  apply exec_bind in H as (t3 & t4 & m2 & -> & H3 & H). apply exec_one in H3 as ->. cbn [app] in *.
  change (sd_of (Ev (malloc MANIFEST_BUF_CAP) m1 :: Ev (malloc MANIFEST_BUF_CAP) m2 :: t4)) with (sd_of t4) in *.
  destruct (negb m1 || negb m2) eqn:Hm.
  { exec_all H. cbn in Hf. subst. split_and!; try done. intros m Hok _ _.
    apply Forall_cons_1 in Hok as [Ha Hok]. apply Forall_cons_1 in Hok as [Hb _].
    cbn in Ha, Hb. by rewrite Ha, Hb in Hm. }
  apply exec_bind in H as (t5 & t6 & [re d] & -> & H5 & H). apply sd_trace in H5 as (H5 & Hr5 & Hn5).
  rewrite xsd_of_app in *. apply fs_trace_app in Hf as (k1 & Hf1 & Hf).
  destruct (read_manifest_effect _ _ _ _ _ _ H5 Hf1) as (Hfi & _ & _ & _).
  change (received (Ev (malloc MANIFEST_BUF_CAP) m1 :: Ev (malloc MANIFEST_BUF_CAP) m2 :: t5 ++ t6))
    with (received (t5 ++ t6)).
  change (notified (Ev (malloc MANIFEST_BUF_CAP) m1 :: Ev (malloc MANIFEST_BUF_CAP) m2 :: t5 ++ t6))
    with (notified (t5 ++ t6)).
  rewrite received_app, notified_app, Hr5, Hn5. cbn [snd app orb] in *.
  set (trunc := (Z.of_nat (length d) =? MANIFEST_BUF_CAP) && (0 <? Z.of_nat (length d)) &&
                negb (bool_decide (last_byte d = Some NL))) in *.
  apply exec_bind in H as (t7 & t8 & we & -> & H7 & H).
  assert (received t7 = [] /\ notified t7 = false /\
    exists k2, fs_trace k1 (sd_of t7) k2 /\ fs_trace k2 (sd_of t8) k' /\ same_but SD_MANIFEST k1 k2 /\
    forall m, Forall (card_ok m) (sd_of t7) -> trunc = false ->
      we = ESP_OK /\ files k2 !! SD_MANIFEST = Some (trim_manifest names d)) as (Hr7 & Hn7 & k2 & _ & Hf2 & Hsb & Hw).
  { rewrite xsd_of_app in Hf. apply fs_trace_app in Hf as (k2 & Hf2 & Hf3). destruct trunc.
    - destruct H7 as [-> ->]. cbn in Hf2. subst. split_and!; try done. exists k1. by split_and!.
    - apply sd_trace in H7 as (H7 & Hr & Hn). split_and!; try done. exists k2.
      destruct (write_effect _ _ _ _ _ _ H7 Hf2) as (_ & Hsb & Hok & _). split_and!; try done.
      intros m Hm' _. destruct (write_works _ _ _ _ H7 (card_ok_works _ _ Hm')) as [-> Hcl]. split; [done|by apply Hok]. }
  assert (received t8 = [] /\ sd_of t8 = [] /\
    (we = ESP_OK -> notified t8 = ((if trunc then Z.of_nat (length d)
       else Z.of_nat (length (trim_manifest names d))) =? 0) && alive)) as (Hr8 & Hs8 & Hn8).
  { destruct we; cbn [negb esp_ok] in H; exec_all H; split_and!; try done; by rewrite ?Heqb. }
  rewrite Hs8 in Hf2. cbn in Hf2. subst k2. rewrite received_app, notified_app, Hr7, Hn7, Hr8.
  split_and!; [done|by intros p Hp; rewrite <-Hfi; apply Hsb|].
  intros m _ Hok Hl. apply Forall_app in Hok as [Hok5 Hok]. rewrite xsd_of_app in Hok.
  apply Forall_app in Hok as [Hok7 _].
  pose proof (read_manifest_card_ok m _ _ _ _ H5 Hok5) as ->.
  assert (trunc = false) as Ht.
  { subst trunc. destruct (Z.eqb_spec (Z.of_nat (length m)) MANIFEST_BUF_CAP) as [E|E]; [|done].
    unfold last_byte. rewrite bool_decide_true by auto. by rewrite andb_false_r. }
  destruct (Hw m Hok7 Ht) as [-> Hm']. rewrite Ht in Hn8. rewrite Hn8 by done. split; [done|].
  cbn [orb]. f_equal. apply eq_true_iff_eq. rewrite Z.eqb_eq, Nat.eqb_eq. lia.
Qed.

(** Whatever fails, only the files named and the manifest can change; when
    nothing fails, the named files are gone and the manifest is trimmed. *)
Lemma consumed_handler_spec alive t k k' :
  exec (consumed_handler alive) t tt -> fs_trace k (sd_of t) k' ->
  (forall p, p ∉ default [] (consumed_names t) -> p <> SD_MANIFEST -> files k' !! p = files k !! p) /\
  (forall names m, consumed_names t = Some names ->
     Forall malloc_ok t -> Forall (card_ok m) (sd_of t) ->
     (Z.of_nat (length m) = MANIFEST_BUF_CAP -> last m = Some NL) ->
     (forall p, p ∈ names -> p <> SD_MANIFEST -> files k' !! p = None) /\
     files k' !! SD_MANIFEST = Some (trim_manifest names m) /\
     notified t = (length (trim_manifest names m) =? 0)%nat && alive).
Proof.
  unfold consumed_handler. intros H Hf.
  apply exec_bind in H as (t1 & t2 & ok & -> & H1 & H). apply exec_one in H1 as ->. cbn [app] in *.
  change (sd_of (Ev (malloc CONSUMED_BODY_CAP) ok :: t2)) with (sd_of t2) in *.
  change (consumed_names (Ev (malloc CONSUMED_BODY_CAP) ok :: t2)) with (consumed_names t2) in *.
  change (notified (Ev (malloc CONSUMED_BODY_CAP) ok :: t2)) with (notified t2) in *.
  destruct ok; cbn [negb] in H.
  2: { exec_all H; cbn in Hf; subst. split; [done|]. intros names m _ Hok.
       apply Forall_cons_1 in Hok as [? _]. by cbn in *. }
  apply exec_bind in H as (t3 & t4 & body & -> & H3 & H).
  destruct (recv_body_spec _ _ _ _ H3) as (-> & Hsd3 & Hn3 & _). clear H3.
  rewrite xsd_of_app, Hsd3 in *. rewrite notified_app, Hn3. cbn [app orb] in *.
  unfold consumed_names. rewrite received_app.
  destruct (consumed_parse (cstr (received t3)) CONSUMED_MAX_NAMES) as [names|] eqn:Hp.
  2: { exec_all H; cbn in Hf; subst. cbn. rewrite app_nil_r, Hp. by split. }
  apply exec_bind in H as (t5 & t6 & [] & -> & H5 & H). rewrite xsd_of_app in *.
  apply fs_trace_app in Hf as (k1 & Hf5 & Hf6).
  destruct (delete_all_spec _ _ _ _ _ H5 Hf5) as (Hr5 & Hn5 & _ & Ho5 & Hd5).
  destruct (consumed_trim_spec _ _ _ _ _ H Hf6) as (Hr6 & Ho6 & Hm6).
  rewrite !received_app, Hr5, Hr6, !app_nil_r, Hp, notified_app, Hn5. cbn [default orb].
  split; [intros p Hp1 Hp2; rewrite Ho6, Ho5 by done; done|].
  intros names' m [= <-] Hma Hok Hl. apply Forall_app in Hok as [Hok5 Hok6].
  apply Forall_cons_1 in Hma as [_ Hma]. apply Forall_app in Hma as [_ Hma].
  apply Forall_app in Hma as [_ Hma]. destruct (Hm6 m Hma Hok6 Hl) as [Hman Hno].
  split_and!; [|done|done]. intros p Hp1 Hp2. rewrite Ho6 by done. by eapply Hd5.
Qed.

(** ** The window *)

(** Calls other than those that open and close the window. *)
Definition neutral (e : ev xferE) : bool :=
  match e with
  | Ev (snapshot_set_interval _) _ | Ev ble_link_suspend _ | Ev ble_link_resume _
  | Ev esp_wifi_stop _ | Ev httpd_stop _ => false
  | _ => true
  end.

Definition wifi_up (e : ev xferE) : bool :=
  match e with
  | Ev e x =>
      match e in xferE X return X -> bool with
      | esp_wifi_start => fun err => esp_ok err
      | _ => fun _ => false
      end x
  end.

Definition server_up (e : ev xferE) : bool :=
  match e with
  | Ev e x =>
      match e in xferE X return X -> bool with
      | httpd_start => fun err => esp_ok err
      | _ => fun _ => false
      end x
  end.

(** A wait of a second. *)
Definition is_wait (e : ev xferE) : bool :=
  match e with Ev (ulTaskNotifyTake ms) _ => 0 <? ms | _ => false end.
Definition waits (t : list (ev xferE)) : nat := length (List.filter is_wait t).

(** [body] ran between the opening and the closing calls, for [n] waits at
    most; what it brought up is known. *)
Definition during (body : list (ev xferE)) (sv wf : bool) (n : nat) : Prop :=
  forallb neutral body = true /\ existsb server_up body = sv /\ existsb wifi_up body = wf /\
  (waits body <= n)%nat.

Lemma during_app t1 t2 s1 s2 w1 w2 n1 n2 :
  during t1 s1 w1 n1 -> during t2 s2 w2 n2 -> during (t1 ++ t2) (s1 || s2) (w1 || w2) (n1 + n2).
Proof.
  intros (H1 & H2 & H3 & H4) (H5 & H6 & H7 & H8). unfold during, waits in *.
  rewrite forallb_app, !existsb_app, List.filter_app, length_app, H1, H2, H3, H5, H6, H7.
  split_and!; try done. lia.
Qed.

Lemma during_sd {A} (p : prog sdE A) t r :
  exec (translate (fun X => @XSd X) p) t r -> during t false false 0.
Proof.
  intros H. apply exec_translate in H as (u & -> & _). induction u as [|[X e x] u IH]; [done|].
  exact IH.
Qed.

Lemma hold_window_spec n t :
  exec (hold_window n) t tt -> during t false false n.
Proof.
  revert t. induction n as [|n IH]; intros t H; [by destruct H as [-> _]|].
  cbn [hold_window] in H. apply exec_bind in H as (t1 & t2 & x & -> & H1 & H).
  apply exec_one in H1 as ->. change (S n) with (1 + n)%nat.
  apply (during_app [Ev (ulTaskNotifyTake 1000) x] t2 false false false false 1 n); [done|].
  destruct (0 <? x); [|by apply IH]. destruct H as [-> _]. split_and!; try done. cbn. lia.
Qed.

Lemma wifi_init_once_spec i t ok i' :
  exec (wifi_init_once i) t (ok, i') ->
  during t false false 0 /\ (ok = true -> i' = true) /\ (i = true -> t = [] /\ ok = true) /\ (i' = ok).
Proof. unfold wifi_init_once. intros H. exec_all H; simplify_eq; by split_and!. Qed.

(** A whole window: two opening calls, a body, and the closing calls that
    undo exactly what the body brought up, in the opposite order. *)
Definition window (n : nat) (t : list (ev xferE)) : Prop :=
  exists body (sv wf : bool) (e1 e2 : esp_err_t),
    t = [Ev (snapshot_set_interval 0) tt; Ev ble_link_suspend tt] ++ body ++
        (if sv then [Ev httpd_stop e1] else []) ++ (if wf then [Ev esp_wifi_stop e2] else []) ++
        [Ev ble_link_resume tt; Ev (snapshot_set_interval s_resume_interval) tt] /\
    during body sv wf n /\ (sv = true -> wf = true).

Lemma close_window {A} (x : A) body sv wf n t r :
  during body sv wf n -> (sv = true -> wf = true) ->
  exec (teardown sv wf true ;;; Ret x)%prog t r ->
  window n ([Ev (snapshot_set_interval 0) tt; Ev ble_link_suspend tt] ++ body ++ t) /\ r = x.
Proof.
  intros Hd Hsw H. unfold teardown in H. destruct sv, wf; exec_all H; split; try done;
    repeat match goal with u : unit |- _ => destruct u end.
  - exists body, true, true. do 2 eexists. by split_and!.
  - by discriminate Hsw.
  - exists body, false, true, ESP_OK. eexists. by split_and!.
  - exists body, false, false, ESP_OK, ESP_OK. by split_and!.
Qed.

(** The steps of the start-up: each either goes on or closes the window. *)
Lemma during_call {X} (e : xferE X) x body sv wf n :
  neutral (Ev e x) = true -> is_wait (Ev e x) = false -> during body sv wf n ->
  during (body ++ [Ev e x]) (sv || server_up (Ev e x)) (wf || wifi_up (Ev e x)) n.
Proof.
  intros Hn Hw Hb. rewrite <-(Nat.add_0_r n). apply during_app; [done|].
  unfold during, waits. cbn [forallb existsb List.filter]. rewrite Hn, Hw, !orb_false_r.
  by split_and!.
Qed.

Definition inits_wifi (e : ev xferE) : bool :=
  match e with Ev esp_wifi_init _ => true | _ => false end.

Lemma during_mono body sv wf n m : (n <= m)%nat -> during body sv wf n -> during body sv wf m.
Proof. intros Hnm (? & ? & ? & ?). split_and!; try done. lia. Qed.

(** The window with [body] done and [rest] to come. *)
Definition opened (n : nat) (body rest : list (ev xferE)) : Prop :=
  window n ([Ev (snapshot_set_interval 0) tt; Ev ble_link_suspend tt] ++ body ++ rest).

Lemma startup_step {X A} (e : xferE X) (f : X -> prog xferE A) body rest r sv wf n :
  (forall x, neutral (Ev e x) = true) -> (forall x, is_wait (Ev e x) = false) ->
  during body sv wf 0 -> exec (bind (call e) f) rest r ->
  (forall x b rest', during b (sv || server_up (Ev e x)) (wf || wifi_up (Ev e x)) 0 ->
     exec (f x) rest' r -> opened n b rest') ->
  opened n body rest.
Proof.
  intros Hn Hw Hd H Hk. apply exec_bind in H as (t1 & t2 & x & -> & H1 & H). apply exec_one in H1 as ->.
  unfold opened in *. rewrite (app_assoc body).
  eapply Hk; [|exact H]. by apply during_call.
Qed.

Lemma close_early {A} (x : A) body sv wf n rest r :
  during body sv wf 0 -> (sv = true -> wf = true) ->
  exec (teardown sv wf true ;;; Ret x)%prog rest r -> opened n body rest.
Proof.
  intros Hd Hs H. apply (during_mono _ _ _ 0 n) in Hd; [|lia].
  by apply (close_window _ _ _ _ _ _ _ Hd Hs) in H as [? _].
Qed.

(** A step of the start-up; when it failed, the window closes at once. *)
Ltac startup x b rest Hd H :=
  refine (startup_step _ _ _ _ _ _ _ _ _ _ Hd H _); [done|done|];
  clear Hd H; intros x b rest Hd H; cbn [server_up wifi_up orb] in Hd;
  try (destruct (esp_ok x); cbn [negb] in H; [|by refine (close_early _ _ _ _ _ _ _ Hd _ H)]).

(** ** Theorems *)

(** C33. A download request reads one file of the card and nothing else.
    Whatever the URI, the calls on the card are the open (for reading), the
    reads and the close of at most one path, that path lies under /sdcard/,
    has no two consecutive dots and fits [path[NAME_MAX_LEN + 2]], and every
    file of the card is unchanged; what the client is sent is a prefix of
    that file; a refused request sends its error and touches nothing. *)
Theorem item_confined fuel uri t r k k' :
  exec (item_handler fuel uri) t r -> fs_trace k (sd_of t) k' ->
  files k' = files k /\ Forall reads_only (sd_of t) /\
  (forall p c, item_path uri = inr p -> files k !! p = Some c -> sent t `prefix_of` c) /\
  (forall code, item_path uri = inl code -> t = [Ev (httpd_resp_send_err code) tt]).
Proof.
  intros H Hf. destruct (item_handler_spec _ _ _ _ _ _ H Hf) as (Hfi & Hro & Hok & Hno).
  split_and!; [done|done| |].
  - intros p c Hp Hc. by destruct (Hok p Hp c Hc) as [? _].
  - intros code Hp. by destruct (Hno code Hp) as [? _].
Qed.

(** C34. Every capture can be fetched.  The request for the path of a snapshot
    or a video (as the manifest lists it) ends after at most one read more
    than the file has bytes, and when the allocation, the open, the reads and
    the sends succeed the client receives exactly the file. *)
Theorem capture_download_complete fuel boot ts seq p c t r k k' :
  is_u32 boot -> is_u32 ts -> is_u32 seq ->
  p = snapshot_path NAME_MAX_LEN boot ts seq \/ p = video_path NAME_MAX_LEN boot ts seq ->
  files k !! p = Some c -> (length c < fuel)%nat ->
  exec (item_handler fuel (lit "/item/" ++ p)) t r -> fs_trace k (sd_of t) k' ->
  r = true /\ (Forall served t -> sent t = c).
Proof.
  intros Hb Ht Hs Hp Hc Hl H Hf. destruct (item_handler_spec _ _ _ _ _ _ H Hf) as (_ & _ & Hok & _).
  assert (item_path (lit "/item/" ++ p) = inr p) as Hip.
  { destruct (item_path_capture boot ts seq Hb Ht Hs) as [H1 H2]. by destruct Hp as [-> | ->]. }
  destruct (Hok p Hip c Hc) as (_ & Hr & Ha). split; auto.
Qed.

(** Acknowledged captures leave the card, and only they.  Whatever fails,
    [consumed_handler] changes no file but those named in the body and the
    manifest.  When nothing fails and the manifest is made of the lines of
    well-formed captures (8192 bytes at most), the files named are gone, the
    manifest keeps exactly the lines of the captures not named, in order and
    byte for byte, and the window is closed early iff no line is left. *)
Lemma consumed_trims_exactly alive t k k' es :
  exec (consumed_handler alive) t tt -> fs_trace k (sd_of t) k' ->
  (forall p, p ∉ default [] (consumed_names t) -> p <> SD_MANIFEST -> files k' !! p = files k !! p) /\
  (forall names, consumed_names t = Some names ->
     let m := concat (map entry_line es) in
     let left := List.filter
       (fun e => negb (existsb (fun n => bool_decide (entry_path e = n)) names)) es in
     Forall entry_ok es -> Z.of_nat (length m) <= MANIFEST_BUF_CAP ->
     Forall malloc_ok t -> Forall (card_ok m) (sd_of t) ->
     (forall p, p ∈ names -> p <> SD_MANIFEST -> files k' !! p = None) /\
     files k' !! SD_MANIFEST = Some (concat (map entry_line left)) /\
     notified t = (length (concat (map entry_line left)) =? 0)%nat && alive).
Proof.
  intros H Hf. destruct (consumed_handler_spec _ _ _ _ H Hf) as [Ho Hok]. split; [done|].
  intros names Hn m left Hes Hl Hma Hcard. subst left m. rewrite <-(trim_entries names es Hes).
  apply Hok; [done|done|done|]. intros Hfull.
  destruct es as [|e es _] using rev_ind; [by rewrite Hfull in Hl|].
  apply Forall_app in Hes as [_ He]. apply Forall_cons_1 in He as [He _].
  destruct (entry_line_spec [] e He) as (l & El & _).
  rewrite map_app, concat_app. cbn [map concat]. by rewrite El, app_nil_r, app_assoc, last_snoc.
Qed.

Lemma transfer_task_window boot wi m t r :
  exec (transfer_task boot wi m) t r -> window (Z.to_nat WIFI_TRANSFER_WINDOW_S) t.
Proof.
  unfold transfer_task. intros H. set (N := Z.to_nat WIFI_TRANSFER_WINDOW_S) in *.
  apply exec_bind in H as (t1 & t2 & [] & -> & H1 & H). apply exec_one in H1 as ->.
  apply exec_bind in H as (t3 & t4 & [] & -> & H1 & H). apply exec_one in H1 as ->.
  rewrite app_assoc.
  apply exec_bind in H as (t5 & t6 & [em m'] & -> & H1 & H). cbv beta iota in H.
  apply during_sd in H1 as Hd. clear H1. change (opened N t5 t6).
  destruct (esp_ok em); cbn [negb] in H; [|by refine (close_early _ _ _ _ _ _ _ Hd _ H)].
  apply exec_bind in H as (t7 & t8 & [ok wi'] & -> & H1 & H). cbv beta iota in H.
  apply wifi_init_once_spec in H1 as (Hd7 & _).
  pose proof (during_app _ _ _ _ _ _ _ _ Hd Hd7) as Hd8. clear Hd Hd7.
  unfold opened. rewrite (app_assoc t5). change (opened N (t5 ++ t7) t8).
  destruct ok; cbn [negb] in H; [|by refine (close_early _ _ _ _ _ _ _ Hd8 _ H)].
  startup x1 b1 rest1 Hd8 H. startup x2 b2 rest2 Hd8 H. startup x3 b3 rest3 Hd8 H.
  startup x4 b4 rest4 Hd8 H. startup x5 b5 rest5 Hd8 H. startup x6 b6 rest6 Hd8 H.
  apply exec_bind in H as (t9 & t10 & [] & -> & H1 & H). apply hold_window_spec in H1.
  pose proof (during_app _ _ _ _ _ _ _ _ Hd8 H1) as Hd.
  apply (close_window _ _ _ _ _ _ _ Hd) in H as [Hw _]; [|done].
  unfold opened. by rewrite (app_assoc b6).
Qed.

(** C35. A transfer window always closes.  On every path of the transfer task
    (any call may fail) the ambient timer is stopped and BLE suspended first,
    the task waits at most [WIFI_TRANSFER_WINDOW_S] times for a second, and
    the last calls stop the HTTP server iff it was started, then WiFi iff it
    was started, then resume BLE and set the ambient interval; BLE is never
    resumed nor the interval set in between. *)
Theorem window_always_closes boot wi m t r :
  exec (transfer_task boot wi m) t r -> window (Z.to_nat WIFI_TRANSFER_WINDOW_S) t.
Proof. apply transfer_task_window. Qed.

(** ** Witnesses *)

(** Answers to the calls; the state counts the reads and receives so far. *)
Definition xfer_answers (body file : bytes) (X : Type) (e : xferE X) (s : Z) : X * Z :=
  match e in xferE X return X * Z with
  | XSd e =>
      match e in sdE X return X * Z with
      | fread _ _ => ((if s =? 0 then file else []), s + 1)
      | spi_bus_initialize => (ESP_OK, s)
      | esp_vfs_fat_sdspi_mount _ => (ESP_OK, s)
      | spi_bus_free => (tt, s)
      | mkdir _ => (MKDIR_EEXIST, s)
      | fopen _ _ => (Some 1, s)
      | fwrite _ data => (Z.of_nat (length data), s)
      | fputs _ _ => (true, s)
      | ferror _ => (false, s)
      | fflush _ => (true, s)
      | fclose _ => (true, s)
      | unlink _ => (UNLINK_OK, s)
      end
  | httpd_req_recv _ => ((if s =? 0 then (Z.of_nat (length body), body) else (0, [])), 1 - s)
  | malloc _ => (true, s)
  | httpd_resp_send_chunk _ => (true, s)
  | httpd_resp_send_err _ | httpd_resp_set_type _ | httpd_resp_send _ => (tt, s)
  | xTaskNotifyGive_transfer | snapshot_set_interval _ | ble_link_suspend | ble_link_resume => (tt, s)
  | esp_wifi_deinit | httpd_register_uri_handlers => (tt, s)
  | esp_wifi_init | esp_wifi_set_mode | esp_wifi_start | esp_wifi_stop => (ESP_OK, s)
  | esp_wifi_set_config _ => (ESP_OK, s)
  | httpd_start | httpd_stop => (ESP_OK, s)
  | esp_netif_create_default_wifi_ap | xTaskCreate_transfer => (true, s)
  | ulTaskNotifyTake _ => (0, s)
  end.

Definition demo_file : bytes := [255; 216; 255].
Definition demo_snapshot : bytes := snapshot_path NAME_MAX_LEN 7 5000 0.
Definition demo_get : prog xferE bool := item_handler 5 (lit "/item/" ++ demo_snapshot).
Definition demo_before : card := Card {[demo_snapshot := demo_file]} ∅.
Definition demo_after : card :=
  Card {[demo_snapshot := demo_file]}
    (delete 1 (<[1 := SRead [] false]> (<[1 := SRead [] false]>
      (<[1 := SRead demo_file false]> ∅)))).

Definition demo_get_trace : list (ev xferE) := fst (fst (run (xfer_answers [] demo_file) demo_get 0)).

Lemma demo_get_card : fs_trace demo_before (sd_of demo_get_trace) demo_after.
Proof.
  eexists. split; [split; [done|by exists demo_file]|].
  eexists. split; [intros rest err [= <- <-]; split; [done|by exists false]|].
  eexists. split; [intros rest err [= <- <-]; split; [done|by exists false]|].
  eexists. split; [split; [done|by intros rest err [= <- <-]]|].
  eexists. split; [|done]. eapply (fclose_read _ _ 1 [] false). reflexivity.
Qed.

Lemma demo_get_exec : exec demo_get demo_get_trace true.
Proof. apply (run_exec_fst (xfer_answers [] demo_file) demo_get 0). Qed.

Lemma item_confined_witness :
  Forall reads_only (sd_of demo_get_trace) /\ length (sd_of demo_get_trace) = 5%nat.
Proof.
  destruct (item_confined 5 (lit "/item/" ++ demo_snapshot) demo_get_trace true
    demo_before demo_after demo_get_exec demo_get_card) as (_ & H & _).
  split; [exact H|reflexivity].
Defined.

Lemma capture_download_complete_witness : Forall served demo_get_trace /\ sent demo_get_trace = demo_file.
Proof.
  assert (Forall served demo_get_trace) as Hs by (repeat constructor; done).
  split; [exact Hs|].
  refine (proj2 (capture_download_complete 5 7 5000 0 demo_snapshot demo_file demo_get_trace true
    demo_before demo_after _ _ _ (or_introl eq_refl) _ _ demo_get_exec demo_get_card) Hs).
  - clia.
  - clia.
  - clia.
  - reflexivity.
  - simpl. lia.
Defined.

Definition demo_entries : list entry :=
  [(demo_snapshot, 5000, 7, KIND_SNAP); (snapshot_path NAME_MAX_LEN 7 9000 1, 9000, 7, KIND_SNAP)].
Definition demo_manifest : bytes := Eval vm_compute in concat (map entry_line demo_entries).
Definition demo_rest : bytes := Eval vm_compute in concat (map entry_line (drop 1 demo_entries)).
Definition demo_post_trace : list (ev xferE) := Eval vm_compute in
  fst (fst (run (xfer_answers demo_snapshot demo_manifest) (consumed_handler true) 0)).
Definition demo_full : card := Card {[demo_snapshot := demo_file; SD_MANIFEST := demo_manifest]} ∅.

Lemma demo_entries_ok : Forall entry_ok demo_entries.
Proof.
  assert (forall t s, is_u32 t -> is_u32 s ->
    Forall (fun c => c <> 0) (snapshot_path NAME_MAX_LEN 7 t s) ->
    entry_ok (snapshot_path NAME_MAX_LEN 7 t s, t, 7, KIND_SNAP)) as Hok.
  { intros t s Ht Hs Hz. cbn [entry_ok]. split_and!; try done.
    1: apply snapshot_path_full; [clia|done|done]. all: first [clia | by left]. }
  apply Forall_cons_2; [|apply Forall_cons_2; [|constructor]].
  - apply Hok; [clia|clia|]. by apply (bool_decide_unpack _); vm_compute.
  - apply Hok; [clia|clia|]. by apply (bool_decide_unpack _); vm_compute.
Qed.

Lemma demo_post_exec : exec (consumed_handler true) demo_post_trace tt.
Proof.
  assert (demo_post_trace =
    fst (fst (run (xfer_answers demo_snapshot demo_manifest) (consumed_handler true) 0))) as ->
    by (vm_compute; reflexivity).
  apply (run_exec_fst (xfer_answers demo_snapshot demo_manifest) (consumed_handler true) 0).
Qed.

Lemma window_always_closes_witness :
  let t := fst (fst (run (xfer_answers [] []) (transfer_task 7 false false) 0)) in
  window 600 t /\ length (List.filter is_wait t) = 600%nat.
Proof.
  intros t. split; [|by vm_compute].
  exact (window_always_closes 7 false false t _ (run_exec_fst (xfer_answers [] []) (transfer_task 7 false false) 0)).
Defined.
