(* ===== verification/MediaPath.v ===== *)
(** * From the camera to the server: snapshot.c, video_capture.c, sd_store.c,
    media_index.c and transfer.c over one card

    The specification is a ledger: the captures the server has not consumed
    yet, each with the bytes of its file.  Captures and finished clips add to
    it, POST /consumed removes from it, GET /manifest and GET /item read it.
    Here the operations of the modules run one after the other on the card
    ([Fs.v]); their calls on the card succeed, while the mount, the camera and
    the network may fail. *)

From stdpp Require Import gmap strings.
From S2P Require Import Prelude Effects Platform Config Fs MediaIndex SdStore Camera.
From S2P Require Import Snapshot Video Transfer.
Open Scope string_scope.
Open Scope list_scope.
Open Scope Z_scope.

(** ** The specification *)

(** The captures waiting for the server, in the order of the manifest. *)
Abbreviation ledger := (list (entry * bytes)).

Definition paths (L : ledger) : list bytes := map (fun c => entry_path (fst c)) L.
Definition listing (L : ledger) : bytes := concat (map (fun c => entry_line (fst c)) L).
Definition forget (names : list bytes) (L : ledger) : ledger :=
  List.filter (fun c => negb (existsb (fun n => bool_decide (entry_path (fst c) = n)) names)) L.

(** What happens to the card: a turn of the snapshot worker, a clip that the
    video task has written and now lists, and the three requests; each with
    the calls it made. *)
Inductive media_op : Type :=
| OCapture (ts : Z) (t : list (ev snapE)) (err : esp_err_t)
| OClip (p : bytes) (ts b : Z) (d : bytes) (t : list (ev vidE))
| OManifest (t : list (ev xferE))
| OItem (fuel : nat) (uri : bytes) (t : list (ev xferE)) (r : bool)
| OConsumed (alive : bool) (t : list (ev xferE)).

(** The bodies sent whole. *)
Definition resp_of (e : ev xferE) : option bytes :=
  match e with Ev (httpd_resp_send d) _ => Some d | _ => None end.
Definition responses (t : list (ev xferE)) : list bytes := omap resp_of t.

Definition names_of (t : list (ev xferE)) : list bytes := default [] (consumed_names t).

(** The ledger after an operation, and the number of the next snapshot. *)
Inductive ledger_step (boot : Z) : Z * ledger -> media_op -> Z * ledger -> Prop :=
| ls_captured seq L ts t jpg :
    jpg ∈ omap fb_jpeg (cam_of t) ->
    ledger_step boot (seq, L) (OCapture ts t ESP_OK)
      (seq + 1, L ++ [((snapshot_path NAME_MAX_LEN boot ts seq, ts, boot, KIND_SNAP), jpg)])
| ls_no_capture seq L ts t err :
    err <> ESP_OK -> ledger_step boot (seq, L) (OCapture ts t err) (seq, L)
| ls_clip seq L p ts b d t :
    ledger_step boot (seq, L) (OClip p ts b d t) (seq, L ++ [((p, ts, b, KIND_VIDEO), d)])
| ls_manifest seq L t :
    responses t = [listing L] -> ledger_step boot (seq, L) (OManifest t) (seq, L)
| ls_item seq L fuel uri t r :
    (forall e d, (e, d) ∈ L -> uri = lit "/item/" ++ entry_path e -> (length d < fuel)%nat ->
       r = true /\ (Forall served t -> sent t = d)) ->
    ledger_step boot (seq, L) (OItem fuel uri t r) (seq, L)
| ls_consumed seq L alive t :
    consumed_names t <> None ->
    notified t = (length (listing (forget (names_of t) L)) =? 0)%nat && alive ->
    ledger_step boot (seq, L) (OConsumed alive t) (seq, forget (names_of t) L)
| ls_refused seq L alive t :
    consumed_names t = None -> ledger_step boot (seq, L) (OConsumed alive t) (seq, L).

Inductive ledger_run (boot : Z) : Z * ledger -> list media_op -> Z * ledger -> Prop :=
| lr_nil s : ledger_run boot s [] s
| lr_cons s o s1 ops s2 :
    ledger_step boot s o s1 -> ledger_run boot s1 ops s2 -> ledger_run boot s (o :: ops) s2.

(** ** The device *)

(** The names the video task read for the clip it lists. *)
Definition clip_named (p : bytes) (ts b : Z) (e : ev vidE) : Prop :=
  match e with
  | Ev c x =>
      match c in vidE X return X -> Prop with
      | get_path => fun x => x = p
      | get_start_rel_ts_ms => fun x => x = ts
      | boot_id_get => fun x => x = b
      | _ => fun _ => True
      end x
  end.

Inductive media_step (boot : Z) : card * snap_st -> media_op -> card * snap_st -> Prop :=
| ms_capture k st ts t err st' k' :
    exec (snapshot_capture_one boot st ts) t (err, st') -> fs_trace k (Snapshot.sd_of t) k' ->
    media_step boot (k, st) (OCapture ts t err) (k', st')
| ms_clip k st p ts b d t k' :
    exec video_list t tt -> Forall (clip_named p ts b) t ->
    fs_trace (Card (<[p := d]> (files k)) (streams k)) (vsd_of t) k' ->
    media_step boot (k, st) (OClip p ts b d t) (k', st)
| ms_manifest k st t k' :
    exec manifest_handler t tt -> fs_trace k (Transfer.sd_of t) k' ->
    media_step boot (k, st) (OManifest t) (k', st)
| ms_item k st fuel uri t r k' :
    exec (item_handler fuel uri) t r -> fs_trace k (Transfer.sd_of t) k' ->
    media_step boot (k, st) (OItem fuel uri t r) (k', st)
| ms_consumed k st alive t k' :
    exec (consumed_handler alive) t tt -> fs_trace k (Transfer.sd_of t) k' ->
    media_step boot (k, st) (OConsumed alive t) (k', st).

Definition manifest (k : card) : bytes := default [] (files k !! SD_MANIFEST).

(** The request reads the whole manifest, and is not short of memory. *)
Definition manifest_read (k : card) (t : list (ev xferE)) : Prop :=
  Forall malloc_ok t /\ Forall (card_ok (manifest k)) (Transfer.sd_of t) /\
  Z.of_nat (length (manifest k)) <= MANIFEST_BUF_CAP.

(** The card works; times are uint32_t, and a clip is written under a new
    name of video_capture.c. *)
Definition good (k : card) (o : media_op) : Prop :=
  match o with
  | OCapture ts t _ => is_u32 ts /\ Forall works (Snapshot.sd_of t)
  | OClip p ts b _ t =>
      is_u32 ts /\ is_u32 b /\ (exists i, is_u32 i /\ p = video_path NAME_MAX_LEN b ts i) /\
      files k !! p = None /\ Forall works (vsd_of t)
  | OManifest t | OConsumed _ t => manifest_read k t
  | OItem _ _ _ _ => True
  end.

Inductive media_run (boot : Z) : card * snap_st -> list media_op -> card * snap_st -> Prop :=
| mr_nil s : media_run boot s [] s
| mr_cons s o s1 ops s2 :
    media_step boot s o s1 -> good (fst s) o -> media_run boot s1 ops s2 ->
    media_run boot s (o :: ops) s2.

(** The card holds the ledger: the manifest is its listing, every capture's
    file is there, under a name of its own that a request can fetch and the
    next snapshots will not take. *)
Record holds (boot seq : Z) (k : card) (L : ledger) : Prop := {
  hd_manifest : manifest k = listing L;
  hd_files : Forall (fun c => files k !! entry_path (fst c) = Some (snd c)) L;
  hd_entries : Forall (fun c => entry_ok (fst c) /\
    item_path (lit "/item/" ++ entry_path (fst c)) = inr (entry_path (fst c))) L;
  hd_distinct : NoDup (paths L);
  hd_not_manifest : SD_MANIFEST ∉ paths L;
  hd_fresh : forall ts i, is_u32 ts -> seq <= i < 4294967296 ->
    snapshot_path NAME_MAX_LEN boot ts i ∉ paths L;
}.

(** ** The ledger *)

Lemma paths_app L1 L2 : paths (L1 ++ L2) = paths L1 ++ paths L2.
Proof. apply map_app. Qed.
Lemma paths_one e d : paths [(e, d)] = [entry_path e].
Proof. done. Qed.
Lemma listing_app L1 L2 : listing (L1 ++ L2) = listing L1 ++ listing L2.
Proof. unfold listing. by rewrite map_app, concat_app. Qed.

Lemma holds_same boot seq k k' L : files k' = files k -> holds boot seq k L -> holds boot seq k' L.
Proof.
  intros Hf [Hm Hfi He Hd Hn Hfr]. split; try done; [by unfold manifest in *; rewrite Hf|].
  by rewrite Hf.
Qed.

Lemma not_path_in p L (c : entry * bytes) : p ∉ paths L -> c ∈ L -> entry_path (fst c) <> p.
Proof.
  intros Hp Hc <-. apply Hp. unfold paths. apply list_elem_of_fmap. by exists c.
Qed.

(** A capture is stored and listed. *)
Lemma holds_add boot seq seq' k k' L e d :
  holds boot seq k L -> seq <= seq' ->
  manifest k' = manifest k ++ entry_line e -> files k' !! entry_path e = Some d ->
  (forall p, p <> entry_path e -> p <> SD_MANIFEST -> files k' !! p = files k !! p) ->
  entry_ok e -> item_path (lit "/item/" ++ entry_path e) = inr (entry_path e) ->
  entry_path e ∉ paths L -> entry_path e <> SD_MANIFEST ->
  (forall ts i, is_u32 ts -> seq' <= i < 4294967296 -> snapshot_path NAME_MAX_LEN boot ts i <> entry_path e) ->
  holds boot seq' k' (L ++ [(e, d)]).
Proof.
  intros [Hm Hfi He Hd Hn Hfr] Hs Hm' Hst Hoth Hok Hip Hnew Hne Hnext. split.
  - rewrite Hm', Hm, listing_app. unfold listing at 3. cbn. by rewrite app_nil_r.
  - apply Forall_app. split; [|by repeat constructor]. rewrite Forall_forall in *. intros c Hc.
    rewrite Hoth; [by apply Hfi|by eapply not_path_in|by eapply not_path_in].
  - apply Forall_app. split; [done|]. by repeat constructor.
  - rewrite paths_app, paths_one. apply NoDup_app. split_and!; [done| |by apply NoDup_singleton].
    intros p Hp ->%list_elem_of_singleton. done.
  - rewrite paths_app, paths_one, elem_of_app, list_elem_of_singleton. intros [?|?]; [done|congruence].
  - intros ts i Ht Hi. rewrite paths_app, paths_one, elem_of_app, list_elem_of_singleton.
    intros [Hin|Hin]; [|by apply (Hnext ts i)]. apply (Hfr ts i) in Hin; [done|done|lia].
Qed.

Lemma paths_forget names L p : p ∈ paths (forget names L) <-> p ∈ paths L /\ p ∉ names.
Proof.
  unfold paths, forget. rewrite !list_elem_of_fmap. split.
  - intros (c & -> & Hc). apply list_elem_of_In, List.filter_In in Hc as [Hc Hn].
    apply list_elem_of_In in Hc. split; [by exists c|]. intros Hin.
    apply negb_true_iff in Hn. apply (Bool.not_true_iff_false) in Hn. apply Hn, existsb_exists.
    exists (entry_path (fst c)). by rewrite bool_decide_true, <-list_elem_of_In.
  - intros [(c & -> & Hc) Hn]. exists c. split; [done|].
    apply list_elem_of_In, List.filter_In. split; [by apply list_elem_of_In|].
    apply negb_true_iff, Bool.not_true_iff_false. intros (n & Hin & Hb)%existsb_exists.
    apply bool_decide_eq_true in Hb. subst. by apply Hn, list_elem_of_In.
Qed.

(** The files of the captures named are deleted and their lines dropped. *)
Lemma holds_forget boot seq k k' names L :
  holds boot seq k L -> manifest k' = listing (forget names L) ->
  (forall p, p ∉ names -> p <> SD_MANIFEST -> files k' !! p = files k !! p) ->
  holds boot seq k' (forget names L).
Proof.
  intros [Hm Hfi He Hd Hn Hfr] Hm' Hoth.
  assert (forall c, c ∈ forget names L -> c ∈ L) as Hsub.
  { intros c Hc. apply list_elem_of_In, List.filter_In in Hc as [Hc _]. by apply list_elem_of_In. }
  split; [done| | | | |].
  - rewrite Forall_forall in *. intros c Hc.
    assert (entry_path (fst c) ∈ paths (forget names L)) as Hp.
    { unfold paths. apply list_elem_of_fmap. by exists c. }
    apply paths_forget in Hp as [Hp Hnot]. rewrite Hoth; [by apply Hfi, Hsub|done|].
    intros Heq. rewrite Heq in Hp. done.
  - rewrite Forall_forall in *. intros c Hc. by apply He, Hsub.
  - clear -Hd. induction L as [|c L IH]; [done|]. cbn in Hd |- *. apply NoDup_cons in Hd as [Hc Hd].
    destruct (negb _); [|by apply IH]. cbn. apply NoDup_cons. split; [|by apply IH].
    intros Hin. apply Hc. by apply (paths_forget names) in Hin as [? _].
  - by intros [? _]%paths_forget.
  - intros ts i Ht Hi [Hin _]%paths_forget. by apply (Hfr ts i).
Qed.

(** ** The names of captures *)

Lemma snapshot_entry b t s :
  is_u32 b -> is_u32 t -> is_u32 s ->
  entry_ok (snapshot_path NAME_MAX_LEN b t s, t, b, KIND_SNAP) /\
  entry_ok (video_path NAME_MAX_LEN b t s, t, b, KIND_VIDEO).
Proof.
  intros Hb Ht Hs. destruct (snapshot_path_full b t s) as [E1 P1]; [done..|].
  destruct (video_path_full b t s) as [E2 P2]; [done..|].
  destruct (dec_spec b Hb) as (Hd1 & _), (dec010_spec t Ht) as (Hd2 & _), (dec_spec s Hs) as (Hd3 & _).
  split; split_and!; auto; rewrite ?E1, ?E2; rewrite !Forall_app; split_and!;
    try (by apply digits_nonzero); by repeat constructor.
Qed.

Lemma manifest_not_video b t s :
  is_u32 b -> is_u32 t -> is_u32 s -> video_path NAME_MAX_LEN b t s <> SD_MANIFEST.
Proof.
  intros Hb Ht Hs. destruct (video_path_full b t s) as [-> _]; [done..|].
  intros H. apply (f_equal (fun l => nth 8 l 0)) in H. by vm_compute in H.
Qed.

Lemma snapshot_not_video b t s b' t' s' :
  is_u32 b -> is_u32 t -> is_u32 s -> is_u32 b' -> is_u32 t' -> is_u32 s' ->
  snapshot_path NAME_MAX_LEN b t s <> video_path NAME_MAX_LEN b' t' s'.
Proof. intros. by apply capture_paths_distinct. Qed.

(** ** Each operation *)

Lemma works_closed t : Forall works t -> Forall closed_ok t.
Proof. intros H. eapply Forall_impl; [exact H|]. intros [X e x]. by destruct e. Qed.

Lemma capture_step boot k st ts t err st' k' L :
  exec (snapshot_capture_one boot st ts) t (err, st') -> fs_trace k (Snapshot.sd_of t) k' ->
  is_u32 boot -> is_u32 ts -> Forall works (Snapshot.sd_of t) -> 0 <= Snapshot.s_seq st < 4294967295 ->
  holds boot (Snapshot.s_seq st) k L ->
  exists L', ledger_step boot (Snapshot.s_seq st, L) (OCapture ts t err) (Snapshot.s_seq st', L') /\
    holds boot (Snapshot.s_seq st') k' L' /\ Snapshot.s_seq st' <= Snapshot.s_seq st + 1 /\
    0 <= Snapshot.s_seq st'.
Proof.
  intros H Hf Hb Ht Hw Hs HL. assert (is_u32 (Snapshot.s_seq st)) as Hsu by clia.
  destruct (capture_one_outcome _ _ _ _ _ _ _ _ H Hf (works_closed _ Hw) Hb Ht Hsu) as [Ho _].
  remember (Snapshot.s_seq st') as seq' eqn:E. clear E H Hf.
  pose proof (manifest_not_snapshot boot ts _ Hb Ht Hsu) as Hne.
  destruct (snapshot_entry boot ts _ Hb Ht Hsu) as [Hok _].
  destruct (item_path_capture boot ts _ Hb Ht Hsu) as [Hip _].
  inversion Ho as [e He Hfi|Hno _|jpg d Hj Hst Hoth _ Hm]; subst.
  - exists L. split_and!; [by constructor|by eapply holds_same|lia|lia].
  - by destruct (Hno Hw).
  - replace (u32 (Snapshot.s_seq st + 1)) with (Snapshot.s_seq st + 1) by clia.
    eexists. split_and!; [by apply (ls_captured boot _ L ts t jpg)| |lia|lia].
    eapply holds_add; try done; [lia| |by apply (hd_fresh _ _ _ _ HL); [|lia]|].
    + unfold manifest. by rewrite (Hm Hw).
    + intros ts' i Ht' Hi Heq. apply snapshot_path_seq in Heq; [lia|done|done|clia|done|done].
Qed.

Lemma list_step p ts b t k k' :
  exec video_list t tt -> Forall (clip_named p ts b) t -> fs_trace k (vsd_of t) k' ->
  Forall works (vsd_of t) ->
  manifest k' = manifest k ++ entry_line (p, ts, b, KIND_VIDEO) /\ same_but SD_MANIFEST k k'.
Proof.
  unfold video_list. intros H Hc Hf Hw.
  apply exec_bind in H as (t1 & t2 & path & -> & H1 & H). apply exec_one in H1 as ->.
  apply exec_bind in H as (t3 & t4 & ts' & -> & H3 & H). apply exec_one in H3 as ->.
  apply exec_bind in H as (t5 & t6 & b' & -> & H5 & H). apply exec_one in H5 as ->.
  apply exec_bind in H as (t7 & t8 & r & -> & H7 & [-> _]). apply exec_translate in H7 as (u & -> & H7).
  cbn [app] in *. rewrite app_nil_r in *.
  apply Forall_cons_1 in Hc as [Hp Hc]. apply Forall_cons_1 in Hc as [Hts Hc].
  apply Forall_cons_1 in Hc as [Hb _]. cbn in Hp, Hts, Hb. subst path ts' b'.
  change (vsd_of (_ :: _ :: _ :: map _ u)) with (vsd_of (map (lift_ev (fun X => @VSd X)) u)) in Hf, Hw.
  rewrite vsd_of_sd in *. destruct (append_works _ _ _ _ H7 Hw) as [-> Hcl].
  destruct (append_effect _ _ _ _ _ _ H7 Hf) as (_ & Hsame & Happ & _).
  split; [|done]. unfold manifest. by rewrite (Happ eq_refl Hcl).
Qed.

Lemma clip_step boot seq k p ts b d t k' L i :
  exec video_list t tt -> Forall (clip_named p ts b) t ->
  fs_trace (Card (<[p := d]> (files k)) (streams k)) (vsd_of t) k' ->
  is_u32 boot -> 0 <= seq ->
  is_u32 ts -> is_u32 b -> is_u32 i -> p = video_path NAME_MAX_LEN b ts i ->
  files k !! p = None -> Forall works (vsd_of t) ->
  holds boot seq k L -> holds boot seq k' (L ++ [((p, ts, b, KIND_VIDEO), d)]).
Proof.
  intros H Hc Hf Hbo Hs Ht Hb Hi Hp Hnew Hw HL.
  destruct (list_step _ _ _ _ _ _ H Hc Hf Hw) as [Hm Hsame]. clear H Hc Hf Hw.
  pose proof (manifest_not_video b ts i Hb Ht Hi) as Hne. rewrite <-Hp in Hne.
  destruct (snapshot_entry b ts i Hb Ht Hi) as [_ Hok]. rewrite <-Hp in Hok.
  destruct (item_path_capture b ts i Hb Ht Hi) as [_ Hip]. rewrite <-Hp in Hip.
  eapply holds_add; try done.
  - rewrite Hm. unfold manifest. cbn [files]. by rewrite lookup_insert_ne.
  - cbn [entry_path]. rewrite (Hsame p Hne). cbn [files]. by rewrite lookup_insert_eq.
  - cbn [entry_path]. intros q Hq Hqm. rewrite (Hsame q Hqm). cbn [files]. by rewrite lookup_insert_ne.
  - cbn [entry_path]. intros Hin. unfold paths in Hin. apply list_elem_of_fmap in Hin as (c & Hq & Hc).
    pose proof (hd_files _ _ _ _ HL) as Hfi. rewrite Forall_forall in Hfi.
    specialize (Hfi c Hc). cbn in Hfi. rewrite <-Hq in Hfi. congruence.
  - cbn [entry_path]. intros ts' j Ht' Hj. rewrite Hp. apply snapshot_not_video; try done. clia.
Qed.

(** GET /manifest changes nothing and sends what it read. *)
Lemma manifest_handler_spec t k k' :
  exec manifest_handler t tt -> fs_trace k (Transfer.sd_of t) k' ->
  files k' = files k /\
  forall m, Forall malloc_ok t -> Forall (card_ok m) (Transfer.sd_of t) -> responses t = [m].
Proof.
  unfold manifest_handler. intros H Hf.
  apply exec_bind in H as (t1 & t2 & ok & -> & H1 & H). apply exec_one in H1 as ->. cbn [app] in *.
  change (Transfer.sd_of (Ev (Transfer.malloc MANIFEST_BUF_CAP) ok :: t2)) with (Transfer.sd_of t2) in *.
  change (responses (Ev (Transfer.malloc MANIFEST_BUF_CAP) ok :: t2)) with (responses t2).
  destruct ok; cbn [negb] in H.
  2: { exec_all H. cbn in Hf. subst. split; [done|]. intros m Hok. by apply Forall_cons_1 in Hok as [? _]. }
  apply exec_bind in H as (t3 & t4 & [err d] & -> & H3 & H).
  apply exec_translate in H3 as (u & -> & H3). rewrite xsd_of_app, xsd_of_sd in *.
  apply fs_trace_app in Hf as (k1 & Hf1 & Hf).
  destruct (read_manifest_effect _ _ _ _ _ _ H3 Hf1) as (Hfi & _ & -> & _). cbn [esp_ok negb] in H.
  exec_all H. cbn in Hf. subst k1. split; [done|]. intros m _ Hok.
  apply Forall_app in Hok as [Hok _]. rewrite (read_manifest_card_ok _ _ _ _ _ H3 Hok).
  unfold responses. rewrite omap_app. cbn.
  assert (omap resp_of (map (lift_ev (fun X => @XSd X)) u) = []) as ->; [|done].
  clear. induction u as [|[X e x] u IH]; [done|]. exact IH.
Qed.

Lemma item_step boot seq k fuel uri t r k' L :
  exec (item_handler fuel uri) t r -> fs_trace k (Transfer.sd_of t) k' -> holds boot seq k L ->
  ledger_step boot (seq, L) (OItem fuel uri t r) (seq, L) /\ holds boot seq k' L.
Proof.
  intros H Hf HL. destruct (item_handler_spec _ _ _ _ _ _ H Hf) as (Hfi & _ & Hok & _).
  split; [|by eapply holds_same]. apply ls_item. intros e d Hin -> Hl.
  pose proof (hd_files _ _ _ _ HL) as Hfiles. pose proof (hd_entries _ _ _ _ HL) as Hents.
  rewrite Forall_forall in Hfiles, Hents. specialize (Hfiles _ Hin). destruct (Hents _ Hin) as [_ Hip].
  destruct (Hok _ Hip _ Hfiles) as (_ & Hr & Hs). split; [by apply Hr|]. intros Hsv. by apply Hs; [apply Hr|].
Qed.

Lemma listing_entries L : listing L = concat (map entry_line (map fst L)).
Proof. unfold listing. by rewrite map_map. Qed.

Lemma forget_entries names L :
  map fst (forget names L) =
  List.filter (fun e => negb (existsb (fun n => bool_decide (entry_path e = n)) names)) (map fst L).
Proof.
  unfold forget. induction L as [|c L IH]; [done|]. cbn [List.filter map].
  destruct (negb _); cbn [map]; by rewrite IH.
Qed.

Lemma trim_listing names L :
  Forall (fun c => entry_ok (fst c)) L -> trim_manifest names (listing L) = listing (forget names L).
Proof.
  intros He. rewrite !listing_entries, forget_entries. apply trim_entries. by apply Forall_map.
Qed.

Lemma listing_last L n :
  Forall (fun c => entry_ok (fst c)) L -> length (listing L) = S n -> last (listing L) = Some NL.
Proof.
  intros He Hl. destruct L as [|c L _] using rev_ind; [done|].
  apply Forall_app in He as [_ He]. apply Forall_cons_1 in He as [He _].
  destruct (entry_line_spec [] _ He) as (l & El & _).
  rewrite listing_app. unfold listing at 2. cbn. by rewrite El, app_nil_r, app_assoc, last_snoc.
Qed.

(** A body without names is refused before the card is touched. *)
Lemma consumed_refused alive t k k' :
  exec (consumed_handler alive) t tt -> fs_trace k (Transfer.sd_of t) k' -> Forall malloc_ok t ->
  consumed_names t = None -> files k' = files k.
Proof.
  unfold consumed_handler. intros H Hf Hma Hn.
  apply exec_bind in H as (t1 & t2 & ok & -> & H1 & H). apply exec_one in H1 as ->. cbn [app] in *.
  change (Transfer.sd_of (Ev (Transfer.malloc CONSUMED_BODY_CAP) ok :: t2)) with (Transfer.sd_of t2) in *.
  change (consumed_names (Ev (Transfer.malloc CONSUMED_BODY_CAP) ok :: t2)) with (consumed_names t2) in *.
  apply Forall_cons_1 in Hma as [Hok _]. cbn in Hok. subst ok. cbn [negb] in H.
  apply exec_bind in H as (t3 & t4 & body & -> & H3 & H).
  destruct (recv_body_spec _ _ _ _ H3) as (-> & Hsd3 & _). rewrite xsd_of_app, Hsd3 in Hf. cbn [app] in *.
  unfold consumed_names in Hn. rewrite received_app in Hn.
  destruct (consumed_parse (cstr (received t3)) CONSUMED_MAX_NAMES) as [names|] eqn:Hp.
  - exfalso. apply exec_bind in H as (t5 & t6 & [] & -> & H5 & H). rewrite xsd_of_app in Hf.
    apply fs_trace_app in Hf as (k1 & Hf5 & Hf6).
    destruct (delete_all_spec _ _ _ _ _ H5 Hf5) as (Hr5 & _).
    destruct (consumed_trim_spec _ _ _ _ _ H Hf6) as (Hr6 & _).
    by rewrite received_app, Hr5, Hr6, !app_nil_r, Hp in Hn.
  - exec_all H. cbn in Hf. by subst.
Qed.

Lemma consumed_step boot seq k alive t k' L :
  exec (consumed_handler alive) t tt -> fs_trace k (Transfer.sd_of t) k' -> manifest_read k t ->
  holds boot seq k L ->
  exists L', ledger_step boot (seq, L) (OConsumed alive t) (seq, L') /\ holds boot seq k' L'.
Proof.
  intros H Hf (Hma & Hcard & Hcap) HL. pose proof (hd_entries _ _ _ _ HL) as Hents.
  assert (Forall (fun c : entry * bytes => entry_ok (fst c)) L) as He
    by (eapply Forall_impl; [exact Hents|]; by intros c [? _]).
  destruct (consumed_handler_spec _ _ _ _ H Hf) as [Hoth Hok].
  destruct (consumed_names t) as [names|] eqn:Hn.
  - exists (forget (names_of t) L).
    assert (names_of t = names) as Enames by (unfold names_of; by rewrite Hn).
    rewrite (hd_manifest _ _ _ _ HL) in Hcard, Hcap.
    destruct (Hok names (listing L) eq_refl Hma Hcard) as (Hdel & Hman & Hnot).
    { intros Hl. eapply (listing_last L (Z.to_nat (MANIFEST_BUF_CAP - 1))); [done|].
      unfold MANIFEST_BUF_CAP in *. lia. }
    rewrite trim_listing in Hman, Hnot by done. split.
    + apply ls_consumed; [by rewrite Hn|by rewrite Enames].
    + apply (holds_forget boot seq k); [done|unfold manifest; by rewrite Hman, Enames|].
      rewrite Enames. exact Hoth.
  - exists L. split; [by apply ls_refused|]. eapply holds_same; [|done]. by eapply consumed_refused.
Qed.

(** One operation. *)
Lemma media_step_refines boot k st o k' st' L :
  media_step boot (k, st) o (k', st') -> good k o -> is_u32 boot ->
  0 <= Snapshot.s_seq st < 4294967295 -> holds boot (Snapshot.s_seq st) k L ->
  exists L', ledger_step boot (Snapshot.s_seq st, L) o (Snapshot.s_seq st', L') /\
    holds boot (Snapshot.s_seq st') k' L' /\ 0 <= Snapshot.s_seq st' <= Snapshot.s_seq st + 1.
Proof.
  intros Hstep Hg Hb Hs HL.
  inversion Hstep as [? ? ts t err ? ? H Hf|? ? p ts b d t ? H Hc Hf|? ? t ? H Hf
    |? ? fuel uri t r ? H Hf|? ? alive t ? H Hf]; subst; cbn [good] in Hg.
  - destruct Hg as [Ht Hw].
    destruct (capture_step _ _ _ _ _ _ _ _ _ H Hf Hb Ht Hw Hs HL) as (L' & ? & ? & ? & ?). eauto with lia.
  - destruct Hg as (Ht & Hb' & (i & Hi & Hp) & Hnew & Hw). eexists. split_and!; [apply ls_clip| |lia|lia].
    eapply (clip_step boot (Snapshot.s_seq st') k p ts b d t k' L i); (done || lia).
  - destruct Hg as (Hma & Hcard & _). exists L.
    destruct (manifest_handler_spec _ _ _ H Hf) as [Hfi Hresp].
    split_and!; [|by eapply holds_same|lia|lia]. apply ls_manifest.
    rewrite <-(hd_manifest _ _ _ _ HL). by apply Hresp.
  - exists L. destruct (item_step _ _ _ _ _ _ _ _ _ H Hf HL). split_and!; [done|done|lia|lia].
  - destruct (consumed_step _ _ _ _ _ _ _ H Hf Hg HL) as (L' & ? & ?). exists L'. split_and!; [done|done|lia|lia].
Qed.


(** The operations above do not overlap.  When they do, POST /consumed loses
    what is listed between its read and its rewrite of the manifest: the line
    appended there, with success, is not in the manifest that is left. *)
Lemma late_line_is_lost names m line tr u tw k k' :
  exec (sd_store_read_manifest MANIFEST_BUF_CAP) tr (ESP_OK, m) ->
  exec (sd_store_append SD_MANIFEST line) u ESP_OK ->
  exec (sd_store_write SD_MANIFEST (trim_manifest names m)) tw ESP_OK ->
  Forall works tw -> fs_trace k (tr ++ u ++ tw) k' -> manifest k' = trim_manifest names m.
Proof.
  intros _ _ Hw Hwk Hf. rewrite app_assoc in Hf. apply fs_trace_app in Hf as (k1 & _ & Hf).
  destruct (write_effect _ _ _ _ _ _ Hw Hf) as (_ & _ & Hm & _). unfold manifest.
  by rewrite (Hm eq_refl (works_closed _ Hwk)).
Qed.

(** ** A run: two captures listed, one consumed, another one taken *)

Definition demo_second : bytes := snapshot_path NAME_MAX_LEN 7 9000 1.
Definition demo_held : ledger :=
  combine demo_entries [Transfer.demo_file; [255; 216; 9]].
Definition demo_holding : card :=
  Card (<[demo_snapshot := Transfer.demo_file]> (<[demo_second := [255; 216; 9]]>
    (<[SD_MANIFEST := demo_manifest]> ∅))) ∅.

(** The snapshot worker after two captures of boot 7; the clock is at 5 s. *)
Definition demo_worker : snap_st := SnapSt true true 2 true.
Definition demo_capture : prog snapE (esp_err_t * snap_st) := snapshot_capture_one 7 demo_worker 5000.
Definition demo_capture_trace : list (ev snapE) := Eval vm_compute in
  fst (fst (run snap_answers demo_capture tt)).

Lemma demo_capture_exec : exec demo_capture demo_capture_trace (ESP_OK, SnapSt true true 3 true).
Proof.
  assert (demo_capture_trace = fst (fst (run snap_answers demo_capture tt))) as -> by (vm_compute; reflexivity).
  assert ((ESP_OK, SnapSt true true 3 true) = snd (fst (run snap_answers demo_capture tt))) as ->
    by (vm_compute; reflexivity).
  apply (run_exec_fst snap_answers demo_capture tt).
Qed.

Lemma demo_capture_card fs ss :
  ss !! 1 = None -> exists k', fs_trace (Card fs ss) (Snapshot.sd_of demo_capture_trace) k'.
Proof.
  intros Hs. eexists. eexists. split; [reflexivity|]. eexists. split; [split; [done|reflexivity]|].
  eexists. split; [apply fwrite_all; apply lookup_insert_eq|].
  eexists. split; [apply fclose_write; apply lookup_insert_eq|].
  eexists. split; [split; [apply lookup_delete_eq|reflexivity]|].
  eexists. split; [apply fputs_all; apply lookup_insert_eq|].
  eexists. split; [apply fclose_write; apply lookup_insert_eq|]. reflexivity.
Qed.

Lemma demo_post_card :
  exists fs ss, ss !! 1 = None /\
    fs_trace demo_holding (Transfer.sd_of demo_post_trace) (Card fs ss).
Proof.
  eexists _, _. split; [|
    eexists; split; [reflexivity|];
    eexists; split; [split; [done|exists demo_manifest; split; [by vm_compute|reflexivity]]|];
    eexists; split; [intros rest err E; cbn [streams] in E; rewrite lookup_insert_eq in E; injection E as <- <-;
      split; [done|by exists false]|];
    eexists; split; [eapply (fclose_read _ _ 1 [] false); apply lookup_insert_eq|];
    eexists; split; [split; [apply lookup_delete_eq|reflexivity]|];
    eexists; split; [apply fwrite_all; apply lookup_insert_eq|];
    eexists; split; [apply fclose_write; apply lookup_insert_eq|]; reflexivity].
  apply lookup_delete_eq.
Qed.

Lemma demo_holds : holds 7 2 demo_holding demo_held.
Proof.
  assert (paths demo_held = [demo_snapshot; demo_second]) as Hp by (vm_compute; reflexivity).
  split.
  - vm_compute. reflexivity.
  - by apply (bool_decide_unpack _); vm_compute.
  - pose proof demo_entries_ok as He. unfold demo_entries in He.
    apply Forall_cons_1 in He as [H1 He]. apply Forall_cons_1 in He as [H2 _].
    repeat constructor; try done; by vm_compute.
  - rewrite Hp. by apply (bool_decide_unpack _); vm_compute.
  - rewrite Hp. by apply (bool_decide_unpack _); vm_compute.
  - rewrite Hp. intros ts i Ht Hi.
    rewrite elem_of_cons, list_elem_of_singleton.
    intros [H|H]; apply snapshot_path_seq in H; (lia || clia).
Qed.

Definition demo_ops : list media_op :=
  [OConsumed true demo_post_trace; OCapture 5000 demo_capture_trace ESP_OK].

Lemma demo_run :
  exists k', media_run 7 (demo_holding, demo_worker) demo_ops (k', SnapSt true true 3 true).
Proof.
  destruct demo_post_card as (fs & ss & Hss & Hpost).
  destruct (demo_capture_card fs ss Hss) as (k' & Hcap). exists k'.
  apply (mr_cons _ _ _ (Card fs ss, demo_worker)).
  - apply ms_consumed; [apply demo_post_exec|exact Hpost].
  - cbn [good fst]. split_and!; [by repeat constructor| |by vm_compute].
    replace (manifest demo_holding) with demo_manifest by (vm_compute; reflexivity).
    repeat constructor; done.
  - apply (mr_cons _ _ _ (k', SnapSt true true 3 true)); [| |constructor].
    + apply ms_capture; [apply demo_capture_exec|exact Hcap].
    + split; [clia|]. repeat constructor; done.
Qed.

