(* ===== verification/Battery.v ===== *)
(** * battery.c: the battery monitor

    One oversampled reading of the divider, the coarse percentage, and the
    telemetry frame pushed over the acknowledgement characteristic, with the
    wake reason carried until one frame has been delivered. *)

From stdpp Require Import sets strings.
From S2P Require Import Prelude Effects Platform Config Fs MediaIndex.
Open Scope string_scope.
Open Scope list_scope.
Open Scope Z_scope.

Inductive batE : Type -> Type :=
| adc_oneshot_new_unit : batE esp_err_t
| adc_oneshot_config_channel : batE esp_err_t
| adc_cali_create_scheme_curve_fitting : batE esp_err_t
| adc_oneshot_read : batE (esp_err_t * Z)  (** the raw count, when ESP_OK *)
| adc_cali_raw_to_voltage (raw : Z) : batE Z  (** millivolts at the pin *)
| ble_link_notify_ack (data : bytes) : batE Z
| vTaskDelay (ms : Z) : batE unit
| xTaskCreate_monitor : batE unit.

#[local] Abbreviation call := (Effects.call (E := batE)).

(** The statics: [s_adc] and [s_cali] as non-NULL flags. *)
Record bat_st : Type := BatSt {
  s_adc : bool; s_cali : bool; s_latest_mv : Z; s_wake_from_button : bool }.

(** [s_adc] is set by a successful [adc_oneshot_new_unit]. *)
Definition battery_init (st : bat_st) : prog batE (esp_err_t * bat_st) :=
  (let* err := call adc_oneshot_new_unit in
   if negb (esp_ok err) then Ret (err, st) else
   let st := BatSt true (s_cali st) (s_latest_mv st) (s_wake_from_button st) in
   let* err := call adc_oneshot_config_channel in
   if negb (esp_ok err) then Ret (err, st) else
   let* err := call adc_cali_create_scheme_curve_fitting in
   Ret (ESP_OK, BatSt true (esp_ok err) (s_latest_mv st) (s_wake_from_button st)))%prog.

(** ** Reading *)

(** The sampling loop. *)
Fixpoint sample (n : nat) : prog batE (list Z) :=
  match n with
  | O => Ret []
  | S n =>
      let* r := call adc_oneshot_read in
      let v := if esp_ok (fst r) then snd r else 0 in
      call (vTaskDelay 1) ;;;
      let* raw := sample n in
      Ret (v :: raw)
  end%prog.

(** The reduction loop: minimum, maximum and sum. *)
Definition reduce (raw : list Z) : Z * Z * Z :=
  match raw with
  | [] => (0, 0, 0)
  | r0 :: _ =>
      fold_left (fun '(mn, mx, sum) r =>
        (if r <? mn then r else mn, if mx <? r then r else mx, sum + r)) raw (r0, r0, 0)
  end.

(** The average without the lowest and the highest sample. *)
Definition oversample_avg (raw : list Z) : Z :=
  let '(mn, mx, sum) := reduce raw in Z.quot (sum - mn - mx) (BATTERY_OVERSAMPLE - 2).

(** [(int)(vadc_mv * 2.0f + 0.5f)], exact in float for counts of this size. *)
Definition vbat_of (vadc_mv : Z) : Z := Z.quot (4 * vadc_mv + 1) 2.

Definition battery_read_mv (st : bat_st) : prog batE Z :=
  (if negb (s_adc st) then Ret 0 else
   let* raw := sample (Z.to_nat BATTERY_OVERSAMPLE) in
   let avg := oversample_avg raw in
   let* vadc_mv := (if s_cali st then call (adc_cali_raw_to_voltage avg)
                    else Ret (Z.quot (avg * 2500) 4095)) in
   Ret (vbat_of vadc_mv))%prog.

Definition battery_percent (vbat_mv : Z) : Z :=
  if vbat_mv <=? VBAT_MIN_MV then 0
  else if VBAT_FULL_MV <=? vbat_mv then 100
  else
    let pct := Z.quot ((vbat_mv - VBAT_MIN_MV) * 100) (VBAT_FULL_MV - VBAT_MIN_MV) in
    let pct := if pct <? 0 then 0 else pct in
    if 100 <? pct then 100 else pct.

(** ** Telemetry *)

Definition battery_mark_wake_from_button (st : bat_st) : bat_st :=
  BatSt (s_adc st) (s_cali st) (s_latest_mv st) true.

(** Text with ['] for the double quote of the JSON. *)
Definition json (s : string) : bytes := map (fun c => if c =? 39 then 34 else c) (lit s).

(** [pct_str]: ["1.00"] or ["0.%02u"] in 8 bytes. *)
Definition pct_str (pct : Z) : bytes :=
  if 100 <=? pct then lit "1.00" else snprintf 8 (lit "0." ++ dec_pad 2 pct []).

(** The text of the frame, before it is cut to the buffer. *)
Definition telemetry_json (pct : Z) (state : bytes) (wake : bool) : bytes :=
  json "{'type':'telemetry','battery_pct':" ++ pct_str pct ++ json ",'state':'" ++ state ++
  (if wake then json "','wake_reason':'button'}" else json "'}").

Definition telemetry_notify (mv : Z) (state : bytes) (st : bat_st) : prog batE bat_st :=
  (let text := telemetry_json (battery_percent mv) state (s_wake_from_button st) in
   let n := Z.of_nat (length text) in
   if (0 <? n) && (n <? 128) then
     let* r := call (ble_link_notify_ack (snprintf 128 text)) in
     if r =? 0 then Ret (BatSt (s_adc st) (s_cali st) (s_latest_mv st) false) else Ret st
   else Ret st)%prog.

Definition battery_notify_sleeping (st : bat_st) : prog batE bat_st :=
  let mv := s_latest_mv st in
  if mv <=? 0 then Ret st else telemetry_notify mv (lit "sleeping") st.

(** One round of the monitor task. *)
Definition battery_monitor_round (st : bat_st) : prog batE bat_st :=
  (let* mv := battery_read_mv st in
   let* st := (if 0 <? mv then
                 telemetry_notify mv (lit "active") (BatSt (s_adc st) (s_cali st) mv (s_wake_from_button st))
               else Ret st) in
   call (vTaskDelay (BATTERY_SAMPLE_INTERVAL_S * 1000)) ;;;
   Ret st)%prog.

Fixpoint battery_monitor_task (n : nat) (st : bat_st) : prog batE bat_st :=
  match n with
  | O => Ret st
  | S n => let* st := battery_monitor_round st in battery_monitor_task n st
  end%prog.

Definition battery_start_monitor : prog batE unit := call xTaskCreate_monitor.
Definition battery_latest_mv (st : bat_st) : Z := s_latest_mv st.

(** The frames the module sends, in any order of its two callers. *)
Inductive bat_op : Type := BRound | BSleeping.
Fixpoint bat_run (ops : list bat_op) (st : bat_st) : prog batE bat_st :=
  match ops with
  | [] => Ret st
  | BRound :: ops => let* st := battery_monitor_round st in bat_run ops st
  | BSleeping :: ops => let* st := battery_notify_sleeping st in bat_run ops st
  end%prog.

(** ** The reading *)

Lemma reduce_spec raw :
  raw <> [] ->
  let '(mn, mx, sum) := reduce raw in
  mn ∈ raw /\ mx ∈ raw /\ Forall (fun r => mn <= r <= mx) raw /\ sum = foldr Z.add 0 raw.
Proof.
  destruct raw as [|r0 raw]; [done|]. intros _. unfold reduce.
  assert (forall l mn mx sum, mn <= mx ->
    let '(mn', mx', sum') := fold_left (fun '(mn, mx, sum) r =>
        (if r <? mn then r else mn, if mx <? r then r else mx, sum + r)) l (mn, mx, sum) in
    (mn' ∈ mn :: l) /\ (mx' ∈ mx :: l) /\ mn' <= mn /\ mx <= mx' /\
    Forall (fun r => mn' <= r <= mx') l /\ sum' = sum + foldr Z.add 0 l) as H.
  { induction l as [|r l IH]; intros mn mx sum Hm; cbn [fold_left].
    { split_and!; first [lia | by left | by constructor | simpl; lia]. }
    specialize (IH (if r <? mn then r else mn) (if mx <? r then r else mx) (sum + r)).
    destruct (fold_left _ l _) as [[mn' mx'] sum'].
    destruct IH as (I1 & I2 & I3 & I4 & I5 & I6); [destruct (Z.ltb_spec r mn), (Z.ltb_spec mx r); lia|].
    split_and!.
    - destruct (r <? mn); set_solver.
    - destruct (mx <? r); set_solver.
    - destruct (Z.ltb_spec r mn); lia.
    - destruct (Z.ltb_spec mx r); lia.
    - constructor; [destruct (Z.ltb_spec r mn), (Z.ltb_spec mx r); lia|done].
    - rewrite I6. cbn [foldr]. lia. }
  specialize (H (r0 :: raw) r0 r0 0 ltac:(lia)). destruct (fold_left _ (r0 :: raw) _) as [[mn mx] sum].
  destruct H as (H1 & H2 & _ & _ & H5 & H6). split_and!; [set_solver|set_solver|done|lia].
Qed.

Lemma sum_bounds lo hi l :
  Forall (fun r => lo <= r <= hi) l ->
  lo * Z.of_nat (length l) <= foldr Z.add 0 l <= hi * Z.of_nat (length l).
Proof. induction 1 as [|r l Hr _ IH]; [simpl; lia|]. cbn [foldr length]. lia. Qed.

Lemma sum_perm l l' : l ≡ₚ l' -> foldr Z.add 0 l = foldr Z.add 0 l'.
Proof. induction 1; simpl in *; lia. Qed.

(** The lowest and the highest sample taken out, the rest remains. *)
Lemma trim_extremes (mn mx : Z) raw :
  mn ∈ raw -> mx ∈ raw -> (2 <= length raw)%nat -> Forall (fun r => mn <= r <= mx) raw ->
  exists rest, raw ≡ₚ mn :: mx :: rest.
Proof.
  intros Hmn Hmx Hl Hf. apply list_elem_of_split in Hmn as (l1 & l2 & ->).
  assert (mx ∈ l1 ++ l2) as Hin.
  { destruct (l1 ++ l2) as [|r l] eqn:E.
    - apply (f_equal length) in E. rewrite length_app in *. cbn in *. lia.
    - destruct (decide (mx = mn)) as [->|Hne].
      + assert (r ∈ l1 ++ mn :: l2) as Hr.
        { assert (r ∈ l1 ++ l2) as Hr by (rewrite E; by left). set_solver. }
        rewrite Forall_forall in Hf. specialize (Hf r Hr). assert (r = mn) as -> by lia. by left.
      + rewrite <-E. set_solver. }
  apply list_elem_of_split in Hin as (l3 & l4 & E). exists (l3 ++ l4).
  rewrite <-(Permutation_middle l1), E. by rewrite <-(Permutation_middle l3).
Qed.

(** The average lies between any bounds the samples respect, and what is
    dropped is one lowest and one highest sample. *)
Lemma oversample_avg_spec raw lo hi :
  length raw = Z.to_nat BATTERY_OVERSAMPLE -> 0 <= lo ->
  Forall (fun r => lo <= r <= hi) raw -> lo <= oversample_avg raw <= hi.
Proof.
  intros Hl Hlo Hf. unfold oversample_avg.
  assert (raw <> []) as Hne by by (intros ->).
  pose proof (reduce_spec raw Hne) as H. destruct (reduce raw) as [[mn mx] sum].
  destruct H as (Hmn & Hmx & Hb & ->).
  destruct (trim_extremes mn mx raw Hmn Hmx) as (rest & Hp); [rewrite Hl; apply (Nat.leb_le 2 64); reflexivity|done|].
  rewrite (sum_perm _ _ Hp). cbn [foldr].
  assert (length raw = 64%nat) as Hl64 by by rewrite Hl.
  apply Permutation_length in Hp as Hl'. rewrite Hl64 in Hl'. cbn [length] in Hl'.
  rewrite Hp in Hf. do 2 apply Forall_cons_1 in Hf as [_ Hf].
  pose proof (sum_bounds _ _ _ Hf) as Hs. assert (length rest = 62%nat) as Hr by lia. rewrite Hr in Hs.
  unfold BATTERY_OVERSAMPLE.
  replace (mn + (mx + foldr Z.add 0 rest) - mn - mx) with (foldr Z.add 0 rest) by lia.
  rewrite Z.quot_div_nonneg by lia. split.
  - apply Z.div_le_lower_bound; lia.
  - apply Z.div_le_upper_bound; lia.
Qed.

(** The percentage is within 0..100 and grows with the voltage. *)
Lemma battery_percent_spec mv : 0 <= battery_percent mv <= 100.
Proof.
  unfold battery_percent, VBAT_MIN_MV, VBAT_FULL_MV.
  destruct (Z.leb_spec mv 3000); [lia|]. destruct (Z.leb_spec 4100 mv); [lia|].
  rewrite Z.quot_div_nonneg by lia. change (4100 - 3000) with 1100.
  assert (0 <= (mv - 3000) * 100 / 1100 < 100) as Hq.
  { split; [apply Z.div_pos; lia|apply Z.div_lt_upper_bound; lia]. }
  destruct (Z.ltb_spec ((mv - 3000) * 100 / 1100) 0); [lia|].
  destruct (Z.ltb_spec 100 ((mv - 3000) * 100 / 1100)); lia.
Qed.

Lemma battery_percent_mono a b : a <= b -> battery_percent a <= battery_percent b.
Proof.
  intros Hab. pose proof (battery_percent_spec a). pose proof (battery_percent_spec b).
  unfold battery_percent, VBAT_MIN_MV, VBAT_FULL_MV in *.
  destruct (Z.leb_spec a 3000); [lia|]. destruct (Z.leb_spec 4100 b).
  { destruct (Z.leb_spec b 3000); lia. }
  destruct (Z.leb_spec b 3000); [lia|]. destruct (Z.leb_spec 4100 a); [lia|].
  rewrite !Z.quot_div_nonneg in * by lia. change (4100 - 3000) with 1100 in *.
  pose proof (Z.div_le_mono ((a - 3000) * 100) ((b - 3000) * 100) 1100 ltac:(lia) ltac:(lia)).
  repeat case_match; lia.
Qed.

(** ** Telemetry *)

(** The frames handed to the link, and what it returned. *)
Definition frame_of (e : ev batE) : option (bytes * Z) :=
  match e with
  | Ev c x =>
      match c in batE X return X -> option (bytes * Z) with
      | ble_link_notify_ack d => fun r => Some (d, r)
      | _ => fun _ => None
      end x
  end.
Definition frames (t : list (ev batE)) : list (bytes * Z) := omap frame_of t.

Lemma frames_app t1 t2 : frames (t1 ++ t2) = frames t1 ++ frames t2.
Proof. apply omap_app. Qed.

(** [wake] after a frame was answered by [r]. *)
Definition wake_next (wake : bool) (f : bytes * Z) : bool := wake && negb (snd f =? 0).

(** A frame of the device: a percentage, one of two states, and the wake
    reason iff it is still to be reported. *)
Definition frame_ok (wake : bool) (d : bytes) : Prop :=
  exists mv state, 0 < mv /\ (state = lit "active" \/ state = lit "sleeping") /\
    d = telemetry_json (battery_percent mv) state wake.

Fixpoint frames_ok (wake : bool) (fs : list (bytes * Z)) : Prop :=
  match fs with
  | [] => True
  | f :: fs => frame_ok wake (fst f) /\ frames_ok (wake_next wake f) fs
  end.

Lemma frames_ok_app wake fs gs :
  frames_ok wake (fs ++ gs) <-> frames_ok wake fs /\ frames_ok (foldl wake_next wake fs) gs.
Proof. revert wake. induction fs as [|f fs IH]; intros wake; simpl; [tauto|]. rewrite IH. tauto. Qed.

Lemma pct_str_length pct : 0 <= pct <= 100 -> (length (pct_str pct) <= 4)%nat.
Proof.
  intros Hp. unfold pct_str. destruct (Z.leb_spec 100 pct); [done|].
  destruct (dec_pad_spec 2 pct []) as (ds & -> & _ & Hl & _); [simpl; lia|].
  unfold snprintf. rewrite length_take, !length_app, Hl. cbn [length lit String.list_ascii_of_string map]. lia.
Qed.

(** Every frame fits the 128-byte buffer and opens with a brace. *)
Lemma frame_fits wake d : frame_ok wake d -> (0 < length d < 128)%nat /\ head d = Some 123.
Proof.
  intros (mv & state & _ & Hs & ->). pose proof (pct_str_length _ (battery_percent_spec mv)) as Hp.
  split; [|done]. unfold telemetry_json. rewrite !length_app.
  assert (length state <= 8)%nat by (destruct Hs as [-> | ->]; vm_compute; lia).
  assert (length (json "{'type':'telemetry','battery_pct':") = 34%nat) as -> by reflexivity.
  assert (length (json ",'state':'") = 10%nat) as -> by reflexivity.
  destruct wake.
  - assert (length (json "','wake_reason':'button'}") = 25%nat) as -> by reflexivity. lia.
  - assert (length (json "'}") = 2%nat) as -> by reflexivity. lia.
Qed.

(** What one call of the module adds: its frames, and the flag after them. *)
Definition reports (st : bat_st) (t : list (ev batE)) (st' : bat_st) : Prop :=
  frames_ok (s_wake_from_button st) (frames t) /\
  s_wake_from_button st' = foldl wake_next (s_wake_from_button st) (frames t).

Lemma telemetry_reports mv state st t st' :
  0 < mv -> state = lit "active" \/ state = lit "sleeping" ->
  exec (telemetry_notify mv state st) t st' -> reports st t st'.
Proof.
  intros Hmv Hs H. unfold telemetry_notify in H.
  set (text := telemetry_json (battery_percent mv) state (s_wake_from_button st)) in *.
  assert (frame_ok (s_wake_from_button st) text)
    as Hok by (exists mv, state; exact (conj Hmv (conj Hs eq_refl))).
  destruct (frame_fits _ _ Hok) as [Hl _].
  rewrite (proj2 (Z.ltb_lt 0 _)), (proj2 (Z.ltb_lt _ 128)) in H by lia. cbn [andb] in H.
  unfold snprintf in H. rewrite take_ge in H by lia.
  apply exec_bind in H as (t1 & t2 & r & -> & H1 & H). apply exec_one in H1 as ->.
  assert (frames ([Ev (ble_link_notify_ack text) r] ++ t2) = [(text, r)] /\
    s_wake_from_button st' = s_wake_from_button st && negb (r =? 0)) as [Hf Hw].
  { destruct (r =? 0); destruct H as [-> ->]; split; try done.
    - by rewrite andb_false_r.
    - by rewrite andb_true_r. }
  unfold reports. rewrite Hf, Hw. by split.
Qed.

Lemma sample_spec n t raw : exec (sample n) t raw -> frames t = [] /\ length raw = n.
Proof.
  revert t raw. induction n as [|n IH]; intros t raw H; [by destruct H as [-> ->]|].
  cbn [sample] in H. apply exec_bind in H as (t1 & t2 & r & -> & H1 & H). apply exec_one in H1 as ->.
  apply exec_bind in H as (t3 & t4 & u & -> & H3 & H). apply exec_one in H3 as ->.
  apply exec_bind in H as (t5 & t6 & l & -> & H5 & [-> ->]). apply IH in H5 as [Hf <-].
  rewrite app_nil_r. by split.
Qed.

Lemma read_no_frames st t mv : exec (battery_read_mv st) t mv -> frames t = [].
Proof.
  unfold battery_read_mv. intros H. destruct (negb (s_adc st)); [by destruct H as [-> _]|].
  apply exec_bind in H as (t1 & t2 & raw & -> & H1 & H). apply sample_spec in H1 as [H1 _].
  apply exec_bind in H as (t3 & t4 & v & -> & H3 & [-> _]). rewrite !frames_app, H1.
  destruct (s_cali st); [by apply exec_one in H3 as ->|by destruct H3 as [-> _]].
Qed.

Lemma round_reports st t st' : exec (battery_monitor_round st) t st' -> reports st t st'.
Proof.
  unfold battery_monitor_round. intros H.
  apply exec_bind in H as (t1 & t2 & mv & -> & H1 & H). apply read_no_frames in H1.
  apply exec_bind in H as (t3 & t4 & st1 & -> & H3 & H).
  apply exec_bind in H as (t5 & t6 & u & -> & H5 & [-> ->]). apply exec_one in H5 as ->.
  unfold reports. rewrite !frames_app, H1. cbn [frames omap list_omap frame_of app]. rewrite app_nil_r.
  destruct (Z.ltb_spec 0 mv).
  - apply telemetry_reports in H3; [exact H3|done|by left].
  - destruct H3 as [-> ->]. by split.
Qed.

Lemma sleeping_reports st t st' : exec (battery_notify_sleeping st) t st' -> reports st t st'.
Proof.
  unfold battery_notify_sleeping. intros H. destruct (Z.leb_spec (s_latest_mv st) 0).
  - destruct H as [-> ->]. by split.
  - apply telemetry_reports in H; [done|done|by right].
Qed.

(** ** Theorems *)

(** C37. The wake reason is reported until it is delivered, and once.  Over any
    sequence of monitor rounds and sleep notices, every frame handed to the
    link is a whole telemetry frame (percentage 0 to 100, state active or
    sleeping) that starts with a brace and fits the 128-byte buffer; it
    carries the wake reason iff the flag was set and no earlier frame was
    delivered; the flag is clear afterwards iff it was clear or a frame was
    delivered. *)
Theorem wake_reason_until_delivered ops st t st' :
  exec (bat_run ops st) t st' ->
  frames_ok (s_wake_from_button st) (frames t) /\
  s_wake_from_button st' = foldl wake_next (s_wake_from_button st) (frames t) /\
  Forall (fun f => (0 < length (fst f) < 128)%nat /\ head (fst f) = Some 123) (frames t).
Proof.
  intros H. assert (reports st t st') as [H1 H2].
  { revert st t H. induction ops as [|op ops IH]; intros st t H; [destruct H as [-> ->]; by split|].
    assert (exists t1 t2 st1, t = t1 ++ t2 /\ reports st t1 st1 /\ exec (bat_run ops st1) t2 st')
      as (t1 & t2 & st1 & -> & [Ha Hb] & H2).
    { destruct op; cbn [bat_run] in H; apply exec_bind in H as (t1 & t2 & st1 & -> & H1 & H);
        exists t1, t2, st1; split_and!; try done; [by apply round_reports|by apply sleeping_reports]. }
    destruct (IH _ _ H2) as [Hc Hd]. unfold reports. rewrite frames_app, frames_ok_app, foldl_app, <-Hb.
    by split_and!. }
  split_and!; [done|done|]. clear H H2. revert H1. generalize (s_wake_from_button st).
  induction (frames t) as [|f fs IH]; intros w Hok; [constructor|]. destruct Hok as [Hf Hok].
  constructor; [by eapply frame_fits|by eapply IH].
Qed.

(** ** Witnesses *)

(** The first frame is refused by the link, the second delivered. *)
Definition bat_answers (X : Type) (c : batE X) (n : Z) : X * Z :=
  match c in batE X return X * Z with
  | adc_oneshot_new_unit | adc_oneshot_config_channel | adc_cali_create_scheme_curve_fitting => (ESP_OK, n)
  | adc_oneshot_read => ((ESP_OK, 2300), n)
  | adc_cali_raw_to_voltage raw => (raw - 400, n)
  | ble_link_notify_ack _ => ((if n =? 0 then -1 else 0), n + 1)
  | vTaskDelay _ | xTaskCreate_monitor => (tt, n)
  end.
Definition bat_demo : prog batE bat_st := bat_run [BRound; BSleeping; BSleeping] (BatSt true true 0 true).
Definition bat_demo_trace : list (ev batE) := fst (fst (run bat_answers bat_demo 0)).

Lemma wake_reason_until_delivered_witness :
  frames_ok true (frames bat_demo_trace) /\
  map fst (frames bat_demo_trace) =
    [telemetry_json 72 (lit "active") true; telemetry_json 72 (lit "sleeping") true;
     telemetry_json 72 (lit "sleeping") false].
Proof.
  split; [|by vm_compute].
  exact (proj1 (wake_reason_until_delivered _ (BatSt true true 0 true) bat_demo_trace _
    (run_exec_fst bat_answers bat_demo 0))).
Defined.
