(* ===== verification/BleLink.v ===== *)
(** * ble_link.c: the NimBLE GATT peripheral

    The file's statics are a record; each function is a program over the
    NimBLE calls.  The GAP callback, the suspend/resume pair of the transfer
    window, the sync callback and the notify functions each run to their end
    before the next starts (one operation of [link_op] at a time); LinkWindow
    interleaves the first two access by access. *)

From S2P Require Import Prelude Effects Platform Config.
Open Scope Z_scope.

Definition BLE_CMD_MAX : Z := 512.

(** Result codes of NimBLE host calls. *)
Inductive ble_rc : Type := BLE_OK | BLE_HS_EALREADY | BLE_HS_EBUSY | BLE_ERR (code : Z).

Definition rc_ok (rc : ble_rc) : bool := match rc with BLE_OK => true | _ => false end.

(** Results of a GATT access callback. *)
Inductive att_rc : Type :=
| ATT_OK | BLE_ATT_ERR_UNLIKELY | BLE_ATT_ERR_INVALID_ATTR_VALUE_LEN
| BLE_ATT_ERR_INSUFFICIENT_AUTHEN.

(** [ctxt->op], and the mbuf [ctxt->om] by its contents. *)
Inductive access_op : Type :=
| BLE_GATT_ACCESS_OP_READ_CHR | BLE_GATT_ACCESS_OP_WRITE_CHR | ACCESS_OP_OTHER.

Record access_ctxt : Type := AccessCtxt { op : access_op; om : list Z }.

(** [OS_MBUF_PKTLEN] is a uint16_t. *)
Definition OS_MBUF_PKTLEN (m : list Z) : Z := u16 (Z.of_nat (length m)).

(** The 128-bit UUIDs, in NimBLE's byte order. *)
Definition OPENRECALL_UUID128 (variant : Z) : list Z :=
  [0x10; 0x0a; 0x8f; 0x5e; 0x2d; 0x7c; 0x1a; 0x9b; 0x6e; 0x4f; 0xa3; 0xb5; variant; 0x00; 0x9d;
   0x6e].

(** Who answers a characteristic, and its flags. *)
Inductive access_cb : Type :=
| chr_noop_access | command_write_cb | prov_state_cb | prov_key_cb | prov_reset_cb.
Inductive chr_flag : Type := F_NOTIFY | F_WRITE | F_READ.

Record chr_def : Type := ChrDef { chr_uuid : Z; chr_cb : access_cb; chr_flags : list chr_flag }.

(** [s_gatt_svcs]: the two services, by the byte that varies in the UUID. *)
Definition s_gatt_svcs : list (Z * list chr_def) :=
  [(0x01, [ChrDef 0x02 chr_noop_access [F_NOTIFY];
           ChrDef 0x03 command_write_cb [F_WRITE];
           ChrDef 0x04 chr_noop_access [F_NOTIFY]]);
   (0x10, [ChrDef 0x11 prov_state_cb [F_READ; F_NOTIFY];
           ChrDef 0x12 prov_key_cb [F_WRITE];
           ChrDef 0x13 prov_reset_cb [F_WRITE]])].

(** [struct ble_hs_adv_fields], as [start_advertising] fills it. *)
Record adv_fields : Type := AdvFields {
  adv_name : list Z;
  adv_name_len : Z;
  adv_name_is_complete : bool;
  adv_uuids128 : list Z;
  adv_uuids128_is_complete : bool;
}.

(** "OpenRecall" *)
Definition device_name : list Z := [79; 112; 101; 110; 82; 101; 99; 97; 108; 108].

Inductive bleE : Type -> Type :=
| ble_gap_adv_set_fields (f : adv_fields) : bleE ble_rc
| ble_gap_adv_start (itvl_min itvl_max duration_ms : Z) : bleE ble_rc
| ble_gap_adv_stop : bleE ble_rc
| ble_gap_terminate (conn : Z) : bleE ble_rc
| ble_gap_conn_find (conn : Z) : bleE ble_rc
| ble_hs_id_infer_auto : bleE Z
| ble_hs_mbuf_from_flat (data : list Z) : bleE bool  (** non-NULL *)
| ble_gatts_notify_custom (conn attr : Z) (data : list Z) : bleE ble_rc
| ble_att_mtu (conn : Z) : bleE Z
| ble_hs_mbuf_to_flat (m : list Z) (max_len : Z) : bleE (option (list Z))
    (** the bytes copied, when the result is 0 *)
| s_on_command_call (data : list Z) : bleE unit
| nimble_port_init : bleE esp_err_t
| ble_svc_init : bleE unit  (** ble_svc_gap_init, ble_svc_gatt_init *)
| ble_gatts_count_cfg (svcs : list (Z * list chr_def)) : bleE ble_rc
| ble_gatts_add_svcs (svcs : list (Z * list chr_def)) : bleE ble_rc
| ble_svc_gap_device_name_set (name : list Z) : bleE ble_rc
| nimble_port_freertos_init : bleE unit.

#[local] Abbreviation call := (Effects.call (E := bleE)).

(** The static variables of the file. *)
Record link_state : Type := LinkState {
  s_conn_handle : Z;
  s_suspended : bool;
  s_audio_handle : Z;
  s_ack_handle : Z;
  s_prov_state_handle : Z;
  s_audio_subscribed : bool;
  s_ack_subscribed : bool;
  s_prov_state_subscribed : bool;
  s_addr_type : Z;
  s_on_command : bool;  (** non-NULL *)
}.

Inductive gap_event_t : Type :=
| BLE_GAP_EVENT_CONNECT (status conn_handle : Z)
| BLE_GAP_EVENT_DISCONNECT (reason : Z)
| BLE_GAP_EVENT_SUBSCRIBE (attr_handle : Z) (cur_notify : bool)
| BLE_GAP_EVENT_ADV_COMPLETE
| BLE_GAP_EVENT_CONN_UPDATE (conn_handle status : Z)
| BLE_GAP_EVENT_OTHER.

Definition set_conn (st : link_state) (h : Z) : link_state :=
  LinkState h (s_suspended st) (s_audio_handle st) (s_ack_handle st) (s_prov_state_handle st)
    (s_audio_subscribed st) (s_ack_subscribed st) (s_prov_state_subscribed st)
    (s_addr_type st) (s_on_command st).

Definition set_suspended (st : link_state) (b : bool) : link_state :=
  LinkState (s_conn_handle st) b (s_audio_handle st) (s_ack_handle st) (s_prov_state_handle st)
    (s_audio_subscribed st) (s_ack_subscribed st) (s_prov_state_subscribed st)
    (s_addr_type st) (s_on_command st).

Definition set_subscribed (st : link_state) (audio ack prov : bool) : link_state :=
  LinkState (s_conn_handle st) (s_suspended st) (s_audio_handle st) (s_ack_handle st)
    (s_prov_state_handle st) audio ack prov (s_addr_type st) (s_on_command st).

Section Link.
(** Constants of the NimBLE headers. *)
Context (BLE_HS_CONN_HANDLE_NONE BLE_HS_FOREVER : Z).

Definition link_init : link_state :=
  LinkState BLE_HS_CONN_HANDLE_NONE false 0 0 0 false false false 0 false.

Definition adv_start_with (itvl_min_units itvl_max_units duration_ms : Z) : prog bleE ble_rc :=
  call (ble_gap_adv_start itvl_min_units itvl_max_units duration_ms).

Definition start_advertising : prog bleE ble_rc :=
  (let fields := AdvFields device_name 5 true (OPENRECALL_UUID128 0x01) true in
   let* rc := call (ble_gap_adv_set_fields fields) in
   if negb (rc_ok rc) then Ret rc else
   adv_start_with BLE_ADV_FAST_ITVL_MIN_UNITS BLE_ADV_FAST_ITVL_MAX_UNITS
     BLE_ADV_FAST_WINDOW_MS)%prog.

Definition gap_event (st : link_state) (event : gap_event_t) : prog bleE link_state :=
  match event with
  | BLE_GAP_EVENT_CONNECT status conn_handle =>
      if status =? 0 then Ret (set_conn st conn_handle)
      else if negb (s_suspended st) then start_advertising ;;; Ret st
      else Ret st
  | BLE_GAP_EVENT_DISCONNECT reason =>
      let st := set_subscribed (set_conn st BLE_HS_CONN_HANDLE_NONE) false false false in
      if negb (s_suspended st) then start_advertising ;;; Ret st else Ret st
  | BLE_GAP_EVENT_SUBSCRIBE attr_handle cur_notify =>
      if attr_handle =? s_audio_handle st then
        Ret (set_subscribed st cur_notify (s_ack_subscribed st) (s_prov_state_subscribed st))
      else if attr_handle =? s_ack_handle st then
        Ret (set_subscribed st (s_audio_subscribed st) cur_notify (s_prov_state_subscribed st))
      else if attr_handle =? s_prov_state_handle st then
        Ret (set_subscribed st (s_audio_subscribed st) (s_ack_subscribed st) cur_notify)
      else Ret st
  | BLE_GAP_EVENT_ADV_COMPLETE =>
      if negb (s_suspended st) && (s_conn_handle st =? BLE_HS_CONN_HANDLE_NONE) then
        let* arc := adv_start_with BLE_ADV_ITVL_MIN_UNITS BLE_ADV_ITVL_MAX_UNITS
                      BLE_HS_FOREVER in
        match arc with
        | BLE_OK | BLE_HS_EALREADY => Ret st
        | _ => start_advertising ;;; Ret st
        end
      else Ret st
  | BLE_GAP_EVENT_CONN_UPDATE conn_handle status =>
      call (ble_gap_conn_find conn_handle) ;;; Ret st
  | BLE_GAP_EVENT_OTHER => Ret st
  end%prog.

Definition on_sync (st : link_state) : prog bleE link_state :=
  (let* a := call ble_hs_id_infer_auto in
   start_advertising ;;;
   Ret (LinkState (s_conn_handle st) (s_suspended st) (s_audio_handle st) (s_ack_handle st)
          (s_prov_state_handle st) (s_audio_subscribed st) (s_ack_subscribed st)
          (s_prov_state_subscribed st) a (s_on_command st)))%prog.

Definition notify (st : link_state) (attr_handle : Z) (subscribed : bool) (data : list Z)
  : prog bleE Z :=
  (if (s_conn_handle st =? BLE_HS_CONN_HANDLE_NONE) || negb subscribed then Ret (-2) else
   let* om := call (ble_hs_mbuf_from_flat data) in
   if negb om then Ret (-1) else
   let* rc := call (ble_gatts_notify_custom (s_conn_handle st) attr_handle data) in
   if negb (rc_ok rc) then Ret (-2) else Ret 0)%prog.

Definition ble_link_notify_audio (st : link_state) (data : list Z) : prog bleE Z :=
  notify st (s_audio_handle st) (s_audio_subscribed st) data.

Definition ble_link_notify_ack (st : link_state) (data : list Z) : prog bleE Z :=
  notify st (s_ack_handle st) (s_ack_subscribed st) data.

Definition provisioning_notify_state (st : link_state) (state_byte : Z) : prog bleE unit :=
  (let* _ := notify st (s_prov_state_handle st) (s_prov_state_subscribed st) [state_byte] in
   Ret tt)%prog.

Definition ble_link_connected (st : link_state) : bool :=
  negb (s_conn_handle st =? BLE_HS_CONN_HANDLE_NONE).

Definition ble_link_att_mtu (st : link_state) : prog bleE Z :=
  (if negb (ble_link_connected st) then Ret 0 else call (ble_att_mtu (s_conn_handle st)))%prog.

Definition command_write_access (st : link_state) (ctxt : access_ctxt) : prog bleE att_rc :=
  match op ctxt with
  | BLE_GATT_ACCESS_OP_WRITE_CHR =>
      let len := OS_MBUF_PKTLEN (om ctxt) in
      if (len =? 0) || (BLE_CMD_MAX <? len) then Ret BLE_ATT_ERR_INVALID_ATTR_VALUE_LEN else
      let* r := call (ble_hs_mbuf_to_flat (om ctxt) BLE_CMD_MAX) in
      match r with
      | None => Ret BLE_ATT_ERR_UNLIKELY
      | Some buf =>
          (if s_on_command st then call (s_on_command_call buf) else Ret tt) ;;; Ret ATT_OK
      end
  | _ => Ret BLE_ATT_ERR_UNLIKELY
  end%prog.

Definition ble_link_start (st : link_state) : prog bleE (esp_err_t * link_state) :=
  (let st := LinkState (s_conn_handle st) (s_suspended st) (s_audio_handle st) (s_ack_handle st)
               (s_prov_state_handle st) (s_audio_subscribed st) (s_ack_subscribed st)
               (s_prov_state_subscribed st) (s_addr_type st) true in
   let* err := call nimble_port_init in
   if negb (esp_ok err) then Ret (err, st) else
   call ble_svc_init ;;;
   let* rc := call (ble_gatts_count_cfg s_gatt_svcs) in
   if negb (rc_ok rc) then Ret (ESP_FAIL, st) else
   let* rc := call (ble_gatts_add_svcs s_gatt_svcs) in
   if negb (rc_ok rc) then Ret (ESP_FAIL, st) else
   let* rc := call (ble_svc_gap_device_name_set device_name) in
   if negb (rc_ok rc) then Ret (ESP_FAIL, st) else
   call nimble_port_freertos_init ;;; Ret (ESP_OK, st))%prog.

Definition ble_link_suspend (st : link_state) : prog bleE link_state :=
  (let st := set_suspended st true in
   call ble_gap_adv_stop ;;;
   (if negb (s_conn_handle st =? BLE_HS_CONN_HANDLE_NONE)
    then let* _ := call (ble_gap_terminate (s_conn_handle st)) in Ret tt
    else Ret tt) ;;;
   Ret st)%prog.

Definition ble_link_resume (st : link_state) : prog bleE link_state :=
  (let st := set_suspended st false in
   adv_start_with BLE_ADV_FAST_ITVL_MIN_UNITS BLE_ADV_FAST_ITVL_MAX_UNITS
     BLE_ADV_FAST_WINDOW_MS ;;;
   Ret st)%prog.

(** ** Sequences of operations *)

Inductive link_op : Type :=
| OpGap (e : gap_event_t) | OpSync | OpSuspend | OpResume
| OpNotifyAudio (data : list Z) | OpNotifyAck (data : list Z) | OpNotifyState (b : Z)
| OpCommand (c : access_ctxt).

Definition link_step (st : link_state) (o : link_op) : prog bleE link_state :=
  match o with
  | OpGap e => gap_event st e
  | OpSync => on_sync st
  | OpSuspend => ble_link_suspend st
  | OpResume => ble_link_resume st
  | OpNotifyAudio d => let* _ := ble_link_notify_audio st d in Ret st
  | OpNotifyAck d => let* _ := ble_link_notify_ack st d in Ret st
  | OpNotifyState b => provisioning_notify_state st b ;;; Ret st
  | OpCommand c => let* _ := command_write_access st c in Ret st
  end%prog.

Fixpoint link_run (st : link_state) (ops : list link_op) : prog bleE link_state :=
  match ops with
  | [] => Ret st
  | o :: ops => let* st := link_step st o in link_run st ops
  end%prog.

Definition is_adv_start (e : ev bleE) : bool :=
  match e with Ev (ble_gap_adv_start _ _ _) _ => true | _ => false end.

Definition is_notify (e : ev bleE) : bool :=
  match e with Ev (ble_gatts_notify_custom _ _ _) _ => true | _ => false end.

(** No event of the trace satisfies [p]. *)
Definition none (p : ev bleE -> bool) (t : list (ev bleE)) : Prop := existsb p t = false.

(** The operations of a suspend window: anything but a resume and the sync
    callback. *)
Definition in_window_op (o : link_op) : bool :=
  match o with OpResume | OpSync => false | _ => true end.

(** Anything but an accepted connection. *)
Definition no_connect_op (o : link_op) : bool :=
  match o with OpGap (BLE_GAP_EVENT_CONNECT status _) => negb (status =? 0) | _ => true end.

(** ** Lemmas *)

Lemma none_app p t1 t2 : none p (t1 ++ t2) <-> none p t1 /\ none p t2.
Proof. unfold none. by rewrite existsb_app, orb_false_iff. Qed.

Lemma notify_cases st attr sub data t r :
  exec (notify st attr sub data) t r ->
  ((s_conn_handle st = BLE_HS_CONN_HANDLE_NONE \/ sub = false) /\ t = [] /\ r = -2) \/
  (s_conn_handle st <> BLE_HS_CONN_HANDLE_NONE /\ sub = true /\
   ((t = [Ev (ble_hs_mbuf_from_flat data) false] /\ r = -1) \/
    exists rc, t = [Ev (ble_hs_mbuf_from_flat data) true;
                    Ev (ble_gatts_notify_custom (s_conn_handle st) attr data) rc] /\
      r = if rc_ok rc then 0 else -2)).
Proof.
  unfold notify. destruct (Z.eqb_spec (s_conn_handle st) BLE_HS_CONN_HANDLE_NONE); simpl.
  { intros [-> ->]. auto. }
  destruct sub; simpl; [|intros [-> ->]; auto].
  intros (ok & t' & -> & H). right. split_and!; [done..|]. destruct ok; simpl in H.
  - right. destruct H as (rc & t2 & -> & H). exists rc.
    destruct (rc_ok rc); simpl in H; by destruct H as [-> ->].
  - left. by destruct H as [-> ->].
Qed.

(** One operation of a window: no call starts advertising, and the flag
    stays up. *)
Lemma window_step st o t st' :
  s_suspended st = true -> in_window_op o = true -> exec (link_step st o) t st' ->
  none is_adv_start t /\ s_suspended st' = true.
Proof.
  intros Hs Ho H.
  destruct o as [[]| | | |d|d|b|c]; try done; cbn [link_step gap_event] in H;
    unfold ble_link_notify_audio, ble_link_notify_ack, provisioning_notify_state, notify,
      command_write_access, ble_link_suspend in H; rewrite ?Hs in H;
    exec_all H; simpl in *; try done; try congruence;
    match goal with E : negb _ = true |- _ => by rewrite Hs in E end.
Qed.

Lemma disconnected_step st o t st' :
  s_conn_handle st = BLE_HS_CONN_HANDLE_NONE -> no_connect_op o = true ->
  exec (link_step st o) t st' ->
  none is_notify t /\ s_conn_handle st' = BLE_HS_CONN_HANDLE_NONE.
Proof.
  intros Hc Ho H. pose proof (Z.eqb_refl BLE_HS_CONN_HANDLE_NONE) as He.
  destruct o as [[]| | | |d|d|b|c]; cbn [link_step gap_event no_connect_op] in *;
    unfold ble_link_notify_audio, ble_link_notify_ack, provisioning_notify_state, notify, on_sync,
      command_write_access, ble_link_suspend, ble_link_resume in H; rewrite ?Hc, ?He in H;
    exec_all H; simpl in *; try done; congruence.
Qed.

(** An invariant of each step over a sequence of operations. *)
Lemma run_invariant (inv : link_state -> Prop) (good : link_op -> bool) (p : ev bleE -> bool) :
  (forall st o t st', inv st -> good o = true -> exec (link_step st o) t st' ->
     none p t /\ inv st') ->
  forall ops st t st', inv st -> forallb good ops = true -> exec (link_run st ops) t st' ->
    none p t /\ inv st'.
Proof.
  intros Hstep. induction ops as [|o ops IH]; intros st t st' Hi Hg H.
  { by destruct H as [-> ->]. }
  apply andb_true_iff in Hg as [Ho Hg].
  cbn [link_run] in H. apply exec_bind in H as (t1 & t2 & sm & -> & H1 & H2).
  destruct (Hstep _ _ _ _ Hi Ho H1) as [Hn1 Hi1].
  destruct (IH _ _ _ Hi1 Hg H2) as [Hn2 Hi2]. by rewrite none_app.
Qed.

(** ** Theorems *)

(** The transfer window stays silent on the advertising channels.  From
    [ble_link_suspend] on, and until [ble_link_resume] or a host resync,
    whatever GAP events arrive and whatever the stack answers, no call starts
    advertising; suspend stops advertising and asks for the disconnection of
    the phone exactly when one is connected; the resume that ends the window
    requests fast advertising.  A connection that completes inside the window
    is nevertheless accepted: it becomes the current one and nothing
    terminates it. *)
Lemma suspend_window st ops t0 st0 t st1 :
  exec (ble_link_suspend st) t0 st0 -> exec (link_run st0 ops) t st1 ->
  forallb in_window_op ops = true ->
  none is_adv_start (t0 ++ t) /\ s_suspended st1 = true /\
  (ble_link_connected st = false -> exists rc, t0 = [Ev ble_gap_adv_stop rc]) /\
  (ble_link_connected st = true -> exists rc1 rc2,
     t0 = [Ev ble_gap_adv_stop rc1; Ev (ble_gap_terminate (s_conn_handle st)) rc2]) /\
  (forall t2 st2, exec (ble_link_resume st1) t2 st2 ->
     s_suspended st2 = false /\
     exists rc, t2 = [Ev (ble_gap_adv_start BLE_ADV_FAST_ITVL_MIN_UNITS BLE_ADV_FAST_ITVL_MAX_UNITS
                            BLE_ADV_FAST_WINDOW_MS) rc]) /\
  (forall h t2 st2, exec (gap_event st1 (BLE_GAP_EVENT_CONNECT 0 h)) t2 st2 ->
     t2 = [] /\ s_conn_handle st2 = h).
Proof.
  intros H0 H Hops.
  assert (none is_adv_start t0 /\ s_suspended st0 = true) as [Hn0 Hs0].
  { unfold ble_link_suspend in H0. exec_all H0; by subst. }
  destruct (run_invariant (fun st => s_suspended st = true) in_window_op is_adv_start window_step
              ops st0 t st1 Hs0 Hops H) as [Hn Hs].
  split_and!.
  - by apply none_app.
  - done.
  - unfold ble_link_connected. unfold ble_link_suspend in H0. intros Hc.
    exec_all H0; simpl in *; [congruence|eauto].
  - unfold ble_link_connected. unfold ble_link_suspend in H0. intros Hc.
    exec_all H0; simpl in *; [eauto|congruence].
  - intros t2 st2 H2. unfold ble_link_resume in H2. exec_all H2. eauto.
  - intros h t2 st2 H2. cbn [gap_event] in H2. exec_all H2. done.
Qed.

(** The window of a device whose phone is connected on handle 1: the
    disconnection arrives, then the (late) end of advertising. *)
Definition demo_link : link_state :=
  LinkState 1 false 10 11 12 true true true 0 true.

End Link.

