(* ===== verification/LinkWindow.v ===== *)
(** * The transfer window and the BLE host task, interleaved

    transfer.c's task calls [ble_link_suspend] and [ble_link_resume] while
    NimBLE's host task runs the GAP callback of ble_link.c.  BleLink lets each
    of these functions run to its end; here every access to the statics they
    share is a call, so that the two tasks interleave ([Interleave.v]).  The
    bodies are those of BleLink ([gap_event_alone], [suspend_alone],
    [resume_alone]); the transfer task is [Transfer.transfer_task] with the two
    calls answered by these functions. *)

From S2P Require Import Prelude Effects Platform Config Fs Interleave Transfer BleLink.
Open Scope Z_scope.

Inductive chan : Set := AUDIO | ACK | PROV_STATE.

#[export] Instance chan_eq_dec : EqDecision chan.
Proof. solve_decision. Defined.

Inductive winE : Type -> Type :=
| WX {X} (e : xferE X) : winE X  (** the other calls of transfer.c *)
| WB {X} (e : bleE X) : winE X  (** the NimBLE calls of ble_link.c *)
| next_event : winE gap_event_t  (** the stack delivers a GAP event *)
| get_suspended : winE bool
| put_suspended (b : bool) : winE unit
| get_conn : winE Z
| put_conn (h : Z) : winE unit
| get_handle (c : chan) : winE Z
| put_subscribed (c : chan) (b : bool) : winE unit
| put_addr_type (a : Z) : winE unit.

#[local] Abbreviation call := (Effects.call (E := winE)).
#[local] Abbreviation ble := (translate (fun X => @WB X)).

Section Window.
Context (BLE_HS_CONN_HANDLE_NONE BLE_HS_FOREVER : Z).

(** ** ble_link.c, access by access *)

Definition gap_event_c (event : gap_event_t) : prog winE unit :=
  match event with
  | BLE_GAP_EVENT_CONNECT status conn_handle =>
      if status =? 0 then call (put_conn conn_handle) else
      let* s := call get_suspended in
      if negb s then let* _ := ble start_advertising in Ret tt else Ret tt
  | BLE_GAP_EVENT_DISCONNECT reason =>
      call (put_conn BLE_HS_CONN_HANDLE_NONE) ;;;
      call (put_subscribed AUDIO false) ;;;
      call (put_subscribed ACK false) ;;;
      call (put_subscribed PROV_STATE false) ;;;
      let* s := call get_suspended in
      if negb s then let* _ := ble start_advertising in Ret tt else Ret tt
  | BLE_GAP_EVENT_SUBSCRIBE attr_handle cur_notify =>
      let* h := call (get_handle AUDIO) in
      if attr_handle =? h then call (put_subscribed AUDIO cur_notify) else
      let* h := call (get_handle ACK) in
      if attr_handle =? h then call (put_subscribed ACK cur_notify) else
      let* h := call (get_handle PROV_STATE) in
      if attr_handle =? h then call (put_subscribed PROV_STATE cur_notify) else Ret tt
  | BLE_GAP_EVENT_ADV_COMPLETE =>
      let* s := call get_suspended in
      if s : bool then Ret tt else
      let* c := call get_conn in
      if negb (c =? BLE_HS_CONN_HANDLE_NONE) then Ret tt else
      let* arc := ble (adv_start_with BLE_ADV_ITVL_MIN_UNITS BLE_ADV_ITVL_MAX_UNITS BLE_HS_FOREVER) in
      match arc with
      | BLE_OK | BLE_HS_EALREADY => Ret tt
      | _ => let* _ := ble start_advertising in Ret tt
      end
  | BLE_GAP_EVENT_CONN_UPDATE conn_handle status =>
      let* _ := call (WB (ble_gap_conn_find conn_handle)) in Ret tt
  | BLE_GAP_EVENT_OTHER => Ret tt
  end%prog.

Definition on_sync_c : prog winE unit :=
  (let* a := call (WB ble_hs_id_infer_auto) in
   call (put_addr_type a) ;;;
   let* _ := ble start_advertising in Ret tt)%prog.

Definition ble_link_suspend_c : prog winE unit :=
  (call (put_suspended true) ;;;
   let* _ := call (WB ble_gap_adv_stop) in
   let* c := call get_conn in
   if negb (c =? BLE_HS_CONN_HANDLE_NONE) then
     let* c := call get_conn in
     let* _ := call (WB (ble_gap_terminate c)) in Ret tt
   else Ret tt)%prog.

Definition ble_link_resume_c : prog winE unit :=
  (call (put_suspended false) ;;;
   let* _ := ble (adv_start_with BLE_ADV_FAST_ITVL_MIN_UNITS BLE_ADV_FAST_ITVL_MAX_UNITS
                    BLE_ADV_FAST_WINDOW_MS) in Ret tt)%prog.

(** ** The two tasks *)

(** [ble_host_task]: the sync callback, then at most [n] GAP events. *)
Fixpoint gap_events (n : nat) : prog winE unit :=
  match n with
  | O => Ret tt
  | S n => let* e := call next_event in gap_event_c e ;;; gap_events n
  end%prog.

Definition ble_host_task (n : nat) : prog winE unit := (on_sync_c ;;; gap_events n)%prog.

(** The two calls of transfer.c into ble_link.c. *)
Definition xfer_call (X : Type) (e : xferE X) : prog winE X :=
  match e in xferE X return prog winE X with
  | Transfer.ble_link_suspend => ble_link_suspend_c
  | Transfer.ble_link_resume => ble_link_resume_c
  | e => call (WX e)
  end.

(** The transfer tasks of successive windows, one after the other as
    [transfer_flush] ensures; whether the card is mounted when each starts. *)
Fixpoint windows (boot : Z) (s_wifi_inited : bool) (mounted : list bool) : prog winE unit :=
  match mounted with
  | [] => Ret tt
  | m :: mounted =>
      let* r := interp xfer_call (transfer_task boot s_wifi_inited m) in
      windows boot (fst r) mounted
  end%prog.

(** ** The system *)

Definition put_sub (st : link_state) (c : chan) (b : bool) : link_state :=
  match c with
  | AUDIO => set_subscribed st b (s_ack_subscribed st) (s_prov_state_subscribed st)
  | ACK => set_subscribed st (s_audio_subscribed st) b (s_prov_state_subscribed st)
  | PROV_STATE => set_subscribed st (s_audio_subscribed st) (s_ack_subscribed st) b
  end.

Definition handle_of (st : link_state) (c : chan) : Z :=
  match c with
  | AUDIO => s_audio_handle st | ACK => s_ack_handle st | PROV_STATE => s_prov_state_handle st
  end.

Definition set_addr_type (st : link_state) (a : Z) : link_state :=
  LinkState (s_conn_handle st) (s_suspended st) (s_audio_handle st) (s_ack_handle st)
    (s_prov_state_handle st) (s_audio_subscribed st) (s_ack_subscribed st)
    (s_prov_state_subscribed st) a (s_on_command st).

Definition win_mem_do (self new : nat) (X : Type) (c : winE X) : X -> link_state -> option link_state :=
  match c in winE X return X -> link_state -> option link_state with
  | get_suspended => fun x m => expect x (s_suspended m) m
  | put_suspended b => fun _ m => Some (set_suspended m b)
  | get_conn => fun x m => expect x (s_conn_handle m) m
  | put_conn h => fun _ m => Some (set_conn m h)
  | get_handle c => fun x m => expect x (handle_of m c) m
  | put_subscribed c b => fun _ m => Some (put_sub m c b)
  | put_addr_type a => fun _ m => Some (set_addr_type m a)
  | _ => fun _ m => Some m
  end.

(** Neither task creates another. *)
Definition win_spawned (e : ev winE) (new : list (prog winE unit)) : Prop := new = [].

Definition HOST : nat := 0.
Definition XFER : nat := 1.

Definition win_boot (st : link_state) (n : nat) (boot : Z) (inited : bool) (mounted : list bool)
  : sys (E := winE) (M := link_state) :=
  Sys st [ble_host_task n; windows boot inited mounted].


Abbreviation win_steps := (steps win_mem_do win_spawned).

(** ** Run alone, a function is BleLink's *)

Fixpoint mem_trace (st : link_state) (t : list (ev winE)) : option link_state :=
  match t with
  | [] => Some st
  | Ev c x :: t => match win_mem_do 0 0 _ c x st with Some st => mem_trace st t | None => None end
  end.

Definition ble_ev (e : ev winE) : option (ev bleE) :=
  match e with
  | Ev c x =>
      match c in winE X return X -> option (ev bleE) with
      | WB e => fun x => Some (Ev e x)
      | _ => fun _ => None
      end x
  end.
Definition ble_of : list (ev winE) -> list (ev bleE) := project ble_ev.

(** [link_inv]: follow the accesses of a known trace over the memory. *)
Ltac link_inv :=
  repeat (cbn [mem_trace win_mem_do] in *; unfold expect in *;
    match goal with
    | H : context [decide (?x = ?y)] |- _ => destruct (decide (x = y))
    | H : None = Some _ |- _ => discriminate H
    | H : Some _ = Some _ |- _ => injection H as H
    | H : _ = _ |- _ => progress simplify_eq
    end).

(** [replay]: perform a known trace. *)
Ltac replay :=
  repeat (cbn in *;
    repeat match goal with
    | H : ?b = true |- context [?b] => rewrite H
    | H : ?b = false |- context [?b] => rewrite H
    | H : true = ?b |- context [?b] => rewrite <-H
    | H : false = ?b |- context [?b] => rewrite <-H
    | H : negb _ = true |- _ => apply negb_true_iff in H
    | H : negb _ = false |- _ => apply negb_false_iff in H
    end;
    match goal with
    | |- exec _ _ _ => first [done | progress simpl]
    | |- exists _ _, _ :: _ = _ :: _ /\ _ => eexists _, _; split; [reflexivity|]
    | |- _ /\ _ => by split
    end).

Lemma gap_event_alone st e t st' :
  exec (gap_event_c e) t tt -> mem_trace st t = Some st' ->
  exec (gap_event BLE_HS_CONN_HANDLE_NONE BLE_HS_FOREVER st e) (ble_of t) st'.
Proof.
  intros H Hm. destruct e; cbn [gap_event_c gap_event] in *.
  all: exec_all H; cbn [mem_trace win_mem_do] in *; link_inv; replay.
Qed.

Lemma on_sync_alone st t st' :
  exec on_sync_c t tt -> mem_trace st t = Some st' -> exec (on_sync st) (ble_of t) st'.
Proof. intros H Hm. exec_all H; link_inv; replay. Qed.

Lemma suspend_alone st t st' :
  exec ble_link_suspend_c t tt -> mem_trace st t = Some st' ->
  exec (BleLink.ble_link_suspend BLE_HS_CONN_HANDLE_NONE st) (ble_of t) st'.
Proof.
  intros H Hm. unfold BleLink.ble_link_suspend. exec_all H; link_inv; replay.
Qed.

Lemma resume_alone st t st' :
  exec ble_link_resume_c t tt -> mem_trace st t = Some st' ->
  exec (BleLink.ble_link_resume st) (ble_of t) st'.
Proof. intros H Hm. exec_all H; link_inv; replay. Qed.

(** ** What each task does, on its own *)

Definition is_start (e : ev winE) : bool :=
  match e with Ev (WB (ble_gap_adv_start _ _ _)) _ => true | _ => false end.
Definition is_next (e : ev winE) : bool :=
  match e with Ev next_event _ => true | _ => false end.
Definition puts (b : bool) (e : ev winE) : bool :=
  match e with Ev (put_suspended b') _ => Bool.eqb b b' | _ => false end.
(** The task read that no window is open. *)
Definition is_clear (e : ev winE) : bool :=
  match e with
  | Ev c x =>
      match c in winE X return X -> bool with get_suspended => negb | _ => fun _ => false end x
  end.

Definition starts (t : list (ev winE)) : nat := length (List.filter is_start t).

Lemma starts_app t1 t2 : starts (t1 ++ t2) = (starts t1 + starts t2)%nat.
Proof. unfold starts. by rewrite List.filter_app, length_app. Qed.

Lemma starts_one e : starts [e] = if is_start e then 1%nat else 0%nat.
Proof. unfold starts. cbn. by destruct (is_start e). Qed.

(** A start comes from the sync callback, or from a handler that has read the
    flag clear since its event was delivered; one other start at most comes
    before it. *)
Definition handler_call (synced : bool) (h : list (ev winE)) (e : ev winE) : Prop :=
  (forall b, puts b e = false) /\
  (is_start e = true ->
   existsb is_next h = false /\ (starts h <= 1)%nat /\ (synced = true -> existsb is_clear h = true)).

Definition host_call (past : list (ev winE)) (e : ev winE) : Prop :=
  (forall b, puts b e = false) /\
  (is_start e = true ->
   exists base h, past = base ++ h /\ existsb is_next h = false /\ (starts h <= 1)%nat /\
     (base = [] \/ exists b x, base = b ++ [Ev next_event x] /\ existsb is_clear h = true)).

(** [calls_tac]: go through a handler, call by call. *)
Ltac calls_tac :=
  repeat first
    [ progress cbn
    | exact I | done | lia
    | match goal with
      | |- forall _, _ => intros ?
      | |- _ /\ _ => split
      | b : bool |- _ => destruct b
      end
    | case_match ].

Lemma gap_event_calls e : always (handler_call true) [] (gap_event_c e).
Proof. unfold handler_call. destruct e; cbn [gap_event_c]; calls_tac. Qed.

Lemma on_sync_calls : always (handler_call false) [] on_sync_c.
Proof. unfold handler_call. calls_tac. Qed.

Lemma gap_events_calls n past : always host_call past (gap_events n).
Proof.
  revert past. induction n as [|n IH]; intros past; [done|]. cbn [gap_events].
  apply always_bind; [apply always_call; intros x; by split|].
  intros t e H. apply exec_one in H as ->. apply always_bind; [|intros t' [] _; apply IH].
  rewrite <-(app_nil_r (past ++ _)). apply (always_shift _ (handler_call true)); [|apply gap_event_calls].
  intros h c [Hp Hs]. split; [done|]. intros Hc. destruct (Hs Hc) as (Hn & Hst & Hcl).
  exists (past ++ [Ev next_event e]), h. split_and!; try done. right. eauto.
Qed.

Lemma host_calls n : always host_call [] (ble_host_task n).
Proof.
  unfold ble_host_task. apply always_bind; [|intros t [] _; apply gap_events_calls].
  refine (always_weaken _ _ _ _ _ on_sync_calls). intros past e [Hp Hs]. split; [done|].
  intros Hc. destruct (Hs Hc) as (Hn & Hst & _). exists [], past. split_and!; auto.
Qed.

(** The transfer task starts advertising only right after it has cleared the
    flag. *)
Definition xfer_start (past : list (ev winE)) (e : ev winE) : Prop :=
  is_start e = true -> exists past' x, past = past' ++ [Ev (put_suspended false) x].

Lemma xfer_call_starts X (c : xferE X) past : always xfer_start past (xfer_call X c).
Proof. unfold xfer_start. destruct c; cbn [xfer_call]; calls_tac; eauto. Qed.

Lemma windows_starts boot wi ms past : always xfer_start past (windows boot wi ms).
Proof.
  revert wi past. induction ms as [|m ms IH]; intros wi past; [done|]. cbn [windows].
  apply always_bind; [|intros t r _; apply IH].
  apply always_interp. intros X c. apply xfer_call_starts.
Qed.

(** ** The system, while a window is open *)

(** The flag stays up and is read up until someone clears it. *)
Lemma window_open s tr s' :
  win_steps s tr s' -> s_suspended (mem s) = true -> existsb (puts false) (map snd tr) = false ->
  s_suspended (mem s') = true /\ existsb is_clear (map snd tr) = false.
Proof.
  induction 1 as [s|s tr s1 [i e] s2 _ IH Hstep]; [done|]. intros Hs Hp.
  rewrite map_app, existsb_app in *. apply orb_false_iff in Hp as [Hp He].
  destruct (IH Hs Hp) as [Hs1 ->]. clear IH Hs Hp.
  apply sstep_pool in Hstep as (X & c & k & x & new & -> & _ & Hm & _ & _).
  cbn in He. rewrite orb_false_r in He. cbn. rewrite orb_false_r.
  destruct c as [? e|? e| | |b| |h|c|c b|a]; cbn in Hm, He |- *;
    try (apply expect_Some in Hm as [Hx Hm]; rewrite Hm);
    try (injection Hm as Hm; rewrite <-Hm); try done.
  - by rewrite Hx, Hs1.
  - by destruct b.
  - by destruct c.
Qed.

Lemma put_flag self new b X (c : winE X) x m m' :
  win_mem_do self new X c x m = Some m' -> puts b (Ev c x) = true -> s_suspended m' = b.
Proof. intros Hm Hp. destruct c; try done. injection Hm as <-. by apply eqb_prop in Hp. Qed.

(** Every step is a call of one of the two tasks. *)
Lemma own_call st n boot wi ms t1 i e t2 s :
  win_steps (win_boot st n boot wi ms) (t1 ++ (i, e) :: t2) s ->
  (i = HOST /\ host_call (proj HOST t1) e) \/ (i = XFER /\ xfer_start (proj XFER t1) e).
Proof.
  intros H. set (P past e := (i = HOST /\ host_call past e) \/ (i = XFER /\ xfer_start past e)).
  assert (forall p, pool (win_boot st n boot wi ms) !! i = Some p -> always P [] p) as HP.
  { intros p. destruct i as [|[|i]]; cbn; intros Hi; [..|done]; injection Hi as <-.
    - refine (always_weaken _ _ _ _ _ (host_calls n)). unfold P. auto.
    - refine (always_weaken _ _ _ _ _ (windows_starts boot wi ms [])). unfold P. auto. }
  destruct (steps_always _ _ P _ _ _ _ _ _ (fun _ _ H => H) HP H) as [_ [[-> Hc]|[-> Hc]]]; auto.
Qed.

Lemma existsb_proj f i (tr : list (nat * ev winE)) :
  existsb f (map snd tr) = false -> existsb f (proj i tr) = false.
Proof.
  induction tr as [|[j e] tr IH]; [done|]. cbn. rewrite orb_false_iff. intros [He Ht].
  unfold proj in *. cbn. destruct (j =? i)%nat; [|by apply IH]. cbn. by rewrite He, IH.
Qed.

(** A call that starts advertising while the window is open is made by a
    handler whose event was delivered, and whose flag was read, before. *)
Lemma start_in_window st n boot wi ms tr1 m1 i e m2 s :
  win_steps (win_boot st n boot wi ms)
    (tr1 ++ (XFER, Ev (put_suspended true) tt) :: m1 ++ (i, e) :: m2) s ->
  existsb (puts false) (map snd m1) = false -> is_start e = true ->
  i = HOST /\ existsb is_next (proj HOST m1) = false /\ (starts (proj HOST m1) <= 1)%nat.
Proof.
  intros H Hp He. pose proof H as Hc. rewrite app_comm_cons, app_assoc in Hc.
  apply own_call in Hc as [[-> [_ Hc]]|[-> Hc]]; specialize (Hc He).
  - split; [done|]. destruct Hc as (base & h & Hb & Hn & Hs & Hcl).
    rewrite proj_app in Hb. cbn in Hb. change (omap _ m1) with (proj HOST m1) in Hb.
    assert (existsb is_clear (proj HOST m1) = false) as Hclear.
    { apply existsb_proj. rewrite app_comm_cons, app_assoc in H.
      apply steps_app_inv in H as (s1 & H & _).
      change (tr1 ++ ?x :: m1) with (tr1 ++ [x] ++ m1) in H. rewrite app_assoc in H.
      apply steps_app_inv in H as (s2 & H1 & H2).
      refine (proj2 (window_open _ _ _ H2 _ Hp)).
      destruct (steps_last _ _ _ _ _ _ _ H1) as (s3 & q & _ & Hstep & _).
      apply sstep_pool in Hstep as (X & c & k & x & new & Ec & _ & Hm & _).
      exact (put_flag _ _ _ _ _ _ _ _ Hm (eq_sym (f_equal (puts true) Ec))). }
    clear H He Hp. apply app_eq_inv in Hb as [(l & _ & ->)|(l & -> & El)]; rewrite ?El in *.
    + rewrite existsb_app in Hn. apply orb_false_iff in Hn as [_ Hn].
      rewrite starts_app in Hs. split; [done|lia].
    + destruct Hcl as [Hl|(b & x & _ & Hcl)].
      * by apply app_nil in Hl as [_ ->].
      * by rewrite existsb_app, Hcl, orb_true_r in Hclear.
  - exfalso. destruct Hc as (past' & x & Hc). rewrite proj_app in Hc. cbn in Hc.
    change (omap _ m1) with (proj XFER m1) in Hc.
    apply (existsb_proj _ XFER) in Hp. destruct (proj XFER m1) as [|z l _] using rev_ind.
    + apply app_inj_tail in Hc as [_ Hc]. apply (f_equal (puts false)) in Hc. done.
    + rewrite app_comm_cons, app_assoc in Hc. apply app_inj_tail in Hc as [_ ->].
      rewrite existsb_app in Hp. apply orb_false_iff in Hp as [_ Hp]. done.
Qed.

Lemma starts_proj st n boot wi ms tr1 mid s :
  win_steps (win_boot st n boot wi ms) (tr1 ++ (XFER, Ev (put_suspended true) tt) :: mid) s ->
  existsb (puts false) (map snd mid) = false ->
  starts (map snd mid) = starts (proj HOST mid) /\ (starts (map snd mid) <= 2)%nat.
Proof.
  revert s. induction mid as [|[i e] mid IH] using rev_ind; intros s H Hp; [by split; cbn; lia|].
  pose proof H as H'. rewrite app_comm_cons, app_assoc in H'.
  apply steps_app_inv in H' as (s1 & H' & _).
  rewrite map_app, existsb_app in Hp. apply orb_false_iff in Hp as [Hp _].
  destruct (IH _ H' Hp) as [Heq Hle]. clear IH H'.
  rewrite map_app, proj_app, proj_one, !starts_app. cbn [map snd].
  destruct (is_start e) eqn:He.
  - destruct (start_in_window _ _ _ _ _ _ _ _ _ [] _ H Hp He) as (-> & _ & Hs).
    rewrite Nat.eqb_refl, !starts_one, He. lia.
  - rewrite starts_one, He. destruct (i =? HOST)%nat; rewrite ?starts_one, ?He; cbn; lia.
Qed.

Lemma starts_none l : (forall a e b, l = a ++ e :: b -> is_start e = false) -> starts l = 0%nat.
Proof.
  induction l as [|e l IH]; [done|]. intros H. unfold starts in *. cbn.
  rewrite (H [] e l eq_refl). apply IH. intros a e' b ->. by apply (H (e :: a) e' b).
Qed.

(** ** A window that has ended *)

Definition count (f : ev winE -> bool) (t : list (ev winE)) : nat := length (List.filter f t).

Lemma calls_count_app f t1 t2 : count f (t1 ++ t2) = (count f t1 + count f t2)%nat.
Proof. unfold count. by rewrite List.filter_app, length_app. Qed.

Definition suspends (e : ev xferE) : nat :=
  match e with Ev Transfer.ble_link_suspend _ => 1 | _ => 0 end.
Definition resumes (e : ev xferE) : nat :=
  match e with Ev Transfer.ble_link_resume _ => 1 | _ => 0 end.

Lemma xfer_call_counts X (c : xferE X) t x :
  exec (xfer_call X c) t x ->
  count (puts true) t = suspends (Ev c x) /\ count (puts false) t = resumes (Ev c x) /\
  count is_start t = resumes (Ev c x).
Proof.
  intros H. destruct c; cbn [xfer_call] in H;
    first [unfold ble_link_suspend_c, ble_link_resume_c in H; exec_all H; done
          |apply exec_one in H as ->; done].
Qed.

Lemma sum_list_neutral t :
  forallb neutral t = true -> sum_list_with suspends t = 0%nat /\ sum_list_with resumes t = 0%nat.
Proof.
  induction t as [|[X e x] t IH]; [done|]. cbn [forallb]. intros [He Ht]%andb_true_iff.
  destruct (IH Ht) as [H1 H2]. cbn. rewrite H1, H2. by destruct e.
Qed.

Lemma window_suspends n t :
  window n t -> sum_list_with suspends t = 1%nat /\ sum_list_with resumes t = 1%nat.
Proof.
  intros (body & sv & wf & e1 & e2 & -> & (Hn & _) & _).
  apply sum_list_neutral in Hn as [H1 H2]. rewrite !sum_list_with_app, H1, H2. by destruct sv, wf.
Qed.

(** Each window raises the flag once, clears it once and asks for advertising
    once. *)
Lemma windows_counts boot wi ms t :
  exec (windows boot wi ms) t tt ->
  count (puts true) t = length ms /\ count (puts false) t = length ms /\
  count is_start t = length ms.
Proof.
  revert wi t. induction ms as [|m ms IH]; intros wi t H; cbn [windows] in H.
  { by destruct H as [-> _]. }
  apply exec_bind in H as (t1 & t2 & r & -> & H1 & H). apply IH in H as (Ht & Hf & Hs).
  assert (forall f g, (forall X (c : xferE X) t x, exec (xfer_call X c) t x -> count f t = g (Ev c x)) ->
            exists u, exec (transfer_task boot wi m) u r /\ count f t1 = sum_list_with g u) as Hc.
  { intros f g Hg. by apply (exec_interp xfer_call (count f) g eq_refl (calls_count_app f) Hg _ _ _ _ H1). }
  destruct (Hc (puts true) suspends) as (u1 & Hu1 & E1); [intros; by eapply xfer_call_counts|].
  destruct (Hc (puts false) resumes) as (u2 & Hu2 & E2); [intros; by eapply xfer_call_counts|].
  destruct (Hc is_start resumes) as (u3 & Hu3 & E3); [intros; by eapply xfer_call_counts|].
  apply transfer_task_window, window_suspends in Hu1 as [S1 _], Hu2 as [_ S2], Hu3 as [_ S3].
  rewrite !calls_count_app, Ht, Hf, Hs, E1, E2, E3, S1, S2, S3. done.
Qed.

(** C18.  The transfer window under every interleaving of the transfer task
    with the BLE host task.  From the moment the transfer task has raised
    [s_suspended] until it clears it, at most two calls start advertising, all
    from a GAP handler that was past its check of the flag when the window
    opened: once the host task has taken its next event there are none.  And
    whatever calls fail, when the transfer task has ended, every window has
    raised the flag once, cleared it once and asked for advertising once. *)
Theorem window_is_quiet st n boot wi ms :
  (forall tr1 mid s,
     win_steps (win_boot st n boot wi ms) (tr1 ++ (XFER, Ev (put_suspended true) tt) :: mid) s ->
     existsb (puts false) (map snd mid) = false ->
     (starts (map snd mid) <= 2)%nat /\
     forall m1 x m2, mid = m1 ++ (HOST, Ev next_event x) :: m2 -> starts (map snd m2) = 0%nat) /\
  (forall tr s,
     win_steps (win_boot st n boot wi ms) tr s -> pool s !! XFER = Some (Ret tt) ->
     count (puts true) (proj XFER tr) = length ms /\
     count (puts false) (proj XFER tr) = length ms /\
     count is_start (proj XFER tr) = length ms).
Proof.
  split.
  - intros tr1 mid s H Hp. split; [by eapply starts_proj|]. intros m1 x m2 ->.
    apply starts_none. intros a e b Hm. destruct (is_start e) eqn:He; [exfalso|done].
    assert (exists a' i b', m2 = a' ++ (i, e) :: b') as (a' & i & b' & ->).
    { apply map_eq_app in Hm as (l1 & l2 & -> & _ & Hm).
      destruct l2 as [|[i e'] l2]; [done|]. cbn in Hm. injection Hm as Ee _. subst e'. eauto. }
    rewrite (app_comm_cons a'), (app_assoc m1) in H, Hp.
    rewrite (map_app snd (m1 ++ _)), existsb_app in Hp. apply orb_false_iff in Hp as [Hp _].
    destruct (start_in_window _ _ _ _ _ _ _ _ _ _ _ H Hp He) as (_ & Hn & _).
    rewrite proj_app, existsb_app in Hn. cbn in Hn. by rewrite orb_true_r in Hn.
  - intros tr s H Hx. destruct (steps_origin _ _ _ _ _ _ _ H Hx) as
      (p & Hp & [Hi|(tr1 & j & X & c & x & tr2 & s2 & m' & new & _ & _ & _ & -> & _ & Hn)]);
      [|by rewrite lookup_nil in Hn].
    injection Hi as <-. apply pexec_exec in Hp. by apply windows_counts in Hp.
Qed.
End Window.

(** ** A window that opens while a handler is running *)

(** Fast advertising is answered with success, the downshift with an error. *)
Definition race_answer (self new : nat) (m : link_state) (X : Type) (c : winE X) : option X :=
  match c in winE X return option X with
  | WX e => Some (fst (xfer_answers [] [] _ e 0))
  | WB e =>
      match e in bleE X return option X with
      | ble_gap_adv_start itvl_min _ _ =>
          Some (if itvl_min =? BLE_ADV_FAST_ITVL_MIN_UNITS then BLE_OK else BLE_ERR 6)
      | ble_gap_adv_set_fields _ => Some BLE_OK
      | ble_gap_adv_stop => Some BLE_OK
      | ble_hs_id_infer_auto => Some 0
      | _ => None
      end
  | next_event => Some BLE_GAP_EVENT_ADV_COMPLETE
  | get_suspended => Some (s_suspended m)
  | get_conn => Some (s_conn_handle m)
  | get_handle c => Some (handle_of m c)
  | put_suspended _ | put_conn _ | put_subscribed _ _ | put_addr_type _ => Some tt
  end.

(** The host task syncs, takes the end of advertising and passes its checks;
    the window opens and stops advertising; the handler goes on. *)
Definition race_sched : list nat := [0; 0; 0; 0; 0; 0; 0; 1; 1; 1; 1; 0; 0; 0]%nat.

Definition race_boot : sys (E := winE) (M := link_state) :=
  win_boot 65535 (-1) (link_init 65535) 1 7 false [true].

Definition race_trace : list (nat * ev winE) :=
  match run_sched win_mem_do race_answer (fun _ => []) race_sched race_boot with
  | Some (tr, _) => tr
  | None => []
  end.

Lemma race_runs : exists s, steps win_mem_do win_spawned race_boot race_trace s.
Proof.
  unfold race_trace. destruct (run_sched _ _ _ _ _) as [[tr s]|] eqn:E.
  - exists s. by apply (run_sched_steps win_mem_do win_spawned race_answer (fun _ => [])) in E.
  - exists race_boot. constructor.
Qed.

Definition race_before : list (nat * ev winE) := take 8 race_trace.
Definition race_mid : list (nat * ev winE) := drop 9 race_trace.

Lemma race_split :
  race_trace = race_before ++ (XFER, Ev (put_suspended true) tt) :: race_mid.
Proof. vm_compute. reflexivity. Qed.

(** The bound of two is reached: advertising is started, with success, after
    the window has stopped it. *)
Lemma window_race :
  exists rest, map snd race_mid =
    Ev (WB ble_gap_adv_stop) BLE_OK :: rest ++
    [Ev (WB (ble_gap_adv_start BLE_ADV_FAST_ITVL_MIN_UNITS BLE_ADV_FAST_ITVL_MAX_UNITS
               BLE_ADV_FAST_WINDOW_MS)) BLE_OK].
Proof. vm_compute. eexists (cons _ (cons _ (cons _ nil))). reflexivity. Qed.

Lemma window_is_quiet_witness :
  (exists s, steps win_mem_do win_spawned race_boot race_trace s) /\
  (starts (map snd race_mid) <= 2)%nat /\ starts (map snd race_mid) = 2%nat.
Proof.
  destruct race_runs as [s H]. split; [by exists s|]. split; [|vm_compute; reflexivity].
  rewrite race_split in H.
  apply (proj1 (window_is_quiet 65535 (-1) (link_init 65535) 1 7 false [true]) _ _ _ H).
  vm_compute. reflexivity.
Defined.
