(* ===== verification/Provisioning.v ===== *)
(** * provisioning_core.c, provisioning.c, boot_id.c: persistent identity

    The state machine of provisioning_core.c over a store of three
    functions; the NVS store; the GATT access callbacks, which also install
    the key in the command verifier and notify the STATE characteristic; and
    the per-activation boot counter. *)

From stdpp Require Import gmap strings.
From S2P Require Import Prelude Effects Platform Config CJson Nvs Commands BleLink.
Open Scope string_scope.
Open Scope list_scope.
Open Scope Z_scope.

Definition PROV_NVS_NAMESPACE : string := "sense_prov".
Definition PROV_NVS_KEY : string := "srvkey".
Definition PROV_NVS_PROVISIONED : string := "provd".
Definition BOOT_NVS_NAMESPACE : string := "sense_boot".
Definition BOOT_NVS_KEY : string := "boot_id".

(** ** provisioning_core.c *)

Inductive prov_state_t : Type := PROV_UNPROVISIONED | PROV_PROVISIONED.

#[export] Instance prov_state_eq_dec : EqDecision prov_state_t.
Proof. solve_decision. Defined.

(** [prov_store_t]: [get] answers its result code, what it left in
    [out_key] (given what was there) and the flag. *)
Record prov_store_t (E : Type -> Type) : Type := ProvStore {
  store_get : list Z -> prog E (Z * list Z * Z);
  store_set : list Z -> prog E Z;
  store_clear : prog E Z;
}.
Arguments ProvStore {E}.
Arguments store_get {E}.
Arguments store_set {E}.
Arguments store_clear {E}.

(** The statics [s_state] and [s_key]. *)
Record prov_st : Type := ProvSt { s_state : prov_state_t; s_key : list Z }.

Definition zero_key : list Z := replicate 32 0.
Definition prov_boot : prov_st := ProvSt PROV_UNPROVISIONED zero_key.

Section Core.
Context {E : Type -> Type} (store : prov_store_t E).

Definition provisioning_core_init (st : prov_st) : prog E prov_st :=
  (let* r := store_get store (s_key st) in
   let '(rc, key, provisioned) := r in
   if (rc =? 0) && negb (provisioned =? 0) then Ret (ProvSt PROV_PROVISIONED key)
   else Ret (ProvSt PROV_UNPROVISIONED zero_key))%prog.

Definition provisioning_core_apply_key (st : prov_st) (key : list Z) : prog E (Z * prov_st) :=
  (if decide (s_state st = PROV_PROVISIONED) then Ret (-1, st) else
   let* rc := store_set store key in
   if negb (rc =? 0) then Ret (-1, st) else Ret (0, ProvSt PROV_PROVISIONED key))%prog.

Definition provisioning_core_factory_reset (st : prov_st) : prog E (Z * prov_st) :=
  (let* rc := store_clear store in
   if negb (rc =? 0) then Ret (-1, st) else Ret (0, ProvSt PROV_UNPROVISIONED zero_key))%prog.

Definition provisioning_core_state (st : prov_st) : prov_state_t := s_state st.
Definition provisioning_core_server_key (st : prov_st) : list Z := s_key st.
End Core.

(** ** The NVS store of provisioning.c *)

#[local] Abbreviation ncall := (Effects.call (E := nvsE)).

Definition nvs_get (out_key : list Z) : prog nvsE (Z * list Z * Z) :=
  (let* e := ncall (nvs_open PROV_NVS_NAMESPACE false) in
   if negb (esp_ok e) then Ret (1, out_key, 0) else
   let* r := ncall (nvs_get_blob PROV_NVS_NAMESPACE PROV_NVS_KEY 32) in
   let '(e, blob) := r in
   if negb (esp_ok e) || negb (Z.of_nat (length blob) =? 32) then
     ncall (nvs_close PROV_NVS_NAMESPACE) ;;;
     Ret (1, if esp_ok e then blob ++ drop (length blob) out_key else out_key, 0)
   else
     let* p := ncall (nvs_get_u8 PROV_NVS_NAMESPACE PROV_NVS_PROVISIONED) in
     let prov := if esp_ok (fst p) then snd p else 0 in
     ncall (nvs_close PROV_NVS_NAMESPACE) ;;; Ret (0, blob, prov))%prog.

Definition nvs_set (key : list Z) : prog nvsE Z :=
  (let* e := ncall (nvs_open PROV_NVS_NAMESPACE true) in
   if negb (esp_ok e) then Ret (-1) else
   let* e := ncall (nvs_set_blob PROV_NVS_NAMESPACE PROV_NVS_KEY key) in
   if negb (esp_ok e) then ncall (nvs_close PROV_NVS_NAMESPACE) ;;; Ret (-1) else
   ncall (nvs_set_u8 PROV_NVS_NAMESPACE PROV_NVS_PROVISIONED 1) ;;;
   let* e := ncall (nvs_commit PROV_NVS_NAMESPACE) in
   if negb (esp_ok e) then ncall (nvs_close PROV_NVS_NAMESPACE) ;;; Ret (-1) else
   ncall (nvs_close PROV_NVS_NAMESPACE) ;;; Ret 0)%prog.

Definition nvs_clear : prog nvsE Z :=
  (let* e := ncall (nvs_open PROV_NVS_NAMESPACE true) in
   if negb (esp_ok e) then Ret (-1) else
   let* e := ncall (nvs_erase_key PROV_NVS_NAMESPACE PROV_NVS_KEY) in
   if negb (esp_ok e) && negb (bool_decide (e = ESP_ERR_NVS_NOT_FOUND)) then
     ncall (nvs_close PROV_NVS_NAMESPACE) ;;; Ret (-1)
   else
     ncall (nvs_set_u8 PROV_NVS_NAMESPACE PROV_NVS_PROVISIONED 0) ;;;
     let* e := ncall (nvs_commit PROV_NVS_NAMESPACE) in
     if negb (esp_ok e) then ncall (nvs_close PROV_NVS_NAMESPACE) ;;; Ret (-1) else
     ncall (nvs_close PROV_NVS_NAMESPACE) ;;; Ret 0)%prog.

Definition s_store : prov_store_t nvsE := ProvStore nvs_get nvs_set nvs_clear.

Definition provisioning_init (st : prov_st) (cmds : cmd_state) : prog nvsE (prov_st * cmd_state) :=
  (let* st := provisioning_core_init s_store st in
   if decide (provisioning_core_state st = PROV_PROVISIONED)
   then Ret (st, commands_set_pubkey cmds (provisioning_core_server_key st))
   else Ret (st, cmds))%prog.

Definition provisioning_state_byte (st : prov_st) : Z :=
  match provisioning_core_state st with PROV_UNPROVISIONED => 0 | PROV_PROVISIONED => 1 end.

(** ** The GATT access callbacks *)

Inductive provE : Type -> Type :=
| PNvs {X} (e : nvsE X) : provE X
| PBle {X} (e : bleE X) : provE X
| os_mbuf_append (data : list Z) : provE unit.

#[local] Abbreviation nvs := (translate (fun X => @PNvs X)).
#[local] Abbreviation ble := (translate (fun X => @PBle X)).

(** Everything the callbacks read or write. *)
Record dev : Type := Dev { d_prov : prov_st; d_cmds : cmd_state; d_link : link_state }.

Section Access.
Context (BLE_HS_CONN_HANDLE_NONE : Z).

#[local] Abbreviation notify_state d :=
  (provisioning_notify_state BLE_HS_CONN_HANDLE_NONE (d_link d) (provisioning_state_byte (d_prov d))).

Definition prov_state_access (d : dev) (ctxt : access_ctxt) : prog provE (att_rc * dev) :=
  (match op ctxt with
   | BLE_GATT_ACCESS_OP_READ_CHR =>
       Effects.call (os_mbuf_append [provisioning_state_byte (d_prov d)]) ;;; Ret (ATT_OK, d)
   | _ => Ret (ATT_OK, d)
   end)%prog.

Definition prov_key_access (d : dev) (ctxt : access_ctxt) : prog provE (att_rc * dev) :=
  (match op ctxt with
   | BLE_GATT_ACCESS_OP_WRITE_CHR =>
       if negb (OS_MBUF_PKTLEN (om ctxt) =? 32) then Ret (BLE_ATT_ERR_INVALID_ATTR_VALUE_LEN, d) else
       let* r := Effects.call (PBle (ble_hs_mbuf_to_flat (om ctxt) 32)) in
       match r with
       | None => Ret (BLE_ATT_ERR_UNLIKELY, d)
       | Some key =>
           let* a := nvs (provisioning_core_apply_key s_store (d_prov d) key) in
           let '(rc, prov) := a in
           if negb (rc =? 0) then
             Ret (BLE_ATT_ERR_INSUFFICIENT_AUTHEN, Dev prov (d_cmds d) (d_link d))
           else
             let d := Dev prov (commands_set_pubkey (d_cmds d) (provisioning_core_server_key prov))
                        (d_link d) in
             ble (notify_state d) ;;; Ret (ATT_OK, d)
       end
   | _ => Ret (ATT_OK, d)
   end)%prog.

(** The magic as a little-endian uint32_t. *)
Definition magic_of (b : list Z) : Z :=
  match b with [b0; b1; b2; b3] => un_le32 b0 b1 b2 b3 | _ => 0 end.

Definition prov_reset_access (d : dev) (ctxt : access_ctxt) : prog provE (att_rc * dev) :=
  (match op ctxt with
   | BLE_GATT_ACCESS_OP_WRITE_CHR =>
       if negb (OS_MBUF_PKTLEN (om ctxt) =? 4) then Ret (BLE_ATT_ERR_INVALID_ATTR_VALUE_LEN, d) else
       let* r := Effects.call (PBle (ble_hs_mbuf_to_flat (om ctxt) 4)) in
       match r with
       | None => Ret (BLE_ATT_ERR_UNLIKELY, d)
       | Some b =>
           if negb (magic_of b =? PROV_FACTORY_RESET_MAGIC) then Ret (BLE_ATT_ERR_UNLIKELY, d) else
           let* a := nvs (provisioning_core_factory_reset s_store (d_prov d)) in
           let '(rc, prov) := a in
           if negb (rc =? 0) then Ret (BLE_ATT_ERR_UNLIKELY, Dev prov (d_cmds d) (d_link d)) else
           let d := Dev prov (commands_set_pubkey (d_cmds d) zero_key) (d_link d) in
           ble (notify_state d) ;;; Ret (ATT_OK, d)
       end
   | _ => Ret (ATT_OK, d)
   end)%prog.

(** A sequence of accesses of the provisioning service. *)
Inductive prov_op : Type :=
| AccessState (c : access_ctxt) | AccessKey (c : access_ctxt) | AccessReset (c : access_ctxt).

Definition prov_access (d : dev) (o : prov_op) : prog provE (att_rc * dev) :=
  match o with
  | AccessState c => prov_state_access d c
  | AccessKey c => prov_key_access d c
  | AccessReset c => prov_reset_access d c
  end.

Fixpoint prov_session (d : dev) (ops : list prov_op) : prog provE dev :=
  match ops with
  | [] => Ret d
  | o :: ops => let* r := prov_access d o in prov_session (snd r) ops
  end%prog.
End Access.

(** ** boot_id.c *)

(** The result and the new value of [s_boot_id]. *)
Definition boot_id_init (s_boot_id : Z) : prog nvsE (esp_err_t * Z) :=
  (let* err := ncall (nvs_open BOOT_NVS_NAMESPACE true) in
   if negb (esp_ok err) then Ret (err, s_boot_id) else
   let* r := ncall (nvs_get_u32 BOOT_NVS_NAMESPACE BOOT_NVS_KEY) in
   let id := if esp_ok (fst r) then snd r else 0 in
   let id := u32 (id + 1) in
   let* err := ncall (nvs_set_u32 BOOT_NVS_NAMESPACE BOOT_NVS_KEY id) in
   if negb (esp_ok err) then ncall (nvs_close BOOT_NVS_NAMESPACE) ;;; Ret (err, s_boot_id) else
   ncall (nvs_commit BOOT_NVS_NAMESPACE) ;;;
   ncall (nvs_close BOOT_NVS_NAMESPACE) ;;;
   Ret (ESP_OK, id))%prog.

Definition boot_id_get (s_boot_id : Z) : Z := s_boot_id.

(** ** Traces *)

(** The NVS calls of a trace. *)
Definition nvs_ev (e : ev provE) : option (ev nvsE) :=
  match e with
  | Ev e x =>
      match e in provE X return X -> option (ev nvsE) with
      | PNvs e => fun x => Some (Ev e x)
      | _ => fun _ => None
      end x
  end.

Definition nvs_of (t : list (ev provE)) : list (ev nvsE) := omap nvs_ev t.

(** Documented behaviour of [ble_hs_mbuf_to_flat]: on success the buffer
    holds the mbuf's contents. *)
Definition flat_honest (e : ev provE) : Prop :=
  match e with
  | Ev e x =>
      match e in provE X return X -> Prop with
      | PBle e => fun x =>
          match e in bleE X return X -> Prop with
          | ble_hs_mbuf_to_flat m _ => fun r => forall b, r = Some b -> b = m
          | _ => fun _ => True
          end x
      | _ => fun _ => True
      end x
  end.

Definition srvkey : string * string := (PROV_NVS_NAMESPACE, PROV_NVS_KEY).
Definition provd : string * string := (PROV_NVS_NAMESPACE, PROV_NVS_PROVISIONED).

(** The best-effort flag write of the trace succeeded. *)
Definition flag_write_ok (e : ev nvsE) : Prop :=
  match e with
  | Ev e x =>
      match e in nvsE X return X -> Prop with
      | nvs_set_u8 _ _ _ => fun r => r = ESP_OK
      | _ => fun _ => True
      end x
  end.

(** ** Lemmas *)

Lemma nvs_of_app t1 t2 : nvs_of (t1 ++ t2) = nvs_of t1 ++ nvs_of t2.
Proof. apply omap_app. Qed.

Lemma nvs_of_nvs u : nvs_of (map (lift_ev (fun X => @PNvs X)) u) = u.
Proof. induction u as [|[X e x] u IH]; [done|]. cbn. by f_equal. Qed.

Lemma nvs_of_ble u : nvs_of (map (lift_ev (fun X => @PBle X)) u) = [].
Proof. induction u as [|[X e x] u IH]; [done|]. exact IH. Qed.

(** The calls of [nvs_get], and what they answer. *)
Lemma nvs_get_reads out u rc key prov f f2 :
  exec (nvs_get out) u (rc, key, prov) -> nvs_trace f u f2 ->
  f2 = f /\
  (rc = 0 -> now f !! srvkey = Some (Blob key) /\ length key = 32%nat /\
     (prov = 0 \/ now f !! provd = Some (U8 prov))) /\
  (rc = 0 \/ rc = 1) /\
  (forall k v, Forall (read_served f) u -> now f !! srvkey = Some (Blob k) ->
     length k = 32%nat -> now f !! provd = Some (U8 v) -> rc = 0 /\ key = k /\ prov = v).
Proof.
  unfold nvs_get. intros H Hf.
  exec_all H; nvs_inv; simpl in *; simplify_eq; (split; [done|]); split_and!; try done; try by auto.
  all: try (intros k v Hs Hk Hl Hv; repeat apply Forall_cons_1 in Hs as [? Hs];
            cbn [read_served fst snd] in *).
  - by subst.
  - apply orb_true_iff in Heqb0 as [Hb|Hb].
    + apply negb_true_iff, esp_ok_false in Hb. destruct Hb. eapply H0; [done|lia].
    + destruct (esp_ok e) eqn:He; [|apply esp_ok_false in He; destruct He; eapply H0; [done|lia]].
      apply esp_ok_true in He. destruct (H3 He) as [Hk' _]. unfold srvkey in Hk. simplify_eq. lia.
  - apply orb_false_iff in Heqb0 as [He Hl]. apply negb_false_iff, esp_ok_true in He.
    destruct (H5 He) as [Hk _]. intros _. split_and!; [done|lia|].
    destruct (esp_ok (fst x1)) eqn:Hp; [|by left]. apply esp_ok_true in Hp. auto.
  - apply orb_false_iff in Heqb0 as [He Hl']. apply negb_false_iff, esp_ok_true in He.
    destruct (H5 He) as [Hk' _]. unfold srvkey in Hk. simplify_eq. split_and!; try done.
    specialize (H4 (H1 v Hv)). unfold provd in Hv. rewrite (H1 v Hv). by simplify_eq/=.
Qed.

(** What a boot makes of the stored values. *)
Lemma init_reads st cmds u st' cmds' f f2 :
  exec (provisioning_init st cmds) u (st', cmds') -> nvs_trace f u f2 ->
  f2 = f /\
  (s_state st' = PROV_PROVISIONED ->
     now f !! srvkey = Some (Blob (s_key st')) /\ length (s_key st') = 32%nat /\
     (exists v, now f !! provd = Some (U8 v) /\ v <> 0) /\
     cmds' = commands_set_pubkey cmds (s_key st')) /\
  (s_state st' = PROV_UNPROVISIONED -> st' = prov_boot /\ cmds' = cmds) /\
  (forall k v, Forall (read_served f) u -> now f !! srvkey = Some (Blob k) ->
     length k = 32%nat -> now f !! provd = Some (U8 v) -> v <> 0 ->
     st' = ProvSt PROV_PROVISIONED k).
Proof.
  unfold provisioning_init, provisioning_core_init. cbn [store_get s_store]. intros H Hf.
  apply exec_bind in H as (u0 & u3 & st1 & -> & H & H3).
  apply exec_bind in H as (u1 & u2 & [[rc key] prov] & -> & H & H2).
  assert (u2 = [] /\ u3 = []) as [-> ->].
  { split; [by destruct (_ && _); destruct H2 as [-> _]|by case_decide; destruct H3 as [-> _]]. }
  rewrite !app_nil_r in *.
  destruct (nvs_get_reads _ _ _ _ _ _ _ H Hf) as (-> & Hok & _ & Hserved). split; [done|].
  destruct (Z.eqb_spec rc 0) as [->|Hrc]; [|destruct H2 as [_ ->], H3 as [_ [= -> ->]]].
  2: { split_and!; try done. intros k v Hs Hk Hl Hv Hv0. by destruct (Hserved k v Hs Hk Hl Hv). }
  destruct (Hok eq_refl) as (Hk & Hl & Hp).
  destruct (Z.eqb_spec prov 0) as [->|Hpr]; destruct H2 as [_ ->], H3 as [_ [= -> ->]].
  - split_and!; try done. intros k v Hs Hk' Hl' Hv Hv0. by destruct (Hserved k v Hs Hk' Hl' Hv) as (_ & _ & <-).
  - split_and!; try done.
    + intros _. split_and!; try done. exists prov. by destruct Hp.
    + intros k v Hs Hk' Hl' Hv Hv0. simpl. by destruct (Hserved k v Hs Hk' Hl' Hv) as (_ & -> & _).
Qed.

(** What a successful store of a key leaves in the flash. *)
Lemma nvs_set_stores key u f f' :
  exec (nvs_set key) u 0 -> nvs_trace f u f' ->
  disk f' !! srvkey = Some (Blob key) /\
  (Forall flag_write_ok u -> disk f' !! provd = Some (U8 1)).
Proof.
  unfold nvs_set. intros H Hf. exec_all H; try done. nvs_inv. unfold written in *.
  apply negb_false_iff, esp_ok_true in Heqb, Heqb0, Heqb1. subst.
  destruct H5 as [->|[? _]]; [|done].
  destruct H0 as [[H0|[? _]] _]; [|done]. unfold srvkey, provd. split.
  - destruct H1 as [[->|[_ ->]] _]; rewrite H0; by simplify_map_eq.
  - intros Hw. do 2 apply Forall_cons_1 in Hw as [_ Hw]. apply Forall_cons_1 in Hw as [Hx _].
    cbn in Hx. subst. destruct H1 as [[->|[? _]] _]; [|done]. by simplify_map_eq.
Qed.

(** What a successful erase leaves. *)
Lemma nvs_clear_erases u f f' :
  exec nvs_clear u 0 -> nvs_trace f u f' -> disk f' !! srvkey = None.
Proof.
  unfold nvs_clear. intros H Hf. exec_all H; try done. nvs_inv. unfold written in *.
  apply negb_false_iff, esp_ok_true in Heqb, Heqb1. subst. unfold srvkey.
  destruct H5 as [->|[? _]]; [|done].
  assert (now x5 !! (PROV_NVS_NAMESPACE, PROV_NVS_KEY) = None) as Hn.
  { destruct H6 as [[->|[Hx ->]] _]; [by simplify_map_eq|]. apply H0.
    apply andb_false_iff in Heqb0 as [Hb|Hb].
    - by apply negb_false_iff, esp_ok_true in Hb.
    - by apply negb_false_iff, bool_decide_eq_true in Hb. }
  destruct H1 as [[->|[_ ->]] _]; by simplify_map_eq.
Qed.

Lemma dev_eta d : Dev (d_prov d) (d_cmds d) (d_link d) = d.
Proof. by destruct d. Qed.

Lemma apply_key_cases st key u rc st' :
  exec (provisioning_core_apply_key s_store st key) u (rc, st') ->
  (rc = 0 /\ s_state st = PROV_UNPROVISIONED /\ st' = ProvSt PROV_PROVISIONED key /\
     exec (nvs_set key) u 0) \/
  (rc = -1 /\ st' = st /\ (s_state st = PROV_PROVISIONED -> u = [])).
Proof.
  unfold provisioning_core_apply_key. case_decide as Hs; [intros [-> [= -> ->]]; by right|].
  intros H. apply exec_bind in H as (u1 & u2 & rc' & -> & H & H2). cbn [store_set s_store] in H.
  destruct (Z.eqb_spec rc' 0) as [->|]; destruct H2 as [-> [= -> ->]]; rewrite app_nil_r; [left|by right].
  split_and!; try done. by destruct (s_state st).
Qed.

Lemma reset_cases st u rc st' :
  exec (provisioning_core_factory_reset s_store st) u (rc, st') ->
  (rc = 0 /\ st' = prov_boot /\ exec nvs_clear u 0) \/ (rc = -1 /\ st' = st).
Proof.
  unfold provisioning_core_factory_reset. intros H.
  apply exec_bind in H as (u1 & u2 & rc' & -> & H & H2). cbn [store_clear s_store] in H.
  destruct (Z.eqb_spec rc' 0) as [->|]; destruct H2 as [-> [= -> ->]]; rewrite app_nil_r; [left|by right].
  by split_and!.
Qed.

Section AccessLemmas.
Context (NONE : Z).

(** A key write: nothing changes, or the key was stored and installed. *)
Lemma key_access_cases d c t rc d' :
  exec (prov_key_access NONE d c) t (rc, d') -> Forall flat_honest t ->
  (d' = d /\ (rc = ATT_OK -> op c <> BLE_GATT_ACCESS_OP_WRITE_CHR)) \/
  (rc = ATT_OK /\ s_state (d_prov d) = PROV_UNPROVISIONED /\ OS_MBUF_PKTLEN (om c) = 32 /\
   d' = Dev (ProvSt PROV_PROVISIONED (om c)) (commands_set_pubkey (d_cmds d) (om c)) (d_link d) /\
   exec (nvs_set (om c)) (nvs_of t) 0).
Proof.
  unfold prov_key_access. intros H Hh.
  destruct (op c); try (destruct H as [-> [= -> ->]]; by left).
  destruct (Z.eqb_spec (OS_MBUF_PKTLEN (om c)) 32) as [Hl|]; simpl in H;
    [|destruct H as [-> [= -> ->]]; by left].
  destruct H as ([key|] & t1 & -> & H); [|destruct H as [-> [= -> ->]]; by left].
  apply Forall_cons_1 in Hh as [Hk _]. rewrite (Hk key eq_refl) in H. clear Hk.
  apply exec_bind in H as (t2 & t3 & [rc' prov] & -> & Ha & H).
  apply exec_translate in Ha as (u & -> & Ha).
  apply apply_key_cases in Ha as [(-> & Hs & -> & Hset)|(-> & -> & _)]; simpl in H.
  - right. apply exec_bind in H as (t4 & t5 & [] & -> & Hn & [-> [= -> ->]]).
    apply exec_translate in Hn as (v & -> & _). split_and!; try done.
    change (nvs_of (?e :: ?l)) with (nvs_of l).
    by rewrite !nvs_of_app, nvs_of_nvs, nvs_of_ble, !app_nil_r.
  - destruct H as [-> [= -> ->]]. left. by rewrite dev_eta.
Qed.

(** A reset write: nothing changes, or the key was erased everywhere. *)
Lemma reset_access_cases d c t rc d' :
  exec (prov_reset_access NONE d c) t (rc, d') -> Forall flat_honest t ->
  (d' = d /\ (rc = ATT_OK -> op c <> BLE_GATT_ACCESS_OP_WRITE_CHR)) \/
  (rc = ATT_OK /\ magic_of (om c) = PROV_FACTORY_RESET_MAGIC /\
   d' = Dev prov_boot (commands_set_pubkey (d_cmds d) zero_key) (d_link d) /\
   exec nvs_clear (nvs_of t) 0).
Proof.
  unfold prov_reset_access. intros H Hh.
  destruct (op c); try (destruct H as [-> [= -> ->]]; by left).
  destruct (Z.eqb_spec (OS_MBUF_PKTLEN (om c)) 4) as [Hl|]; cbn [negb] in H;
    [|destruct H as [-> [= -> ->]]; by left].
  apply exec_bind in H as (t0 & t1 & r & -> & Hr & H). apply exec_one in Hr as ->.
  cbn [app] in *. destruct r as [b|]; [|destruct H as [-> [= -> ->]]; by left].
  apply Forall_cons_1 in Hh as [Hk _]. rewrite (Hk b eq_refl) in H. clear Hk.
  destruct (Z.eqb_spec (magic_of (om c)) PROV_FACTORY_RESET_MAGIC) as [Hm|]; cbn [negb] in H;
    [|destruct H as [-> [= -> ->]]; by left].
  apply exec_bind in H as (t2 & t3 & [rc' prov] & -> & Ha & H).
  apply exec_translate in Ha as (u & -> & Ha).
  apply reset_cases in Ha as [(-> & -> & Hset)|(-> & ->)]; simpl in H.
  - right. apply exec_bind in H as (t4 & t5 & [] & -> & Hn & [-> [= -> ->]]).
    apply exec_translate in Hn as (v & -> & _). split_and!; try done.
    change (nvs_of (?e :: ?l)) with (nvs_of l).
    by rewrite !nvs_of_app, nvs_of_nvs, nvs_of_ble, !app_nil_r.
  - destruct H as [-> [= -> ->]]. left. by rewrite dev_eta.
Qed.
End AccessLemmas.

(** The command verifier uses the key of the provisioning state, which is
    zero when unprovisioned. *)
Definition key_inv (d : dev) : Prop :=
  s_pubkey (d_cmds d) = s_key (d_prov d) /\
  (s_state (d_prov d) = PROV_UNPROVISIONED -> s_key (d_prov d) = zero_key).

(** An access that writes the factory-reset magic. *)
Definition is_reset (o : prov_op) : Prop :=
  match o with AccessReset c => magic_of (om c) = PROV_FACTORY_RESET_MAGIC | _ => False end.

Lemma prov_access_inv NONE d o t rc d' :
  exec (prov_access NONE d o) t (rc, d') -> Forall flat_honest t ->
  (key_inv d -> key_inv d') /\
  (s_state (d_prov d) = PROV_PROVISIONED -> ~ is_reset o -> d' = d).
Proof.
  intros H Hh. destruct o as [c|c|c]; cbn [prov_access] in H.
  - unfold prov_state_access in H. exec_all H; by simplify_eq.
  - apply key_access_cases in H as [[-> _]|(_ & Hs & _ & -> & _)]; [done| |done].
    rewrite Hs. split; [|done]. by split.
  - apply reset_access_cases in H as [[-> _]|(_ & Hm & -> & _)]; [done| |done].
    split; [by split|]. intros _ Hn. by destruct Hn.
Qed.

(** ** Theorems *)

(** C21. An accepted key is durable.  A key write the device accepts was sent
    to an unprovisioned device and has 32 bytes; from then on the device is
    provisioned with that key and verifies commands against it, and after a
    reboot it is provisioned with the same key, provided the flag write
    succeeded and the reads at boot are served.  It never boots with another
    key.  But the result of the flag write is ignored: when the flag did not
    reach the flash, the write is accepted all the same and the device boots
    unprovisioned. *)
Theorem accepted_key_is_durable NONE d c t d' f f' cmds u st' cmds' f2 :
  op c = BLE_GATT_ACCESS_OP_WRITE_CHR -> Z.of_nat (length (om c)) < 65536 ->
  exec (prov_key_access NONE d c) t (ATT_OK, d') -> Forall flat_honest t ->
  nvs_trace f (nvs_of t) f' ->
  exec (provisioning_init prov_boot cmds) u (st', cmds') -> nvs_trace (reboot f') u f2 ->
  s_state (d_prov d) = PROV_UNPROVISIONED /\ length (om c) = 32%nat /\
  d_prov d' = ProvSt PROV_PROVISIONED (om c) /\ s_pubkey (d_cmds d') = om c /\
  (Forall flag_write_ok (nvs_of t) -> Forall (read_served (reboot f')) u ->
     st' = d_prov d' /\ s_pubkey cmds' = om c) /\
  (s_state st' = PROV_PROVISIONED -> st' = d_prov d' /\ s_pubkey cmds' = om c) /\
  (disk f' !! provd = None -> st' = prov_boot).
Proof.
  intros Hop Hlen H Hh Hf Hu Hf2.
  apply key_access_cases in H as [[_ Hn]|(_ & Hs & Hl & -> & Hset)]; [by destruct Hn|..|done].
  destruct (nvs_set_stores _ _ _ _ Hset Hf) as [Hk Hflag].
  assert (length (om c) = 32%nat) as Hl32.
  { unfold OS_MBUF_PKTLEN in Hl. rewrite u16_small in Hl by clia. lia. }
  destruct (init_reads _ _ _ _ _ _ _ Hu Hf2) as (_ & Hp & Hnp & Hserved).
  assert (s_state st' = PROV_PROVISIONED -> st' = ProvSt PROV_PROVISIONED (om c) /\
            s_pubkey cmds' = om c) as Hprov.
  { intros Hst. destruct (Hp Hst) as (Hk' & _ & _ & ->). cbn in Hk'. simplify_eq.
    destruct st' as [s k]. simpl in *. by subst. }
  split_and!; try done.
  - intros Hw Hr. apply Hprov. by rewrite (Hserved (om c) 1 Hr Hk Hl32 (Hflag Hw)).
  - intros Hd. destruct (s_state st') eqn:Hst; [by apply Hnp|].
    destruct (Hp eq_refl) as (_ & _ & (v & Hv & _) & _). cbn in Hv. congruence.
Qed.


(** C23. Who owns the device.  Over any sequence of accesses of the
    provisioning service, whatever the flash and the radio answer, the
    command verifier always uses the key of the provisioning state (the zero
    key while unprovisioned); and once provisioned, no sequence without the
    factory-reset magic changes the state, the key or the verifier. *)
Theorem provisioned_key_is_kept NONE ops d t d' :
  exec (prov_session NONE d ops) t d' -> Forall flat_honest t ->
  (key_inv d -> key_inv d') /\
  (s_state (d_prov d) = PROV_PROVISIONED -> Forall (fun o => ~ is_reset o) ops -> d' = d).
Proof.
  revert d t. induction ops as [|o ops IH]; intros d t H Hh; [by destruct H as [-> ->]|].
  cbn [prov_session] in H. apply exec_bind in H as (t1 & t2 & [rc d1] & -> & H1 & H2).
  apply Forall_app in Hh as [Hh1 Hh2].
  destruct (prov_access_inv _ _ _ _ _ _ H1 Hh1) as [Hi Hk].
  destruct (IH d1 t2 H2 Hh2) as [Hi2 Hk2]. split; [by auto|].
  intros Hs Hops. apply Forall_cons_1 in Hops as [Ho Hops].
  rewrite (Hk Hs Ho) in *. by apply Hk2.
Qed.

(** ** A platform on which every call succeeds *)

Definition nvs_answers (key : list Z) (X : Type) (e : nvsE X) : X :=
  match e in nvsE X return X with
  | nvs_get_blob _ _ _ => (ESP_OK, key)
  | nvs_get_u8 _ _ => (ESP_OK, 1)
  | nvs_get_u32 _ _ => (ESP_OK, 0)
  | nvs_flash_init | nvs_flash_erase | nvs_open _ _ | nvs_set_blob _ _ _ | nvs_set_u8 _ _ _
  | nvs_set_u32 _ _ _ | nvs_erase_key _ _ | nvs_commit _ => ESP_OK
  | nvs_close _ => tt
  end.

Definition ble_answers (X : Type) (e : bleE X) : X :=
  match e in bleE X return X with
  | ble_hs_mbuf_to_flat m _ => Some m
  | ble_hs_mbuf_from_flat _ => true
  | ble_hs_id_infer_auto => 0
  | ble_att_mtu _ => 247
  | s_on_command_call _ => tt
  | nimble_port_init => ESP_OK
  | ble_svc_init => tt
  | nimble_port_freertos_init => tt
  | _ => BLE_OK
  end.

Definition prov_answers (key : list Z) (X : Type) (e : provE X) (s : unit) : X * unit :=
  (match e in provE X return X with
   | PNvs e => nvs_answers key _ e
   | PBle e => ble_answers _ e
   | os_mbuf_append _ => tt
   end, s).

Definition demo_key : list Z := replicate 32 7.
Definition demo_dev : dev := Dev prov_boot (CmdState zero_key true [] 0) demo_link.
Definition demo_provisioned : dev :=
  Dev (ProvSt PROV_PROVISIONED demo_key) (CmdState demo_key true [] 0) demo_link.
Definition write_of (b : list Z) : access_ctxt := AccessCtxt BLE_GATT_ACCESS_OP_WRITE_CHR b.
Definition magic_bytes : list Z := [0xA5; 0xA5; 0xA5; 0xA5].

(** The flash around the writes of the demo. *)
Definition flash1 : kv := <[srvkey := Blob demo_key]> ∅.
Definition flash2 : kv := <[provd := U8 1]> flash1.
Definition flash3 : kv := <[provd := U8 0]> (delete srvkey flash2).

Lemma demo_key_write :
  exec (prov_key_access 65535 demo_dev (write_of demo_key))
    (fst (fst (run (prov_answers demo_key) (prov_key_access 65535 demo_dev (write_of demo_key)) tt)))
    (ATT_OK, demo_provisioned).
Proof. by apply (run_exec (prov_answers demo_key) _ tt _ _ tt). Qed.

Lemma accepted_key_is_durable_witness :
  let t := fst (fst (run (prov_answers demo_key)
                       (prov_key_access 65535 demo_dev (write_of demo_key)) tt)) in
  let boot := run (fun X e s => (nvs_answers demo_key X e, s))
                (provisioning_init prov_boot (d_cmds demo_dev)) tt in
  d_prov demo_provisioned = ProvSt PROV_PROVISIONED demo_key /\
  snd (fst boot) = (ProvSt PROV_PROVISIONED demo_key, CmdState demo_key true [] 0).
Proof.
  intros t boot.
  destruct (accepted_key_is_durable 65535 demo_dev (write_of demo_key) t demo_provisioned
              (Flash ∅ ∅) (Flash flash2 flash2) (d_cmds demo_dev) (fst (fst boot))
              (fst (snd (fst boot))) (snd (snd (fst boot))) (Flash flash2 flash2))
    as (_ & _ & H1 & _ & H2 & _ & _).
  - reflexivity.
  - vm_compute. reflexivity.
  - apply demo_key_write.
  - repeat constructor; cbn; congruence.
  - exists (Flash ∅ ∅). split; [done|]. exists (Flash flash1 ∅). split; [split; by left|].
    exists (Flash flash2 ∅). split; [split; by left|].
    exists (Flash flash2 flash2). split; [split; [done|by left]|].
    exists (Flash flash2 flash2). by split.
  - apply (run_exec (fun X e s => (nvs_answers demo_key X e, s)) _ tt _ _ tt). reflexivity.
  - repeat (exists (Flash flash2 flash2); split; [by repeat split|]). reflexivity.
  - split; [exact H1|reflexivity].
Defined.


Lemma provisioned_key_is_kept_witness :
  let s := prov_session 65535 demo_provisioned
             [AccessKey (write_of (replicate 32 9)); AccessReset (write_of [1; 2; 3; 4])] in
  snd (fst (run (prov_answers demo_key) s tt)) = demo_provisioned.
Proof.
  intros s.
  apply (provisioned_key_is_kept 65535
           [AccessKey (write_of (replicate 32 9)); AccessReset (write_of [1; 2; 3; 4])]
           demo_provisioned (fst (fst (run (prov_answers demo_key) s tt)))).
  - apply (run_exec_fst (prov_answers demo_key) s tt).
  - repeat constructor; cbn; congruence.
  - reflexivity.
  - repeat constructor; by vm_compute.
Defined.
