(* ===== verification/MicDsp.v ===== *)
(** * mic_dsp.c: the two-microphone noise canceller

    A normalised LMS filter in Q15 over a ring of the last 32 reference
    samples.  The specification is the same filter over a shift register;
    the main theorem says the ring implements it. *)

From S2P Require Import Prelude Config.

(** [mic_dsp_t]. *)
Record mic_dsp_t : Type := MicDsp { w : list Z; delay : list Z; didx : Z }.

Definition TAPS : nat := Z.to_nat DSP_NLMS_TAPS.

Definition mic_dsp_init : mic_dsp_t := MicDsp (replicate TAPS 0) (replicate TAPS 0) 0.

(** [delay[(didx - k + L) % L]], for every lag [k]. *)
Definition lag (delay : list Z) (didx : Z) (k : nat) : Z :=
  nth (Z.to_nat (Z.rem (didx - Z.of_nat k + DSP_NLMS_TAPS) DSP_NLMS_TAPS)) delay 0.
Definition lags (delay : list Z) (didx : Z) : list Z := map (lag delay didx) (seq 0 TAPS).

(** [acc] and [pow]: the loop over the lags. *)
Fixpoint dot (ws xs : list Z) : Z :=
  match ws, xs with w :: ws, x :: xs => w * x + dot ws xs | _, _ => 0 end.

(** The cleaned sample before saturation: also the adaptation error. *)
Definition residual (ws xs : list Z) (primary : Z) : Z :=
  s32 (primary - s32 (Z.shiftr (dot ws xs) 15)).

(** One coefficient: the NLMS update and the leakage. *)
Definition adapt_tap (e denom w x : Z) : Z :=
  let upd := Z.quot (DSP_NLMS_STEP_Q15 * e * x) denom in
  let w := s32 (w + upd) in
  s32 (w - Z.shiftr (s32 (w * DSP_NLMS_LEAK_Q15)) 15).

Fixpoint adapt_taps (e denom : Z) (ws xs : list Z) : list Z :=
  match ws, xs with
  | w :: ws, x :: xs => adapt_tap e denom w x :: adapt_taps e denom ws xs
  | ws, _ => ws
  end.

Definition adapt (ws xs : list Z) (e : Z) : list Z :=
  let denom := dot xs xs + DSP_NLMS_EPS in
  if 0 <? denom then adapt_taps e denom ws xs else ws.

(** One iteration of the sample loop. *)
Definition mic_dsp_step (d : mic_dsp_t) (primary reference : Z) (adapt_now : bool) : mic_dsp_t * Z :=
  let delay := <[Z.to_nat (didx d) := reference]> (delay d) in
  let xs := lags delay (didx d) in
  let y := residual (w d) xs primary in
  let w := if adapt_now then adapt (w d) xs y else w d in
  (MicDsp w delay (Z.rem (didx d + 1) DSP_NLMS_TAPS), sat_int16 y).

Fixpoint mic_dsp_process (d : mic_dsp_t) (samples : list (Z * Z)) (adapt_now : bool)
  : mic_dsp_t * list Z :=
  match samples with
  | [] => (d, [])
  | (p, r) :: samples =>
      let '(d, y) := mic_dsp_step d p r adapt_now in
      let '(d, ys) := mic_dsp_process d samples adapt_now in
      (d, y :: ys)
  end.

(** ** The filter over a shift register *)

(** The coefficients and the last 32 reference samples, newest first. *)
Definition nlms_step (ws h : list Z) (primary reference : Z) (adapt_now : bool)
  : list Z * list Z * Z :=
  let h := reference :: removelast h in
  let y := residual ws h primary in
  (if adapt_now then adapt ws h y else ws, h, sat_int16 y).

Fixpoint nlms (ws h : list Z) (samples : list (Z * Z)) (adapt_now : bool) : list Z * list Z * list Z :=
  match samples with
  | [] => (ws, h, [])
  | (p, r) :: samples =>
      let '(ws, h, y) := nlms_step ws h p r adapt_now in
      let '(ws, h, ys) := nlms ws h samples adapt_now in
      (ws, h, y :: ys)
  end.

(** ** The ring *)

Record mic_ok (d : mic_dsp_t) : Prop := {
  mic_delay : length (delay d) = TAPS;
  mic_didx : 0 <= didx d < DSP_NLMS_TAPS }.

(** What the ring presents between two samples: the newest is one before
    the write index. *)
Definition recent (d : mic_dsp_t) : list Z := lags (delay d) (Z.rem (didx d + 31) DSP_NLMS_TAPS).

Lemma mic_dsp_init_ok : mic_ok mic_dsp_init.
Proof. split; [done|]. unfold DSP_NLMS_TAPS. simpl. lia. Qed.

Lemma lag_eq dl di k : 0 <= di < 32 -> (k < 32)%nat ->
  lag dl di k = nth (Z.to_nat ((di - Z.of_nat k) mod 32)) dl 0.
Proof.
  intros Hd Hk. unfold lag, DSP_NLMS_TAPS. rewrite Z.rem_mod_nonneg by lia.
  f_equal. f_equal. rewrite <-(Z_mod_plus_full (di - Z.of_nat k) 1 32). f_equal.
Qed.

Lemma push_lags d x :
  mic_ok d -> lags (<[Z.to_nat (didx d) := x]> (delay d)) (didx d) = x :: removelast (recent d).
Proof.
  intros [Hl Hd]. unfold DSP_NLMS_TAPS in Hd. unfold recent, lags.
  change (seq 0 TAPS) with (0%nat :: map S (seq 0 31)) at 1.
  change (seq 0 TAPS) with (seq 0 31 ++ [31%nat]).
  rewrite (map_app _ (seq 0 31)). cbn [map]. rewrite removelast_last. f_equal.
  - rewrite lag_eq by lia. rewrite Z.sub_0_r, Z.mod_small by lia.
    rewrite nth_lookup, list_lookup_insert_eq; [done|]. rewrite Hl. change TAPS with 32%nat. lia.
  - rewrite map_map. apply map_ext_in. intros k Hk. apply in_seq in Hk.
    assert (0 <= Z.rem (didx d + 31) DSP_NLMS_TAPS < 32) as Hr.
    { unfold DSP_NLMS_TAPS. rewrite Z.rem_mod_nonneg by lia. apply Z.mod_pos_bound. lia. }
    rewrite !lag_eq by lia. unfold DSP_NLMS_TAPS. rewrite Z.rem_mod_nonneg by lia.
    rewrite Zminus_mod_idemp_l.
    replace ((didx d + 31 - Z.of_nat k) mod 32) with ((didx d - Z.of_nat (S k)) mod 32).
    2: { rewrite <-(Z_mod_plus_full (didx d - Z.of_nat (S k)) 1 32). f_equal. lia. }
    rewrite !nth_lookup. f_equal. apply list_lookup_insert_ne.
    pose proof (Z.mod_pos_bound (didx d - Z.of_nat (S k)) 32 ltac:(lia)).
    intros Heq. apply Z2Nat.inj in Heq; [|lia|lia].
    Z.div_mod_to_equations. lia.
Qed.

Lemma step_refines d p r a :
  mic_ok d ->
  let '(d', y) := mic_dsp_step d p r a in
  mic_ok d' /\ nlms_step (w d) (recent d) p r a = (w d', recent d', y).
Proof.
  intros Hok. unfold mic_dsp_step, nlms_step. pose proof (push_lags d r Hok) as Hp.
  destruct Hok as [Hl Hd]. unfold DSP_NLMS_TAPS in Hd. split.
  - split; cbn [delay didx]; [by rewrite length_insert|].
    unfold DSP_NLMS_TAPS. rewrite Z.rem_mod_nonneg by lia. apply Z.mod_pos_bound. lia.
  - rewrite <-Hp. cbn [w recent delay didx]. unfold recent. cbn [delay didx].
    replace (Z.rem (Z.rem (didx d + 1) DSP_NLMS_TAPS + 31) DSP_NLMS_TAPS) with (didx d); [done|].
    unfold DSP_NLMS_TAPS. rewrite (Z.rem_mod_nonneg (didx d + 1)) by lia.
    pose proof (Z.mod_pos_bound (didx d + 1) 32 ltac:(lia)). rewrite Z.rem_mod_nonneg by lia.
    Z.div_mod_to_equations. lia.
Qed.

(** ** Widths *)

Lemma dot_bound W X ws xs :
  0 <= W -> 0 <= X -> Forall (fun a => - W <= a <= W) ws -> Forall (fun b => - X <= b <= X) xs ->
  Z.abs (dot ws xs) <= W * X * Z.of_nat (length ws).
Proof.
  intros HW HX Hw. revert xs. induction Hw as [|a ws Ha _ IH]; intros xs Hx; [simpl; lia|].
  destruct Hx as [|b xs Hb Hx]; [simpl; nia|]. cbn [dot length].
  specialize (IH xs Hx). assert (Z.abs (a * b) <= W * X) by (rewrite Z.abs_mul; nia). lia.
Qed.

(** The accumulators of the code are int64: no sum or product wraps. *)
Lemma accumulators_fit ws xs e :
  length ws = TAPS -> length xs = TAPS -> Forall is_s32 ws -> Forall is_s16 xs -> is_s32 e ->
  is_s64 (dot ws xs) /\ 0 <= dot xs xs /\ is_s64 (dot xs xs + DSP_NLMS_EPS) /\
  Forall (fun x => is_s64 (DSP_NLMS_STEP_Q15 * e * x)) xs.
Proof.
  intros Hlw Hlx Hw Hx He.
  assert (Forall (fun a => - 2147483648 <= a <= 2147483648) ws) as Hw'.
  { eapply Forall_impl; [exact Hw|]. unfold is_s32. simpl. lia. }
  assert (Forall (fun b => - 32768 <= b <= 32768) xs) as Hx'.
  { eapply Forall_impl; [exact Hx|]. unfold is_s16. simpl. lia. }
  pose proof (dot_bound 2147483648 32768 ws xs ltac:(lia) ltac:(lia) Hw' Hx') as H1.
  pose proof (dot_bound 32768 32768 xs xs ltac:(lia) ltac:(lia) Hx' Hx') as H2.
  rewrite Hlw in H1. rewrite Hlx in H2. change (Z.of_nat TAPS) with 32 in *.
  assert (forall l, 0 <= dot l l) as Hpos.
  { induction l as [|a l IH]; [done|]. simpl. pose proof (Z.square_nonneg a). lia. }
  unfold is_s64, is_s32, DSP_NLMS_EPS, DSP_NLMS_STEP_Q15 in *. pose proof (Hpos xs).
  split_and!; try lia.
  - eapply Forall_impl; [exact Hx|]. unfold is_s16. simpl. intros x Hb. nia.
Qed.

(** ** Theorems *)

(** C38. The ring is a shift register.  From any state with its write index in
    range, processing a frame gives the samples, the coefficients and the 32
    remembered reference samples of the filter written over a shift register;
    while adaptation is off the coefficients do not move, and every sample
    that leaves is a 16-bit integer. *)
Theorem mic_dsp_refines_nlms d samples a :
  mic_ok d ->
  let '(d', ys) := mic_dsp_process d samples a in
  mic_ok d' /\ nlms (w d) (recent d) samples a = (w d', recent d', ys) /\
  (a = false -> w d' = w d) /\ Forall is_s16 ys.
Proof.
  revert d. induction samples as [|[p r] samples IH]; intros d Hok; cbn [mic_dsp_process nlms]; [done|].
  pose proof (step_refines d p r a Hok) as Hs.
  assert ((a = false -> w (fst (mic_dsp_step d p r a)) = w d) /\ is_s16 (snd (mic_dsp_step d p r a)))
    as [Hw Hy] by (split; [by intros ->|apply sat_int16_range]).
  destruct (mic_dsp_step d p r a) as [d1 y]. destruct Hs as [Hok1 ->]. specialize (IH d1 Hok1).
  destruct (mic_dsp_process d1 samples a) as [d2 ys]. destruct IH as (Hok2 & -> & Hw2 & Hys).
  cbn [fst snd] in *. split_and!; [done|done| |by constructor].
  intros Ha. by rewrite Hw2, Hw.
Qed.

Lemma mic_dsp_refines_nlms_witness :
  mic_ok mic_dsp_init /\
  nlms (replicate TAPS 0) (replicate TAPS 0) [(1000, 900); (-500, -450); (1000, 900)] true =
  (w (fst (mic_dsp_process mic_dsp_init [(1000, 900); (-500, -450); (1000, 900)] true)),
   recent (fst (mic_dsp_process mic_dsp_init [(1000, 900); (-500, -450); (1000, 900)] true)),
   [1000; -400; 737]).
Proof.
  split; [apply mic_dsp_init_ok|].
  exact (proj1 (proj2 (mic_dsp_refines_nlms mic_dsp_init [(1000, 900); (-500, -450); (1000, 900)] true
    mic_dsp_init_ok))).
Defined.
