(* ===== verification/Boot.v ===== *)
(** * openrecall_sensor.c: [app_main]

    The boot sequence, composed of the components' own initialisations in the
    order the code calls them.  A failed ESP_ERROR_CHECK is [abort], a call
    that never returns. *)

From stdpp Require Import gmap strings.
From S2P Require Import Prelude Effects Interleave Platform Nvs Fs Config RingBuffer AudioTask.
From S2P Require Import Battery SdStore Camera Snapshot BleLink Commands Provisioning.
Open Scope list_scope.
Open Scope Z_scope.

Inductive bootE : Type -> Type :=
| BtNvs {X} (e : nvsE X) : bootE X
| BtAudio {X} (e : audioE X) : bootE X
| BtBat {X} (e : batE X) : bootE X
| BtSd {X} (e : sdE X) : bootE X
| BtSnap {X} (e : snapE X) : bootE X
| BtBle {X} (e : bleE X) : bootE X
| heap_caps_calloc_ring : bootE bool
| sodium_init : bootE bool  (** not negative *)
| xQueueCreate_executor : bootE bool
| xTaskCreate_executor : bootE bool
| xTaskCreate_button : bootE bool
| esp_sleep_wakeup_ext0 : bootE bool  (** the wake-up cause is EXT0 *)
| xTaskCreate_audio : bootE unit
| xQueueCreate_replay : bootE bool
| xTaskCreate_drain : bootE bool
| abort : bootE Empty_set.

#[local] Abbreviation call := (Effects.call (E := bootE)).
#[local] Abbreviation nvs := (translate (fun X => @BtNvs X)).
#[local] Abbreviation audio := (translate (fun X => @BtAudio X)).
#[local] Abbreviation bat := (translate (fun X => @BtBat X)).
#[local] Abbreviation sd := (translate (fun X => @BtSd X)).
#[local] Abbreviation snap := (translate (fun X => @BtSnap X)).
#[local] Abbreviation ble := (translate (fun X => @BtBle X)).

Definition ESP_ERROR_CHECK (err : esp_err_t) : prog bootE unit :=
  (if esp_ok err then Ret tt else let* x := call abort in match x : Empty_set with end)%prog.

Definition button_start : prog bootE esp_err_t :=
  (let* ok := call xTaskCreate_button in
   if negb ok then Ret ESP_FAIL else Ret ESP_OK)%prog.

Definition ble_drain_start : prog bootE esp_err_t :=
  (let* q := call xQueueCreate_replay in
   if negb q then Ret ESP_FAIL else
   let* ok := call xTaskCreate_drain in
   if negb ok then Ret ESP_FAIL else Ret ESP_OK)%prog.

(** The statics after boot. *)
Record device : Type := Device {
  dev_boot_id : Z; dev_ring : ring; dev_prov : prov_st; dev_cmds : cmd_state;
  dev_executor : bool; dev_bat : bat_st; dev_mounted : bool; dev_snap : snap_st;
  dev_link : link_state }.

(** NVS first: the flash is erased and initialised again when its layout is
    unusable. *)
Definition boot_flash : prog bootE unit :=
  (let* nv := nvs (Effects.call nvs_flash_init) in
   let* nv := (if bool_decide (nv = ESP_ERR_NVS_NO_FREE_PAGES) ||
                  bool_decide (nv = ESP_ERR_NVS_NEW_VERSION_FOUND)
               then let* e := nvs (Effects.call nvs_flash_erase) in
                    ESP_ERROR_CHECK e ;;; nvs (Effects.call nvs_flash_init)
               else Ret nv) in
   ESP_ERROR_CHECK nv)%prog.

(** The ring, the microphones and the encoder: none is optional. *)
Definition boot_audio : prog bootE ring :=
  (let* alloc := call heap_caps_calloc_ring in
   match ring_buffer_init alloc with
   | None => let* x := call abort in match x : Empty_set with end
   | Some r =>
       let* e := audio audio_capture_init in
       ESP_ERROR_CHECK e ;;;
       let* e := audio opus_stream_init in
       ESP_ERROR_CHECK e ;;;
       Ret r
   end)%prog.

(** The statics of commands.c before [commands_init]. *)
Definition cmds_zero : cmd_state := CmdState zero_key false (replicate CMD_DEDUPE_N EmptyString) 0.

(** The identity: the provisioned key, the verifier, and the key again. *)
Definition boot_identity : prog bootE (prov_st * cmd_state) :=
  (let* r := nvs (provisioning_init prov_boot cmds_zero) in
   let '(prov, cmds) := r in
   let* ok := call sodium_init in
   let cmds := default cmds (commands_init ok SERVER_ED25519_PUBKEY true) in
   let cmds := if provisioning_state_byte prov =? 1
               then commands_set_pubkey cmds (provisioning_core_server_key prov) else cmds in
   Ret (prov, cmds))%prog.

(** The optional services: each failure is logged and survived. *)
Definition boot_services : prog bootE (bool * bat_st * bool * snap_st) :=
  (let* q := call xQueueCreate_executor in
   let* executor := (if q : bool then call xTaskCreate_executor else Ret false) in
   let* b := bat (battery_init (BatSt false false 0 false)) in
   let '(err, b) := b in
   let* b := (if esp_ok err then
                let* w := call esp_sleep_wakeup_ext0 in
                let b := if w : bool then battery_mark_wake_from_button b else b in
                bat battery_start_monitor ;;; Ret b
              else Ret b) in
   let* _ := button_start in
   let* m := sd (sd_store_mount false) in
   let mounted := snd m in
   let* e := snap (translate (fun X => @SnCam X) camera_init) in
   let* s := (if negb (esp_ok e) then Ret (SnapSt false false 0 mounted)
              else let* s := snap (snapshot_init (SnapSt false false 0 mounted)) in Ret (snd s)) in
   Ret (executor, b, mounted, s))%prog.

Section Boot.
(** A constant of the NimBLE headers. *)
Context (BLE_HS_CONN_HANDLE_NONE : Z).

(** The tasks: the audio task, the drain, and the link last. *)
Definition boot_tasks : prog bootE link_state :=
  (call xTaskCreate_audio ;;;
   let* e := ble_drain_start in
   ESP_ERROR_CHECK e ;;;
   let* l := ble (ble_link_start (link_init BLE_HS_CONN_HANDLE_NONE)) in
   ESP_ERROR_CHECK (fst l) ;;;
   Ret (snd l))%prog.

Definition app_main : prog bootE device :=
  (boot_flash ;;;
   let* b := nvs (boot_id_init 0) in
   let* r := boot_audio in
   let* i := boot_identity in
   let* s := boot_services in
   let '(executor, battery, mounted, snapshots) := s in
   let* l := boot_tasks in
   Ret (Device (snd b) r (fst i) (snd i) executor battery mounted snapshots l))%prog.
End Boot.

(** ** Traces *)

Definition bnvs_ev (e : ev bootE) : option (ev nvsE) :=
  match e with
  | Ev e x =>
      match e in bootE X return X -> option (ev nvsE) with
      | BtNvs e => fun x => Some (Ev e x)
      | _ => fun _ => None
      end x
  end.
Definition bnvs_of : list (ev bootE) -> list (ev nvsE) := project bnvs_ev.
Definition is_nvs (e : ev bootE) : bool := match bnvs_ev e with Some _ => true | None => false end.

Lemma bnvs_of_app t1 t2 : bnvs_of (t1 ++ t2) = bnvs_of t1 ++ bnvs_of t2.
Proof. apply project_app. Qed.
Lemma bnvs_of_nvs u : bnvs_of (map (lift_ev (fun X => @BtNvs X)) u) = u.
Proof. apply project_lift. by intros [X e x]. Qed.

(** A phase without NVS calls. *)
Lemma no_nvs {A} (p : prog bootE A) t r :
  always (never is_nvs) [] p -> exec p t r -> bnvs_of t = [].
Proof.
  intros Ha H. pose proof (always_exec (fun e => is_nvs e = false) [] p t r Ha H) as Hf.
  clear H. induction Hf as [|e t He _ IH]; [done|]. unfold bnvs_of, project in *. cbn.
  unfold is_nvs in He. destruct (bnvs_ev e); [done|]. by apply IH.
Qed.

Lemma check_no_nvs e past : always (never is_nvs) past (ESP_ERROR_CHECK e).
Proof. unfold ESP_ERROR_CHECK. never_tac. Qed.
Lemma boot_audio_no_nvs past : always (never is_nvs) past boot_audio.
Proof. unfold boot_audio. never_tac; apply check_no_nvs. Qed.
Lemma boot_services_no_nvs past : always (never is_nvs) past boot_services.
Proof. unfold boot_services, button_start. never_tac. Qed.
Lemma boot_tasks_no_nvs h past : always (never is_nvs) past (boot_tasks h).
Proof. unfold boot_tasks, ble_drain_start. never_tac; apply check_no_nvs. Qed.

(** The store works: it opens, reads what is there and accepts writes. *)
Definition nvs_fine (e : ev nvsE) : Prop :=
  match e with
  | Ev e x =>
      match e in nvsE X return X -> Prop with
      | nvs_flash_init => fun r => r = ESP_OK
      | nvs_open _ _ => fun r => r = ESP_OK
      | nvs_get_blob _ _ _ => fun r => fst r = ESP_OK
      | nvs_get_u8 _ _ => fun r => fst r = ESP_OK
      | nvs_get_u32 _ _ => fun r => fst r = ESP_OK
      | nvs_set_u32 _ _ _ => fun r => r = ESP_OK
      | _ => fun _ => True
      end x
  end.

Lemma fine_served f e : nvs_fine e -> read_served f e.
Proof. destruct e as [X e x]. destruct e; cbn; try done; by intros. Qed.

Definition bootkey : string * string := (BOOT_NVS_NAMESPACE, BOOT_NVS_KEY).

Lemma written_now f m e f' : written f m e f' -> e = ESP_OK -> now f' = m.
Proof. by intros [[H|[H _]] _] He. Qed.
Lemma written_other f ns k v e f' key :
  written f (<[(ns, k) := v]> (now f)) e f' -> key <> (ns, k) -> now f' !! key = now f !! key.
Proof. intros [[-> |[_ ->]] _] Hk; [by rewrite lookup_insert_ne|done]. Qed.

(** The boot counter touches its own key only. *)
Lemma boot_id_reads b u e id f f2 :
  exec (boot_id_init b) u (e, id) -> nvs_trace f u f2 ->
  (forall key, key <> bootkey -> now f2 !! key = now f !! key) /\
  (Forall nvs_fine u -> forall n, now f !! bootkey = Some (U32 n) ->
     id = u32 (n + 1) /\ now f2 !! bootkey = Some (U32 (u32 (n + 1)))).
Proof.
  unfold boot_id_init. intros H Hf. exec_all H; simplify_eq; nvs_inv; split; try done.
  - intros Hfi n Hn. apply Forall_cons_1 in Hfi as [Hx _]. cbn in Hx. by subst.
  - intros key Hk. by eapply written_other.
  - intros Hfi n Hn. do 2 apply Forall_cons_1 in Hfi as [_ Hfi].
    apply Forall_cons_1 in Hfi as [Hx _]. cbn in Hx. by subst.
  - intros key Hk. 
    match goal with H : now ?a = now ?b |- _ => rewrite H end. by eapply written_other.
  - intros Hfi n Hn. apply Forall_cons_1 in Hfi as [_ Hfi]. apply Forall_cons_1 in Hfi as [Hx Hfi].
    apply Forall_cons_1 in Hfi as [Hw _]. cbn in Hx, Hw.
    match goal with H : _ -> now f !! _ = _ |- _ => specialize (H Hx) as Hv end.
    rewrite (proj2 (esp_ok_true _) Hx) in *. unfold bootkey in *. rewrite Hv in Hn. injection Hn as <-.
    split; [done|]. match goal with H : now ?a = now ?b |- _ => rewrite H end.
    match goal with H : written _ _ _ _ |- _ => rewrite (written_now _ _ _ _ H Hw) end.
    by rewrite lookup_insert_eq.
Qed.

Lemma boot_flash_fine t f f2 :
  exec boot_flash t tt -> nvs_trace f (bnvs_of t) f2 -> Forall nvs_fine (bnvs_of t) -> f2 = f.
Proof.
  unfold boot_flash. intros H Hf Hok. apply exec_bind in H as (t1 & t2 & nv & -> & H1 & H).
  apply exec_translate in H1 as (u & -> & H1). apply exec_one in H1 as ->.
  rewrite bnvs_of_app, bnvs_of_nvs in *. apply Forall_app in Hok as [Hok _].
  apply Forall_cons_1 in Hok as [Hok _]. cbn in Hok. subst nv.
  apply exec_bind in H as (t3 & t4 & nv & -> & H3 & H). destruct H3 as [-> ->].
  cbn in H. destruct H as [-> _]. cbn in Hf. by destruct Hf as (k & -> & ->).
Qed.

Lemma boot_identity_reads t f f2 prov cmds :
  exec boot_identity t (prov, cmds) -> nvs_trace f (bnvs_of t) f2 ->
  f2 = f /\
  (s_state prov = PROV_PROVISIONED ->
     s_pubkey cmds = s_key prov /\ now f !! srvkey = Some (Blob (s_key prov)) /\ length (s_key prov) = 32%nat) /\
  (s_state prov = PROV_UNPROVISIONED -> s_pubkey cmds = zero_key) /\
  (forall k v, Forall nvs_fine (bnvs_of t) -> now f !! srvkey = Some (Blob k) -> length k = 32%nat ->
     now f !! provd = Some (U8 v) -> v <> 0 -> prov = ProvSt PROV_PROVISIONED k).
Proof.
  unfold boot_identity. intros H Hf. apply exec_bind in H as (t1 & t2 & [prov1 cmds1] & -> & H1 & H).
  apply exec_translate in H1 as (u & -> & H1).
  apply exec_bind in H as (t3 & t4 & ok & -> & H3 & [-> H]). apply exec_one in H3 as ->.
  rewrite bnvs_of_app, bnvs_of_nvs in *. change (bnvs_of ([Ev sodium_init ok] ++ [])) with (@nil (ev nvsE)) in *.
  rewrite app_nil_r in *. injection H as -> ->.
  destruct (init_reads _ _ _ _ _ _ _ H1 Hf) as (-> & Hp & Hu & Hs). split; [done|]. split_and!.
  - intros Hst. destruct (Hp Hst) as (Hk & Hl & _ & _). unfold provisioning_state_byte, provisioning_core_state.
    rewrite Hst. cbn. by split_and!.
  - intros Hst. destruct (Hu Hst) as [-> ->]. unfold provisioning_state_byte, provisioning_core_state.
    rewrite Hst. cbn. by destruct ok.
  - intros k v Hfi Hk Hl Hv Hv0. apply (Hs k v); try done.
    eapply Forall_impl; [exact Hfi|]. intros e. apply fine_served.
Qed.

(** ** Theorems *)

(** C24. After boot the verifier trusts the provisioned key.  On every boot
    that completes, a provisioned device verifies commands against the 32-byte
    key it holds in flash, an unprovisioned one against the zero key,
    although commands_init has overwritten the key provisioning_init
    installed.  When the store answers, a device whose flash
    holds a key and a nonzero flag is provisioned with that key, and the boot
    counter is one more than the last, now and in the store. *)
Theorem boot_installs_the_key h f t d f2 :
  exec (app_main h) t d -> nvs_trace f (bnvs_of t) f2 ->
  (s_state (dev_prov d) = PROV_PROVISIONED ->
     s_pubkey (dev_cmds d) = s_key (dev_prov d) /\
     now f2 !! srvkey = Some (Blob (s_key (dev_prov d))) /\ length (s_key (dev_prov d)) = 32%nat) /\
  (s_state (dev_prov d) = PROV_UNPROVISIONED -> s_pubkey (dev_cmds d) = zero_key) /\
  (Forall nvs_fine (bnvs_of t) ->
     (forall k v, now f !! srvkey = Some (Blob k) -> length k = 32%nat ->
        now f !! provd = Some (U8 v) -> v <> 0 ->
        s_state (dev_prov d) = PROV_PROVISIONED /\ s_pubkey (dev_cmds d) = k) /\
     (forall n, now f !! bootkey = Some (U32 n) ->
        dev_boot_id d = u32 (n + 1) /\ now f2 !! bootkey = Some (U32 (u32 (n + 1))))).
Proof.
  unfold app_main. intros H Hf.
  apply exec_bind in H as (t1 & t2 & [] & -> & H1 & H).
  apply exec_bind in H as (t3 & t4 & [eb id] & -> & H3 & H). apply exec_translate in H3 as (u & -> & H3).
  apply exec_bind in H as (t5 & t6 & r & -> & H5 & H).
  apply exec_bind in H as (t7 & t8 & [prov cmds] & -> & H7 & H).
  apply exec_bind in H as (t9 & t10 & [[[ex b] mo] sn] & -> & H9 & H).
  apply exec_bind in H as (t11 & t12 & l & -> & H11 & [-> ->]).
  rewrite !bnvs_of_app, bnvs_of_nvs, (no_nvs _ _ _ (boot_audio_no_nvs []) H5),
    (no_nvs _ _ _ (boot_services_no_nvs []) H9), (no_nvs _ _ _ (boot_tasks_no_nvs h []) H11) in *.
  cbn [app bnvs_of project omap list_omap] in *. rewrite app_nil_r in *.
  apply nvs_trace_app in Hf as (f1 & Hf1 & Hf). apply nvs_trace_app in Hf as (f3 & Hf3 & Hf7).
  destruct (boot_identity_reads _ _ _ _ _ H7 Hf7) as (-> & Hp & Hu & Hs).
  destruct (boot_id_reads _ _ _ _ _ _ H3 Hf3) as [Hb1 Hb2]. cbn [dev_prov dev_cmds dev_boot_id fst snd].
  split_and!; [exact Hp|exact Hu|]. intros Hok. apply Forall_app in Hok as [Hok1 Hok].
  apply Forall_app in Hok as [Hok3 Hok7]. pose proof (boot_flash_fine _ _ _ H1 Hf1 Hok1) as ->.
  split; [|by apply Hb2]. intros k v Hk Hl Hv Hv0.
  assert (prov = ProvSt PROV_PROVISIONED k) as ->.
  { apply (Hs k v); try done; by rewrite Hb1. }
  by destruct (Hp eq_refl) as [? _].
Qed.

(** ** Witnesses *)

(** The answers of a device provisioned with [demo_key] on its fifth boot;
    the calls not listed are not made. *)
Definition boot_answers (X : Type) (e : bootE X) : option X :=
  match e in bootE X return option X with
  | BtNvs e =>
      match e in nvsE X return option X with
      | nvs_flash_init | nvs_open _ _ | nvs_commit _ | nvs_set_u32 _ _ _ => Some ESP_OK
      | nvs_get_blob _ _ _ => Some (ESP_OK, demo_key)
      | nvs_get_u8 _ _ => Some (ESP_OK, 1)
      | nvs_get_u32 _ _ => Some (ESP_OK, 4)
      | nvs_close _ => Some tt
      | _ => None
      end
  | BtAudio e =>
      match e in audioE X return option X with
      | i2s_new_channel _ _ | i2s_channel_init_std_mode _ | i2s_channel_enable => Some ESP_OK
      | opus_encoder_create _ _ => Some true
      | opus_set_bitrate _ | opus_set_complexity _ | opus_set_signal_voice => Some tt
      | _ => None
      end
  | BtBat e =>
      match e in batE X return option X with
      | adc_oneshot_new_unit => Some ESP_FAIL
      | _ => None
      end
  | BtSd e =>
      match e in sdE X return option X with
      | spi_bus_initialize => Some ESP_FAIL
      | _ => None
      end
  | BtSnap e =>
      match e in snapE X return option X with
      | SnCam e => match e in camE X return option X with esp_camera_init => Some ESP_FAIL | _ => None end
      | _ => None
      end
  | BtBle e =>
      match e in bleE X return option X with
      | nimble_port_init => Some ESP_OK
      | ble_svc_init | nimble_port_freertos_init => Some tt
      | ble_gatts_count_cfg _ | ble_gatts_add_svcs _ | ble_svc_gap_device_name_set _ => Some BLE_OK
      | _ => None
      end
  | heap_caps_calloc_ring | sodium_init | xQueueCreate_executor | xTaskCreate_executor => Some true
  | xTaskCreate_button | xQueueCreate_replay | xTaskCreate_drain => Some true
  | esp_sleep_wakeup_ext0 => Some false
  | xTaskCreate_audio => Some tt
  | abort => None
  end.

Definition demo_nvs : list (ev nvsE) :=
  [Ev nvs_flash_init ESP_OK;
   Ev (nvs_open BOOT_NVS_NAMESPACE true) ESP_OK; Ev (nvs_get_u32 BOOT_NVS_NAMESPACE BOOT_NVS_KEY) (ESP_OK, 4);
   Ev (nvs_set_u32 BOOT_NVS_NAMESPACE BOOT_NVS_KEY 5) ESP_OK; Ev (nvs_commit BOOT_NVS_NAMESPACE) ESP_OK;
   Ev (nvs_close BOOT_NVS_NAMESPACE) tt;
   Ev (nvs_open PROV_NVS_NAMESPACE false) ESP_OK;
   Ev (nvs_get_blob PROV_NVS_NAMESPACE PROV_NVS_KEY 32) (ESP_OK, demo_key);
   Ev (nvs_get_u8 PROV_NVS_NAMESPACE PROV_NVS_PROVISIONED) (ESP_OK, 1); Ev (nvs_close PROV_NVS_NAMESPACE) tt].

Lemma demo_boot : exists t d, exec (app_main 0) t d /\ bnvs_of t = demo_nvs.
Proof.
  assert (match run_opt boot_answers (app_main 0) with Some (t, _) => bnvs_of t | None => [] end = demo_nvs)
    as H by (vm_compute; reflexivity).
  destruct (run_opt boot_answers (app_main 0)) as [[t d]|] eqn:E; [|done].
  exists t, d. split; [by eapply run_opt_exec|done].
Qed.

Definition demo_kv : kv := {[srvkey := Blob demo_key; provd := U8 1; bootkey := U32 4]}.
Definition demo_kv' : kv := <[bootkey := U32 5]> demo_kv.

Lemma demo_boot_flash : nvs_trace (Flash demo_kv demo_kv) demo_nvs (Flash demo_kv' demo_kv').
Proof.
  exists (Flash demo_kv demo_kv). split; [done|]. exists (Flash demo_kv demo_kv). split; [done|].
  exists (Flash demo_kv demo_kv). split; [by split|].
  exists (Flash demo_kv' demo_kv). split; [split; by left|].
  exists (Flash demo_kv' demo_kv'). split; [split; [done|by left]|].
  exists (Flash demo_kv' demo_kv'). split; [done|]. exists (Flash demo_kv' demo_kv'). split; [done|].
  exists (Flash demo_kv' demo_kv'). split; [split; [done|by split]|].
  exists (Flash demo_kv' demo_kv'). split; [by split|]. exists (Flash demo_kv' demo_kv'). by split.
Qed.

Lemma boot_installs_the_key_witness :
  exists t d, exec (app_main 0) t d /\ s_pubkey (dev_cmds d) = demo_key /\ dev_boot_id d = 5.
Proof.
  destruct demo_boot as (t & d & H & Ht). exists t, d. split; [exact H|].
  pose proof (boot_installs_the_key 0 (Flash demo_kv demo_kv) t d (Flash demo_kv' demo_kv') H) as Hb.
  rewrite Ht in Hb. destruct (Hb demo_boot_flash) as (_ & _ & Hok).
  destruct Hok as [Hk Hn]; [repeat constructor|]. split.
  - apply (Hk demo_key 1); [reflexivity|reflexivity|reflexivity|lia].
  - apply (Hn 4). reflexivity.
Defined.
