(* ===== verification/SelfTest.v ===== *)
(** * openrecall_selftest: the bench image

    Four component tests in sequence and a live meter, over the production
    drivers audio_capture.c and camera.c.  A result is its status and its
    message: [detail_t] says which of the formats fills [detail] and with what
    values.  [long] is 32 bits wide
    on this target, so the audio sums are kept at that width; their overflow
    is undefined in C, and written here as the wrap-around the processor does. *)

From stdpp Require Import strings.
From S2P Require Import Prelude Effects Platform Config CJson Fs Battery Camera AudioTask.
Open Scope string_scope.
Open Scope list_scope.
Open Scope Z_scope.

(** ** selftest_config.h *)

Definition VBAT_GPIO : Z := 1.
Definition BUTTON_GPIO : Z := 2.
Definition LED_GPIO : Z := 21.
Definition LED_ON : Z := 0.
Definition LED_OFF : Z := 1.
Definition VBAT_MIN_MV : Z := 3000.
Definition VBAT_MAX_MV : Z := 4250.
Definition BUTTON_TIMEOUT_MS : Z := 10000.
Definition BUTTON_DEBOUNCE_MS : Z := 20.
Definition AUDIO_TEST_FRAMES : Z := 150.
Definition AUDIO_RMS_FLOOR : Z := 200.
Definition AUDIO_STEREO_FLOOR : Z := 20.
Definition CAMERA_LUMA_STD_FLOOR : Z := 20.
Definition CAMERA_JPEG_MIN_BYTES : Z := 2000.
Definition CAMERA_JPEG_MAX_BYTES : Z := 200000.
Definition LIVE_METER_FRAMES : Z := 25.

Inductive selftest_status_t : Set := ST_PASS | ST_FAIL | ST_SKIP.

(** The messages of [detail], one per call of snprintf, with its arguments. *)
Inductive detail_t : Type :=
| I2sInit (e : esp_err_t) | ReadErr (e : esp_err_t)
| RmsPass (rms_p rms_r rms_d : double) | RmsFail (rms_p rms_r rms_d : double)
| AdcInit (e : esp_err_t) | AdcCfg (e : esp_err_t) | Cali (e : esp_err_t)
| Vbat (mv : Z) | VbatNotConnected (mv : Z) | VbatOutOfRange (mv : Z)
| ButtonCfg (e : esp_err_t) | PressesDetected (n : Z) | NoPress
| CameraInit (e : esp_err_t) | NoFrame | LumaUniform (std : double)
| JpegInit (e : esp_err_t) | JpegCaptureFail | JpegBad (len : Z) | CameraOk (std : double) (len : Z).

Record selftest_result_t : Type := Result { r_status : selftest_status_t; r_detail : detail_t }.

#[local] Abbreviation pass := (Result ST_PASS).
#[local] Abbreviation fail := (Result ST_FAIL).

(** A frame buffer in RGB565: is the format right, the size, the pixels. *)
Record rgb_fb : Type := RgbFb { fb_rgb565 : bool; fb_width : Z; fb_height : Z; fb_px : list Z }.

Inductive benchE : Type -> Type :=
| BAudio {X} (e : audioE X) : benchE X
| BCam {X} (e : camE X) : benchE X
| BAdc {X} (e : batE X) : benchE X
| gpio_config (pin : Z) (input : bool) : benchE esp_err_t
| gpio_set_level (pin level : Z) : benchE unit
| gpio_get_level (pin : Z) : benchE Z
| vTaskDelay (ms : Z) : benchE unit
| xTaskGetTickCount : benchE Z
| xTaskCreate_blink (n : Z) : benchE bool
| esp_camera_init_rgb565 : benchE esp_err_t
| esp_camera_fb_get_rgb : benchE (option rgb_fb)
| esp_camera_deinit : benchE unit
| free : benchE unit.

#[local] Abbreviation call := (Effects.call (E := benchE)).
#[local] Abbreviation audio := (translate (fun X => @BAudio X)).
#[local] Abbreviation cam := (translate (fun X => @BCam X)).

(** Double arithmetic. *)
Definition dadd : double -> double -> double := SFadd 53 1024.
Definition dsub : double -> double -> double := SFsub 53 1024.
Definition dmul : double -> double -> double := SFmul 53 1024.
Definition ddiv : double -> double -> double := SFdiv 53 1024.
Definition dsqrt : double -> double := SFsqrt 53 1024.

(** ** test_audio.c *)

Record sums : Type := Sums { sq_p : Z; sq_r : Z; sq_d : Z; peak_p : Z; peak_r : Z; cnt : Z }.

Definition peak (m v : Z) : Z := let a := if v <? 0 then - v else v in if m <? a then a else m.

(** One turn of the sample loop. *)
Definition add_sample (a : sums) (p rr : Z) : sums :=
  let d := p - rr in
  Sums (s32 (sq_p a + s32 (p * p))) (s32 (sq_r a + s32 (rr * rr))) (s32 (sq_d a + s32 (d * d)))
    (peak (peak_p a) p) (peak (peak_r a) rr) (s32 (cnt a + 1)).

Definition add_frame (a : sums) (prim ref : list Z) : sums :=
  fold_left (fun a pr => add_sample a (fst pr) (snd pr)) (combine prim ref) a.

(** The frame loop; [inl] is a read error. *)
Fixpoint audio_frames (k : nat) (a : sums) : prog benchE (esp_err_t + sums) :=
  match k with
  | O => Ret (inr a)
  | S k =>
      let* r := audio audio_capture_read_stereo in
      match r with
      | inl err => Ret (inl err)
      | inr (prim, ref) => audio_frames k (add_frame a prim ref)
      end
  end%prog.

(** [sqrt((double)sq / n)]. *)
Definition rms (sq n : Z) : double := dsqrt (ddiv (dbl sq) (dbl n)).

Definition audio_verdict (a : sums) : selftest_result_t :=
  let rms_p := rms (sq_p a) (cnt a) in
  let rms_r := rms (sq_r a) (cnt a) in
  let rms_d := rms (sq_d a) (cnt a) in
  if dlt (dbl AUDIO_RMS_FLOOR) rms_p && dlt (dbl AUDIO_RMS_FLOOR) rms_r &&
     dlt (dbl AUDIO_STEREO_FLOOR) rms_d
  then pass (RmsPass rms_p rms_r rms_d) else fail (RmsFail rms_p rms_r rms_d).

Definition test_audio : prog benchE selftest_result_t :=
  (let* err := audio audio_capture_init in
   if negb (esp_ok err) then Ret (fail (I2sInit err)) else
   call (vTaskDelay 700) ;;;
   let* o := audio_frames (Z.to_nat AUDIO_TEST_FRAMES) (Sums 0 0 0 0 0 0) in
   match o with
   | inl err => Ret (fail (ReadErr err))
   | inr a => Ret (audio_verdict a)
   end)%prog.

(** ** test_battery.c *)

Definition BAT_SAMPLES : Z := 64.

Fixpoint bench_sample (n : nat) : prog benchE (list Z) :=
  match n with
  | O => Ret []
  | S n =>
      let* r := call (BAdc adc_oneshot_read) in
      let v := if esp_ok (fst r) then snd r else 0 in
      call (vTaskDelay 2) ;;;
      let* raw := bench_sample n in
      Ret (v :: raw)
  end%prog.

Definition test_battery : prog benchE selftest_result_t :=
  (let* err := call (BAdc adc_oneshot_new_unit) in
   if negb (esp_ok err) then Ret (fail (AdcInit err)) else
   let* err := call (BAdc adc_oneshot_config_channel) in
   if negb (esp_ok err) then Ret (fail (AdcCfg err)) else
   let* err := call (BAdc adc_cali_create_scheme_curve_fitting) in
   if negb (esp_ok err) then Ret (fail (Cali err)) else
   let* raw := bench_sample (Z.to_nat BAT_SAMPLES) in
   let '(mn, mx, sum) := reduce raw in
   let avg := Z.quot (sum - mn - mx) (BAT_SAMPLES - 2) in
   let* vadc_mv := call (BAdc (adc_cali_raw_to_voltage avg)) in
   let vbat_mv := vbat_of vadc_mv in
   if (VBAT_MIN_MV <=? vbat_mv) && (vbat_mv <=? VBAT_MAX_MV) then Ret (pass (Vbat vbat_mv))
   else if vbat_mv <? 200 then Ret (fail (VbatNotConnected vbat_mv))
   else Ret (fail (VbatOutOfRange vbat_mv)))%prog.

(** ** test_button.c *)

Section Button.
Context (configTICK_RATE_HZ : Z).

Definition pdMS_TO_TICKS (ms : Z) : Z := u32 (ms * configTICK_RATE_HZ / 1000).

(** At most [n] polls of the release loop; the result is whether it ended. *)
Fixpoint wait_release (n : nat) : prog benchE bool :=
  match n with
  | O => Ret false
  | S n =>
      let* level := call (gpio_get_level BUTTON_GPIO) in
      if level =? 0 then call (vTaskDelay 10) ;;; wait_release n else Ret true
  end%prog.

(** At most [n] polls of the press loop, each with at most [n] of the release
    loop; [None] when one did not end, else [pressed]. *)
Fixpoint wait_press (n : nat) (deadline : Z) : prog benchE (option Z) :=
  match n with
  | O => Ret None
  | S n' =>
      let* now := call xTaskGetTickCount in
      if negb (now <? deadline) then Ret (Some 0) else
      let* level := call (gpio_get_level BUTTON_GPIO) in
      if level =? 0 then
        call (vTaskDelay BUTTON_DEBOUNCE_MS) ;;;
        let* level := call (gpio_get_level BUTTON_GPIO) in
        if level =? 0 then
          let* done := wait_release n in
          if done : bool then Ret (Some 1) else Ret None
        else call (vTaskDelay 10) ;;; wait_press n' deadline
      else call (vTaskDelay 10) ;;; wait_press n' deadline
  end%prog.

(** [None]: the test has not returned after [n] polls. *)
Definition test_button (n : nat) : prog benchE (option selftest_result_t) :=
  (let* err := call (gpio_config BUTTON_GPIO true) in
   if negb (esp_ok err) then Ret (Some (fail (ButtonCfg err))) else
   let* now := call xTaskGetTickCount in
   let* pressed := wait_press n (u32 (now + pdMS_TO_TICKS BUTTON_TIMEOUT_MS)) in
   match pressed with
   | None => Ret None
   | Some k =>
       if 0 <? k then Ret (Some (pass (PressesDetected k))) else Ret (Some (fail NoPress))
   end)%prog.
End Button.

(** ** test_camera.c *)

(** The luma of one RGB565 pixel. *)
Definition luma (v : Z) : Z :=
  let rv := Z.land (Z.shiftr v 11) 0x1F in
  let gv := Z.land (Z.shiftr v 5) 0x3F in
  let bv := Z.land v 0x1F in
  let R := Z.quot (rv * 255) 31 in
  let G := Z.quot (gv * 255) 63 in
  let B := Z.quot (bv * 255) 31 in
  Z.quot (R + 2 * G + B) 4.

Definition luma_sums (fb : rgb_fb) : double * double :=
  fold_left (fun '(sum, sumsq) i =>
      let y := dbl (luma (nth i (fb_px fb) 0)) in
      (dadd sum y, dadd sumsq (dmul y y)))
    (seq 0 (Z.to_nat (fb_width fb * fb_height fb))) (dbl 0, dbl 0).

Definition luma_std (fb : rgb_fb) : double :=
  let n := dbl (fb_width fb * fb_height fb) in
  let '(sum, sumsq) := luma_sums fb in
  let mean := ddiv sum n in
  let var := dsub (ddiv sumsq n) (dmul mean mean) in
  if dlt (dbl 0) var then dsqrt var else dbl 0.

Definition fb_return : prog benchE unit := cam (Effects.call esp_camera_fb_return).

(** [inl] is the failure with its message, [inr] the deviation for the report. *)
Definition stage_rgb565 : prog benchE (detail_t + double) :=
  (let* err := call esp_camera_init_rgb565 in
   if negb (esp_ok err) then Ret (inl (CameraInit err)) else
   let* fb1 := call esp_camera_fb_get_rgb in
   match fb1 with
   | None => call esp_camera_deinit ;;; Ret (inl NoFrame)
   | Some fb1 =>
       if negb (fb_rgb565 fb1) then fb_return ;;; call esp_camera_deinit ;;; Ret (inl NoFrame) else
       let std := luma_std fb1 in
       fb_return ;;;
       let* fb2 := call esp_camera_fb_get_rgb in
       (match fb2 with Some _ => fb_return | None => Ret tt end) ;;;
       call esp_camera_deinit ;;;
       if dlt std (dbl CAMERA_LUMA_STD_FLOOR) then Ret (inl (LumaUniform std)) else Ret (inr std)
   end)%prog.

(** The markers of a JPEG of an acceptable size. *)
Definition jpeg_ok (buf : bytes) : bool :=
  let len := Z.of_nat (length buf) in
  (CAMERA_JPEG_MIN_BYTES <=? len) && (len <=? CAMERA_JPEG_MAX_BYTES) &&
  (nth 0 buf 0 =? 0xFF) && (nth 1 buf 0 =? 0xD8) &&
  (nth (length buf - 2) buf 0 =? 0xFF) && (nth (length buf - 1) buf 0 =? 0xD9).

(** [inl] is the failure with its message, [inr] the length for the report. *)
Definition stage_jpeg : prog benchE (detail_t + Z) :=
  (let* err := cam camera_init in
   if negb (esp_ok err) then Ret (inl (JpegInit err)) else
   cam camera_flush_stale ;;;
   let* buf := cam camera_capture_jpeg in
   match buf with
   | None => call esp_camera_deinit ;;; Ret (inl JpegCaptureFail)
   | Some buf =>
       let len := Z.of_nat (length buf) in
       call free ;;; call esp_camera_deinit ;;;
       Ret (if jpeg_ok buf then inr len else inl (JpegBad len))
   end)%prog.

Definition test_camera : prog benchE selftest_result_t :=
  (let* s1 := stage_rgb565 in
   match s1 with
   | inl detail => Ret (fail detail)
   | inr std =>
       call (vTaskDelay 200) ;;;
       let* s2 := stage_jpeg in
       match s2 with
       | inl detail => Ret (fail detail)
       | inr jpglen => Ret (pass (CameraOk std jpglen))
       end
   end)%prog.

(** ** selftest_main.c *)

Section Main.
Context (configTICK_RATE_HZ : Z).

Definition selftest_led_init : prog benchE unit :=
  (let* _ := call (gpio_config LED_GPIO false) in call (gpio_set_level LED_GPIO LED_OFF))%prog.

Definition selftest_led_set_all_pass : prog benchE unit := call (gpio_set_level LED_GPIO LED_ON).

Definition selftest_led_start_fail_blink (n : Z) : prog benchE unit :=
  (let* _ := call (xTaskCreate_blink n) in Ret tt)%prog.

(** The [n] flashes of one cycle of [blink_task]. *)
Fixpoint blink (n : nat) : prog benchE unit :=
  match n with
  | O => call (vTaskDelay 1500)
  | S n =>
      call (gpio_set_level LED_GPIO LED_ON) ;;; call (vTaskDelay 200) ;;;
      call (gpio_set_level LED_GPIO LED_OFF) ;;; call (vTaskDelay 200) ;;; blink n
  end%prog.

(** [run_one]: [None] only from the button test. *)
Definition run_one (name : string) (n : nat) : prog benchE (option selftest_result_t) :=
  (if String.eqb name "audio" then let* s := test_audio in Ret (Some s)
   else if String.eqb name "camera" then let* s := test_camera in Ret (Some s)
   else if String.eqb name "button" then test_button configTICK_RATE_HZ n
   else let* s := test_battery in Ret (Some s))%prog.

Fixpoint run_all (names : list string) (n : nat) : prog benchE (option (list selftest_result_t)) :=
  match names with
  | [] => Ret (Some [])
  | name :: names =>
      let* s := run_one name n in
      match s with
      | None => Ret None
      | Some s => let* res := run_all names n in Ret (cons s <$> res)
      end
  end%prog.

Definition names : list string := ["audio"; "camera"; "button"; "battery"].

Definition fails (res : list selftest_result_t) : Z :=
  Z.of_nat (length (List.filter (fun r => match r_status r with ST_PASS => false | _ => true end) res)).

(** One block of the live meter: the sums of the two channels and the count. *)
Fixpoint meter_block (k : nat) (a : sums) : prog benchE sums :=
  match k with
  | O => Ret a
  | S k =>
      let* level := call (gpio_get_level BUTTON_GPIO) in
      if level =? 0 then Ret a else
      let* r := audio audio_capture_read_stereo in
      match r with
      | inl _ => Ret (Sums 0 0 (sq_d a) (peak_p a) (peak_r a) (cnt a))
      | inr (p, rr) => meter_block k (add_frame a p rr)
      end
  end%prog.

(** At most [n] blocks; the result is whether the button ended the loop. *)
Fixpoint live_meter (n : nat) : prog benchE bool :=
  match n with
  | O => Ret false
  | S n =>
      let* level := call (gpio_get_level BUTTON_GPIO) in
      if level =? 0 then Ret true else
      let* _ := meter_block (Z.to_nat LIVE_METER_FRAMES) (Sums 0 0 0 0 0 0) in
      live_meter n
  end%prog.

Definition bench_main (n : nat) : prog benchE (option (list selftest_result_t)) :=
  (selftest_led_init ;;;
   let* res := run_all names n in
   match res with
   | None => Ret None
   | Some res =>
       (if fails res =? 0 then selftest_led_set_all_pass
        else selftest_led_start_fail_blink (fails res)) ;;;
       let* _ := live_meter n in
       Ret (Some res)
   end)%prog.
End Main.

(** ** The audio sums *)

(** The energy of a channel over the recording: the sum [test_audio] means to
    compute. *)
Definition square_sum (g : Z * Z -> Z) (xs : list (Z * Z)) : Z :=
  foldr (fun x s => g x * g x + s) 0 xs.

Definition diff (x : Z * Z) : Z := fst x - snd x.

(** The sample pairs of a frame, and of the frames a trace read. *)
Definition pairs (pr : list Z * list Z) : list (Z * Z) := combine (fst pr) (snd pr).

Definition heard (e : ev benchE) : list (Z * Z) :=
  match e with
  | Ev e x =>
      match e in benchE X return X -> list (Z * Z) with
      | BAudio e' => fun y =>
          match e' in audioE Y return Y -> list (Z * Z) with
          | i2s_channel_read want => fun r =>
              if esp_ok (fst (fst r)) && (snd r =? want)
              then pairs (deinterleave (Z.to_nat FRAME_SAMPLES) (snd (fst r))) else []
          | _ => fun _ => []
          end y
      | _ => fun _ => []
      end x
  end.

Definition recorded (t : list (ev benchE)) : list (Z * Z) := concat (map heard t).

Lemma square_sum_app g xs ys : square_sum g (xs ++ ys) = square_sum g xs + square_sum g ys.
Proof. induction xs as [|x xs IH]; [done|]. simpl. rewrite IH. lia. Qed.

Lemma square_sum_nonneg g xs : 0 <= square_sum g xs.
Proof. induction xs as [|x xs IH]; simpl; [lia|]. nia. Qed.

Lemma s32_add x y : s32 (s32 x + y) = s32 (x + y).
Proof. unfold s32. Z.div_mod_to_equations. lia. Qed.

Lemma s32_add_r x y : s32 (x + s32 y) = s32 (x + y).
Proof. unfold s32. Z.div_mod_to_equations. lia. Qed.

(** What the accumulators hold: the energies, wrapped to 32 bits. *)
Record sums_of (a : sums) (xs : list (Z * Z)) : Prop := {
  su_p : sq_p a = s32 (square_sum fst xs);
  su_r : sq_r a = s32 (square_sum snd xs);
  su_d : sq_d a = s32 (square_sum diff xs);
  su_n : cnt a = s32 (Z.of_nat (length xs));
}.

Lemma add_sample_sums a xs x : sums_of a xs -> sums_of (add_sample a (fst x) (snd x)) (xs ++ [x]).
Proof.
  intros [Hp Hr Hd Hn]. split; simpl; rewrite ?square_sum_app, ?length_app; simpl.
  - by rewrite Hp, s32_add, s32_add_r, Z.add_0_r.
  - by rewrite Hr, s32_add, s32_add_r, Z.add_0_r.
  - by rewrite Hd, s32_add, s32_add_r, Z.add_0_r.
  - rewrite Hn, s32_add. f_equal. lia.
Qed.

Lemma add_frame_sums a xs prim ref :
  sums_of a xs -> sums_of (add_frame a prim ref) (xs ++ combine prim ref).
Proof.
  unfold add_frame. generalize (combine prim ref). intros ys. revert a xs.
  induction ys as [|y ys IH]; intros a xs Ha; [by rewrite app_nil_r|].
  simpl. replace (xs ++ y :: ys) with ((xs ++ [y]) ++ ys) by by rewrite <-app_assoc.
  by apply IH, add_sample_sums.
Qed.


Lemma pairs_length n stereo : length (pairs (deinterleave n stereo)) = n.
Proof.
  revert stereo. induction n as [|n IH]; intros stereo; [done|].
  specialize (IH (drop 2 stereo)). unfold pairs in *. unfold deinterleave; fold deinterleave.
  destruct (deinterleave n (drop 2 stereo)) as [pri ref]. cbn in *. by f_equal.
Qed.

Lemma recorded_app t1 t2 : recorded (t1 ++ t2) = recorded t1 ++ recorded t2.
Proof. unfold recorded. by rewrite map_app, concat_app. Qed.

(** What a read heard: its two buffers, or nothing when it failed. *)
Lemma read_heard t r :
  exec audio_capture_read_stereo t r ->
  recorded (map (lift_ev (fun X => @BAudio X)) t) =
  match r with inl _ => [] | inr pr => pairs pr end.
Proof.
  unfold audio_capture_read_stereo, recorded. change (FRAME_SAMPLES * 2 * 2) with 1280.
  intros H.
  apply exec_bind in H as (t1 & t2 & [[err stereo] n] & -> & H1 & H). apply exec_one in H1 as ->.
  cbn [map lift_ev app concat]. cbn [heard fst snd].
  destruct (esp_ok err); cbn [negb andb] in *.
  2:{ by destruct H as [-> ->]. }
  destruct (n =? 1280); cbn [negb] in *; destruct H as [-> ->]; [|done].
  cbn [map concat]. by rewrite app_nil_r.
Qed.

Lemma read_length t pr :
  exec audio_capture_read_stereo t (inr pr) -> length (pairs pr) = Z.to_nat FRAME_SAMPLES.
Proof.
  set (len := fun s : esp_err_t + list Z * list Z =>
    match s with inl _ => O | inr q => length (pairs q) end).
  intros H. apply read_cases in H as [(x & e & _ & H)|(stereo & _ & H)];
    [discriminate H|].
  apply (f_equal len) in H. unfold len in H. rewrite H. apply pairs_length.
Qed.

(** The frame loop returns the sums of the frames it read, or has read less
    than the whole recording. *)
Lemma audio_frames_spec k a xs t o :
  exec (audio_frames k a) t o -> sums_of a xs ->
  match o with
  | inl _ => (length (recorded t) < k * 320)%nat
  | inr a' => sums_of a' (xs ++ recorded t)
  end.
Proof.
  revert a xs t. induction k as [|k IH]; intros a xs t; cbn [audio_frames].
  { intros [-> ->] Ha. unfold recorded. simpl. by rewrite app_nil_r. }
  intros H Ha. apply exec_bind in H as (t1 & t2 & r & -> & Hr & H).
  apply exec_translate in Hr as (u & -> & Hr). rewrite recorded_app.
  destruct r as [e|[prim ref]].
  { destruct H as [-> ->]. rewrite app_nil_r, (read_heard _ _ Hr). simpl. lia. }
  rewrite (read_heard _ _ Hr). specialize (IH _ _ _ H (add_frame_sums a xs prim ref Ha)).
  destruct o as [e|a']; [|by rewrite app_assoc]. rewrite length_app.
  rewrite (read_length _ _ Hr). change (Z.to_nat FRAME_SAMPLES) with 320%nat. lia.
Qed.

(** Configuring the microphones is not heard. *)
Lemma init_silent u r :
  exec audio_capture_init u r -> recorded (map (lift_ev (fun X => @BAudio X)) u) = [].
Proof.
  unfold audio_capture_init. intros H.
  apply exec_bind in H as (t1 & t2 & e & -> & H1 & H). apply exec_one in H1 as ->.
  destruct (esp_ok e); [|by destruct H as [-> ->]]. cbn [negb] in H.
  apply exec_bind in H as (t3 & t4 & e' & -> & H1 & H). apply exec_one in H1 as ->.
  destruct (esp_ok e'); [|by destruct H as [-> ->]]. cbn [negb] in H.
  apply exec_bind in H as (t5 & t6 & e'' & -> & H1 & H). apply exec_one in H1 as ->.
  destruct (esp_ok e''); by destruct H as [-> ->].
Qed.

(** The whole test on a complete recording. *)
Lemma test_audio_spec t st :
  exec test_audio t st -> Z.of_nat (length (recorded t)) = 48000 ->
  exists a, sums_of a (recorded t) /\ st = audio_verdict a.
Proof.
  intros H Hn. unfold test_audio in H.
  apply exec_bind in H as (t1 & t2 & err & -> & Hi & H).
  apply exec_translate in Hi as (u & -> & Hi).
  rewrite recorded_app, (init_silent _ _ Hi) in *. cbn [app] in *.
  destruct (negb (esp_ok err)); [destruct H as [-> _]; by vm_compute in Hn|].
  apply exec_bind in H as (t3 & t4 & [] & -> & Hd & H). apply exec_one in Hd as ->.
  apply exec_bind in H as (t5 & t6 & o & -> & Hf & H).
  assert (t6 = []) as ->. { by destruct o; destruct H. }
  rewrite app_nil_r in *. change (recorded ([Ev (vTaskDelay 700) tt] ++ t5)) with (recorded t5) in *.
  apply (audio_frames_spec _ _ []) in Hf; [|by split].
  destruct o as [e|a].
  - change (Z.to_nat AUDIO_TEST_FRAMES) with 150%nat in Hf. lia.
  - exists a. split; [exact Hf|]. by destruct H.
Qed.

(** ** The sign of a double *)

(** Negative, a zero or not a number. *)
Definition not_above (d : double) : bool :=
  match d with
  | S754_finite s _ _ | S754_infinity s => s
  | _ => true
  end.

Lemma round_aux_negative m e l : not_above (binary_round_aux 53 1024 true m e l) = true.
Proof.
  unfold binary_round_aux. destruct (shr_fexp _ _ m e l) as [r e'].
  destruct (shr_fexp _ _ _ e' loc_Exact) as [r' e'']. destruct (shr_m r'); [done| |done].
  by destruct (Z.leb e'' (1024 - 53)).
Qed.

Lemma dbl_negative z : z < 0 -> not_above (dbl z) = true.
Proof.
  intros Hz. destruct z as [|p|p]; [lia|lia|]. unfold dbl, binary_normalize, binary_round.
  destruct (shl_align _ _ _) as [m e]. apply round_aux_negative.
Qed.

Lemma ddiv_negative d m e : not_above d = true -> not_above (ddiv d (S754_finite false m e)) = true.
Proof.
  intros Hd. destruct d as [s|s| |s m' e']; simpl in *; subst; [done..|].
  unfold ddiv, SFdiv. destruct (SFdiv_core_binary _ _ _ _ _ _) as [[? ?] ?].
  apply round_aux_negative.
Qed.

Lemma dsqrt_negative d m e :
  not_above d = true -> dlt (S754_finite false m e) (dsqrt d) = false.
Proof. by destruct d as [[]|[]| |[]]. Qed.

(** The root of a negative mean is above neither floor. *)
Lemma rms_negative floor sq :
  In floor [AUDIO_RMS_FLOOR; AUDIO_STEREO_FLOOR] -> sq < 0 -> dlt (dbl floor) (rms sq 48000) = false.
Proof.
  intros Hf Hz. unfold rms.
  assert (exists m e, dbl floor = S754_finite false m e) as (m & e & ->).
  { destruct Hf as [<-|[<-|[]]]; eexists _, _; vm_compute; reflexivity. }
  assert (exists m e, dbl 48000 = S754_finite false m e) as (m' & e' & ->).
  { eexists _, _. vm_compute. reflexivity. }
  by apply dsqrt_negative, ddiv_negative, dbl_negative.
Qed.

Lemma s32_wrapped z : 2 ^ 31 <= z < 2 ^ 32 -> s32 z < 0.
Proof. unfold s32. Z.div_mod_to_equations. lia. Qed.

(** The result the test means to give. *)
Definition meant (xs : list (Z * Z)) : selftest_result_t :=
  let n := Z.of_nat (length xs) in
  let rms_p := rms (square_sum fst xs) n in
  let rms_r := rms (square_sum snd xs) n in
  let rms_d := rms (square_sum diff xs) n in
  if dlt (dbl AUDIO_RMS_FLOOR) rms_p && dlt (dbl AUDIO_RMS_FLOOR) rms_r &&
     dlt (dbl AUDIO_STEREO_FLOOR) rms_d
  then pass (RmsPass rms_p rms_r rms_d) else fail (RmsFail rms_p rms_r rms_d).

(** C36.  The three-second audio test, whenever the 150 reads succeed (48000
    sample pairs): while the energy of both microphones and of their
    difference stays below 2^31 (a root mean square under 211.5) the result
    is the intended comparison of the three root mean squares with their
    floors, and reports them; but if one of the three energies lies in [2^31, 2^32), a root mean
    square from 211.5 to 299, its 32-bit accumulator is negative, the square
    root is not a number, and the test fails however good the microphones are. *)
Theorem audio_test_overflow t res :
  exec test_audio t res -> Z.of_nat (length (recorded t)) = 48000 ->
  ((forall g, In g [fst; snd; diff] -> square_sum g (recorded t) < 2 ^ 31) -> res = meant (recorded t)) /\
  ((exists g, In g [fst; snd; diff] /\ 2 ^ 31 <= square_sum g (recorded t) < 2 ^ 32) ->
   r_status res = ST_FAIL).
Proof.
  intros H Hn. destruct (test_audio_spec t res H Hn) as (a & [Hp Hr Hd Hc] & ->).
  rewrite Hn in Hc. change (s32 48000) with 48000 in Hc. unfold audio_verdict, meant.
  rewrite Hc, Hn, Hp, Hr, Hd. split.
  - intros Hs. rewrite !s32_small; [done|..];
      (split; [pose proof (fun g => square_sum_nonneg g (recorded t)) as Hg; etrans; [|apply Hg]; lia|]);
      apply Z.lt_succ_r, Hs; simpl; auto.
  - intros (g & [<-|[<-|[<-|[]]]] & Hg); apply s32_wrapped in Hg.
    + by rewrite (rms_negative AUDIO_RMS_FLOOR _ (or_introl eq_refl) Hg).
    + by rewrite (rms_negative AUDIO_RMS_FLOOR _ (or_introl eq_refl) Hg), andb_false_r.
    + by rewrite (rms_negative AUDIO_STEREO_FLOOR _ (or_intror (or_introl eq_refl)) Hg), andb_false_r.
Qed.

(** A microphone pair at a steady amplitude of 250, in opposite phase. *)
Definition steady (X : Type) (e : benchE X) : option X :=
  match e in benchE X return option X with
  | BAudio e' =>
      match e' in audioE Y return option Y with
      | i2s_channel_read want => Some (ESP_OK, concat (repeat [250; -250] 320), want)
      | i2s_new_channel _ _ | i2s_channel_init_std_mode _ | i2s_channel_enable => Some ESP_OK
      | _ => None
      end
  | vTaskDelay _ => Some tt
  | _ => None
  end.

Definition complete (t : list (ev benchE)) : bool :=
  (Z.of_nat (length (recorded t)) =? 48000) && (square_sum fst (recorded t) =? 3000000000).

Definition steady_ok (r : option (list (ev benchE) * selftest_result_t)) : bool :=
  match r with Some (t, _) => complete t | None => false end.

Lemma steady_complete : steady_ok (run_opt steady test_audio) = true.
Proof. vm_compute. reflexivity. Qed.

Lemma steady_runs : exists t st, exec test_audio t st /\ complete t = true.
Proof.
  pose proof steady_complete as Hok.
  destruct (run_opt steady test_audio) as [[t st]|] eqn:E; [|done].
  exists t, st. split; [exact (run_opt_exec _ _ _ _ E)|exact Hok].
Qed.

Lemma audio_test_overflow_witness :
  exists t res, exec test_audio t res /\ square_sum fst (recorded t) = 3000000000 /\
    r_status res = ST_FAIL.
Proof.
  destruct steady_runs as (t & res & E & Hok).
  apply andb_true_iff in Hok as [Hn He]. apply Z.eqb_eq in Hn, He.
  destruct (audio_test_overflow t res E Hn) as [_ Hf].
  exists t, res. split_and!; [exact E|exact He|].
  apply Hf. exists fst. split; [by left|]. rewrite He. lia.
Defined.
